(* ===== verification/_CoqProject ===== *)
-Q . S2P
Prelude.v
RustStr.v
RustBytes.v
RustPath.v
Json.v
Ipc.v
Principal.v
Policy.v
Grants.v
Session.v
SessionRun.v
SessionSeat.v
SessionSeq.v
SessionRing.v
TransitionJournal.v
Recovery.v
SessionFence.v
OpJournal.v
OpJournalRun.v
Gate.v
GateRun.v
Transfer.v
TransferFlow.v
TransferRun.v
TransferLive.v
TransferDisk.v
TransferStore.v
TransferParts.v
TransferSource.v
TransferFrame.v
TransferPlain.v
Items.v
TransferFence.v
TransferResume.v
TransferPublish.v
TransferCleanup.v
TransferCrypto.v
Js.v
Base64.v
AgentBase64.v
TransferRoom.v
TransferRelay.v
TransferAdmit.v
TransferPump.v
TransferWire.v
TransferIntegrity.v
BrokerLedger.v
BrokerWire.v
BrokerServe.v
BrokerRun.v
BrokerAuth.v
BrokerFence.v
BrokerReopen.v
BrokerLive.v
BrokerSample.v
SupervisorSpool.v
SupervisorState.v
SupervisorRun.v
SupervisorFence.v
SupervisorSample.v
SupervisorRecovery.v
AgentProtocol.v
AgentBinding.v
AgentLink.v
AgentRun.v
AgentFence.v
JsonText.v
AgentSample.v
