(* ===== verification/Prelude.v ===== *)
(** * OwnMesh: a verification development

    OwnMesh lets remote clients operate a user's machines through a local daemon
    ([src/crates/ownmeshd]) and a control plane in the cloud
    ([src/packages/control-plane]).  A request passes the admission gate of the daemon,
    which asks the policy and the stored grants, reserves an idempotency key in the
    operation journal, runs the operation and records its outcome.  Interactive sessions
    have one controller and many observers; a change of controller that involves the
    session sidecar is written to a transition journal first and recovered at start.
    Files move between machines by transfers: a plan fixes source, destination, size and
    digest; the two daemons meet in a relay of the control plane with single-use tickets;
    the source sends sealed chunks, the destination journals them in a private directory
    and publishes the verified file.  Remote requests reach the daemon over the agent's
    connection, which must not lose or repeat them when it breaks.  Interactive processes
    live in a supervisor sidecar ([src/crates/ownmesh-session-host]); elevated commands are handed to a privileged
    broker ([src/crates/ownmesh-broker]).

    The definitions are translated from the sources under [src/].  Pure code becomes
    functions; an operation on state takes the state and returns it, also when it fails;
    fallible code returns [result], with [let? x := e in k] for Rust's [?]; machine
    integers are [Z] with their bounds and wrap-around written out; strings and byte
    vectors are strings of bytes.  Clocks, random identifiers and the outcome of each
    write are arguments, so a theorem about a run holds for all of them.

    ** Files

    Prelude, [RustStr], [RustBytes], [RustPath], [Json], [Js], [Base64], [AgentBase64],
    [Items]: the error monad, record update, tactics and list lemmas; what the sources use
    of Rust's strings, byte slices and paths, of [serde_json::Value], of JavaScript values
    and of Base64 (the platform's and the daemon's own); texts from which the codecs of
    the witnesses are built.

    Policy ([src/crates/ownmesh-policy/src/lib.rs]): [Policy] has rules, path matching,
    evaluation, combination and the presets, [Grants] temporary and bounded grants.
    Evaluation is characterized and monotone; grants lift an ask and nothing else; a
    grant covers only what was approved.

    Gate ([src/crates/ownmeshd/src/runtime.rs], with the errors of [Ipc] and the keys of
    [Principal] from [src/crates/ownmesh-ipc/src]): [OpJournal] is the operation journal
    with its two files, [Gate] is [admit_gated] and the completion of operations.
    [OpJournalRun] and [GateRun] are about all interleavings of admissions, completions,
    restarts and file errors: only what the policy allows runs, at most once per key, a
    counted grant pays for each run, a recorded outcome replays, memory and file agree.

    Sessions ([src/crates/ownmesh-session/src]): [Session] is the manager, [SessionRun]
    its commands as data.  [SessionSeat] refines it, command by command, to an abstract
    controller seat, from which fencing follows; [SessionSeq] shows that controller input
    is ordered at most once and without gaps; [SessionRing] that the replay ring is the
    longest suffix of the output within its budgets and that paging reads all of it, up
    to a chunk that is larger than the page asked for.

    Transitions: [TransitionJournal]
    ([src/crates/ownmesh-transition-journal/src/lib.rs]) with its file, and [Recovery]
    (the recovery part of [runtime.rs]), a client of the journal and of the sessions.
    Reconciliation itself takes whatever seat it is given: it is recovery that compares
    first, and [SessionFence] shows for whole lives of a session, restarts and recoveries
    included, that a lease that was lost never controls again.

    Transfers on the machines ([src/crates/ownmesh-transfer/src/lib.rs]): [Transfer] has
    plans and frames, [TransferFlow] the sender, the receiver and the part file, which
    meet in the interface [ChunkSink]; [TransferDisk], [TransferStore], [TransferParts]
    and [TransferSource] the private directory with leases, fenced journals, part
    generations, publication, snapshots and cleanup, as programs whose every file
    operation may fail before or after its effect.  [TransferFrame] reasons about such
    programs, [TransferPlain] is a codec to run them.  [TransferRun], [TransferLive],
    [TransferFence], [TransferResume], [TransferPublish] and [TransferCleanup] prove that
    the receiver's state describes the bytes it has, that a transfer completes and
    completes after a crash, that superseded processes cannot write, that only verified
    content is published, and that cleanup converges or, over a snapshot that does not
    match, is refused without loss.  The fencing is that of processes that claim or load
    under the lease they save with; [TransferFence] also has a run of the cancel handler's
    order, which writes an older journal back.

    Transfers between the machines: [TransferCrypto]
    ([src/crates/ownmeshd/src/transfer_crypto.rs]) has tickets, the signed bytes (also as
    the worker computes them) and the sealing of chunks; [TransferRoom]
    ([src/packages/control-plane/src/transfer-room.ts]) the relay with its memory,
    sockets and storage.  [TransferRelay] shows that peers are only told what is
    durable, [TransferAdmit] that a ticket admits once, and a run in which a failed write
    defeats this.  [TransferPump] has the two loops of the agent
    ([src/crates/ownmeshd/src/agent_transport.rs]) that move a file through the relay and
    [TransferWire] the texts they exchange; [TransferIntegrity] composes them: whatever
    the relay does, the destination gets a prefix of what the source sealed.

    Broker ([src/crates/ownmesh-broker/src], [src/crates/ownmesh-broker-client/src]):
    [BrokerLedger] is the replay ledger with its file, [BrokerWire] the requests and their
    canonical bytes, [BrokerServe] the authorization of the peer, the staging of the
    executable and the handler, whose connections interleave where it takes a lock or
    waits.  [BrokerRun] shows that a request is executed at most once, through crashes and
    losses of power, [BrokerAuth] that what is executed was requested by the trusted
    daemon, [BrokerFence] that a signal, of a cancellation or of a closed connection,
    reaches the one execution it is meant for, [BrokerReopen] that the ledger opens what it
    wrote, [BrokerLive] that an authentic request is served.  [BrokerSample] runs it, also
    into a replay.

    Supervisor ([src/crates/ownmesh-session-host/src]): [SupervisorSpool] is the output of
    a process from the ring to the pages, [SupervisorState] the host map, the files of a
    session and the operations, [SupervisorRun] a simulation of every run by the moves of
    an abstract supervisor.  Processes may outlive the kill of their host: the state tells
    hosts that are held from sessions with processes nobody holds.  [SupervisorFence] shows
    that superseded bindings reach nothing, that a host keeps its identity and lifetime,
    that a session reported as not live has no host, and that transitions and terminations
    can be retried; [SupervisorRecovery] composes the liveness probe with [Recovery], and
    has a run in which a failed kill defeats it.  [SupervisorSample] runs the supervisor.

    Agent ([src/crates/ownmeshd/src/agent_transport.rs], with the envelopes of
    [src/crates/ownmesh-protocol/src] and the identifiers of [src/crates/ownmesh-domain]):
    [AgentProtocol] has envelopes and operation payloads, [AgentBinding] the exact-action
    binding, whose digest fixes the action up to a digest of content that the request
    itself supplies, [AgentLink] the connection: handshake, live
    loop, dispatch outbox, reply cache, cancellation, reconciliation, tasks and the file of
    its state, with reconnections, restarts and failing writes as events.  [AgentRun] is
    the invariant of all runs; [AgentFence] shows that sequence numbers are not reused,
    that a started operation stays marked and is never denied unless the outbox overflows
    or a busy reply removes its mark, which the statements name, and two states the
    connection cannot leave.  [JsonText] and [AgentSample] run it.

    ** Interfaces

    Code outside [src/] is a class with the laws the sources rely on: [Digests] (SHA-256,
    hexadecimal, UUIDs), [Ciphers] (X25519, HKDF, AEAD, Ed25519), the JSON codecs of the
    journals and of transfer records, [DestinationWorkspace] (the two publishing
    operations), [WorkerHost] (JSON, HMAC), [Serde] and [Wire] (the texts of two JSON
    libraries), [LedgerCodec], [BrokerKeys] (HMAC, Ed25519), [ManifestCodec],
    [AgentText] (compact JSON and dates), [StateCodec].  The pumps
    see the daemon as the interface [TransferPump.Runtime].  Each has an instance, and theorems with
    hypotheses have a witness that runs them on it.  No law says that a hash is
    injective; where a theorem needs it, it concludes that the very texts it is about
    collide instead.

    ** Fuel

    Loops that are not structural run on fuel that is computed from their input and
    shown to be enough where it matters: the length of the key for
    [canonicalize_principal_key], the number of chunks for paging, the size of the plan
    for the transfer loops, the length of the buffer for the readers of files.

    ** Not modelled

    Execution itself (processes, pseudo-terminals, file operations in workspaces: for the
    broker and the supervisor they are answers of the operating system), transports (sockets, TLS, HTTP, OAuth and MCP surfaces, SQL storage),
    user interfaces, configuration, updates and packaging: they are calls into operating
    systems and platforms, with little state of their own that a model would add to.
    Within the modelled parts: Unix paths only; permissions and ACLs of owner-only files
    are not represented, only what the primitives do to a directory; threads are
    interleavings of what the locks make atomic; of the broker protocol 2 on Linux, without
    key custody; of the supervisor not its local channel; of the agent not what a task
    computes (a task is the reply it ends with) nor deadlines and delays; the approval
    layers of the completion chain and the read-only listing of the journal are left
    out; of error texts only the constant part is kept. *)

From stdpp Require Import base list strings gmap fin_maps sorting.
From Stdlib Require Import ZArith Lia.

Open Scope Z_scope.

(** ** Results

    Rust's [Result<T, E>]; [?] is the bind of this error monad. *)

Inductive result (T E : Type) : Type :=
| Ok (t : T)
| Err (e : E).

Arguments Ok {T E} _.
Arguments Err {T E} _.

Definition rbind {T U E} (r : result T E) (k : T -> result U E) : result U E :=
  match r with
  | Ok t => k t
  | Err e => Err e
  end.

(** [Option::ok_or]. *)
Definition ok_or {T E} (o : option T) (e : E) : result T E :=
  match o with
  | Some t => Ok t
  | None => Err e
  end.

Definition is_ok {T E} (r : result T E) : bool :=
  match r with Ok _ => true | Err _ => false end.

(** [Result::map_err]. *)
Definition map_err {T E F} (f : E -> F) (r : result T E) : result T F :=
  match r with Ok t => Ok t | Err e => Err (f e) end.

(** [if cond { return Err(e) }]. *)
Definition guard_err {E} (cond : bool) (e : E) : result unit E :=
  if cond then Err e else Ok tt.

Declare Scope rust_scope.
Delimit Scope rust_scope with rust.

Notation "'let?' x ':=' e 'in' k" := (rbind e (fun x => k))
  (at level 10, x pattern, e at level 100, k at level 200,
   format "'let?'  x  ':='  e  'in' '//' k") : rust_scope.
Notation "e ';?' k" := (rbind e (fun _ => k))
  (at level 199, right associativity, format "e  ';?' '//' k") : rust_scope.

Open Scope rust_scope.

(** ** Machine integers *)

Definition u16_max : Z := 65535.
Definition u32_max : Z := 4294967295.
Definition u64_max : Z := 18446744073709551615.
Definition i64_max : Z := 9223372036854775807.
Definition i64_min : Z := -9223372036854775808.

(** Release-profile wrap-around of [u64] and [i64] arithmetic. *)
Definition wrap_u64 (z : Z) : Z := z mod 18446744073709551616.
Definition wrap_i64 (z : Z) : Z :=
  (z + 9223372036854775808) mod 18446744073709551616 - 9223372036854775808.

Definition u64_checked_add (a b : Z) : option Z :=
  if a + b <=? u64_max then Some (a + b) else None.
Definition u64_checked_sub (a b : Z) : option Z :=
  if b <=? a then Some (a - b) else None.
Definition i64_checked_add (a b : Z) : option Z :=
  if (i64_min <=? a + b) && (a + b <=? i64_max) then Some (a + b) else None.
Definition u64_saturating_add (a b : Z) : Z := Z.min (a + b) u64_max.
Definition u64_saturating_sub (a b : Z) : Z := Z.max (a - b) 0.
Definition i64_saturating_add (a b : Z) : Z := Z.max i64_min (Z.min (a + b) i64_max).
Definition i64_saturating_sub (a b : Z) : Z := Z.max i64_min (Z.min (a - b) i64_max).

(** [Ord::clamp] (the callers have [lo <= hi]). *)
Definition clamp (x lo hi : Z) : Z := Z.max lo (Z.min x hi).

(** [Option::filter]. *)
Definition opt_filter {A} (p : A -> bool) (o : option A) : option A :=
  match o with Some x => if p x then Some x else None | None => None end.

(** [Vec::len] as a machine integer. *)
Definition zlen {A} (l : list A) : Z := Z.of_nat (length l).

(** [slice::sort_by], which is stable: an element stays in front of the later
    elements it compares equal to. *)
Fixpoint insert_by {A} (cmp : A -> A -> comparison) (x : A) (l : list A) : list A :=
  match l with
  | [] => [x]
  | y :: t => match cmp x y with
              | Gt => y :: insert_by cmp x t
              | _ => x :: l
              end
  end.

Definition sort_by {A} (cmp : A -> A -> comparison) (l : list A) : list A :=
  foldr (insert_by cmp) [] l.

(** [Ordering::then_with]. *)
Definition then_with (c d : comparison) : comparison :=
  match c with Eq => d | _ => c end.

(** ** Field assignment

    [r <| field := v |>] is Rust's [r.field = v]: [Eta] rebuilds a record from its
    fields, and the setter of a field is read off that term. *)

Class Eta (R : Type) : Type := rebuild : R -> R.
Class Setter {R E : Type} (field : R -> E) : Type := update : (E -> E) -> R -> R.
Arguments update {R E} field {_} f r : simpl nomatch.

Ltac derive_setter R field :=
  let inst := constr:(_ : Eta R) in
  let body := eval hnf in inst in
  lazymatch eval pattern field in body with
  | ?u _ => let s := eval cbv beta in (fun f => u (fun r => f (field r))) in exact s
  end.

#[export] Hint Extern 1 (@Setter ?R _ ?field) => derive_setter R field : typeclass_instances.

#[warnings="-postfix-notation-not-level-1"]
Notation "r <| f := v |>" := (update f (fun _ => v) r)
  (at level 12, f at next level, v at level 200, left associativity,
   format "r  <|  f  :=  v  |>") : rust_scope.

(** ** Automation *)

Create HintDb ownmesh.
Create Rewrite HintDb ownmesh.

(** Step through one [let?], [guard_err], [if] or [match] of a hypothesis that
    says a computation returned. *)
Ltac res_step :=
  match goal with
  | H : Ok _ = Ok _ |- _ => injection H as H; subst
  | H : Err _ = Err _ |- _ => injection H as H; subst
  | H : Ok _ = Err _ |- _ => discriminate H
  | H : Err _ = Ok _ |- _ => discriminate H
  | H : Some _ = Some _ |- _ => injection H as H; subst
  | H : Some _ = None |- _ => discriminate H
  | H : None = Some _ |- _ => discriminate H
  | H : rbind ?r _ = _ |- _ =>
      let E := fresh "E" in destruct r eqn:E; cbn [rbind] in H
  | H : ok_or ?o _ = Ok _ |- _ =>
      let E := fresh "E" in destruct o eqn:E; cbn [ok_or] in H
  | H : guard_err ?b _ = Ok _ |- _ =>
      let E := fresh "E" in destruct b eqn:E; cbn [guard_err] in H
  | H : (if ?b then _ else _) = Ok _ |- _ =>
      let E := fresh "E" in destruct b eqn:E
  | H : match ?o with _ => _ end = Ok _ |- _ =>
      let E := fresh "E" in destruct o eqn:E
  end.

Ltac res_inv := repeat (res_step; try discriminate).

(** Turn boolean tests of the code into the propositions they decide. *)
Ltac bool_prop :=
  repeat match goal with
  | H : (_ && _) = true |- _ => apply andb_prop in H; destruct H
  | H : (_ || _) = false |- _ => apply orb_false_elim in H; destruct H
  | H : negb _ = true |- _ => apply negb_true_iff in H
  | H : negb _ = false |- _ => apply negb_false_iff in H
  | H : (_ =? _) = true |- _ => apply Z.eqb_eq in H
  | H : (_ =? _) = false |- _ => apply Z.eqb_neq in H
  | H : (_ <=? _) = true |- _ => apply Z.leb_le in H
  | H : (_ <=? _) = false |- _ => apply Z.leb_gt in H
  | H : (_ <? _) = true |- _ => apply Z.ltb_lt in H
  | H : (_ <? _) = false |- _ => apply Z.ltb_ge in H
  | H : bool_decide _ = true |- _ => apply bool_decide_eq_true in H
  | H : bool_decide _ = false |- _ => apply bool_decide_eq_false in H
  end.

Ltac zify_bounds :=
  unfold u16_max, u32_max, u64_max, i64_max, i64_min in *.

(** ** Generic lemmas *)

Section result_lemmas.
Context {T U E : Type}.

Lemma rbind_ok_inv (r : result T E) (k : T -> result U E) u :
  rbind r k = Ok u -> exists t, r = Ok t /\ k t = Ok u.
Proof. destruct r; cbn; [eauto | discriminate]. Qed.

Lemma rbind_assoc {V} (r : result T E) (k : T -> result U E) (h : U -> result V E) :
  rbind (rbind r k) h = rbind r (fun t => rbind (k t) h).
Proof. by destruct r. Qed.

Lemma ok_or_ok (o : option T) (e : E) t : ok_or o e = Ok t <-> o = Some t.
Proof. destruct o; cbn; split; intros; congruence. Qed.

Lemma is_ok_true (r : result T E) : is_ok r = true <-> exists t, r = Ok t.
Proof. destruct r; cbn; split; [eauto | done | done | by intros [? ?]]. Qed.
End result_lemmas.

Lemma opt_filter_Some {A} (f : A -> bool) o x :
  opt_filter f o = Some x <-> o = Some x /\ f x = true.
Proof.
  destruct o as [y|]; cbn; [destruct (f y) eqn:E |]; split; intros; simplify_eq; intuition congruence.
Qed.

Section integer_lemmas.

Lemma wrap_u64_small z : 0 <= z <= u64_max -> wrap_u64 z = z.
Proof. unfold wrap_u64, u64_max. intros. apply Z.mod_small. lia. Qed.

Lemma wrap_i64_small z : i64_min <= z <= i64_max -> wrap_i64 z = z.
Proof. unfold wrap_i64, i64_max, i64_min. intros. rewrite Z.mod_small; lia. Qed.

Lemma wrap_u64_range z : 0 <= wrap_u64 z <= u64_max.
Proof. unfold wrap_u64, u64_max. pose proof (Z.mod_pos_bound z 18446744073709551616). lia. Qed.

Lemma wrap_i64_range z : i64_min <= wrap_i64 z <= i64_max.
Proof.
  unfold wrap_i64, i64_max, i64_min.
  pose proof (Z.mod_pos_bound (z + 9223372036854775808) 18446744073709551616). lia.
Qed.

Lemma u64_checked_add_Some a b c :
  u64_checked_add a b = Some c <-> c = a + b /\ a + b <= u64_max.
Proof.
  unfold u64_checked_add. destruct (Z.leb_spec (a + b) u64_max); split; intros;
    repeat res_step; intuition lia || (f_equal; lia).
Qed.

Lemma u64_checked_sub_Some a b c :
  u64_checked_sub a b = Some c <-> c = a - b /\ b <= a.
Proof.
  unfold u64_checked_sub. destruct (Z.leb_spec b a); split; intros;
    repeat res_step; intuition lia || (f_equal; lia).
Qed.

Lemma clamp_range x lo hi : lo <= hi -> lo <= clamp x lo hi <= hi.
Proof. unfold clamp. lia. Qed.

Lemma zlen_nonneg {A} (l : list A) : 0 <= zlen l.
Proof. unfold zlen. lia. Qed.

Lemma zlen_app {A} (l k : list A) : zlen (l ++ k) = zlen l + zlen k.
Proof. unfold zlen. rewrite length_app. lia. Qed.

Lemma zlen_cons {A} (x : A) l : zlen (x :: l) = 1 + zlen l.
Proof. unfold zlen. cbn [length]. lia. Qed.

Lemma zlen_nil {A} : zlen (@nil A) = 0.
Proof. done. Qed.
End integer_lemmas.

#[export] Hint Rewrite @zlen_app @zlen_cons @zlen_nil : ownmesh.
#[export] Hint Resolve wrap_u64_range wrap_i64_range zlen_nonneg : ownmesh.

(** ** Stable sorting *)

Section sort_by_lemmas.
Context {A : Type} (cmp : A -> A -> comparison).

Lemma insert_by_perm x l : insert_by cmp x l ≡ₚ x :: l.
Proof.
  induction l as [|y t IH]; cbn; [done |].
  destruct (cmp x y); try done. rewrite IH. apply Permutation_swap.
Qed.

Lemma sort_by_perm l : sort_by cmp l ≡ₚ l.
Proof. induction l as [|x l IH]; cbn; [done |]. by rewrite insert_by_perm, IH. Qed.

Lemma sort_by_nil_inv l : sort_by cmp l = [] -> l = [].
Proof. intros H. apply Permutation_nil. by rewrite <- H, sort_by_perm. Qed.

(** [cmp] is a total preorder. *)
Hypothesis cmp_trans : forall x y z, cmp x y <> Gt -> cmp y z <> Gt -> cmp x z <> Gt.
Hypothesis cmp_total : forall x y, cmp x y = Gt -> cmp y x <> Gt.

(** The head of a stable sort is the earliest of the least elements: what comes
    before it is strictly greater, what comes after it is not less. *)
Lemma sort_by_head l top rest :
  sort_by cmp l = top :: rest ->
  exists pre post, l = pre ++ top :: post /\
    Forall (fun x => cmp x top = Gt) pre /\ Forall (fun x => cmp top x <> Gt) post.
Proof.
  revert top rest. induction l as [|x l IH]; intros top rest H; [done |].
  change (sort_by cmp (x :: l)) with (insert_by cmp x (sort_by cmp l)) in H.
  destruct (sort_by cmp l) as [|y t] eqn:E.
  - cbn in H. injection H as <- <-. apply sort_by_nil_inv in E as ->.
    exists [], []. eauto.
  - destruct (IH y t eq_refl) as (pre & post & -> & Hpre & Hpost).
    cbn in H. destruct (cmp x y) eqn:C; injection H as <- <-.
    3: { exists (x :: pre), post. eauto. }
    all: exists [], (pre ++ y :: post); split_and!; try done;
      assert (Hxy : cmp x y <> Gt) by congruence;
      apply Forall_app; split;
      [ eapply Forall_impl; [exact Hpre |]; cbn; eauto
      | constructor; [done | eapply Forall_impl; [exact Hpost |]; cbn; eauto] ].
Qed.

Lemma insert_by_sorted x l :
  StronglySorted (fun a b => cmp a b <> Gt) l ->
  StronglySorted (fun a b => cmp a b <> Gt) (insert_by cmp x l).
Proof.
  induction 1 as [|y l Hl IH Hy]; cbn; [repeat constructor |].
  assert (Hxl : cmp x y <> Gt -> StronglySorted (fun a b => cmp a b <> Gt) (x :: y :: l)).
  { intros Hxy. constructor; [by constructor |]. constructor; [done |].
    eapply Forall_impl; [exact Hy |]. cbn. eauto. }
  destruct (cmp x y) eqn:C; try (apply Hxl; congruence).
  constructor; [done |]. rewrite insert_by_perm. constructor; [auto | done].
Qed.

Lemma sort_by_sorted l : StronglySorted (fun a b => cmp a b <> Gt) (sort_by cmp l).
Proof. induction l; cbn; [constructor | by apply insert_by_sorted]. Qed.
End sort_by_lemmas.

Lemma StronglySorted_app_lr {A} (R : A -> A -> Prop) l k x y :
  StronglySorted R (l ++ k) -> x ∈ l -> y ∈ k -> R x y.
Proof.
  induction l as [|z l IH]; cbn; [by intros _ ?%elem_of_nil |].
  intros [Hs Hf]%StronglySorted_inv [-> | Hx]%elem_of_cons Hy; [| by apply IH].
  rewrite Forall_forall in Hf. apply Hf. rewrite elem_of_app. by right.
Qed.
