(* ===== verification/RustStr.v ===== *)
(** * Rust strings

    [str]/[String] of the Rust sources as strings of UTF-8 bytes: [len] counts
    bytes, the [char] predicates the sources use are decided on the UTF-8
    encodings.  Holds [str::trim], [strip_prefix], [strip_suffix],
    [starts_with], [split], the ASCII predicates, [u64]'s [Display] and
    [FromStr]. *)

From stdpp Require Import base list strings.
From Stdlib Require Import ZArith Lia Ascii.
From S2P Require Import Prelude.

Open Scope Z_scope.

(** ** Bytes *)

Definition code (c : ascii) : Z := Z.of_N (N_of_ascii c).
Definition byte_of (z : Z) : ascii := ascii_of_N (Z.to_N z).

Definition in_range (lo hi x : Z) : bool := (lo <=? x) && (x <=? hi).

Definition is_ascii_digit (c : ascii) : bool := in_range 48 57 (code c).
Definition is_ascii_lowercase (c : ascii) : bool := in_range 97 122 (code c).
Definition is_ascii_uppercase (c : ascii) : bool := in_range 65 90 (code c).
Definition is_ascii_alphanumeric (c : ascii) : bool :=
  is_ascii_digit c || is_ascii_lowercase c || is_ascii_uppercase c.
Definition is_ascii_hexdigit (c : ascii) : bool :=
  is_ascii_digit c || in_range 97 102 (code c) || in_range 65 70 (code c).
Definition is_ascii_control (c : ascii) : bool := in_range 0 31 (code c) || (code c =? 127).
Definition to_ascii_lowercase_char (c : ascii) : ascii :=
  if is_ascii_uppercase c then byte_of (code c + 32) else c.

(** ** Generic traversals *)

Definition str_len (s : string) : Z := Z.of_nat (String.length s).

Definition is_empty (s : string) : bool :=
  match s with EmptyString => true | String _ _ => false end.

Fixpoint str_all (p : ascii -> bool) (s : string) : bool :=
  match s with
  | EmptyString => true
  | String c r => p c && str_all p r
  end.

Definition str_any (p : ascii -> bool) (s : string) : bool :=
  negb (str_all (fun c => negb (p c)) s).

Fixpoint str_map (f : ascii -> ascii) (s : string) : string :=
  match s with
  | EmptyString => EmptyString
  | String c r => String (f c) (str_map f r)
  end.

Definition contains_char (c : ascii) (s : string) : bool := str_any (Ascii.eqb c) s.

(** [str::replace] of one ASCII character by another. *)
Definition replace_char (from to : ascii) : string -> string :=
  str_map (fun c => if Ascii.eqb c from then to else c).

Definition to_ascii_lowercase : string -> string := str_map to_ascii_lowercase_char.
Definition eq_ignore_ascii_case (a b : string) : bool :=
  String.eqb (to_ascii_lowercase a) (to_ascii_lowercase b).

(** ** Prefixes, suffixes, splitting *)

Fixpoint strip_prefix (p s : string) : option string :=
  match p, s with
  | EmptyString, _ => Some s
  | String a p', String b s' => if Ascii.eqb a b then strip_prefix p' s' else None
  | String _ _, EmptyString => None
  end.

Definition starts_with (s p : string) : bool :=
  match strip_prefix p s with Some _ => true | None => false end.

Definition strip_suffix (p s : string) : option string :=
  match strip_prefix (String.rev p) (String.rev s) with
  | Some r => Some (String.rev r)
  | None => None
  end.

Definition ends_with (s p : string) : bool :=
  match strip_suffix p s with Some _ => true | None => false end.

(** [str::split] on a one-byte separator: never empty. *)
Fixpoint split_char (sep : ascii) (s : string) : list string :=
  match s with
  | EmptyString => [EmptyString]
  | String c r =>
      if Ascii.eqb c sep then EmptyString :: split_char sep r
      else match split_char sep r with
           | [] => [String c EmptyString]
           | h :: t => String c h :: t
           end
  end.

Fixpoint join (sep : string) (l : list string) : string :=
  match l with
  | [] => EmptyString
  | [x] => x
  | x :: l' => x +:+ sep +:+ join sep l'
  end.

(** [trim_start_matches] on one ASCII character. *)
Fixpoint trim_start_char (c : ascii) (s : string) : string :=
  match s with
  | String d r => if Ascii.eqb c d then trim_start_char c r else s
  | EmptyString => EmptyString
  end.

(** ** [char::is_whitespace], [char::is_control] on UTF-8

    White_Space is U+0009-000D, U+0020, U+0085, U+00A0, U+1680, U+2000-200A,
    U+2028, U+2029, U+202F, U+205F, U+3000; its members have one-, two- and
    three-byte encodings. *)

Definition ws1 (a : ascii) : bool := in_range 9 13 (code a) || (code a =? 32).
Definition ws2 (a b : ascii) : bool :=
  (code a =? 194) && ((code b =? 133) || (code b =? 160)).
Definition ws3 (a b c : ascii) : bool :=
  ((code a =? 225) && (code b =? 154) && (code c =? 128))
  || ((code a =? 226) && (code b =? 128)
      && (in_range 128 138 (code c) || (code c =? 168) || (code c =? 169) || (code c =? 175)))
  || ((code a =? 226) && (code b =? 129) && (code c =? 159))
  || ((code a =? 227) && (code b =? 128) && (code c =? 128)).

Fixpoint trim_with (w2 : ascii -> ascii -> bool) (w3 : ascii -> ascii -> ascii -> bool)
    (s : string) : string :=
  match s with
  | EmptyString => EmptyString
  | String a r1 =>
      if ws1 a then trim_with w2 w3 r1 else
      match r1 with
      | EmptyString => s
      | String b r2 =>
          if w2 a b then trim_with w2 w3 r2 else
          match r2 with
          | EmptyString => s
          | String c r3 => if w3 a b c then trim_with w2 w3 r3 else s
          end
      end
  end.

Definition trim_start : string -> string := trim_with ws2 ws3.
Definition trim_end (s : string) : string :=
  String.rev (trim_with (fun a b => ws2 b a) (fun a b c => ws3 c b a) (String.rev s)).

(** [str::trim]. *)
Definition trim (s : string) : string := trim_end (trim_start s).

(** [s.trim().is_empty()]. *)
Definition blank (s : string) : bool := is_empty (trim s).

(** [s.chars().any(char::is_control)]: U+0000-001F, U+007F, U+0080-009F. *)
Fixpoint has_control (s : string) : bool :=
  match s with
  | EmptyString => false
  | String a r =>
      is_ascii_control a
      || match r with
         | String b _ => (code a =? 194) && in_range 128 159 (code b)
         | EmptyString => false
         end
      || has_control r
  end.

(** [s.chars().count()]: the bytes that are not UTF-8 continuation bytes. *)
Fixpoint chars_count (s : string) : Z :=
  match s with
  | EmptyString => 0
  | String a r => (if in_range 128 191 (code a) then 0 else 1) + chars_count r
  end.

(** ** Decimal integers *)

Definition digit_char (d : Z) : ascii := byte_of (48 + d).

Fixpoint digits (fuel : nat) (n : Z) (acc : string) : string :=
  match fuel with
  | O => acc
  | S f =>
      let acc' := String (digit_char (n mod 10)) acc in
      if n / 10 =? 0 then acc' else digits f (n / 10) acc'
  end.

(** [u64::to_string]; 20 digits hold every [u64]. *)
Definition u64_to_string (n : Z) : string := digits 20 n EmptyString.

Fixpoint parse_digits (max : Z) (s : string) (acc : Z) : option Z :=
  match s with
  | EmptyString => Some acc
  | String c r =>
      if is_ascii_digit c then
        let acc' := acc * 10 + (code c - 48) in
        if acc' <=? max then parse_digits max r acc' else None
      else None
  end.

(** [FromStr] of an unsigned integer with largest value [max]: an optional
    ['+'], then at least one digit, no overflow. *)
Definition parse_unsigned (max : Z) (s : string) : option Z :=
  let s := match s with
           | String c r => if Ascii.eqb c "+" then r else s
           | EmptyString => s
           end in
  if is_empty s then None else parse_digits max s 0.

#[global] Arguments String.append _ _ : simpl nomatch.

(** ** Lemmas *)

Lemma code_range c : 0 <= code c < 256.
Proof.
  unfold code. pose proof (N_ascii_bounded c).
  split; [lia |]. change 256 with (Z.of_N 256). lia.
Qed.

Lemma code_byte_of z : 0 <= z < 256 -> code (byte_of z) = z.
Proof. intros. unfold code, byte_of. rewrite N_ascii_embedding; lia. Qed.

Lemma byte_of_code c : byte_of (code c) = c.
Proof. unfold code, byte_of. rewrite N2Z.id. apply ascii_N_embedding. Qed.

Lemma code_inj a b : code a = code b -> a = b.
Proof. intros H. by rewrite <- (byte_of_code a), H, byte_of_code. Qed.

Lemma str_len_app a b : str_len (a +:+ b) = str_len a + str_len b.
Proof. unfold str_len. induction a; cbn [String.append String.length]; lia. Qed.

Lemma str_len_nonneg s : 0 <= str_len s.
Proof. unfold str_len. lia. Qed.

Lemma str_app_nil_r (s : string) : s +:+ "" = s.
Proof. induction s; cbn; congruence. Qed.

Lemma str_app_assoc (a b c : string) : a +:+ b +:+ c = (a +:+ b) +:+ c.
Proof. induction a; cbn; congruence. Qed.

Lemma str_app_inj_l (p a b : string) : p +:+ a = p +:+ b -> a = b.
Proof. induction p; cbn; [done |]. intros [= ?]. auto. Qed.

Lemma str_app_inj_len (a b p q : string) :
  String.length a = String.length b -> a +:+ p = b +:+ q -> a = b /\ p = q.
Proof.
  revert b. induction a as [|x a IH]; intros [|y b]; cbn; try done.
  intros [= Hl] [= -> H]. apply IH in H as [-> ->]; done.
Qed.

Lemma str_all_app p a b : str_all p (a +:+ b) = str_all p a && str_all p b.
Proof. induction a; cbn; [done |]. rewrite IHa. by rewrite andb_assoc. Qed.

Lemma strip_prefix_Some p s r : strip_prefix p s = Some r <-> s = p +:+ r.
Proof.
  revert s. induction p as [|a p IH]; intros s; cbn.
  - split; congruence.
  - destruct s as [|b s]; cbn; [split; congruence |].
    destruct (Ascii.eqb_spec a b) as [-> | Hne].
    + rewrite IH. split; congruence.
    + split; congruence.
Qed.

Lemma strip_prefix_app p r : strip_prefix p (p +:+ r) = Some r.
Proof. by apply strip_prefix_Some. Qed.

Lemma starts_with_spec s p : starts_with s p = true <-> exists r, s = p +:+ r.
Proof.
  unfold starts_with. destruct (strip_prefix p s) as [r|] eqn:E.
  - apply strip_prefix_Some in E. split; eauto.
  - split; [done |]. intros [r ->]. by rewrite strip_prefix_app in E.
Qed.

Lemma starts_with_app p r : starts_with (p +:+ r) p = true.
Proof. apply starts_with_spec. eauto. Qed.

Lemma starts_with_refl s : starts_with s s = true.
Proof. apply starts_with_spec. exists "". by rewrite str_app_nil_r. Qed.

Lemma starts_with_trans a b c :
  starts_with c b = true -> starts_with b a = true -> starts_with c a = true.
Proof.
  rewrite !starts_with_spec. intros [r ->] [q ->].
  exists (q +:+ r). by rewrite str_app_assoc.
Qed.

Lemma is_empty_true s : is_empty s = true <-> s = "".
Proof. by destruct s. Qed.

Lemma is_ascii_digit_char d : 0 <= d < 10 -> is_ascii_digit (digit_char d) = true.
Proof.
  intros. unfold is_ascii_digit, digit_char, in_range.
  rewrite code_byte_of by lia. apply andb_true_intro. split; apply Z.leb_le; lia.
Qed.

Lemma digits_all_digits f n acc :
  0 <= n -> str_all is_ascii_digit acc = true ->
  str_all is_ascii_digit (digits f n acc) = true.
Proof.
  revert n acc. induction f as [|f IH]; intros n acc Hn Hacc; cbn; [done |].
  assert (0 <= n mod 10 < 10) by (apply Z.mod_pos_bound; lia).
  destruct (n / 10 =? 0); [| apply IH; [apply Z.div_pos; lia |]];
    cbn; rewrite Hacc, is_ascii_digit_char; done.
Qed.

Lemma parse_digits_cons max d r acc :
  0 <= d < 10 -> acc * 10 + d <= max ->
  parse_digits max (String (digit_char d) r) acc = parse_digits max r (acc * 10 + d).
Proof.
  intros Hd Hm. cbn [parse_digits]. rewrite is_ascii_digit_char by done.
  unfold digit_char. rewrite code_byte_of by lia.
  replace (acc * 10 + (48 + d - 48)) with (acc * 10 + d) by lia.
  by rewrite (proj2 (Z.leb_le _ _) Hm).
Qed.

Lemma parse_digits_digits max f n acc :
  0 <= n <= max -> n < 10 ^ Z.of_nat f ->
  parse_digits max (digits f n acc) 0 = parse_digits max acc n.
Proof.
  revert n acc. induction f as [|f IH]; intros n acc Hn Hf.
  - cbn in *. replace n with 0 by lia. done.
  - cbn [digits].
    pose proof (Z.mod_pos_bound n 10 ltac:(lia)) as Hmod.
    pose proof (Z.div_mod n 10 ltac:(lia)) as Hdm.
    rewrite Nat2Z.inj_succ, Z.pow_succ_r in Hf by lia.
    destruct (Z.eqb_spec (n / 10) 0) as [Hz | Hz].
    + rewrite parse_digits_cons by lia. f_equal. lia.
    + assert (0 <= n / 10) by (apply Z.div_pos; lia).
      assert (n / 10 < 10 ^ Z.of_nat f) by (apply Z.div_lt_upper_bound; lia).
      rewrite IH by lia.
      rewrite parse_digits_cons by lia. f_equal. lia.
Qed.

Lemma digits_nonempty f n acc : is_empty (digits (S f) n acc) = false.
Proof.
  revert n acc. induction f as [|f IH]; intros n acc.
  - cbn. by destruct (n / 10 =? 0).
  - change (digits (S (S f)) n acc) with
      (let acc' := String (digit_char (n mod 10)) acc in
       if n / 10 =? 0 then acc' else digits (S f) (n / 10) acc').
    cbv zeta. destruct (n / 10 =? 0); [done | apply IH].
Qed.

Lemma u64_to_string_digits n :
  0 <= n -> str_all is_ascii_digit (u64_to_string n) = true.
Proof. intros. by apply digits_all_digits. Qed.

(** Printing then parsing an in-range integer gives it back. *)
Lemma parse_unsigned_to_string max n :
  0 <= n <= max -> max <= u64_max -> parse_unsigned max (u64_to_string n) = Some n.
Proof.
  intros Hn Hm. unfold parse_unsigned.
  pose proof (u64_to_string_digits n ltac:(lia)) as Hd.
  pose proof (digits_nonempty 19 n "") as Hne. fold (u64_to_string n) in Hne.
  destruct (u64_to_string n) as [|c r] eqn:E; [done |].
  destruct (Ascii.eqb_spec c "+") as [-> | _].
  { cbn in Hd. discriminate. }
  cbn [is_empty]. rewrite <- E. unfold u64_to_string.
  rewrite parse_digits_digits; [done | lia |].
  unfold u64_max in Hm. change (10 ^ Z.of_nat 20) with 100000000000000000000. lia.
Qed.

Lemma u64_to_string_inj a b :
  0 <= a <= u64_max -> 0 <= b <= u64_max -> u64_to_string a = u64_to_string b -> a = b.
Proof.
  intros Ha Hb H.
  pose proof (parse_unsigned_to_string u64_max a Ha ltac:(lia)) as Pa.
  pose proof (parse_unsigned_to_string u64_max b Hb ltac:(lia)) as Pb.
  rewrite H in Pa. congruence.
Qed.

(** Two strings of digits followed by the same non-digit end at the same place. *)
Lemma digits_until (a b p q : string) (sep : ascii) :
  is_ascii_digit sep = false ->
  str_all is_ascii_digit a = true -> str_all is_ascii_digit b = true ->
  a +:+ String sep p = b +:+ String sep q -> a = b /\ p = q.
Proof.
  intros Hsep. revert b. induction a as [|x a IH]; intros [|y b] Ha Hb H; cbn in *.
  - split; congruence.
  - injection H as -> _. rewrite Hsep in Hb. discriminate.
  - injection H as -> _. rewrite Hsep in Ha. discriminate.
  - bool_prop. injection H as -> H. apply IH in H as [-> ->]; done.
Qed.

Lemma trim_empty : trim "" = "".
Proof. reflexivity. Qed.

Example trim_example : trim "  ws_1	 " = "ws_1".
Proof. reflexivity. Qed.

#[export] Hint Rewrite str_len_app str_app_nil_r strip_prefix_app starts_with_app : ownmesh.
#[export] Hint Resolve str_len_nonneg starts_with_refl starts_with_app : ownmesh.

(** ** Last characters *)

Fixpoint last_char (s : string) : option ascii :=
  match s with
  | EmptyString => None
  | String c EmptyString => Some c
  | String _ r => last_char r
  end.

Lemma last_char_app a b : b <> "" -> last_char (a +:+ b) = last_char b.
Proof.
  intros Hb. induction a as [|x a IH]; [done |].
  assert (Hne : a +:+ b <> "") by (destruct a; [done | discriminate]).
  rewrite <- IH. cbn. by destruct (a +:+ b).
Qed.

Lemma last_char_all p s c : str_all p s = true -> last_char s = Some c -> p c = true.
Proof.
  induction s as [|x s IH]; cbn; intros H Hl; [done |]. bool_prop.
  destruct s; [by simplify_eq | by apply IH].
Qed.

Lemma rev_app_head s t :
  exists r, String.rev_app s t = match last_char s with
                                 | Some c => String c r
                                 | None => t
                                 end.
Proof.
  revert t. induction s as [|x s IH]; intros t; [by exists "" |].
  destruct (IH (String x t)) as [r Hr].
  change (String.rev_app (String x s) t) with (String.rev_app s (String x t)).
  destruct s as [|y s]; [by exists t |].
  change (last_char (String x (String y s))) with (last_char (String y s)).
  exists r. rewrite Hr. destruct (last_char (String y s)) eqn:E; [done |].
  clear -E. exfalso. revert y E. induction s as [|z s IHs]; intros y E; [done |].
  exact (IHs z E).
Qed.

Lemma ends_with_char s c : ends_with s (String c "") = true <-> last_char s = Some c.
Proof.
  unfold ends_with, strip_suffix.
  change (String.rev (String c "")) with (String c "").
  destruct (rev_app_head s "") as [r Hr]. fold (String.rev s) in Hr. rewrite Hr.
  destruct (last_char s) as [d|]; cbn; [| split; congruence].
  destruct (Ascii.eqb_spec c d); cbn; split; congruence.
Qed.

(** ** Splitting and joining *)

Definition no_char (c : ascii) (s : string) : Prop := str_all (fun d => negb (Ascii.eqb d c)) s = true.

Lemma split_char_app c a b :
  no_char c a -> split_char c (a +:+ String c b) = a :: split_char c b.
Proof.
  unfold no_char. induction a as [|x a IH]; cbn; intros H.
  - by rewrite (proj2 (Ascii.eqb_eq c c) eq_refl).
  - bool_prop. destruct (Ascii.eqb x c); [done |]. by rewrite IH.
Qed.

Lemma split_char_single c a : no_char c a -> split_char c a = [a].
Proof.
  unfold no_char. induction a as [|x a IH]; cbn; intros H; [done |].
  bool_prop. destruct (Ascii.eqb x c); [done |]. by rewrite IH.
Qed.

Lemma split_char_pieces c s : Forall (no_char c) (split_char c s).
Proof.
  unfold no_char. induction s as [|x s IH]; cbn; [by repeat constructor |].
  destruct (Ascii.eqb x c) eqn:E; [by constructor |].
  destruct (split_char c s) as [|h t]; cbn in *; [repeat constructor; cbn; by rewrite E |].
  inversion IH; subst. constructor; [cbn; by rewrite E | done].
Qed.

Lemma join_cons sep x y l : join sep (x :: y :: l) = x +:+ sep +:+ join sep (y :: l).
Proof. reflexivity. Qed.

Lemma split_char_join c ns rest :
  Forall (no_char c) ns -> ns <> [] ->
  split_char c (join (String c "") ns +:+ String c rest) = ns ++ split_char c rest.
Proof.
  induction ns as [|n ns IH]; intros Hall Hne; [done |]. inversion Hall; subst.
  destruct ns as [|m ns].
  - cbn [join]. by rewrite split_char_app.
  - rewrite join_cons, <- !str_app_assoc. cbn [String.append].
    rewrite split_char_app by done. by rewrite IH.
Qed.

Lemma split_char_join_end c ns :
  Forall (no_char c) ns -> ns <> [] -> split_char c (join (String c "") ns) = ns.
Proof.
  induction ns as [|n ns IH]; intros Hall Hne; [done |]. inversion Hall; subst.
  destruct ns as [|m ns]; [by apply split_char_single |].
  rewrite join_cons. cbn [String.append]. rewrite split_char_app by done. by rewrite IH.
Qed.

(** ** Reversal *)

Lemma rev_app_spec a b : String.rev_app a b = String.rev a +:+ b.
Proof.
  unfold String.rev. revert b. induction a as [|x a IH]; intros b; [done |].
  cbn [String.rev_app]. rewrite IH, (IH (String x "")). by rewrite <- str_app_assoc.
Qed.

Lemma rev_str_app a b : String.rev (a +:+ b) = String.rev b +:+ String.rev a.
Proof.
  induction a as [|x a IH].
  - cbn. by rewrite str_app_nil_r.
  - change (String.rev (String x a +:+ b)) with (String.rev_app (a +:+ b) (String x "")).
    rewrite rev_app_spec, IH.
    change (String.rev (String x a)) with (String.rev_app a (String x "")).
    by rewrite (rev_app_spec a), str_app_assoc.
Qed.

Lemma rev_str_involutive s : String.rev (String.rev s) = s.
Proof.
  induction s as [|x s IH]; [done |].
  change (String.rev (String x s)) with (String.rev_app s (String x "")).
  rewrite rev_app_spec, rev_str_app, IH. done.
Qed.

Lemma strip_suffix_Some p s r : strip_suffix p s = Some r <-> s = r +:+ p.
Proof.
  unfold strip_suffix. destruct (strip_prefix _ _) as [q|] eqn:E.
  - apply strip_prefix_Some in E.
    assert (Hs : s = String.rev q +:+ p).
    { rewrite <- (rev_str_involutive s), E, rev_str_app. by rewrite rev_str_involutive. }
    split; [congruence |]. intros Hr. f_equal. rewrite Hs in Hr.
    enough (String.rev (String.rev q) = String.rev r) as He.
    { rewrite <- (rev_str_involutive (String.rev q)), He. apply rev_str_involutive. }
    apply (str_app_inj_l (String.rev p)). rewrite <- !rev_str_app. by rewrite Hr.
  - split; [done |]. intros ->. rewrite rev_str_app, strip_prefix_app in E. done.
Qed.

(** ** Byte order *)

Lemma str_compare_total a b : String.compare a b = Gt -> String.compare b a <> Gt.
Proof. rewrite String.compare_antisym. by destruct (String.compare b a). Qed.

Lemma str_compare_trans a b c :
  String.compare a b <> Gt -> String.compare b c <> Gt -> String.compare a c <> Gt.
Proof.
  revert b c. induction a as [|x a IH]; intros [|y b] [|z c]; cbn; try done.
  unfold Ascii.compare.
  destruct (N.compare_spec (N_of_ascii x) (N_of_ascii y)) as [Hxy | Hxy | Hxy]; [| | done];
  destruct (N.compare_spec (N_of_ascii y) (N_of_ascii z)) as [Hyz | Hyz | Hyz]; try done;
  destruct (N.compare_spec (N_of_ascii x) (N_of_ascii z)); try done; try lia. apply IH.
Qed.
