(* ===== verification/RustBytes.v ===== *)
(** * Byte slices

    Slicing and big-endian integers, on the byte strings of [RustStr.v]: a [Vec<u8>]
    or a file's contents is a string of bytes. *)

From stdpp Require Import base list strings.
From Stdlib Require Import ZArith Lia Ascii.
From S2P Require Import Prelude RustStr.

Open Scope Z_scope.

(** [slice::split_at], total: past the end the first half is everything. *)
Fixpoint split_at (n : Z) (s : string) : string * string :=
  match s with
  | EmptyString => (EmptyString, EmptyString)
  | String c r =>
      if n <=? 0 then (EmptyString, s)
      else let '(a, b) := split_at (n - 1) r in (String c a, b)
  end.

Definition take (n : Z) (s : string) : string := fst (split_at n s).
Definition drop (n : Z) (s : string) : string := snd (split_at n s).

(** [s[a..b]]. *)
Definition slice (a b : Z) (s : string) : string := take (b - a) (drop a s).

(** [to_be_bytes] on [n] bytes and [from_be_bytes]. *)
Fixpoint to_be_bytes (n : nat) (z : Z) : string :=
  match n with
  | O => EmptyString
  | S m => String (byte_of ((z / 256 ^ Z.of_nat m) mod 256)) (to_be_bytes m z)
  end.

Fixpoint be_value (acc : Z) (s : string) : Z :=
  match s with
  | EmptyString => acc
  | String c r => be_value (acc * 256 + code c) r
  end.

Definition from_be_bytes (s : string) : Z := be_value 0 s.

(** [to_le_bytes] on [n] bytes, of signed and unsigned integers. *)
Fixpoint to_le_bytes (n : nat) (z : Z) : string :=
  match n with
  | O => EmptyString
  | S m => String (byte_of (z mod 256)) (to_le_bytes m (z / 256))
  end.

Fixpoint from_le_bytes (s : string) : Z :=
  match s with EmptyString => 0 | String c r => code c + 256 * from_le_bytes r end.

Lemma str_len_cons c s : str_len (String c s) = 1 + str_len s.
Proof. unfold str_len. cbn [String.length]. lia. Qed.

Lemma str_len_zero s : str_len s = 0 -> s = "".
Proof. destruct s; [done |]. rewrite str_len_cons. pose proof (str_len_nonneg s). lia. Qed.

Lemma split_at_join n s : take n s +:+ drop n s = s.
Proof.
  unfold take, drop. revert n. induction s as [|c s IH]; intros n; [done |]. cbn [split_at].
  destruct (n <=? 0); [done |]. specialize (IH (n - 1)). destruct (split_at (n - 1) s). cbn in *.
  change (String c s0 +:+ s1) with (String c (s0 +:+ s1)). by rewrite IH.
Qed.

Lemma take_len n s : 0 <= n -> str_len (take n s) = Z.min n (str_len s).
Proof.
  unfold take. revert n. induction s as [|c s IH]; intros n Hn; [unfold str_len; cbn; lia |].
  cbn [split_at]. destruct (Z.leb_spec n 0).
  { replace n with 0 by lia. cbn [fst]. rewrite str_len_cons. pose proof (str_len_nonneg s).
    change (str_len "") with 0. lia. }
  specialize (IH (n - 1) ltac:(lia)). destruct (split_at (n - 1) s). cbn [fst] in *.
  rewrite !str_len_cons. lia.
Qed.

Lemma drop_len n s : 0 <= n -> str_len (drop n s) = str_len s - Z.min n (str_len s).
Proof.
  intros Hn. pose proof (f_equal str_len (split_at_join n s)) as H.
  rewrite str_len_app, take_len in H by done. lia.
Qed.

Lemma take_app a b : take (str_len a) (a +:+ b) = a.
Proof.
  unfold take. induction a as [|c a IH]; [by destruct b |].
  change (String c a +:+ b) with (String c (a +:+ b)). cbn [split_at].
  rewrite str_len_cons. pose proof (str_len_nonneg a).
  destruct (Z.leb_spec (1 + str_len a) 0); [lia |].
  replace (1 + str_len a - 1) with (str_len a) by lia.
  destruct (split_at (str_len a) (a +:+ b)). cbn in *. by rewrite IH.
Qed.

Lemma drop_app a b : drop (str_len a) (a +:+ b) = b.
Proof.
  pose proof (split_at_join (str_len a) (a +:+ b)) as H. rewrite take_app in H.
  by apply str_app_inj_l in H.
Qed.

Lemma take_all n s : str_len s <= n -> take n s = s.
Proof.
  unfold take. revert n. induction s as [|c s IH]; intros n Hn; [done |]. cbn [split_at].
  rewrite str_len_cons in Hn. pose proof (str_len_nonneg s).
  destruct (Z.leb_spec n 0); [lia |]. specialize (IH (n - 1) ltac:(lia)).
  destruct (split_at (n - 1) s). cbn in *. by rewrite IH.
Qed.

Lemma drop_all n s : str_len s <= n -> drop n s = "".
Proof.
  intros H. pose proof (split_at_join n s) as Hj. rewrite take_all in Hj by done.
  apply str_len_zero. pose proof (f_equal str_len Hj) as Hl. rewrite str_len_app in Hl. lia.
Qed.

Lemma take_zero s : take 0 s = "".
Proof. by destruct s. Qed.

Lemma drop_zero s : drop 0 s = s.
Proof. by destruct s. Qed.

Lemma drop_drop a b s : 0 <= a -> 0 <= b -> drop b (drop a s) = drop (a + b) s.
Proof.
  intros Ha Hb. destruct (Z.le_gt_cases (str_len s) a).
  { rewrite (drop_all a), (drop_all (a + b)) by lia. by destruct b. }
  rewrite <- (split_at_join a s) at 2. rewrite <- (split_at_join b (drop a s)) at 2.
  rewrite str_app_assoc. destruct (Z.le_gt_cases (str_len (drop a s)) b) as [Hle | Hgt].
  { rewrite (drop_all b) by done. rewrite str_app_nil_r. symmetry. apply drop_all.
    rewrite str_len_app, !take_len, drop_len in * by lia. lia. }
  replace (a + b) with (str_len (take a s +:+ take b (drop a s))); [by rewrite drop_app |].
  rewrite drop_len in Hgt by lia. rewrite str_len_app, !take_len, drop_len by lia. lia.
Qed.

(** Consecutive slices join. *)
Lemma take_add a b s : 0 <= a -> 0 <= b -> take (a + b) s = take a s +:+ take b (drop a s).
Proof.
  intros Ha Hb. assert (H : take (a + b) s +:+ drop (a + b) s
    = (take a s +:+ take b (drop a s)) +:+ drop (a + b) s).
  { rewrite split_at_join, <- drop_drop by done. by rewrite <- str_app_assoc, split_at_join, split_at_join. }
  apply str_app_inj_len in H as [H _]; [done |].
  pose proof (str_len_nonneg s).
  assert (str_len (take (a + b) s) = str_len (take a s +:+ take b (drop a s))) as Hl.
  { rewrite str_len_app, !take_len, drop_len by lia. lia. }
  unfold str_len in Hl. lia.
Qed.

(** ** Big-endian integers *)

Lemma to_be_bytes_len n z : str_len (to_be_bytes n z) = Z.of_nat n.
Proof. induction n as [|n IH]; [done |]. cbn [to_be_bytes]. rewrite str_len_cons, IH. lia. Qed.

Lemma be_value_acc acc s : be_value acc s = acc * 256 ^ str_len s + be_value 0 s.
Proof.
  revert acc. induction s as [|c s IH]; intros acc; [cbn; change (str_len "") with 0; lia |].
  cbn [be_value]. rewrite (IH (acc * 256 + code c)), (IH (0 * 256 + code c)), str_len_cons.
  pose proof (str_len_nonneg s). rewrite Z.pow_add_r by lia. lia.
Qed.

Lemma from_be_bytes_range s : 0 <= from_be_bytes s < 256 ^ str_len s.
Proof.
  unfold from_be_bytes. induction s as [|c s IH]; [cbn; change (str_len "") with 0; lia |].
  cbn [be_value]. rewrite be_value_acc, str_len_cons. pose proof (code_range c).
  pose proof (str_len_nonneg s). rewrite Z.pow_add_r by lia. change (256 ^ 1) with 256. nia.
Qed.

Lemma from_to_be_bytes n z : 0 <= z < 256 ^ Z.of_nat n -> from_be_bytes (to_be_bytes n z) = z.
Proof.
  unfold from_be_bytes. intros Hz.
  assert (H : forall m, be_value 0 (to_be_bytes m z) = z mod 256 ^ Z.of_nat m).
  { induction m as [|m IH]; [cbn; by rewrite Z.mod_1_r |].
    cbn [to_be_bytes be_value]. rewrite be_value_acc, to_be_bytes_len, IH.
    rewrite code_byte_of by (apply Z.mod_pos_bound; lia).
    rewrite Nat2Z.inj_succ, Z.pow_succ_r by lia. rewrite (Z.mul_comm 256).
    rewrite Z.rem_mul_r by (try apply Z.pow_nonzero; lia). lia. }
  rewrite H. by apply Z.mod_small.
Qed.

Lemma to_from_be_bytes s : to_be_bytes (String.length s) (from_be_bytes s) = s.
Proof.
  unfold from_be_bytes. induction s as [|c s IH]; [done |].
  cbn [String.length to_be_bytes be_value]. pose proof (from_be_bytes_range s) as Hr.
  pose proof (code_range c). unfold from_be_bytes in Hr. rewrite be_value_acc.
  fold (str_len s). f_equal.
  - rewrite Z.div_add_l by (apply Z.pow_nonzero; unfold str_len; lia).
    rewrite (Z.div_small (be_value 0 s)) by done. rewrite Z.add_0_r, Z.mod_small by lia.
    apply byte_of_code.
  - transitivity (to_be_bytes (String.length s) (be_value 0 s)); [| exact IH].
    generalize (be_value 0 s). intros v.
    assert (Hm : forall m, (m <= String.length s)%nat ->
      to_be_bytes m ((0 * 256 + code c) * 256 ^ str_len s + v) = to_be_bytes m v).
    { induction m as [|m IHm]; intros Hm; [done |]. cbn [to_be_bytes]. rewrite IHm by lia. do 2 f_equal.
      assert (Hp : 256 ^ str_len s = 256 ^ Z.of_nat m * (256 * 256 ^ (str_len s - Z.of_nat m - 1))).
      { rewrite <- Z.pow_succ_r by (unfold str_len; lia). rewrite <- Z.pow_add_r by (unfold str_len; lia).
        f_equal. unfold str_len. lia. }
      rewrite Hp. replace ((0 * 256 + code c) * (256 ^ Z.of_nat m * (256 * 256 ^ (str_len s - Z.of_nat m - 1))) + v)
        with ((code c * 256 ^ (str_len s - Z.of_nat m - 1) * 256) * 256 ^ Z.of_nat m + v) by lia.
      rewrite Z.div_add_l by (apply Z.pow_nonzero; lia).
      rewrite Z.add_comm. apply Z.mod_add. lia. }
    by apply Hm.
Qed.

Lemma to_le_bytes_len n z : str_len (to_le_bytes n z) = Z.of_nat n.
Proof. revert z. induction n as [|n IH]; intros z; [done |]. cbn [to_le_bytes]. rewrite str_len_cons, IH. lia. Qed.

Lemma from_to_le_bytes n z : 0 <= z < 256 ^ Z.of_nat n -> from_le_bytes (to_le_bytes n z) = z.
Proof.
  revert z. induction n as [|n IH]; intros z H; [cbn in *; lia |]. cbn [to_le_bytes from_le_bytes].
  rewrite Nat2Z.inj_succ, Z.pow_succ_r in H by lia. rewrite IH by (split; [apply Z.div_pos | apply Z.div_lt_upper_bound]; lia).
  rewrite code_byte_of by (apply Z.mod_pos_bound; lia). pose proof (Z.div_mod z 256 ltac:(lia)). lia.
Qed.

(** A slice does not change when the text grows. *)
Lemma slice_grow off n s t : 0 <= off -> 0 <= n -> off + n <= str_len s -> take n (drop off (s +:+ t)) = take n (drop off s).
Proof.
  intros Ho Hn H. rewrite <- (split_at_join off s) at 1. rewrite <- str_app_assoc.
  assert (str_len (take off s) = off) as L by (rewrite take_len by done; lia).
  rewrite <- L at 1. rewrite drop_app. rewrite <- (split_at_join n (drop off s)) at 1. rewrite <- str_app_assoc.
  assert (str_len (take n (drop off s)) = n) as L' by (rewrite take_len, drop_len by done; lia).
  rewrite <- L' at 1. apply take_app.
Qed.
