(* ===== verification/RustPath.v ===== *)
(** * [std::path] on Unix

    What the sources use of [Path]/[PathBuf]: [components], [is_absolute] and a
    [PathBuf] built by pushing components.  The separator is ['/'] and
    [Component::Prefix] does not occur: this is the Unix target of the code. *)

From stdpp Require Import base list strings.
From Stdlib Require Import ZArith Lia Ascii.
From S2P Require Import Prelude RustStr.

Open Scope Z_scope.

Inductive component : Type :=
| RootDir
| CurDir
| ParentDir
| Normal (name : string).

#[export] Instance component_eq_dec : EqDecision component.
Proof. solve_decision. Defined.

Definition MAIN_SEPARATOR : ascii := "/".

Definition as_os_str (c : component) : string :=
  match c with
  | RootDir => "/"
  | CurDir => "."
  | ParentDir => ".."
  | Normal s => s
  end.

Definition seg_component (s : string) : component :=
  if String.eqb s ".." then ParentDir else Normal s.

(** Repeated separators and interior ["."] segments are skipped. *)
Definition kept_segment (s : string) : bool := negb (is_empty s) && negb (String.eqb s ".").

Definition segments (l : list string) : list component :=
  map seg_component (List.filter kept_segment l).

Definition is_absolute (v : string) : bool := starts_with v "/".

(** [Path::components]: a leading ["."] of a relative path is kept. *)
Definition components (v : string) : list component :=
  if is_absolute v then RootDir :: segments (split_char MAIN_SEPARATOR v)
  else match split_char MAIN_SEPARATOR v with
       | s :: rest => if String.eqb s "." then CurDir :: segments rest
                      else segments (s :: rest)
       | [] => []
       end.

(** [PathBuf::push] of a rendered component. *)
Definition push_str (p c : string) : string :=
  if is_absolute c then c
  else if is_empty p || ends_with p "/" then p +:+ c
  else p +:+ "/" +:+ c.

(** The string of a [PathBuf] on which the components [cs] were pushed. *)
Definition render (cs : list component) : string :=
  fold_left (fun p c => push_str p (as_os_str c)) cs "".

(** [PathBuf::pop] on the pushed components, last one first: the parent of a
    root or of an empty path does not exist. *)
Definition pop (rev_cs : list component) : option (list component) :=
  match rev_cs with
  | (Normal _ | CurDir | ParentDir) :: rest => Some rest
  | RootDir :: _ | [] => None
  end.

Definition has_parent (v : string) : bool :=
  existsb (fun c => bool_decide (c = ParentDir)) (components v).

(** ** Lemmas *)

Lemma segments_no_special l c :
  c ∈ segments l -> c = ParentDir \/ exists s, c = Normal s /\ s <> "" /\ s <> "." /\ s <> "..".
Proof.
  unfold segments. intros (s & -> & Hs)%list_elem_of_fmap.
  apply list_elem_of_In, filter_In in Hs as [_ Hk].
  unfold kept_segment in Hk. bool_prop. unfold seg_component.
  destruct (String.eqb_spec s ".."); [by left |]. right. exists s. split_and!; try done.
  - intros ->. done.
  - intros ->. done.
Qed.

(** A component list has a root only in front, a [.] only in front. *)
Lemma components_shape v :
  exists h t, components v = h ++ t /\ (h = [] \/ h = [RootDir] \/ h = [CurDir]) /\
    Forall (fun c => c <> RootDir /\ c <> CurDir) t.
Proof.
  assert (Hseg : forall l, Forall (fun c => c <> RootDir /\ c <> CurDir) (segments l)).
  { intros l. apply Forall_forall. intros c Hc.
    apply segments_no_special in Hc as [-> | (s & -> & _)]; done. }
  unfold components. destruct (is_absolute v); [exists [RootDir]; eauto 6 |].
  destruct (split_char _ _) as [|s rest]; [exists [], []; eauto |].
  destruct (String.eqb s "."); [exists [CurDir] | exists []]; eauto 6.
Qed.

Lemma has_parent_spec v : has_parent v = true <-> ParentDir ∈ components v.
Proof.
  unfold has_parent. rewrite existsb_exists. split.
  - intros (c & Hin & Hc). bool_prop. subst. by apply list_elem_of_In.
  - intros Hin. exists ParentDir. split; [by apply list_elem_of_In | by case_bool_decide].
Qed.

Example components_example :
  components "/a//./b/../c/" = [RootDir; Normal "a"; Normal "b"; ParentDir; Normal "c"].
Proof. reflexivity. Qed.

Example components_curdir : components "./a/." = [CurDir; Normal "a"].
Proof. reflexivity. Qed.

(** ** Clean paths: an optional root and plain names *)

Definition valid_name (s : string) : Prop :=
  s <> "" /\ s <> "." /\ s <> ".." /\ no_char "/" s.

Definition clean_path (root : bool) (ns : list string) : list component :=
  (if root then [RootDir] else []) ++ map Normal ns.

Lemma valid_name_relative n r : valid_name n -> is_absolute (n +:+ r) = false.
Proof.
  intros (Hne & _ & _ & Hno). unfold is_absolute, starts_with, no_char in *.
  destruct n as [|c n]; [done |]. cbn [String.append strip_prefix str_all] in *. bool_prop.
  destruct (Ascii.eqb_spec "/" c) as [<- | _]; [| done].
  match goal with H : Ascii.eqb _ _ = false |- _ => discriminate H end.
Qed.

Lemma valid_name_last p n : valid_name n -> ends_with (p +:+ n) "/" = false.
Proof.
  intros (Hne & _ & _ & Hno). apply not_true_iff_false.
  rewrite ends_with_char, last_char_app by done. intros Hl.
  eapply last_char_all in Hno; [| exact Hl]. done.
Qed.

Lemma kept_segment_valid n : valid_name n -> kept_segment n = true.
Proof.
  intros (Hne & Hd & _). unfold kept_segment.
  destruct (String.eqb_spec n "."); [done |]. by destruct n.
Qed.

Lemma seg_component_valid n : valid_name n -> seg_component n = Normal n.
Proof. intros (_ & _ & Hd & _). unfold seg_component. by destruct (String.eqb_spec n ".."). Qed.

Lemma segments_valid ns : Forall valid_name ns -> segments ns = map Normal ns.
Proof.
  unfold segments. induction 1 as [|n ns Hn _ IH]; [done |].
  cbn [List.filter]. rewrite kept_segment_valid by done. cbn [map].
  by rewrite seg_component_valid, IH.
Qed.

Lemma segments_app l k : segments (l ++ k) = segments l ++ segments k.
Proof. unfold segments. by rewrite List.filter_app, map_app. Qed.

Lemma segments_elem_valid l s :
  Forall (no_char "/") l -> Normal s ∈ segments l -> valid_name s.
Proof.
  intros Hl Hs. pose proof Hs as Hs'.
  apply segments_no_special in Hs as [? | (s' & [= <-] & ? & ? & ?)]; [done |].
  split_and!; try done. unfold segments in Hs'.
  apply list_elem_of_fmap in Hs' as (x & Hx & Hin).
  apply list_elem_of_In, filter_In in Hin as [Hin _].
  unfold seg_component in Hx. destruct (String.eqb x ".."); [done |]. injection Hx as ->.
  rewrite Forall_forall in Hl. by apply Hl, list_elem_of_In.
Qed.

Lemma components_names v s : Normal s ∈ components v -> valid_name s.
Proof.
  pose proof (split_char_pieces "/" v) as Hp. unfold components, MAIN_SEPARATOR.
  destruct (is_absolute v).
  - intros [? | H]%elem_of_cons; [done |]. by eapply segments_elem_valid.
  - destruct (split_char _ _) as [|h t]; [by intros ?%elem_of_nil |].
    destruct (String.eqb h "."); [| by apply segments_elem_valid].
    inversion Hp; subst.
    intros [? | H]%elem_of_cons; [done |]. by eapply segments_elem_valid.
Qed.

Lemma join_relative ns r :
  Forall valid_name ns -> ns <> [] -> is_absolute (join "/" ns +:+ r) = false.
Proof.
  intros Hv Hne. destruct Hv as [|n ns Hn Hv]; [done |].
  destruct ns as [|m ns]; [by apply valid_name_relative |].
  rewrite join_cons, <- str_app_assoc. by apply valid_name_relative.
Qed.

Lemma valid_names_no_sep ns : Forall valid_name ns -> Forall (no_char "/") ns.
Proof. intros Hv. eapply Forall_impl; [exact Hv |]. by intros ? (_ & _ & _ & ?). Qed.

Lemma components_join ns r :
  Forall valid_name ns -> ns <> [] ->
  components (join "/" ns +:+ "/" +:+ r) = map Normal ns ++ segments (split_char "/" r).
Proof.
  intros Hv Hne. unfold components, MAIN_SEPARATOR. cbn [String.append].
  rewrite join_relative by done.
  rewrite split_char_join, <- (segments_valid ns), <- segments_app by auto using valid_names_no_sep.
  destruct ns as [|n ns]; [done |]. inversion Hv as [|? ? Hn _]; subst.
  cbn [app]. destruct Hn as (_ & Hd & _). by destruct (String.eqb_spec n ".").
Qed.

Lemma components_join_end ns :
  Forall valid_name ns -> ns <> [] -> components (join "/" ns) = map Normal ns.
Proof.
  intros Hv Hne. unfold components, MAIN_SEPARATOR.
  pose proof (join_relative ns "" Hv Hne) as Habs. rewrite str_app_nil_r in Habs. rewrite Habs.
  rewrite split_char_join_end, <- (segments_valid ns) by auto using valid_names_no_sep.
  destruct ns as [|n ns]; [done |]. inversion Hv as [|? ? Hn _]; subst.
  destruct Hn as (_ & Hd & _). by destruct (String.eqb_spec n ".").
Qed.

Lemma components_root r : components ("/" +:+ r) = RootDir :: segments (split_char "/" r).
Proof. reflexivity. Qed.

Lemma render_from p ns :
  Forall valid_name ns ->
  fold_left (fun p c => push_str p (as_os_str c)) (map Normal ns) p =
    if decide (ns = []) then p
    else (if is_empty p || ends_with p "/" then p else p +:+ "/") +:+ join "/" ns.
Proof.
  intros Hv. revert p. induction Hv as [|n ns Hn Hns IH]; intros p; [done |].
  cbn [map fold_left as_os_str]. rewrite IH. unfold push_str.
  pose proof (valid_name_relative n "" Hn) as Habs. rewrite str_app_nil_r in Habs.
  rewrite Habs. rewrite (decide_False (P := n :: ns = [])) by done.
  set (q := if is_empty p || ends_with p "/" then p +:+ n else p +:+ "/" +:+ n).
  assert (Hq : q = (if is_empty p || ends_with p "/" then p else p +:+ "/") +:+ n).
  { unfold q. destruct (is_empty p || _); [done | by rewrite str_app_assoc]. }
  destruct ns as [|m ns]; [rewrite decide_True by done; exact Hq |].
  rewrite decide_False by done. rewrite Hq, valid_name_last by done.
  replace (is_empty _) with false.
  2: { symmetry. destruct Hn as (Hne & _). destruct (is_empty p || _), p, n; done. }
  cbn [orb]. by rewrite join_cons, !str_app_assoc.
Qed.

Lemma render_clean root ns :
  Forall valid_name ns -> render (clean_path root ns) = (if root then "/" else "") +:+ join "/" ns.
Proof.
  intros Hv. unfold render, clean_path. rewrite fold_left_app.
  destruct root; cbn [fold_left as_os_str]; rewrite render_from by done;
    destruct ns; try reflexivity.
Qed.

Lemma ends_join ns : Forall valid_name ns -> ns <> [] -> forall p, ends_with (p +:+ join "/" ns) "/" = false.
Proof.
  induction 1 as [|n ns Hn Hns IH]; intros Hne p; [done |].
  destruct ns as [|m ns]; [by apply valid_name_last |].
  rewrite join_cons, !str_app_assoc. apply IH. done.
Qed.
