(* ===== verification/Json.v ===== *)
(** * [serde_json::Value]

    The JSON values the sources inspect after parsing.  Objects are the crate's
    default [Map], a [BTreeMap], so they are finite maps; a number is one of the
    three forms of [serde_json::Number].  Text parsing and printing of JSON are
    parameters of the components that use them. *)

From stdpp Require Import base list strings gmap.
From Stdlib Require Import ZArith.
From S2P Require Import Prelude RustStr.

Open Scope Z_scope.

(** [serde_json::Number]: an unsigned integer, a negative integer, or a float kept
    by its literal. *)
Inductive JNumber : Type :=
| PosInt (n : Z)
| NegInt (n : Z)
| Float (literal : string).

Unset Elimination Schemes.
Inductive Value : Type :=
| Null
| JBool (b : bool)
| Number (n : JNumber)
| JString (s : string)
| Array (items : list Value)
| Object (members : gmap string Value).
Set Elimination Schemes.

(** [Value::get] with a string index. *)
Definition get (v : Value) (key : string) : option Value :=
  match v with Object ms => ms !! key | _ => None end.

Definition as_object (v : Value) : option (gmap string Value) :=
  match v with Object ms => Some ms | _ => None end.

Definition is_object (v : Value) : bool :=
  match v with Object _ => true | _ => false end.

Definition is_null (v : Value) : bool :=
  match v with Null => true | _ => false end.

Definition as_str (v : Value) : option string :=
  match v with JString s => Some s | _ => None end.

Definition is_string (v : Value) : bool :=
  match v with JString _ => true | _ => false end.

Definition as_bool (v : Value) : option bool :=
  match v with JBool b => Some b | _ => None end.

Definition is_boolean (v : Value) : bool :=
  match v with JBool _ => true | _ => false end.

Definition is_number (v : Value) : bool :=
  match v with Number _ => true | _ => false end.

Definition is_u64 (v : Value) : bool :=
  match v with Number (PosInt _) => true | _ => false end.

Definition as_i64 (v : Value) : option Z :=
  match v with
  | Number (PosInt n) => if n <=? i64_max then Some n else None
  | Number (NegInt n) => Some n
  | _ => None
  end.

Definition is_i64 (v : Value) : bool :=
  match as_i64 v with Some _ => true | None => false end.

(** [json!(n)] of an [i64]. *)
Definition json_i64 (n : Z) : Value :=
  Number (if n <? 0 then NegInt n else PosInt n).

(** [as_object_mut] followed by [insert]: nothing happens to another value. *)
Definition insert_member (key : string) (x v : Value) : Value :=
  match v with Object ms => Object (<[key := x]> ms) | _ => v end.

(** [json!({ ... })] with distinct keys. *)
Definition json_object (members : list (string * Value)) : Value :=
  Object (list_to_map members).

(** [v.get(key).and_then(Value::as_str)] and the like. *)
Definition get_str (v : Value) (key : string) : option string :=
  match get v key with Some x => as_str x | None => None end.

Definition get_i64 (v : Value) (key : string) : option Z :=
  match get v key with Some x => as_i64 x | None => None end.

Lemma as_i64_json n : i64_min <= n <= i64_max -> as_i64 (json_i64 n) = Some n.
Proof.
  intros [_ Hn]. unfold json_i64. destruct (n <? 0); cbn [as_i64]; [done |].
  by rewrite (proj2 (Z.leb_le _ _) Hn).
Qed.

Lemma get_insert_member_ne v key key' x :
  key <> key' -> get (insert_member key' x v) key = get v key.
Proof. intros Hne. destruct v; cbn; try done. by apply lookup_insert_ne. Qed.

Lemma get_insert_member_eq v key x :
  is_object v = true -> get (insert_member key x v) key = Some x.
Proof. destruct v; cbn; try done. intros _. by rewrite lookup_insert_eq. Qed.

Lemma is_object_insert_member v key x : is_object (insert_member key x v) = is_object v.
Proof. by destruct v. Qed.

Lemma get_is_object v key x : get v key = Some x -> is_object v = true.
Proof. by destruct v. Qed.

Lemma object_ext v w :
  is_object v = true -> is_object w = true -> (forall key, get v key = get w key) -> v = w.
Proof. destruct v, w; try done. intros _ _ H. f_equal. by apply map_eq. Qed.

#[export] Hint Rewrite get_insert_member_ne using done : ownmesh.
