(* ===== verification/Ipc.v ===== *)
(** * Errors of the local control channel ([crates/ownmesh-ipc/src/error.rs] and
    [rpc.rs])

    The error type the daemon's handlers return and the application codes they use. *)

From stdpp Require Import base strings.
From Stdlib Require Import ZArith.
From S2P Require Import Prelude RustStr.

Open Scope Z_scope.

(** [IpcError]; an I/O error is kept by its text. *)
Inductive IpcError : Type :=
| Io (e : string)
| Framing (msg : string)
| CodecError (msg : string)
| Unauthorized (msg : string)
| Timeout
| Cancelled
| Remote (code : Z) (message : string)
| Protocol (msg : string)
| Disconnected (msg : string).

(** The constants of [app_error]. *)
Definition UNAUTHORIZED : Z := -32000.
Definition METHOD_NOT_FOUND : Z := -32601.
Definition INVALID_PARAMS : Z := -32602.
Definition INTERNAL : Z := -32603.
Definition POLICY_DENIED : Z := -32010.
Definition LOCKDOWN : Z := -32011.
Definition TOKEN_REVOKED : Z := -32012.
Definition CONFLICT : Z := -32013.
Definition PLATFORM_UNSUPPORTED : Z := -32014.
Definition EXECUTABLE_IDENTITY_DRIFT : Z := -32015.
Definition JOURNAL_CAPACITY : Z := -32016.
Definition TRANSITION_RECOVERY_REQUIRED : Z := -32017.
Definition EXECUTABLE_FORMAT : Z := -32018.
Definition SELF_REENTRANT_EXEC : Z := -32019.

(** Decimal text of an [i64]. *)
Definition i64_to_string (n : Z) : string :=
  if n <? 0 then "-" +:+ u64_to_string (- n) else u64_to_string n.

(** [Display] of [IpcError]. *)
Definition ipc_to_string (e : IpcError) : string :=
  match e with
  | Io err => "ipc io error: " +:+ err
  | Framing msg => "ipc framing error: " +:+ msg
  | CodecError msg => "ipc codec error: " +:+ msg
  | Unauthorized msg => "ipc unauthorized: " +:+ msg
  | Timeout => "ipc timeout"
  | Cancelled => "ipc cancelled"
  | Remote code message => "ipc remote error " +:+ i64_to_string code +:+ ": " +:+ message
  | Protocol msg => "ipc protocol error: " +:+ msg
  | Disconnected msg => "ipc disconnected: " +:+ msg
  end.
