(* ===== verification/Principal.v ===== *)
(** * Principal keys ([crates/ownmesh-ipc/src/auth.rs])

    The canonical spelling of a principal key, used for issuance, revocation, grants
    and the operation journal.  The loop that removes blanks around colons runs on
    fuel; the length of the key is enough, since every round shortens it. *)

From stdpp Require Import base list strings.
From Stdlib Require Import ZArith Lia Ascii.
From S2P Require Import Prelude RustStr.

Open Scope Z_scope.

(** ** String operations of the module *)

Definition trim_end_char (c : ascii) (s : string) : string :=
  String.rev (trim_start_char c (String.rev s)).

(** [trim_matches] on one character. *)
Definition trim_matches (c : ascii) (s : string) : string := trim_end_char c (trim_start_char c s).

(** [s.contains(pat)] and [s.replace(pat, to)] for the two-character [pat] = [a b]. *)
Fixpoint contains_pair (a b : ascii) (s : string) : bool :=
  match s with
  | String x (String y _ as tl) => (Ascii.eqb x a && Ascii.eqb y b) || contains_pair a b tl
  | _ => false
  end.

Fixpoint replace_pair (a b to : ascii) (s : string) : string :=
  match s with
  | String x (String y rest as tl) =>
      if Ascii.eqb x a && Ascii.eqb y b then String to (replace_pair a b to rest)
      else String x (replace_pair a b to tl)
  | _ => s
  end.

Definition dquote : ascii := byte_of 34.
Definition squote : ascii := byte_of 39.

(** ** Normalisation *)

Definition drive_root (raw : string) : bool :=
  match String.get 1 raw, String.get 2 raw with
  | Some b, Some c => Ascii.eqb b ":" && Ascii.eqb c "/"
  | _, _ => false
  end.

(** The loop over the components of [normalize_path_aliases]; [parts] is kept in
    reverse. *)
Fixpoint alias_parts (drive absolute : bool) (parts : list string) (l : list string) : list string :=
  match l with
  | [] => parts
  | part :: rest =>
      if is_empty part || String.eqb part "." then alias_parts drive absolute parts rest
      else if String.eqb part ".." then
        let at_drive_root := drive && Nat.eqb (length parts) 1 in
        match parts with
        | last :: up =>
            if negb at_drive_root && negb (String.eqb last "..") then alias_parts drive absolute up rest
            else if negb absolute then alias_parts drive absolute (part :: parts) rest
            else alias_parts drive absolute parts rest
        | [] =>
            if negb absolute then alias_parts drive absolute (part :: parts) rest
            else alias_parts drive absolute parts rest
        end
      else alias_parts drive absolute (part :: parts) rest
  end.

Definition normalize_path_aliases (raw : string) : string :=
  if is_empty raw || negb (contains_char "/" raw) then raw
  else
    let drive := drive_root raw in
    let absolute := starts_with raw "/" || drive in
    let body := join "/" (rev (alias_parts drive absolute [] (split_char "/" raw))) in
    if starts_with raw "//" then "//" +:+ body
    else if absolute && negb drive then "/" +:+ body
    else body.

(** What both functions do first. *)
Definition fold_key (raw : string) : string :=
  to_ascii_lowercase
    (replace_char "\" "/" (trim_matches squote (trim_matches dquote (trim raw)))).

Definition normalize_principal_part (raw : string) : string :=
  normalize_path_aliases (fold_key raw).

(** The [while] loop over blanks around colons. *)
Fixpoint collapse_blanks (fuel : nat) (s : string) : string :=
  match fuel with
  | O => s
  | S fuel =>
      if contains_pair " " ":" s || contains_pair ":" " " s
      then collapse_blanks fuel (replace_pair ":" " " ":" (replace_pair " " ":" ":" s))
      else s
  end.

Definition opt_min (a b : option nat) : option nat :=
  match a, b with
  | Some x, Some y => Some (Nat.min x y)
  | Some x, None => Some x
  | None, _ => b
  end.

Definition canonicalize_principal_key (raw : string) : string :=
  let folded := fold_key raw in
  let normalized := collapse_blanks (String.length folded) folded in
  match strip_prefix "user:" normalized with
  | Some rest =>
      let user :=
        normalize_principal_part
          match opt_min (String.index 0 ":exe:" rest) (String.index 0 ":pid:" rest) with
          | Some start => String.substring 0 start rest
          | None => rest
          end in
      if is_empty user then "" else "user:" +:+ user
  | None => normalize_principal_part normalized
  end.

(** ** The loop terminates within its fuel *)

Lemma replace_pair_cons a b to x y r :
  replace_pair a b to (String x (String y r)) =
  if Ascii.eqb x a && Ascii.eqb y b then String to (replace_pair a b to r)
  else String x (replace_pair a b to (String y r)).
Proof. reflexivity. Qed.

Lemma contains_pair_cons a b x y r :
  contains_pair a b (String x (String y r)) =
  (Ascii.eqb x a && Ascii.eqb y b) || contains_pair a b (String y r).
Proof. reflexivity. Qed.

Lemma replace_pair_id a b to s : contains_pair a b s = false -> replace_pair a b to s = s.
Proof.
  induction s as [|x [|y r] IH]; try done. rewrite contains_pair_cons, replace_pair_cons.
  intros [-> H]%orb_false_elim. by rewrite IH.
Qed.

Lemma replace_pair_length a b to s :
  (String.length (replace_pair a b to s) <= String.length s)%nat /\
  (contains_pair a b s = true ->
   (String.length (replace_pair a b to s) < String.length s)%nat).
Proof.
  remember (String.length s) as n eqn:Hn. assert (Hle : (String.length s <= n)%nat) by lia.
  rewrite Hn. clear Hn. revert s Hle.
  induction n as [|n IH]; intros [|x [|y r]] Hn; cbn in Hn; try lia; try (cbn; split; [lia | done]).
  rewrite replace_pair_cons, contains_pair_cons. destruct (_ && _).
  - destruct (IH r) as [H1 _]; [lia |]. cbn. lia.
  - destruct (IH (String y r)) as [H1 H2]; [cbn; lia |].
    cbn [orb].
    change (String.length (String x (replace_pair a b to (String y r))))
      with (S (String.length (replace_pair a b to (String y r)))).
    change (String.length (String x (String y r))) with (S (String.length (String y r))).
    split; [lia | intros H; specialize (H2 H); lia].
Qed.

(** The loop ends within as many rounds as the key has bytes, with no blank left next to
    a colon. *)
Lemma collapse_blanks_done s n :
  (String.length s <= n)%nat ->
  contains_pair " " ":" (collapse_blanks n s) = false /\
  contains_pair ":" " " (collapse_blanks n s) = false.
Proof.
  revert s. induction n as [|n IH]; intros s Hn; [by destruct s; cbn in Hn; [| lia] |].
  cbn [collapse_blanks]. destruct (_ || _) eqn:E; [| by apply orb_false_elim].
  apply IH. pose proof (replace_pair_length " " ":" ":" s) as [H1 H1'].
  pose proof (replace_pair_length ":" " " ":" (replace_pair " " ":" ":" s)) as [H2 H2'].
  destruct (contains_pair " " ":" s) eqn:E1; [specialize (H1' eq_refl); lia |].
  rewrite (replace_pair_id " " ":" ":" s E1) in *. specialize (H2' E). lia.
Qed.

(** ** Process-scoped spellings *)

(** Every step of [fold_key] and the loop keeps a prefix that starts with a letter,
    holds no blank, quote, backslash or capital and ends with a colon. *)

Definition ascii_only (w2 : ascii -> ascii -> bool) (w3 : ascii -> ascii -> ascii -> bool) : Prop :=
  (forall a b, w2 a b = true -> 127 < code a /\ 127 < code b) /\
  (forall a b c, w3 a b c = true -> 127 < code a /\ 127 < code b /\ 127 < code c).

Lemma ascii_only_forward : ascii_only ws2 ws3.
Proof.
  unfold ascii_only, ws2, ws3, in_range. split; intros; repeat (bool_prop; try match goal with
    | H : _ || _ = true |- _ => apply orb_prop in H as [H | H] end); lia.
Qed.

Lemma ascii_only_backward : ascii_only (fun a b => ws2 b a) (fun a b c => ws3 c b a).
Proof.
  destruct ascii_only_forward as [H2 H3]. split; intros.
  - by destruct (H2 _ _ H).
  - by destruct (H3 _ _ _ H) as (? & ? & ?).
Qed.

Section trimming.
Context (w2 : ascii -> ascii -> bool) (w3 : ascii -> ascii -> ascii -> bool).
Hypothesis Hw : ascii_only w2 w3.

(** Trimming stops at an ASCII character that is not a blank. *)
Lemma trim_with_stop c y : ws1 c = false -> code c <= 127 -> trim_with w2 w3 (String c y) = String c y.
Proof.
  intros H1 Hc. destruct Hw as [H2 H3]. cbn [trim_with]. rewrite H1.
  destruct y as [|b y]; [done |].
  destruct (w2 c b) eqn:E2; [apply H2 in E2; lia |].
  destruct y as [|d y]; [done |]. destruct (w3 c b d) eqn:E3; [apply H3 in E3; lia | done].
Qed.

Lemma trim_with_keeps c x y :
  ws1 c = false -> code c <= 127 -> exists x', trim_with w2 w3 (x +:+ String c y) = x' +:+ String c y.
Proof.
  intros H1 Hc. remember (String.length x) as n eqn:Hn.
  assert (Hle : (String.length x <= n)%nat) by lia. clear Hn. revert x Hle.
  induction n as [|n IH]; intros [|a x] Hn; cbn in Hn; try lia;
    try (exists ""; by apply trim_with_stop).
  destruct Hw as [H2 H3]. change (String a x +:+ ?t) with (String a (x +:+ t)).
  cbn [trim_with]. destruct (ws1 a); [apply IH; lia |].
  destruct x as [|b x]; cbn [String.app].
  - change ("" +:+ String c y) with (String c y).
    cbv beta iota. destruct (w2 a c) eqn:E2; [apply H2 in E2; lia |].
    destruct y as [|d y]; [by exists (String a "") |].
    destruct (w3 a c d) eqn:E3; [apply H3 in E3; lia | by exists (String a "")].
  - change (String b x +:+ ?t) with (String b (x +:+ t)).
    cbv beta iota. destruct (w2 a b); [apply IH; cbn in Hn; lia |].
    destruct x as [|d x].
    + change ("" +:+ String c y) with (String c y).
      cbv beta iota. destruct (w3 a b c) eqn:E3; [apply H3 in E3; lia | by exists (String a (String b ""))].
    + change (String d x +:+ ?t) with (String d (x +:+ t)).
      cbv beta iota. destruct (w3 a b d); [apply IH; cbn in Hn; lia |].
      by exists (String a (String b (String d x))).
Qed.
End trimming.

Definition colon : ascii := ":".

(** A string that still has [R] and a colon in front after a step. *)
Definition keeps_front (R : string) (f : string -> string) : Prop :=
  forall t, exists t', f (R +:+ String colon t) = R +:+ String colon t'.

Lemma keeps_front_compose R f g :
  keeps_front R f -> keeps_front R g -> keeps_front R (fun s => f (g s)).
Proof. intros Hf Hg t. destruct (Hg t) as [t' ->]. apply Hf. Qed.

Lemma rev_front R t : String.rev (R +:+ String colon t) = String.rev t +:+ String colon (String.rev R).
Proof.
  rewrite rev_str_app. change (String colon t) with (String colon "" +:+ t).
  rewrite rev_str_app. change (String.rev (String colon "")) with (String colon "").
  by rewrite <- str_app_assoc.
Qed.

(** A step that works on the reversed string and keeps what follows a colon. *)
Lemma keeps_front_rev R (g : string -> string) :
  (forall x y, exists x', g (x +:+ String colon y) = x' +:+ String colon y) ->
  keeps_front R (fun s => String.rev (g (String.rev s))).
Proof.
  intros Hg t. rewrite rev_front. destruct (Hg (String.rev t) (String.rev R)) as [x' ->].
  exists (String.rev x'). rewrite <- (rev_str_involutive x') at 1. rewrite <- rev_front.
  apply rev_str_involutive.
Qed.

Lemma trim_end_front R : keeps_front R trim_end.
Proof.
  apply keeps_front_rev. intros x y.
  by apply (trim_with_keeps _ _ ascii_only_backward); [| vm_compute].
Qed.

Lemma trim_start_char_front q x y :
  q <> colon -> exists x', trim_start_char q (x +:+ String colon y) = x' +:+ String colon y.
Proof.
  intros Hq. induction x as [|d x [x' IH]].
  - exists "". cbn. by destruct (Ascii.eqb_spec q colon).
  - change (String d x +:+ ?t) with (String d (x +:+ t)). cbn [trim_start_char].
    destruct (Ascii.eqb q d); [by exists x' | by exists (String d x)].
Qed.

Lemma trim_end_char_front R q : q <> colon -> keeps_front R (trim_end_char q).
Proof. intros Hq. apply keeps_front_rev. intros x y. by apply trim_start_char_front. Qed.

Lemma str_map_app f a b : str_map f (a +:+ b) = str_map f a +:+ str_map f b.
Proof.
  induction a as [|c a IH]; [done |].
  change (String c a +:+ ?t) with (String c (a +:+ t)). cbn [str_map]. by rewrite IH.
Qed.

Lemma str_map_id f s : str_all (fun c => Ascii.eqb (f c) c) s = true -> str_map f s = s.
Proof.
  induction s as [|c s IH]; [done |]. cbn [str_all str_map]. intros [H1 H2]%andb_prop.
  apply Ascii.eqb_eq in H1. by rewrite H1, IH.
Qed.

Lemma str_map_front R f :
  str_map f R = R -> f colon = colon -> keeps_front R (str_map f).
Proof.
  intros HR Hc t. exists (str_map f t). rewrite str_map_app, HR. cbn [str_map]. by rewrite Hc.
Qed.

Lemma replace_pair_skip a b to P t :
  no_char a P -> replace_pair a b to (P +:+ t) = P +:+ replace_pair a b to t.
Proof.
  unfold no_char. induction P as [|c P IH]; [done |]. cbn [str_all]. intros [Hc HP]%andb_prop.
  specialize (IH HP). apply negb_true_iff in Hc. rewrite Ascii.eqb_sym in Hc.
  change (String c P +:+ ?u) with (String c (P +:+ u)). rewrite <- IH.
  destruct (P +:+ t) as [|y r]; [done |]. rewrite replace_pair_cons.
  by rewrite Ascii.eqb_sym in Hc; rewrite Hc.
Qed.

Lemma replace_blank_colon_front R : no_char " " R -> keeps_front R (replace_pair " " colon colon).
Proof.
  intros HR t. rewrite replace_pair_skip by done.
  destruct t as [|y r]; [by exists "" |]. exists (replace_pair " " colon colon (String y r)).
  by rewrite replace_pair_cons.
Qed.

Lemma replace_colon_blank_front R :
  no_char " " R -> last_char R <> Some colon -> keeps_front R (replace_pair colon " " colon).
Proof.
  intros HR Hl t.
  assert (Hskip : replace_pair colon " " colon (R +:+ String colon t)
                  = R +:+ replace_pair colon " " colon (String colon t)).
  { revert HR Hl. unfold no_char. induction R as [|c R IH]; [done |]. intros HR Hl.
    cbn [str_all] in HR. apply andb_prop in HR as [_ HR].
    change (String c R +:+ ?u) with (String c (R +:+ u)).
    destruct R as [|d R].
    - change ("" +:+ ?u) with u. rewrite replace_pair_cons.
      destruct (Ascii.eqb_spec c colon) as [-> |]; [by destruct Hl | done].
    - rewrite <- IH; [| done | done].
      change (String d R +:+ ?u) with (String d (R +:+ u)). rewrite replace_pair_cons.
      cbn [str_all] in HR. apply andb_prop in HR as [Hd _]. apply negb_true_iff in Hd.
      by rewrite Hd, andb_false_r. }
  rewrite Hskip. destruct t as [|y r]; [by exists "" |]. rewrite replace_pair_cons.
  destruct (_ && _); eauto.
Qed.

Lemma collapse_blanks_front R n :
  no_char " " R -> last_char R <> Some colon -> keeps_front R (collapse_blanks n).
Proof.
  intros HR Hl. induction n as [|n IH]; intros t; [by exists t |]. cbn [collapse_blanks].
  destruct (_ || _); [| by exists t]. fold colon.
  change ":"%char with colon. destruct (replace_blank_colon_front R HR t) as [t1 ->].
  destruct (replace_colon_blank_front R HR Hl t1) as [t2 ->]. apply IH.
Qed.

(** Characters every step leaves alone. *)

Definition plain_char (c : ascii) : bool :=
  is_ascii_lowercase c || is_ascii_digit c || Ascii.eqb c "-" || Ascii.eqb c "_" || Ascii.eqb c ".".

Lemma plain_char_cases (p : ascii -> bool) :
  (forall c, plain_char c = true -> p c = true) ->
  forall s, str_all plain_char s = true -> str_all p s = true.
Proof.
  intros Hp s. induction s as [|c s IH]; [done |]. cbn [str_all]. intros [H1 H2]%andb_prop.
  by rewrite Hp, IH.
Qed.

(** A property of plain characters, by enumeration. *)
Ltac by_plain :=
  let c := fresh "c" in
  apply plain_char_cases; intros c;
  destruct c as [[] [] [] [] [] [] [] []]; vm_compute; first [reflexivity | discriminate].

Lemma plain_no_blank s : str_all plain_char s = true -> no_char " " s.
Proof. unfold no_char. by_plain. Qed.

Lemma plain_no_colon s : str_all plain_char s = true -> no_char colon s.
Proof. unfold no_char. by_plain. Qed.

Lemma plain_map_slash s : str_all plain_char s = true -> replace_char "\" "/" s = s.
Proof. intros H. apply str_map_id. revert s H. by_plain. Qed.

Lemma plain_lowercase s : str_all plain_char s = true -> to_ascii_lowercase s = s.
Proof. intros H. apply str_map_id. revert s H. by_plain. Qed.

Lemma str_all_rev p s : str_all p (String.rev s) = str_all p s.
Proof.
  induction s as [|c s IH]; [done |].
  change (String c s) with (String c "" +:+ s). rewrite rev_str_app, !str_all_app, IH.
  change (String.rev (String c "")) with (String c ""). apply andb_comm.
Qed.

Lemma plain_first c :
  plain_char c = true -> ws1 c = false /\ code c <= 127 /\ Ascii.eqb dquote c = false /\ Ascii.eqb squote c = false.
Proof.
  intros H. split_and!; revert H;
    destruct c as [[] [] [] [] [] [] [] []]; vm_compute; first [reflexivity | by intros].
Qed.

Lemma plain_trim_with w2 w3 s :
  ascii_only w2 w3 -> str_all plain_char s = true -> trim_with w2 w3 s = s.
Proof.
  intros Hw. destruct s as [|c s]; [done |]. cbn [str_all]. intros [(? & ? & _)%plain_first _]%andb_prop.
  by apply trim_with_stop.
Qed.

Lemma plain_trim s : str_all plain_char s = true -> trim s = s.
Proof.
  intros H. unfold trim, trim_end, trim_start. rewrite (plain_trim_with _ _ s ascii_only_forward) by done.
  rewrite plain_trim_with; [apply rev_str_involutive | apply ascii_only_backward | by rewrite str_all_rev].
Qed.

Lemma plain_trim_matches q s :
  q = dquote \/ q = squote -> str_all plain_char s = true -> trim_matches q s = s.
Proof.
  intros Hq H.
  assert (Hs : forall t, str_all plain_char t = true -> trim_start_char q t = t).
  { intros [|c t]; [done |]. cbn [str_all trim_start_char].
    intros [(_ & _ & H1 & H2)%plain_first _]%andb_prop. by destruct Hq as [-> | ->]; rewrite ?H1, ?H2. }
  unfold trim_matches, trim_end_char. rewrite (Hs s H), Hs by (by rewrite str_all_rev).
  apply rev_str_involutive.
Qed.

Lemma plain_normalize s : str_all plain_char s = true -> normalize_principal_part s = s.
Proof.
  intros H. unfold normalize_principal_part, fold_key.
  rewrite plain_trim, (plain_trim_matches dquote s), (plain_trim_matches squote s),
    plain_map_slash, plain_lowercase by auto.
  unfold normalize_path_aliases, contains_char, str_any.
  assert (Hn : str_all (fun c => negb (Ascii.eqb "/" c)) s = true) by (revert s H; by_plain).
  rewrite Hn. by rewrite orb_true_r.
Qed.

(** The first marker after a user id without a colon is where the id ends. *)
Lemma index_skip m id r :
  no_char colon id ->
  String.index 0 (String colon m) (id +:+ r)
  = option_map (Nat.add (String.length id)) (String.index 0 (String colon m) r).
Proof.
  unfold no_char. induction id as [|c id IH]; cbn [str_all]; [by destruct (String.index _ _ _) |].
  intros [Hc Hid]%andb_prop. change (String c id +:+ r) with (String c (id +:+ r)).
  cbn [String.index String.prefix]. rewrite IH by done. apply negb_true_iff in Hc.
  destruct (ascii_dec colon c) as [<- |]; [by rewrite Ascii.eqb_refl in Hc |].
  by destruct (String.index 0 (String colon m) r).
Qed.

Lemma substring_prefix id r : String.substring 0 (String.length id) (id +:+ r) = id.
Proof. induction id as [|c id IH]; [by destruct r |]. cbn. by rewrite IH. Qed.

Lemma fold_key_front R :
  replace_char "\" "/" R = R -> to_ascii_lowercase R = R -> keeps_front ("user:" +:+ R) fold_key.
Proof.
  intros Hr Hl t. unfold fold_key, trim, trim_matches.
  assert (Hs : forall q u, q = dquote \/ q = squote ->
    trim_start_char q (("user:" +:+ R) +:+ u) = ("user:" +:+ R) +:+ u)
    by (by intros q u [-> | ->]).
  change (trim_start (("user:" +:+ R) +:+ String colon t)) with (("user:" +:+ R) +:+ String colon t).
  destruct (trim_end_front ("user:" +:+ R) t) as [t1 ->]. rewrite Hs by auto.
  destruct (trim_end_char_front ("user:" +:+ R) dquote ltac:(done) t1) as [t2 ->]. rewrite Hs by auto.
  destruct (trim_end_char_front ("user:" +:+ R) squote ltac:(done) t2) as [t3 ->].
  unfold replace_char, to_ascii_lowercase in *.
  destruct (str_map_front ("user:" +:+ R) (fun c => if Ascii.eqb c "\" then "/"%char else c)) with t3
    as [t4 ->]; [by rewrite str_map_app, Hr | done |].
  apply str_map_front; [by rewrite str_map_app, Hl | done].
Qed.

Inductive marker : string -> Prop :=
| marker_exe : marker ":exe"
| marker_pid : marker ":pid".

(** The canonical key of a process-scoped spelling keeps the user id and the marker in
    front until the id is cut out. *)
Lemma normalized_front id m t :
  str_all plain_char id = true -> marker m ->
  let folded := fold_key ("user:" +:+ id +:+ m +:+ String colon t) in
  exists t', collapse_blanks (String.length folded) folded = "user:" +:+ id +:+ m +:+ String colon t'.
Proof.
  intros Hid Hm. cbv zeta.
  assert (Hassoc : forall u, "user:" +:+ id +:+ m +:+ u = ("user:" +:+ (id +:+ m)) +:+ u)
    by (intros; by rewrite <- !str_app_assoc).
  rewrite Hassoc.
  destruct (fold_key_front (id +:+ m)) with t as [t1 ->].
  { unfold replace_char. rewrite str_map_app. f_equal; [by apply plain_map_slash | by destruct Hm]. }
  { unfold to_ascii_lowercase. rewrite str_map_app. f_equal; [by apply plain_lowercase | by destruct Hm]. }
  destruct (collapse_blanks_front ("user:" +:+ (id +:+ m))
    (String.length (("user:" +:+ (id +:+ m)) +:+ String colon t1))) with t1 as [t2 ->].
  - unfold no_char. rewrite !str_all_app. apply andb_true_iff. split; [done |].
    apply andb_true_iff. split; [by apply plain_no_blank | by destruct Hm].
  - rewrite str_app_assoc. destruct Hm; by rewrite last_char_app.
  - exists t2. by rewrite Hassoc.
Qed.

(** Every process-scoped spelling of a user's key, [user:<id>:exe:...] or
    [user:<id>:pid:...], with whatever path, blanks, quotes or further markers follow,
    has the canonical key [user:<id>], so revoking the user's key covers them all. *)
Theorem process_scoped_alias_collapses id m t :
  str_all plain_char id = true -> id <> "" -> marker m ->
  canonicalize_principal_key ("user:" +:+ id +:+ m +:+ ":" +:+ t) = "user:" +:+ id.
Proof.
  intros Hid Hne Hm. unfold canonicalize_principal_key. cbv zeta.
  change (":" +:+ t) with (String colon t).
  destruct (normalized_front id m t Hid Hm) as [t' ->]. rewrite strip_prefix_app.
  assert (Hi : opt_min (String.index 0 ":exe:" (id +:+ m +:+ String colon t'))
                       (String.index 0 ":pid:" (id +:+ m +:+ String colon t'))
               = Some (String.length id)).
  { change ":exe:" with (String colon "exe:"). change ":pid:" with (String colon "pid:").
    rewrite (index_skip "exe:"), (index_skip "pid:") by (by apply plain_no_colon).
    destruct Hm.
    - replace (String.index 0 (String colon "exe:") (":exe" +:+ String colon t')) with (Some 0%nat)
        by (symmetry; destruct t'; reflexivity).
      destruct (String.index 0 (String colon "pid:") _); cbn [option_map opt_min]; f_equal; lia.
    - replace (String.index 0 (String colon "pid:") (":pid" +:+ String colon t')) with (Some 0%nat)
        by (symmetry; destruct t'; reflexivity).
      destruct (String.index 0 (String colon "exe:") _); cbn [option_map opt_min]; f_equal; lia. }
  rewrite Hi, substring_prefix, plain_normalize by done.
  destruct (is_empty id) eqn:E; [by apply is_empty_true in E | done].
Qed.

Lemma process_scoped_alias_collapses_witness :
  canonicalize_principal_key "user:1000:exe:C:\Tools\a :pid: b.exe " = "user:1000" /\
  str_all plain_char "1000" = true.
Proof.
  split; [| reflexivity].
  apply (process_scoped_alias_collapses "1000" ":exe" "C:\Tools\a :pid: b.exe "); [done | done | constructor].
Defined.
