(* ===== verification/Policy.v ===== *)
(** * Policy documents ([crates/ownmesh-policy/src/lib.rs])

    Facts about an operation, allow/ask/deny rules, their path matching, the
    evaluation of a document, the combination of two documents and the built-in
    presets.  Temporary and bounded grants are in [Grants]. *)

From stdpp Require Import base list strings gmap.
From Stdlib Require Import ZArith Lia Ascii.
From S2P Require Import Prelude RustStr RustPath.

Open Scope Z_scope.

(** ** Data *)

Inductive Decision : Type := Allow | Ask | Deny.

#[export] Instance Decision_eq_dec : EqDecision Decision.
Proof. solve_decision. Defined.

(** The discriminants, which give the derived [Ord]. *)
Definition decision_rank (d : Decision) : Z :=
  match d with Allow => 0 | Ask => 1 | Deny => 2 end.

(** [Decision::tighten]. *)
Definition tighten (self other : Decision) : Decision :=
  if decision_rank other <=? decision_rank self then self else other.

Inductive AccessPreset : Type :=
| WorkspaceOnly | Recommended | FullUserAccess | FullAccess | Custom.

#[export] Instance AccessPreset_eq_dec : EqDecision AccessPreset.
Proof. solve_decision. Defined.

Record ExecutableIdentityBinding : Type := {
  eib_path : string;
  eib_content_sha256 : string;
  eib_len : Z;
  eib_device : option Z;
  eib_inode : option Z;
  eib_path_device : option Z;
  eib_path_inode : option Z;
  eib_link_target : option string;
  eib_policy_kind : string
}.

Definition is_some {A} (o : option A) : bool :=
  match o with Some _ => true | None => false end.

Definition opt_eqb {A} `{EqDecision A} (a b : option A) : bool := bool_decide (a = b).

(** [ExecutableIdentityBinding::is_bound]. *)
Definition is_bound (b : ExecutableIdentityBinding) : bool :=
  negb (blank (eib_path b)) && negb (blank (eib_content_sha256 b))
  && negb (blank (eib_policy_kind b)).

(** [ExecutableIdentityBinding::matches]. *)
Definition identity_matches (self other : ExecutableIdentityBinding) : bool :=
  if negb (is_bound self) || negb (is_bound other) then false
  else if negb (String.eqb (eib_path self) (eib_path other))
       || negb (String.eqb (eib_content_sha256 self) (eib_content_sha256 other))
       || negb (eib_len self =? eib_len other)
       || negb (String.eqb (eib_policy_kind self) (eib_policy_kind other))
  then false
  else if (is_some (eib_device self) || is_some (eib_device other)
           || is_some (eib_inode self) || is_some (eib_inode other)
           || is_some (eib_path_device self) || is_some (eib_path_device other)
           || is_some (eib_path_inode self) || is_some (eib_path_inode other)
           || is_some (eib_link_target self) || is_some (eib_link_target other))
          && (negb (opt_eqb (eib_device self) (eib_device other))
              || negb (opt_eqb (eib_inode self) (eib_inode other))
              || negb (opt_eqb (eib_path_device self) (eib_path_device other))
              || negb (opt_eqb (eib_path_inode self) (eib_path_inode other))
              || negb (opt_eqb (eib_link_target self) (eib_link_target other)))
  then false
  else true.

Definition TAG_READS_SENSITIVE_LOCATION : string := "reads_sensitive_location".
Definition TAG_WRITES_SENSITIVE_LOCATION : string := "writes_sensitive_location".

Record OperationFacts : Type := {
  f_capability : string;
  f_kind : string;
  f_path : option string;
  f_program : option string;
  f_elevated : bool;
  f_workspace_relative : bool;
  f_tags : list string;
  f_executable_identity : option ExecutableIdentityBinding;
  f_invocation_identity : option ExecutableIdentityBinding;
  f_workspace_id : option string;
  f_tool : option string
}.

Record PolicyRule : Type := {
  r_id : string;
  r_decision : Decision;
  r_priority : Z;
  r_capability : string;
  r_when_elevated : option bool;
  r_when_kind : option string;
  r_path_prefix : option string;
  r_program_equals : option string;
  r_when_tag : option string;
  r_description : option string
}.

Record PolicyDocument : Type := {
  d_preset : AccessPreset;
  d_rules : list PolicyRule;
  d_note : option string
}.

Record PolicyVerdict : Type := {
  v_decision : Decision;
  v_matched_rule_id : option string;
  v_reason : string
}.

(** ** Path matching *)

(** The loop of [path_components]: [.] is dropped, [..] refuses. *)
Fixpoint plain_components (cs : list component) : option (list component) :=
  match cs with
  | [] => Some []
  | CurDir :: t => plain_components t
  | ParentDir :: _ => None
  | c :: t => match plain_components t with
              | Some out => Some (c :: out)
              | None => None
              end
  end.

Definition path_components (value : string) : option (list component) :=
  if is_empty value then None
  else match plain_components (components value) with
       | Some [] | None => None
       | Some out => Some out
       end.

(** The loop of [normalize] in [rule_path_prefix_matches]; [acc] is the
    [PathBuf], last component first. *)
Fixpoint collapse (acc : list component) (cs : list component) : option (list component) :=
  match cs with
  | [] => Some acc
  | CurDir :: t => collapse acc t
  | ParentDir :: t => match pop acc with
                      | Some acc' => collapse acc' t
                      | None => None
                      end
  | c :: t => collapse (c :: acc) t
  end.

(** The [normalize] closure. *)
Definition normalize (value : string) : option string :=
  match collapse [] (components value) with
  | None => None
  | Some acc =>
      let rendered := render (rev acc) in
      let trailing_separator := ends_with value "/" in
      Some (if trailing_separator && negb (ends_with rendered "/")
            then rendered +:+ "/" else rendered)
  end.

Definition rule_path_prefix_matches (prefix candidate : string) : bool :=
  if negb (has_parent prefix) && negb (has_parent candidate) then starts_with candidate prefix
  else match normalize prefix with
       | None => false
       | Some prefix => match normalize candidate with
                        | None => false
                        | Some candidate => starts_with candidate prefix
                        end
       end.

Definition path_scope_contains (scope candidate : string) : bool :=
  match path_components scope, path_components candidate with
  | Some scope, Some candidate =>
      (zlen scope <=? zlen candidate)
      && forallb (fun '(a, b) => bool_decide (a = b)) (zip scope candidate)
  | _, _ => false
  end.

Definition capability_match (pattern capability : string) : bool :=
  if String.eqb pattern "*" then true
  else match strip_suffix ".*" pattern with
       | Some prefix => String.eqb capability prefix
                        || starts_with capability (prefix +:+ ".")
       | None => String.eqb pattern capability
       end.

(** ** Rules *)

(** [PolicyRule::matches]. *)
Definition rule_matches (r : PolicyRule) (facts : OperationFacts) : bool :=
  if negb (capability_match (r_capability r) (f_capability facts)) then false
  else if match r_when_elevated r with
          | Some e => negb (Bool.eqb e (f_elevated facts))
          | None => false end then false
  else if match r_when_kind r with
          | Some k => negb (String.eqb k (f_kind facts))
          | None => false end then false
  else if match r_when_tag r with
          | Some tag => negb (existsb (fun c => String.eqb c tag) (f_tags facts))
          | None => false end then false
  else if match r_path_prefix r with
          | Some prefix => match f_path facts with
                           | Some p => negb (rule_path_prefix_matches prefix p)
                           | None => true
                           end
          | None => false end then false
  else if match r_program_equals r with
          | Some prog => match f_program facts with
                         | Some p => negb (String.eqb p prog)
                         | None => true
                         end
          | None => false end then false
  else true.

Definition matched_rules (doc : PolicyDocument) (facts : OperationFacts) : list PolicyRule :=
  List.filter (fun r => rule_matches r facts) (d_rules doc).

(** The comparator of the sort: severity descending, then priority descending. *)
Definition rule_cmp (a b : PolicyRule) : comparison :=
  then_with (Z.compare (decision_rank (r_decision b)) (decision_rank (r_decision a)))
            (Z.compare (r_priority b) (r_priority a)).

Definition unwrap_or {A} (o : option A) (d : A) : A :=
  match o with Some x => x | None => d end.

Definition evaluate (doc : PolicyDocument) (facts : OperationFacts) : PolicyVerdict :=
  match sort_by rule_cmp (matched_rules doc facts) with
  | [] => {| v_decision := Allow; v_matched_rule_id := None;
             v_reason := "no matching rule; default allow" |}
  | top :: _ =>
      {| v_decision := r_decision top;
         v_matched_rule_id := Some (r_id top);
         v_reason := unwrap_or (r_description top) ("matched rule " +:+ r_id top) |}
  end.

Definition evaluate_combined (cloud local : PolicyDocument) (facts : OperationFacts)
    : PolicyVerdict :=
  let c := evaluate cloud facts in
  let l := evaluate local facts in
  let decision := tighten (v_decision c) (v_decision l) in
  let '(matched_rule_id, reason) :=
    if bool_decide (decision = v_decision c) && negb (bool_decide (decision = v_decision l))
    then (v_matched_rule_id c, "cloud: " +:+ v_reason c)
    else if bool_decide (decision = v_decision l) && negb (bool_decide (decision = v_decision c))
    then (v_matched_rule_id l, "local: " +:+ v_reason l)
    else if decision_rank (v_decision l) <=? decision_rank (v_decision c)
    then (v_matched_rule_id c, "combined cloud+local (cloud): " +:+ v_reason c)
    else (v_matched_rule_id l, "combined cloud+local (local): " +:+ v_reason l) in
  {| v_decision := decision; v_matched_rule_id := matched_rule_id; v_reason := reason |}.

(** ** Presets *)

Definition sensitive_read_ask_rule (id : string) : PolicyRule :=
  {| r_id := id; r_decision := Ask; r_priority := 60;
     r_capability := "filesystem.read";
     r_when_elevated := None; r_when_kind := None; r_path_prefix := None;
     r_program_equals := None; r_when_tag := Some TAG_READS_SENSITIVE_LOCATION;
     r_description := Some "confirm reads of credential-like paths" |}.

(** A literal of the presets: only id, decision, priority, capability, the
    elevation condition and the description are set. *)
Definition preset_rule (id : string) (d : Decision) (priority : Z) (cap : string)
    (elevated : option bool) (desc : string) : PolicyRule :=
  {| r_id := id; r_decision := d; r_priority := priority; r_capability := cap;
     r_when_elevated := elevated; r_when_kind := None; r_path_prefix := None;
     r_program_equals := None; r_when_tag := None; r_description := Some desc |}.

Definition workspace_only_document : PolicyDocument :=
  {| d_preset := WorkspaceOnly;
     d_note := Some "Workspace-relative FS only; command.run denied until OS process confinement exists";
     d_rules :=
       [ preset_rule "ws-deny-elevated" Deny 100 "*" (Some true)
           "elevated ops denied in Workspace Only";
         preset_rule "ws-deny-command-until-confinement" Deny 95 "command.run" None
           "command.run denied in workspace_only until OS process confinement";
         preset_rule "ws-deny-session-open-until-confinement" Deny 95 "session.open" None
           "session.open denied in workspace_only until OS process confinement";
         preset_rule "ws-ask-write" Ask 50 "filesystem.write" None "confirm writes";
         sensitive_read_ask_rule "ws-ask-sensitive-read" ] |}.

Definition recommended_document : PolicyDocument :=
  {| d_preset := Recommended;
     d_note := Some "Balanced defaults: ask on write, allow reads; command.run denied until OS confinement";
     d_rules :=
       [ preset_rule "rec-ask-elevated" Ask 100 "*" (Some true) "confirm elevated";
         preset_rule "rec-deny-command-until-confinement" Deny 95 "command.run" None
           "command.run denied in recommended until OS process confinement";
         preset_rule "rec-deny-session-open-until-confinement" Deny 95 "session.open" None
           "session.open denied in recommended until OS process confinement";
         preset_rule "rec-ask-write" Ask 50 "filesystem.write" None "confirm writes";
         preset_rule "rec-allow-read" Allow 10 "filesystem.read" None "allow reads";
         sensitive_read_ask_rule "rec-ask-sensitive-read" ] |}.

Definition preset_document (preset : AccessPreset) : PolicyDocument :=
  match preset with
  | WorkspaceOnly => workspace_only_document
  | Recommended => recommended_document
  | FullUserAccess =>
      {| d_preset := FullUserAccess;
         d_note := Some "User-level full access; elevated still asks";
         d_rules := [ preset_rule "fua-ask-elevated" Ask 100 "*" (Some true)
                        "confirm elevated only" ] |}
  | FullAccess =>
      {| d_preset := FullAccess;
         d_note := Some "Full Access: all allow, no hidden denies"; d_rules := [] |}
  | Custom =>
      {| d_preset := Custom;
         d_note := Some "Empty custom policy; default allow until rules added";
         d_rules := [] |}
  end.

Definition full_access_has_no_hidden_restrictive_rules (doc : PolicyDocument) : bool :=
  bool_decide (d_preset doc = FullAccess)
  && forallb (fun r => bool_decide (r_decision r = Allow)) (d_rules doc).

Definition decision_key (d : Decision) : string :=
  match d with Allow => "allow" | Ask => "ask" | Deny => "deny" end.

Definition decision_histogram (doc : PolicyDocument) : gmap string Z :=
  foldl (fun m r => let key := decision_key (r_decision r) in
                    <[key := default 0 (m !! key) + 1]> m)
        (<["allow" := 0]> (<["ask" := 0]> (<["deny" := 0]> ∅)))
        (d_rules doc).

(** ** Properties of decisions *)

Lemma decision_rank_inj a b : decision_rank a = decision_rank b -> a = b.
Proof. by destruct a, b. Qed.

Lemma tighten_rank a b :
  decision_rank (tighten a b) = Z.max (decision_rank a) (decision_rank b).
Proof. by destruct a, b. Qed.

Lemma tighten_comm a b : tighten a b = tighten b a.
Proof. by destruct a, b. Qed.

Lemma tighten_allow_l d : tighten Allow d = d.
Proof. by destruct d. Qed.

Lemma tighten_assoc a b c : tighten a (tighten b c) = tighten (tighten a b) c.
Proof. by destruct a, b, c. Qed.

(** [a] outranks [b]: a more severe decision, or the same with a higher priority. *)
Definition outranks (a b : PolicyRule) : Prop :=
  decision_rank (r_decision b) < decision_rank (r_decision a)
  \/ (r_decision a = r_decision b /\ r_priority b < r_priority a).

Lemma rule_cmp_gt a b : rule_cmp a b = Gt <-> outranks b a.
Proof.
  unfold rule_cmp, outranks, then_with.
  destruct (Z.compare_spec (decision_rank (r_decision b)) (decision_rank (r_decision a)))
    as [He | He | He].
  - apply decision_rank_inj in He. rewrite He. rewrite Z.compare_gt_iff. intuition lia.
  - split; [done |]. intros [? | [Heq _]]; [lia | rewrite Heq in He; lia].
  - split; [auto | done].
Qed.

Lemma outranks_neg_trans a b c : ~ outranks b a -> ~ outranks c b -> ~ outranks c a.
Proof.
  unfold outranks. intros Hba Hcb Hca.
  assert (Ha : decision_rank (r_decision b) <= decision_rank (r_decision a)) by
    (apply Z.nlt_ge; tauto).
  assert (Hb : decision_rank (r_decision c) <= decision_rank (r_decision b)) by
    (apply Z.nlt_ge; tauto).
  destruct Hca as [? | [He Hp]]; [lia |].
  assert (r_decision a = r_decision b) by (apply decision_rank_inj; rewrite He in *; lia).
  assert (r_decision b = r_decision c) by (apply decision_rank_inj; congruence).
  apply Hba. right. split; [done |].
  destruct (Z.le_gt_cases (r_priority c) (r_priority b)); [lia | exfalso; apply Hcb; right; split; [congruence | lia]].
Qed.

Lemma rule_cmp_trans a b c : rule_cmp a b <> Gt -> rule_cmp b c <> Gt -> rule_cmp a c <> Gt.
Proof. rewrite !rule_cmp_gt. apply outranks_neg_trans. Qed.

Lemma rule_cmp_total a b : rule_cmp a b = Gt -> rule_cmp b a <> Gt.
Proof.
  rewrite !rule_cmp_gt. unfold outranks. intros [? | [? ?]] [? | [? ?]];
    try lia; match goal with H : r_decision _ = r_decision _ |- _ => rewrite H in *; lia end.
Qed.

Lemma sort_rules_head l top rest :
  sort_by rule_cmp l = top :: rest ->
  exists pre post, l = pre ++ top :: post /\
    Forall (fun r => outranks top r) pre /\ Forall (fun r => ~ outranks r top) post.
Proof.
  intros E. apply sort_by_head in E as (pre & post & -> & Hpre & Hpost);
    eauto using rule_cmp_trans, rule_cmp_total.
  exists pre, post. split_and!; [done | |].
  - eapply Forall_impl; [exact Hpre |]. intros r. apply rule_cmp_gt.
  - eapply Forall_impl; [exact Hpost |]. cbn. intros r Hr Ho. by apply Hr, rule_cmp_gt.
Qed.

(** The verdict that names rule [top]. *)
Definition rule_verdict (top : PolicyRule) : PolicyVerdict :=
  {| v_decision := r_decision top;
     v_matched_rule_id := Some (r_id top);
     v_reason := unwrap_or (r_description top) ("matched rule " +:+ r_id top) |}.

(** C27: evaluation of a policy document. Without a matching rule the verdict is
    the default allow; otherwise it is the verdict of one matching rule that no
    matching rule outranks (deny over ask over allow, then the higher
    priority), and among equals the first of the document. *)
Theorem evaluate_first_best doc facts :
  (matched_rules doc facts = [] /\
   evaluate doc facts = {| v_decision := Allow; v_matched_rule_id := None;
                           v_reason := "no matching rule; default allow" |})
  \/ exists pre top post,
       matched_rules doc facts = pre ++ top :: post /\
       evaluate doc facts = rule_verdict top /\
       Forall (fun r => outranks top r) pre /\
       Forall (fun r => ~ outranks r top) post.
Proof.
  unfold evaluate. destruct (sort_by rule_cmp _) as [|top rest] eqn:E.
  - left. by apply sort_by_nil_inv in E.
  - right. apply sort_rules_head in E as (pre & post & -> & Hpre & Hpost).
    exists pre, top, post. done.
Qed.

(** The most severe decision of a list of rules. *)
Definition severest (rules : list PolicyRule) : Decision :=
  foldr (fun r d => tighten (r_decision r) d) Allow rules.

Lemma severest_cons r l : severest (r :: l) = tighten (r_decision r) (severest l).
Proof. reflexivity. Qed.

Lemma severest_ge rules r :
  r ∈ rules -> decision_rank (r_decision r) <= decision_rank (severest rules).
Proof.
  induction 1 as [r l | r x l H IH]; rewrite severest_cons, tighten_rank; lia.
Qed.

Lemma severest_attained rules : rules <> [] -> exists r, r ∈ rules /\ r_decision r = severest rules.
Proof.
  induction rules as [|r l IH]; [done |]. intros _. rewrite severest_cons.
  destruct l as [|r' l'].
  - exists r. split; [left | by destruct (r_decision r)].
  - destruct IH as (x & Hx & Hd); [done |]. rewrite <- Hd. unfold tighten.
    destruct (_ <=? _); [exists r | exists x]; split; try done; [left | by right].
Qed.

Lemma evaluate_severest doc facts :
  v_decision (evaluate doc facts) = severest (matched_rules doc facts).
Proof.
  unfold evaluate. destruct (sort_by _ _) as [|top rest] eqn:E.
  { by apply sort_by_nil_inv in E as ->. }
  apply sort_rules_head in E as (pre & post & -> & Hpre & Hpost).
  cbn. apply decision_rank_inj.
  pose proof (severest_ge (pre ++ top :: post) top ltac:(set_solver)).
  destruct (severest_attained (pre ++ top :: post)) as (r & Hr & Hd); [by destruct pre |].
  rewrite <- Hd in *. enough (~ outranks r top) by (unfold outranks in *; lia).
  apply elem_of_app in Hr as [Hr | [-> | Hr]%elem_of_cons].
  - rewrite Forall_forall in Hpre. specialize (Hpre _ Hr).
    intros Ho. revert Hpre. apply rule_cmp_gt in Ho. rewrite <- rule_cmp_gt.
    by apply rule_cmp_total.
  - unfold outranks. lia.
  - rewrite Forall_forall in Hpost. auto.
Qed.

Lemma severest_perm l k : l ≡ₚ k -> severest l = severest k.
Proof.
  induction 1 as [| x l k _ IH | x y l | ]; rewrite ?severest_cons; try congruence.
  rewrite !tighten_assoc. f_equal. apply tighten_comm.
Qed.

Lemma severest_app l k : severest (l ++ k) = tighten (severest l) (severest k).
Proof.
  induction l as [|x l IH]; [symmetry; apply tighten_allow_l |].
  rewrite <- app_comm_cons, !severest_cons. by rewrite IH, tighten_assoc.
Qed.

Lemma filter_perm {A} (p : A -> bool) l k : l ≡ₚ k -> List.filter p l ≡ₚ List.filter p k.
Proof.
  induction 1 as [| x l k _ IH | x y l | l k m _ IH1 _ IH2]; cbn; [done | | | by rewrite IH1].
  - destruct (p x); by rewrite IH.
  - destruct (p x), (p y); try done. apply perm_swap.
Qed.

(** The decision of a document depends on which rules it holds, not on their
    order, and adding rules anywhere can only tighten it, never loosen it. *)
Theorem evaluate_monotone doc doc' extra facts :
  d_rules doc' ≡ₚ d_rules doc ++ extra ->
  v_decision (evaluate doc' facts) =
    tighten (v_decision (evaluate doc facts))
            (severest (List.filter (fun r => rule_matches r facts) extra)).
Proof.
  intros Hp. rewrite !evaluate_severest. unfold matched_rules.
  rewrite (severest_perm _ _ (filter_perm (fun r => rule_matches r facts) _ _ Hp)).
  by rewrite List.filter_app, severest_app.
Qed.

Definition elevation_facts : OperationFacts :=
  {| f_capability := "command.run"; f_kind := "process"; f_path := None;
     f_program := Some "sudo"; f_elevated := true; f_workspace_relative := true; f_tags := [];
     f_executable_identity := None; f_invocation_identity := None;
     f_workspace_id := None; f_tool := None |}.

(** The rule that denies elevation, added to a document that asks. *)
Lemma evaluate_monotone_witness :
  exists doc doc' extra, d_rules doc' ≡ₚ d_rules doc ++ extra /\
    v_decision (evaluate doc elevation_facts) = Ask /\
    v_decision (evaluate doc' elevation_facts) = Deny.
Proof.
  set (deny := preset_rule "deny-elevated" Deny 1 "*" (Some true) "no elevation").
  set (doc := preset_document FullUserAccess).
  set (doc' := {| d_preset := Custom; d_rules := deny :: d_rules doc; d_note := None |}).
  exists doc, doc', [deny].
  assert (Hp : d_rules doc' ≡ₚ d_rules doc ++ [deny]) by apply Permutation_cons_append.
  split_and!; [exact Hp | reflexivity |].
  rewrite (evaluate_monotone doc doc' [deny] elevation_facts Hp). reflexivity.
Defined.

(** Combining a cloud and a local document takes the tighter of the two
    decisions, and the rule it names comes from a document that reached exactly
    that decision. *)
Theorem evaluate_combined_tightest cloud local facts :
  let v := evaluate_combined cloud local facts in
  let c := evaluate cloud facts in
  let l := evaluate local facts in
  v_decision v = tighten (v_decision c) (v_decision l) /\
  ((v_matched_rule_id v = v_matched_rule_id c /\ v_decision v = v_decision c)
   \/ (v_matched_rule_id v = v_matched_rule_id l /\ v_decision v = v_decision l)).
Proof.
  unfold evaluate_combined. cbv zeta.
  destruct (evaluate cloud facts) as [dc ic rc], (evaluate local facts) as [dl il rl].
  cbn [v_decision v_matched_rule_id v_reason].
  destruct dc, dl; cbn; auto.
Qed.

(** ** Presets *)

Lemma capability_match_exact p c :
  String.eqb p "*" = false -> strip_suffix ".*" p = None ->
  capability_match p c = String.eqb p c.
Proof. unfold capability_match. by intros -> ->. Qed.

(** What each preset promises, as a table over the facts. *)
Definition preset_promise (preset : AccessPreset) (facts : OperationFacts) : Decision :=
  let cap := f_capability facts in
  let executes := String.eqb "command.run" cap || String.eqb "session.open" cap in
  let sensitive := existsb (fun c => String.eqb c TAG_READS_SENSITIVE_LOCATION) (f_tags facts) in
  let asks := String.eqb "filesystem.write" cap
              || (String.eqb "filesystem.read" cap && sensitive) in
  match preset with
  | WorkspaceOnly =>
      if f_elevated facts || executes then Deny else if asks then Ask else Allow
  | Recommended =>
      if executes then Deny else if f_elevated facts || asks then Ask else Allow
  | FullUserAccess => if f_elevated facts then Ask else Allow
  | FullAccess | Custom => Allow
  end.

(** The built-in presets decide exactly by the table [preset_promise] for
    every operation: the restricted presets deny command execution and session
    opening whatever else the facts say, writes and sensitive reads are asked,
    elevation is denied or asked, and Full Access and Custom allow everything. *)
Theorem preset_decides preset facts :
  v_decision (evaluate (preset_document preset) facts) = preset_promise preset facts.
Proof.
  rewrite evaluate_severest. unfold matched_rules, preset_promise.
  destruct facts as [cap kind path prog elev rel tags xi ii ws tool].
  cbn [f_capability f_tags f_elevated].
  destruct preset; cbn [preset_document workspace_only_document recommended_document d_rules];
    try reflexivity;
    unfold List.filter, rule_matches, preset_rule, sensitive_read_ask_rule;
    cbn [r_capability r_when_elevated r_when_kind r_when_tag r_path_prefix r_program_equals
         f_capability f_elevated f_kind f_tags];
    rewrite ?(capability_match_exact "command.run"), ?(capability_match_exact "session.open"),
      ?(capability_match_exact "filesystem.write"), ?(capability_match_exact "filesystem.read")
      by reflexivity;
    change (capability_match "*" cap) with true; cbn [negb];
    destruct elev; try destruct (existsb (fun c => String.eqb c TAG_READS_SENSITIVE_LOCATION) tags);
    destruct (String.eqb_spec "command.run" cap) as [<- | _];
    try destruct (String.eqb_spec "session.open" cap) as [<- | _];
    try destruct (String.eqb_spec "filesystem.write" cap) as [<- | _];
    try destruct (String.eqb_spec "filesystem.read" cap) as [<- | _]; reflexivity.
Qed.

(** A document that passes the Full Access conformance check allows everything. *)
Lemma full_access_check_sound doc facts :
  full_access_has_no_hidden_restrictive_rules doc = true ->
  v_decision (evaluate doc facts) = Allow.
Proof.
  unfold full_access_has_no_hidden_restrictive_rules. intros H. bool_prop.
  rewrite evaluate_severest. unfold matched_rules.
  rewrite forallb_forall in H0. induction (d_rules doc) as [|r l IH]; [done |]. cbn.
  assert (Hl : severest (List.filter (fun r => rule_matches r facts) l) = Allow).
  { apply IH. intros x Hx. apply H0. by right. }
  destruct (rule_matches r facts); [rewrite severest_cons, Hl | done].
  specialize (H0 r (or_introl eq_refl)). bool_prop. by rewrite H0.
Qed.

(** ** Paths *)

(** The lexical resolution of a path: [.] dropped, [..] removing the previous
    name, failing above the start. *)
Definition resolve (v : string) : option (list component) :=
  match collapse [] (components v) with
  | Some acc => Some (rev acc)
  | None => None
  end.

Definition root_tail (root : bool) : list component := if root then [RootDir] else [].

Lemma collapse_names root rns cs acc :
  Forall valid_name rns ->
  Forall (fun c => c = ParentDir \/ exists s, c = Normal s /\ valid_name s) cs ->
  collapse (map Normal rns ++ root_tail root) cs = Some acc ->
  exists rns', acc = map Normal rns' ++ root_tail root /\ Forall valid_name rns'.
Proof.
  intros Hr Hcs. revert rns Hr. induction Hcs as [|c cs Hc _ IH]; intros rns Hr H.
  { cbn in H. injection H as <-. eauto. }
  destruct Hc as [-> | (s & -> & Hs)]; cbn [collapse] in H.
  - destruct rns as [|n rns].
    + destruct root; discriminate H.
    + inversion Hr; subst. cbn [map app pop] in H. eauto.
  - change (Normal s :: map Normal rns ++ root_tail root)
      with (map Normal (s :: rns) ++ root_tail root) in H. eauto.
Qed.

Lemma components_body v :
  exists h t, components v = h ++ t /\
    (h = [] \/ h = [RootDir] \/ h = [CurDir]) /\
    Forall (fun c => c = ParentDir \/ exists s, c = Normal s /\ valid_name s) t.
Proof.
  destruct (components_shape v) as (h & t & E & Hh & Ht).
  exists h, t. split; [exact E | split; [exact Hh |]].
  apply Forall_forall. intros c Hc. rewrite Forall_forall in Ht.
  destruct (Ht _ Hc) as [Hroot Hcur]. destruct c; [done | done | by left | right].
  eexists. split; [done |]. apply (components_names v). rewrite E. apply elem_of_app. by right.
Qed.

Lemma resolve_clean v cs :
  resolve v = Some cs -> exists root ns, cs = clean_path root ns /\ Forall valid_name ns.
Proof.
  unfold resolve. destruct (collapse _ _) as [acc|] eqn:H; [| done]. intros [= <-].
  destruct (components_body v) as (h & t & E & Hh & Ht). rewrite E in H.
  assert (exists root, collapse (root_tail root) t = Some acc) as [root Hc].
  { destruct Hh as [-> | [-> | ->]]; [exists false | exists true | exists false]; exact H. }
  apply (collapse_names root [] t) in Hc as (rns & -> & Hv); [| done | done].
  exists root, (rev rns). split; [| by apply Forall_rev].
  unfold clean_path. rewrite rev_app_distr, map_rev. by destruct root.
Qed.

Lemma normalize_components v cs n :
  resolve v = Some cs -> normalize v = Some n ->
  cs <> [] \/ ends_with v "/" = false -> components n = cs.
Proof.
  intros Hr Hn Hne. pose proof (resolve_clean _ _ Hr) as (root & ns & -> & Hv).
  unfold resolve, normalize in *. destruct (collapse _ _) as [acc|]; [| done].
  injection Hr as Hacc. rewrite Hacc, render_clean in Hn by done. injection Hn as <-.
  unfold clean_path. destruct ns as [|m ns].
  - destruct root; [destruct (ends_with v "/"); reflexivity |].
    destruct Hne as [Hne | ->]; [by destruct Hne | reflexivity].
  - rewrite ends_join by done. cbn [negb]. rewrite andb_true_r.
    destruct root, (ends_with v "/"); cbn [app map];
      rewrite <- ?str_app_assoc, ?components_root.
    + rewrite split_char_join, segments_app, segments_valid by
        auto using valid_names_no_sep.
      by rewrite app_nil_r.
    + rewrite split_char_join_end, segments_valid by
        auto using valid_names_no_sep. done.
    + change ("" +:+ join "/" (m :: ns) +:+ "/") with (join "/" (m :: ns) +:+ "/" +:+ "").
      rewrite components_join by done. by rewrite app_nil_r.
    + change ("" +:+ join "/" (m :: ns)) with (join "/" (m :: ns)).
      by rewrite components_join_end.
Qed.

Lemma collapse_no_parent cs acc :
  ParentDir ∉ cs ->
  collapse acc cs = Some (rev (List.filter (fun c => negb (bool_decide (c = CurDir))) cs) ++ acc).
Proof.
  revert acc. induction cs as [|c cs IH]; intros acc Hp; [done |].
  apply not_elem_of_cons in Hp as [Hc Hp].
  destruct c; try done; cbn [collapse List.filter]; rewrite IH by done;
    case_bool_decide; try done; cbn [negb rev]; by rewrite <- app_assoc.
Qed.

Lemma resolve_no_parent v :
  has_parent v = false ->
  resolve v = Some (List.filter (fun c => negb (bool_decide (c = CurDir))) (components v)).
Proof.
  intros Hp. unfold resolve. rewrite collapse_no_parent.
  - by rewrite app_nil_r, rev_involutive.
  - rewrite <- has_parent_spec. by rewrite Hp.
Qed.

Lemma filter_no_curdir cs :
  CurDir ∉ cs -> List.filter (fun c => negb (bool_decide (c = CurDir))) cs = cs.
Proof.
  induction cs as [|c cs IH]; intros Hn; [done |]. apply not_elem_of_cons in Hn as [Hc Hn].
  cbn [List.filter]. rewrite bool_decide_false by done. cbn. by rewrite IH.
Qed.

(** Names followed by a separator and anything: no [.] in the components. *)
Lemma dir_no_curdir ns r :
  Forall valid_name ns -> ns <> [] -> CurDir ∉ components (join "/" ns +:+ "/" +:+ r).
Proof.
  intros Hv Hne. rewrite components_join by done. intros [H | H]%elem_of_app.
  - by apply list_elem_of_fmap in H as (? & ? & _).
  - apply segments_no_special in H as [? | (? & ? & _)]; done.
Qed.

Lemma dir_no_parent ns :
  Forall valid_name ns -> ns <> [] -> has_parent (join "/" ns +:+ "/" +:+ "") = false.
Proof.
  intros Hv Hne. apply not_true_iff_false. rewrite has_parent_spec, components_join by done.
  rewrite app_nil_r. by intros (? & ? & _)%list_elem_of_fmap.
Qed.

Lemma dir_normalize ns :
  Forall valid_name ns -> ns <> [] ->
  normalize (join "/" ns +:+ "/" +:+ "") = Some (join "/" ns +:+ "/" +:+ "").
Proof.
  intros Hv Hne. unfold normalize.
  pose proof (dir_no_parent ns Hv Hne) as Hp.
  rewrite collapse_no_parent by (rewrite <- has_parent_spec; by rewrite Hp).
  rewrite app_nil_r, rev_involutive, filter_no_curdir by by apply dir_no_curdir.
  rewrite components_join by done. change (segments (split_char "/" "")) with (@nil component).
  rewrite app_nil_r. change (map Normal ns) with (clean_path false ns).
  rewrite render_clean by done. change ("" +:+ join "/" ns) with (join "/" ns).
  pose proof (ends_join ns Hv Hne "") as He.
  change ("" +:+ join "/" ns) with (join "/" ns) in He. rewrite He.
  replace (ends_with (join "/" ns +:+ "/" +:+ "") "/") with true; [done |].
  symmetry. apply ends_with_char. by apply last_char_app.
Qed.

(** A rule whose prefix is a directory, written as plain names with a
    trailing separator, matches only paths whose lexical resolution lies under
    that directory, however many [..] the path goes through: traversal does not
    escape an allow prefix. *)
Theorem directory_prefix_contains ns candidate :
  Forall valid_name ns -> ns <> [] ->
  rule_path_prefix_matches (join "/" ns +:+ "/" +:+ "") candidate = true ->
  exists rest, resolve candidate = Some (map Normal ns ++ rest).
Proof.
  intros Hv Hne. unfold rule_path_prefix_matches. rewrite dir_no_parent by done.
  rewrite dir_normalize by done. cbn [negb andb].
  destruct (has_parent candidate) eqn:Hp; cbn [negb].
  - destruct (normalize candidate) as [n|] eqn:Hn; [| done].
    intros [r ->]%starts_with_spec. rewrite <- !str_app_assoc in Hn. cbn [String.append] in Hn.
    assert (exists cs, resolve candidate = Some cs) as [cs Hr].
    { unfold resolve, normalize in *. destruct (collapse _ _); eauto; done. }
    assert (Hcs : cs <> [] \/ ends_with candidate "/" = false).
    { destruct cs; [| by left]. right. unfold resolve, normalize in *.
      destruct (collapse _ _) as [acc|]; [| done]. injection Hr as Hr. rewrite Hr in Hn.
      destruct (ends_with candidate "/"); [| done]. exfalso.
      pose proof (join_relative ns (String "/" r) Hv Hne) as Hrel.
      injection Hn as Hn. rewrite <- Hn in Hrel. discriminate Hrel. }
    pose proof (normalize_components _ _ _ Hr Hn Hcs) as Hc.
    change (String "/" r) with ("/" +:+ r) in Hc. rewrite components_join in Hc by done.
    rewrite Hr, <- Hc. eauto.
  - intros [r ->]%starts_with_spec. rewrite <- !str_app_assoc in *. cbn [String.append] in *.
    change (String "/" r) with ("/" +:+ r) in *.
    rewrite resolve_no_parent by done. rewrite filter_no_curdir by by apply dir_no_curdir.
    rewrite components_join by done. eauto.
Qed.

Lemma directory_prefix_contains_witness :
  rule_path_prefix_matches "proj/" "proj/a/../b" = true /\
  exists rest, resolve "proj/a/../b" = Some (map Normal ["proj"] ++ rest).
Proof.
  split; [reflexivity |]. apply (directory_prefix_contains ["proj"] "proj/a/../b").
  - repeat constructor; done.
  - done.
  - reflexivity.
Defined.

(** A leading [./] hides a path from a textual rule prefix: the path resolves
    to the very names of the prefix, and no rule with that prefix matches it.
    The collapse runs only when a [..] is present. *)
Theorem dot_slash_dodges_prefix ns :
  Forall valid_name ns -> ns <> [] ->
  resolve ("./" +:+ join "/" ns) = resolve (join "/" ns) /\
  rule_path_prefix_matches (join "/" ns) (join "/" ns) = true /\
  rule_path_prefix_matches (join "/" ns) ("./" +:+ join "/" ns) = false.
Proof.
  intros Hv Hne.
  assert (Hc : components ("./" +:+ join "/" ns) = CurDir :: map Normal ns).
  { unfold components. change (is_absolute ("./" +:+ join "/" ns)) with false.
    change ("./" +:+ join "/" ns) with ("." +:+ String "/" (join "/" ns)).
    unfold MAIN_SEPARATOR. rewrite split_char_app by reflexivity.
    rewrite split_char_join_end, segments_valid by auto using valid_names_no_sep. done. }
  assert (Hp : has_parent (join "/" ns) = false /\ has_parent ("./" +:+ join "/" ns) = false).
  { split; apply not_true_iff_false; rewrite has_parent_spec, ?Hc, ?components_join_end by done.
    - by intros (? & ? & _)%list_elem_of_fmap.
    - by intros [? | (? & ? & _)%list_elem_of_fmap]%elem_of_cons. }
  destruct Hp as [Hp1 Hp2]. split_and!.
  - unfold resolve. by rewrite Hc, components_join_end.
  - unfold rule_path_prefix_matches. rewrite Hp1. apply starts_with_refl.
  - unfold rule_path_prefix_matches. rewrite Hp1, Hp2. cbn [negb andb].
    apply not_true_iff_false. rewrite starts_with_spec. intros [r Hr].
    destruct ns as [|n ns]; [done |]. inversion Hv as [|? ? (H1 & H2 & _ & H4) _]; subst.
    unfold no_char in H4. destruct n as [|a [|b n]]; [done | |].
    + assert (a <> "."%char) by congruence.
      destruct ns; [| rewrite join_cons in Hr]; cbn in Hr; congruence.
    + assert (b <> "/"%char) by (intros ->; cbn in H4; by rewrite andb_false_r in H4).
      destruct ns; [| rewrite join_cons in Hr]; cbn in Hr; congruence.
Qed.

Lemma dot_slash_dodges_prefix_witness :
  rule_path_prefix_matches "secrets" "./secrets" = false.
Proof. apply (dot_slash_dodges_prefix ["secrets"]); [repeat constructor |]; done. Defined.

(** ** Grant scopes *)

Lemma zip_prefix (l k : list component) :
  (zlen l <=? zlen k) && forallb (fun '(a, b) => bool_decide (a = b)) (zip l k) = true
  <-> exists rest, k = l ++ rest.
Proof.
  revert k. induction l as [|x l IH]; intros k.
  - cbn. rewrite andb_true_r, Z.leb_le. split; [by exists k | intros; apply zlen_nonneg].
  - destruct k as [|y k].
    + split; [| by intros [? ?]]. intros H. bool_prop. rewrite zlen_cons, zlen_nil in H.
      pose proof (zlen_nonneg l). lia.
    + cbn [zip zip_with forallb]. rewrite !zlen_cons.
      replace (1 + zlen l <=? 1 + zlen k) with (zlen l <=? zlen k)
        by (destruct (Z.leb_spec (zlen l) (zlen k)), (Z.leb_spec (1 + zlen l) (1 + zlen k)); lia).
      rewrite andb_assoc, (andb_comm (_ <=? _)), <- andb_assoc. split.
      * intros [Hxy H]%andb_prop. apply IH in H as [rest ->].
        bool_prop. subst. by exists rest.
      * intros [rest [= -> Hk]]. rewrite bool_decide_true by done.
        cbn [andb]. apply IH. eauto.
Qed.

Lemma path_scope_contains_spec scope candidate :
  path_scope_contains scope candidate = true <->
  exists cs rest, path_components scope = Some cs /\ path_components candidate = Some (cs ++ rest).
Proof.
  unfold path_scope_contains.
  destruct (path_components scope) as [cs|]; [| split; [done | by intros (? & ? & ? & _)]].
  destruct (path_components candidate) as [ds|]; [| split; [done | by intros (? & ? & _ & ?)]].
  rewrite zip_prefix. split.
  - intros [rest ->]. eauto.
  - intros (? & rest & [= <-] & [= ->]). eauto.
Qed.

Lemma plain_components_spec cs out :
  plain_components cs = Some out ->
  (ParentDir ∉ cs) /\ out = List.filter (fun c => negb (bool_decide (c = CurDir))) cs.
Proof.
  revert out. induction cs as [|c cs IH]; intros out; cbn [plain_components List.filter].
  { intros [= <-]. split; [apply not_elem_of_nil | done]. }
  destruct c; try done.
  - destruct (plain_components cs) as [o|]; [| done]. intros [= <-].
    destruct (IH o eq_refl) as [Hn ->]. split; [| done]. by apply not_elem_of_cons.
  - intros H. destruct (IH out H) as [Hn ->]. split; [by apply not_elem_of_cons | done].
  - destruct (plain_components cs) as [o|]; [| done]. intros [= <-].
    destruct (IH o eq_refl) as [Hn ->]. split; [by apply not_elem_of_cons | done].
Qed.

Lemma path_components_resolve v cs : path_components v = Some cs -> resolve v = Some cs.
Proof.
  unfold path_components. destruct (is_empty v); [done |].
  destruct (plain_components (components v)) as [out|] eqn:E; [| done].
  apply plain_components_spec in E as [Hp ->]. intros H.
  rewrite resolve_no_parent by (apply not_true_iff_false; by rewrite has_parent_spec).
  destruct (List.filter _ _); [done |]. exact H.
Qed.

Lemma path_components_nonempty v cs : path_components v = Some cs -> cs <> [].
Proof.
  unfold path_components. destruct (is_empty v); [done |].
  destruct (plain_components _) as [[|]|]; congruence.
Qed.

(** A grant scope contains exactly its own path and the descendants of it, by
    whole names: containment implies that the candidate resolves to the scope's
    resolution followed by further names, is reflexive on valid scopes, and is
    transitive. *)
Theorem path_scope_subtree scope candidate :
  (path_scope_contains scope candidate = true ->
     exists cs rest, resolve scope = Some cs /\ cs <> [] /\ resolve candidate = Some (cs ++ rest))
  /\ (path_components candidate <> None -> path_scope_contains candidate candidate = true)
  /\ (forall inner, path_scope_contains scope candidate = true ->
        path_scope_contains candidate inner = true -> path_scope_contains scope inner = true).
Proof.
  split_and!.
  - rewrite path_scope_contains_spec. intros (cs & rest & Hs & Hc). exists cs, rest.
    split_and!; eauto using path_components_resolve, path_components_nonempty.
  - destruct (path_components candidate) as [cs|] eqn:E; [| done]. intros _.
    apply path_scope_contains_spec. exists cs, []. by rewrite app_nil_r.
  - intros inner. rewrite !path_scope_contains_spec.
    intros (cs & r1 & Hs & Hc) (ds & r2 & Hc' & Hi). rewrite Hc in Hc'. injection Hc' as <-.
    exists cs, (r1 ++ r2). by rewrite app_assoc.
Qed.

Example scope_not_sibling : path_scope_contains "proj" "proj-secret" = false.
Proof. reflexivity. Qed.

(** A relative path that collapses to nothing and ends with a separator is
    rendered as the root. *)
Example collapsed_dir_renders_root : normalize "a/../" = Some "/" /\ normalize "a/.." = Some "".
Proof. split; reflexivity. Qed.
