(* ===== verification/Grants.v ===== *)
(** * Grants ([crates/ownmesh-policy/src/lib.rs])

    Temporary grants minted from approval facts, bounded tool grants, the rows
    of [grants.json] and the evaluation of a document under stored grants. *)

From stdpp Require Import base list strings gmap.
From Stdlib Require Import ZArith Lia Ascii.
From S2P Require Import Prelude RustStr RustPath Json Policy.

Open Scope Z_scope.

(** ** Data *)

Record TemporaryGrant : Type := {
  tg_id : string;
  tg_capability : string;
  tg_principal_id : string;
  tg_expires_unix : Z;
  tg_path_prefix : option string;
  tg_kind : option string;
  tg_program_equals : option string;
  tg_elevated : option bool;
  tg_executable_identity : option ExecutableIdentityBinding;
  tg_workspace_id : option string
}.

Definition BOUNDED_TOOL_GRANT_TOOLS : list string :=
  [ "command_run"; "command_shell"; "fs_list"; "fs_stat"; "fs_read"; "fs_write";
    "fs_delete"; "logs_query"; "git_status"; "git_diff" ].

Definition BOUNDED_TOOL_GRANT_TYPE : string := "bounded_tool".
Definition MAX_BOUNDED_TOOL_GRANT_TTL_SECS : Z := 4 * 60 * 60.
Definition MAX_BOUNDED_TOOL_GRANT_TOOLS : Z := 8.
Definition MAX_BOUNDED_TOOL_GRANT_USES : Z := 10000.

Inductive BoundedToolGrantType : Type := BoundedTool.

Record BoundedToolGrant : Type := {
  bg_grant_type : BoundedToolGrantType;
  bg_id : string;
  bg_principal_id : string;
  bg_device_id : string;
  bg_tools : list string;
  bg_workspace_id : option string;
  bg_expires_unix : Z;
  bg_max_uses : option Z;
  bg_uses : Z;
  bg_minted_at_unix : Z
}.

Inductive StoredGrant : Type :=
| SGBoundedTool (g : BoundedToolGrant)
| SGTemporary (g : TemporaryGrant).

Definition stored_id (g : StoredGrant) : string :=
  match g with SGBoundedTool g => bg_id g | SGTemporary g => tg_id g end.

Definition as_temporary (g : StoredGrant) : option TemporaryGrant :=
  match g with SGTemporary g => Some g | SGBoundedTool _ => None end.

Definition as_bounded_tool (g : StoredGrant) : option BoundedToolGrant :=
  match g with SGBoundedTool g => Some g | SGTemporary _ => None end.

(** ** Bounded tool grants *)

Definition canonical_alias (stripped : string) : string :=
  if String.eqb stripped "run_command" then "command_run"
  else if String.eqb stripped "run_shell" then "command_shell"
  else if String.eqb stripped "list_files" then "fs_list"
  else if String.eqb stripped "read_file" then "fs_read"
  else if String.eqb stripped "write_file" then "fs_write"
  else if String.eqb stripped "delete_file" then "fs_delete"
  else stripped.

Definition canonical_bounded_tool (raw : string) : option string :=
  let trimmed := trim raw in
  if is_empty trimmed || contains_char "*" trimmed || contains_char "." trimmed then None
  else
    let stripped :=
      replace_char "-" "_"
        (to_ascii_lowercase (unwrap_or (strip_prefix "ownmesh_" trimmed) trimmed)) in
    let canonical := canonical_alias stripped in
    List.find (fun tool => String.eqb tool canonical) BOUNDED_TOOL_GRANT_TOOLS.

(** The loop over the listed tools in [validate], with the [seen] set. *)
Fixpoint check_tools (seen : list string) (tools : list string) : result unit string :=
  match tools with
  | [] => Ok tt
  | tool :: rest =>
      match canonical_bounded_tool tool with
      | None => Err ("bounded tool grant lists unknown or wildcard tool " +:+ tool)
      | Some canonical =>
          if existsb (String.eqb canonical) seen
          then Err ("bounded tool grant lists duplicate tool " +:+ canonical)
          else check_tools (canonical :: seen) rest
      end
  end.

(** [BoundedToolGrant::validate]. *)
Definition bounded_validate (g : BoundedToolGrant) : result unit string :=
  guard_err (match bg_grant_type g with BoundedTool => false end)
    "bounded tool grant requires grant_type bounded_tool" ;?
  guard_err (blank (bg_id g) || (128 <? str_len (bg_id g)))
    "bounded tool grant id is invalid" ;?
  guard_err (blank (bg_principal_id g) || (512 <? str_len (bg_principal_id g)))
    "bounded tool grant principal is invalid" ;?
  guard_err (blank (bg_device_id g) || (256 <? str_len (bg_device_id g)))
    "bounded tool grant device_id is invalid" ;?
  guard_err (match bg_tools g with [] => true | _ => false end
             || (MAX_BOUNDED_TOOL_GRANT_TOOLS <? zlen (bg_tools g)))
    "bounded tool grant must list 1-8 canonical tools" ;?
  check_tools [] (bg_tools g) ;?
  match bg_workspace_id g with
  | Some workspace => guard_err (blank workspace || (128 <? str_len workspace))
                        "bounded tool grant workspace_id is invalid"
  | None => Ok tt
  end ;?
  guard_err (bg_expires_unix g <=? 0) "bounded tool grant expiry is invalid" ;?
  match bg_max_uses g with
  | Some max_uses =>
      guard_err ((max_uses =? 0) || (MAX_BOUNDED_TOOL_GRANT_USES <? max_uses))
        "bounded tool grant max_uses is invalid" ;?
      guard_err (max_uses <? bg_uses g) "bounded tool grant uses exceed max_uses"
  | None => Ok tt
  end.

(** [BoundedToolGrant::remaining_uses]. *)
Definition remaining_uses (g : BoundedToolGrant) : option Z :=
  match bg_max_uses g with
  | Some max => Some (u64_saturating_sub max (bg_uses g))
  | None => None
  end.

(** ** Rows of [grants.json]

    [StoredGrant::deserialize]; the two derived deserializers are [serde]'s. *)

Section stored_grant.
Context (de_temporary : Value -> result TemporaryGrant string).
Context (de_bounded : Value -> result BoundedToolGrant string).
Context (display : Value -> string).

Definition stored_grant_deserialize (value : Value) : result StoredGrant string :=
  match get value "grant_type" with
  | None => let? g := de_temporary value in Ok (SGTemporary g)
  | Some other =>
      if match other with
         | JString kind => String.eqb kind BOUNDED_TOOL_GRANT_TYPE
         | _ => false end
      then let? grant := de_bounded value in
           bounded_validate grant ;?
           Ok (SGBoundedTool grant)
      else Err ("unknown grant_type " +:+ display other)
  end.
End stored_grant.

(** ** Temporary grants *)

Definition temporary_grant_requires_path_scope (capability : string) : bool :=
  String.eqb capability "filesystem" || starts_with capability "filesystem.".

Definition temporary_grant_requires_operation_binding (capability : string) : bool :=
  String.eqb capability "command.run" || starts_with capability "command.".

Definition temporary_grant_forbids_kind (kind : string) : bool :=
  let k := trim kind in
  eq_ignore_ascii_case k "raw_shell" || eq_ignore_ascii_case k "raw".

Definition workspace_char (c : ascii) : bool :=
  is_ascii_alphanumeric c || Ascii.eqb c "_" || Ascii.eqb c "-".

Definition temporary_grant_from_facts (id principal_id : string) (expires_unix : Z)
    (facts : OperationFacts) : result TemporaryGrant string :=
  let capability := trim (f_capability facts) in
  guard_err (is_empty capability)
    "temporary grant requires capability from server approval facts" ;?
  guard_err (temporary_grant_requires_operation_binding capability)
    "temporary grant for command.run is not permitted; approve once without temporary grant" ;?
  let path_prefix := opt_filter (fun p => negb (blank p)) (f_path facts) in
  let workspace := opt_filter (fun w => negb (is_empty w)) (option_map trim (f_workspace_id facts)) in
  (if temporary_grant_requires_path_scope capability then
     let? scope := ok_or path_prefix
       "temporary grant for a filesystem capability requires an approved path scope" in
     guard_err (negb (is_some (path_components scope)))
       "temporary grant path scope must be a normalized path without `..` traversal" ;?
     guard_err (negb (f_workspace_relative facts))
       "temporary grant path scope must be workspace-relative" ;?
     let? workspace_id := ok_or workspace
       "temporary grant for a filesystem capability requires an approved workspace" in
     guard_err ((128 <? str_len workspace_id) || negb (starts_with workspace_id "ws_")
                || negb (str_all workspace_char workspace_id))
       "temporary grant workspace must be a canonical ws_... id" ;?
     guard_err (match components scope with RootDir :: _ => true | _ => false end)
       "temporary grant path scope must be workspace-relative"
   else Ok tt) ;?
  Ok {| tg_id := id; tg_capability := capability; tg_principal_id := principal_id;
        tg_expires_unix := expires_unix; tg_path_prefix := path_prefix;
        tg_kind := None; tg_program_equals := None; tg_elevated := None;
        tg_executable_identity := None; tg_workspace_id := workspace |}.

Definition temporary_grant_matches (grant : TemporaryGrant) (facts : OperationFacts)
    (principal_id : string) (now_unix : Z) : bool :=
  if negb (String.eqb (tg_principal_id grant) principal_id)
     || (tg_expires_unix grant <=? now_unix) then false
  else if negb (capability_match (tg_capability grant) (f_capability facts)) then false
  else if temporary_grant_requires_operation_binding (tg_capability grant)
          || temporary_grant_requires_operation_binding (f_capability facts) then false
  else if temporary_grant_requires_path_scope (tg_capability grant)
          || temporary_grant_requires_path_scope (f_capability facts) then
    match tg_path_prefix grant, f_path facts with
    | Some scope, Some path =>
        if negb (path_scope_contains scope path) then false
        else match tg_workspace_id grant, f_workspace_id facts with
             | Some grant_workspace, Some facts_workspace =>
                 if negb (String.eqb facts_workspace grant_workspace) then false else true
             | _, _ => false
             end
    | _, _ => false
    end
  else match tg_path_prefix grant with
       | Some prefix => match f_path facts with
                        | Some p => path_scope_contains prefix p
                        | None => false
                        end
       | None => true
       end.

(** ** Matching bounded grants *)

Definition tool_agrees (tool capability kind : string) : bool :=
  if String.eqb tool "command_run"
  then String.eqb capability "command.run" && negb (temporary_grant_forbids_kind kind)
  else if String.eqb tool "command_shell"
  then String.eqb capability "command.run" && temporary_grant_forbids_kind kind
  else if String.eqb tool "fs_list" || String.eqb tool "fs_stat" || String.eqb tool "fs_read"
          || String.eqb tool "git_status" || String.eqb tool "git_diff"
  then String.eqb capability "filesystem.read"
  else if String.eqb tool "fs_write" || String.eqb tool "fs_delete"
  then String.eqb capability "filesystem.write"
  else if String.eqb tool "logs_query" then String.eqb capability "logs.read"
  else false.

Definition facts_bounded_tool (facts : OperationFacts) : option string :=
  match f_tool facts with
  | None => None
  | Some raw =>
      match canonical_bounded_tool raw with
      | None => None
      | Some tool => if tool_agrees tool (f_capability facts) (f_kind facts)
                     then Some tool else None
      end
  end.

Definition bounded_tool_grant_matches (grant : BoundedToolGrant) (facts : OperationFacts)
    (principal_id : string) (now_unix : Z) (device_id : option string) : bool :=
  if negb (is_ok (bounded_validate grant)) then false
  else if negb (String.eqb (bg_principal_id grant) principal_id)
          || (bg_expires_unix grant <=? now_unix) then false
  else match opt_filter (fun v => negb (is_empty v)) (option_map trim device_id) with
       | None => false
       | Some active_device =>
           if negb (String.eqb (trim (bg_device_id grant)) active_device) then false
           else if match bg_max_uses grant with
                   | Some max => max <=? bg_uses grant
                   | None => false end then false
           else if match bg_workspace_id grant with
                   | Some workspace =>
                       match opt_filter (fun s => negb (is_empty s))
                               (option_map trim (f_workspace_id facts)) with
                       | Some facts_workspace => negb (String.eqb facts_workspace workspace)
                       | None => true
                       end
                   | None => false end then false
           else match facts_bounded_tool facts with
                | None => false
                | Some tool =>
                    existsb (fun listed => bool_decide (canonical_bounded_tool listed = Some tool))
                            (bg_tools grant)
                end
       end.

(** ** Evaluation under grants *)

Definition grant_verdict (label id : string) : PolicyVerdict :=
  {| v_decision := Allow; v_matched_rule_id := Some id; v_reason := label +:+ id |}.

(** The two loops over the stored grants. *)
Fixpoint first_temporary (grants : list StoredGrant) (facts : OperationFacts)
    (principal_id : string) (now_unix : Z) : option TemporaryGrant :=
  match grants with
  | [] => None
  | SGTemporary g :: rest =>
      if temporary_grant_matches g facts principal_id now_unix then Some g
      else first_temporary rest facts principal_id now_unix
  | SGBoundedTool _ :: rest => first_temporary rest facts principal_id now_unix
  end.

Fixpoint first_bounded (grants : list StoredGrant) (facts : OperationFacts)
    (principal_id : string) (now_unix : Z) (device_id : option string) : option BoundedToolGrant :=
  match grants with
  | [] => None
  | SGBoundedTool g :: rest =>
      if bounded_tool_grant_matches g facts principal_id now_unix device_id then Some g
      else first_bounded rest facts principal_id now_unix device_id
  | SGTemporary _ :: rest => first_bounded rest facts principal_id now_unix device_id
  end.

Definition evaluate_with_grants (doc : PolicyDocument) (facts : OperationFacts)
    (grants : list StoredGrant) (now_unix : Z) (principal_id : string)
    (device_id : option string) : PolicyVerdict :=
  let verdict := evaluate doc facts in
  if bool_decide (v_decision verdict = Deny) then verdict
  else match first_temporary grants facts principal_id now_unix with
       | Some g => grant_verdict "temporary grant " (tg_id g)
       | None =>
           if negb (bool_decide (v_decision verdict = Ask)) then verdict
           else match first_bounded grants facts principal_id now_unix device_id with
                | Some g => grant_verdict "bounded tool grant " (bg_id g)
                | None => verdict
                end
       end.

(** ** Which grant lifts a decision *)

Lemma first_temporary_Some grants facts p now g :
  first_temporary grants facts p now = Some g ->
  SGTemporary g ∈ grants /\ temporary_grant_matches g facts p now = true.
Proof.
  induction grants as [|[b | t] grants IH]; cbn; [done | |].
  - intros H. apply IH in H as [? ?]. split; [by right | done].
  - destruct (temporary_grant_matches t facts p now) eqn:E.
    + intros [= <-]. split; [left | done].
    + intros H. apply IH in H as [? ?]. split; [by right | done].
Qed.

Lemma first_bounded_Some grants facts p now dev g :
  first_bounded grants facts p now dev = Some g ->
  SGBoundedTool g ∈ grants /\ bounded_tool_grant_matches g facts p now dev = true.
Proof.
  induction grants as [|[b | t] grants IH]; cbn; [done | |].
  - destruct (bounded_tool_grant_matches b facts p now dev) eqn:E.
    + intros [= <-]. split; [left | done].
    + intros H. apply IH in H as [? ?]. split; [by right | done].
  - intros H. apply IH in H as [? ?]. split; [by right | done].
Qed.

(** How [evaluate_with_grants] can end. *)
Inductive grant_outcome (doc : PolicyDocument) (facts : OperationFacts)
    (grants : list StoredGrant) (now : Z) (p : string) (dev : option string)
    : PolicyVerdict -> Prop :=
| outcome_document :
    grant_outcome doc facts grants now p dev (evaluate doc facts)
| outcome_temporary g :
    v_decision (evaluate doc facts) <> Deny ->
    SGTemporary g ∈ grants -> temporary_grant_matches g facts p now = true ->
    grant_outcome doc facts grants now p dev (grant_verdict "temporary grant " (tg_id g))
| outcome_bounded g :
    v_decision (evaluate doc facts) = Ask ->
    SGBoundedTool g ∈ grants -> bounded_tool_grant_matches g facts p now dev = true ->
    grant_outcome doc facts grants now p dev (grant_verdict "bounded tool grant " (bg_id g)).

Lemma evaluate_with_grants_outcome doc facts grants now p dev :
  grant_outcome doc facts grants now p dev (evaluate_with_grants doc facts grants now p dev).
Proof.
  unfold evaluate_with_grants. case_bool_decide as Hd; [constructor |].
  destruct (first_temporary _ _ _ _) as [g|] eqn:Et.
  { apply first_temporary_Some in Et as [? ?]. by constructor. }
  case_bool_decide as Ha; cbn [negb]; [| constructor].
  destruct (first_bounded _ _ _ _ _) as [g|] eqn:Eb; [| constructor].
  apply first_bounded_Some in Eb as [? ?]. by constructor.
Qed.

(** C26: stored grants never restrict and never override a deny. The verdict under
    grants is the document's own verdict, or an allow that names a stored grant
    which matches the operation; a document deny is returned unchanged, and a
    bounded tool grant is consulted only where the document asks. *)
Theorem grants_lift_only doc facts grants now p dev :
  let v := evaluate_with_grants doc facts grants now p dev in
  let d := evaluate doc facts in
  (v_decision d = Deny -> v = d) /\
  decision_rank (v_decision v) <= decision_rank (v_decision d) /\
  (v <> d -> v_decision v = Allow /\
     exists g, g ∈ grants /\ v_matched_rule_id v = Some (stored_id g) /\
       match g with
       | SGTemporary t => temporary_grant_matches t facts p now = true
       | SGBoundedTool b =>
           v_decision d = Ask /\ bounded_tool_grant_matches b facts p now dev = true
       end).
Proof.
  cbv zeta. destruct (evaluate_with_grants_outcome doc facts grants now p dev)
    as [| g Hd Hin Hm | g Hd Hin Hm].
  - split_and!; [done | lia | done].
  - split_and!; [congruence | by destruct (v_decision (evaluate doc facts)) |].
    intros _. split; [done |]. by exists (SGTemporary g).
  - rewrite Hd. split_and!; [done | done |].
    intros _. split; [done |]. by exists (SGBoundedTool g).
Qed.

(** ** Command execution is never covered by a temporary grant *)

(** Command execution cannot be granted for a while. Minting a temporary
    grant for a [command.*] capability always fails, and no stored temporary
    grant, whatever its fields, is applied to a [command.*] operation: such an
    operation is only ever lifted, from ask, by a bounded tool grant. *)
Theorem no_temporary_command_grant facts :
  (temporary_grant_requires_operation_binding (trim (f_capability facts)) = true ->
   forall id p exp, is_ok (temporary_grant_from_facts id p exp facts) = false) /\
  (temporary_grant_requires_operation_binding (f_capability facts) = true ->
   forall doc grants now p dev,
     evaluate_with_grants doc facts grants now p dev = evaluate doc facts \/
     exists b, SGBoundedTool b ∈ grants /\ v_decision (evaluate doc facts) = Ask /\
       evaluate_with_grants doc facts grants now p dev
         = grant_verdict "bounded tool grant " (bg_id b)).
Proof.
  split.
  - intros H id p exp. unfold temporary_grant_from_facts.
    destruct (is_empty _); [done |]. cbn [guard_err rbind]. by rewrite H.
  - intros H doc grants now p dev.
    destruct (evaluate_with_grants_outcome doc facts grants now p dev)
      as [| g Hd Hin Hm | g Hd Hin Hm]; [by left | | by right; exists g].
    unfold temporary_grant_matches in Hm. rewrite H, orb_true_r in Hm.
    by repeat case_match.
Qed.

(** ** What a minted filesystem grant covers *)

Lemma fs_grant_shape id p exp facts g :
  temporary_grant_from_facts id p exp facts = Ok g ->
  temporary_grant_requires_path_scope (trim (f_capability facts)) = true ->
  exists scope cs ws,
    f_path facts = Some scope /\ path_components scope = Some cs /\
    option_map trim (f_workspace_id facts) = Some ws /\
    starts_with ws "ws_" = true /\ str_all workspace_char ws = true /\
    g = {| tg_id := id; tg_capability := trim (f_capability facts); tg_principal_id := p;
           tg_expires_unix := exp; tg_path_prefix := Some scope; tg_kind := None;
           tg_program_equals := None; tg_elevated := None; tg_executable_identity := None;
           tg_workspace_id := Some ws |}.
Proof.
  unfold temporary_grant_from_facts. intros H Hfs. rewrite Hfs in H.
  destruct (f_path facts) as [scope|]; cbn [opt_filter] in H; [| res_inv].
  destruct (option_map trim (f_workspace_id facts)) as [ws|]; cbn [opt_filter] in H;
    [| destruct (negb (blank scope)); res_inv].
  destruct (negb (blank scope)), (negb (is_empty ws)); cbn [ok_or rbind] in H; res_inv.
  bool_prop. destruct (path_components scope) as [cs|] eqn:Ec; [| done].
  exists scope, cs, ws. split_and!; auto.
Qed.

(** C28: a temporary grant minted for a filesystem operation covers nothing beyond
    what was approved: it only matches operations of the same principal, before
    its expiry, in the same workspace, whose capability the grant's capability
    covers and is not command execution, and whose path resolves below the
    approved path. *)
Theorem fs_grant_confined id p exp facts g facts' p' now :
  temporary_grant_from_facts id p exp facts = Ok g ->
  temporary_grant_requires_path_scope (trim (f_capability facts)) = true ->
  temporary_grant_matches g facts' p' now = true ->
  p' = p /\ now < exp /\
  capability_match (trim (f_capability facts)) (f_capability facts') = true /\
  temporary_grant_requires_operation_binding (f_capability facts') = false /\
  option_map trim (f_workspace_id facts) = f_workspace_id facts' /\
  exists scope path cs rest,
    f_path facts = Some scope /\ f_path facts' = Some path /\
    resolve scope = Some cs /\ cs <> [] /\ resolve path = Some (cs ++ rest).
Proof.
  intros Hmint Hfs Hm.
  destruct (fs_grant_shape _ _ _ _ _ Hmint Hfs) as (scope & cs & ws & Hp & Hc & Hw & _ & _ & ->).
  unfold temporary_grant_matches in Hm. cbn in Hm. rewrite Hfs in Hm. cbn [orb] in Hm.
  destruct (negb (String.eqb p p') || _) eqn:E1; [done |].
  destruct (capability_match _ _) eqn:E2; [| done]. cbn [negb] in Hm.
  destruct (temporary_grant_requires_operation_binding (trim _)) eqn:E3; [done |].
  destruct (temporary_grant_requires_operation_binding (f_capability facts')) eqn:E4; [done |].
  cbn [orb] in Hm. destruct (f_path facts') as [path|] eqn:Hp'; [| done].
  destruct (path_scope_contains scope path) eqn:E5; [| done]. cbn [negb] in Hm.
  destruct (f_workspace_id facts') as [ws'|] eqn:Hw'; [| done].
  destruct (String.eqb_spec ws' ws) as [-> |]; [| done].
  bool_prop. apply String.eqb_eq in H. apply path_scope_contains_spec in E5 as (ds & rest & Hd & Hr).
  rewrite Hc in Hd. injection Hd as <-.
  split_and!; auto. exists scope, path, cs, rest.
  split_and!; eauto using path_components_resolve, path_components_nonempty.
Qed.

(** A filesystem write to [proj/notes.txt] in workspace [ws_1]. *)
Definition sample_facts : OperationFacts :=
  {| f_capability := "filesystem.write"; f_kind := "file"; f_path := Some "proj/notes.txt";
     f_program := None; f_elevated := false; f_workspace_relative := true; f_tags := [];
     f_executable_identity := None; f_invocation_identity := None;
     f_workspace_id := Some "ws_1"; f_tool := Some "fs_write" |}.

Definition sample_grant : TemporaryGrant :=
  {| tg_id := "grant_1"; tg_capability := "filesystem.write"; tg_principal_id := "prin_a";
     tg_expires_unix := 100; tg_path_prefix := Some "proj/notes.txt"; tg_kind := None;
     tg_program_equals := None; tg_elevated := None; tg_executable_identity := None;
     tg_workspace_id := Some "ws_1" |}.

Lemma fs_grant_confined_witness :
  temporary_grant_from_facts "grant_1" "prin_a" 100 sample_facts = Ok sample_grant /\
  "prin_a" = "prin_a" /\ 50 < 100.
Proof.
  split; [reflexivity |].
  destruct (fs_grant_confined "grant_1" "prin_a" 100 sample_facts sample_grant
              sample_facts "prin_a" 50) as (? & ? & _); [reflexivity .. |]. auto.
Defined.

Lemma capability_match_refl c : capability_match c c = true.
Proof.
  unfold capability_match. destruct (String.eqb c "*"); [done |].
  destruct (strip_suffix ".*" c) as [p|] eqn:E; [| apply String.eqb_refl].
  apply orb_true_intro. right. apply strip_suffix_Some in E. rewrite E at 1.
  change (p +:+ ".*") with (p +:+ "." +:+ "*"). rewrite str_app_assoc. apply starts_with_app.
Qed.

(** Minting and use agree: the grant minted from a filesystem operation with
    trimmed capability and workspace covers that same operation for the same
    principal until it expires, and then no longer. *)
Theorem fs_grant_covers_its_operation id p exp facts g now :
  temporary_grant_from_facts id p exp facts = Ok g ->
  temporary_grant_requires_path_scope (f_capability facts) = true ->
  trim (f_capability facts) = f_capability facts ->
  option_map trim (f_workspace_id facts) = f_workspace_id facts ->
  temporary_grant_matches g facts p now = (now <? exp).
Proof.
  intros Hmint Hfs Hcap Hws.
  assert (Hnb : temporary_grant_requires_operation_binding (f_capability facts) = false).
  { unfold temporary_grant_from_facts in Hmint. rewrite Hcap in Hmint. res_inv. done. }
  destruct (fs_grant_shape _ _ _ _ _ Hmint) as (scope & cs & ws & Hp & Hc & Hw & _ & _ & ->);
    [by rewrite Hcap |].
  rewrite Hcap. rewrite Hws in Hw. unfold temporary_grant_matches. cbn.
  rewrite Hfs, Hnb, Hp, Hw, !String.eqb_refl, capability_match_refl. cbn.
  replace (path_scope_contains scope scope) with true.
  2: { symmetry. apply path_scope_contains_spec. exists cs, []. by rewrite app_nil_r. }
  cbn. destruct (Z.leb_spec exp now), (Z.ltb_spec now exp); done || lia.
Qed.

Lemma fs_grant_covers_its_operation_witness :
  temporary_grant_matches sample_grant sample_facts "prin_a" 99 = true.
Proof.
  rewrite (fs_grant_covers_its_operation "grant_1" "prin_a" 100 sample_facts sample_grant 99);
    reflexivity.
Defined.

(** ** What a bounded tool grant covers *)

Lemma canonical_in_allowlist raw tool :
  canonical_bounded_tool raw = Some tool -> tool ∈ BOUNDED_TOOL_GRANT_TOOLS.
Proof.
  unfold canonical_bounded_tool. destruct (_ || _); [done |].
  intros [Hin _]%List.find_some. by apply list_elem_of_In.
Qed.

Lemma check_tools_nodup seen tools :
  check_tools seen tools = Ok tt ->
  exists cs, map canonical_bounded_tool tools = map Some cs /\
    NoDup cs /\ (forall c, c ∈ cs -> c ∉ seen).
Proof.
  revert seen. induction tools as [|t tools IH]; intros seen; cbn [check_tools].
  { intros _. exists []. split_and!; [done | constructor | by intros ? ?%elem_of_nil]. }
  destruct (canonical_bounded_tool t) as [c|] eqn:E; [| done].
  destruct (existsb _ _) eqn:Ex; [done |]. intros H.
  destruct (IH _ H) as (cs & Hm & Hnd & Hseen). exists (c :: cs). split_and!.
  - cbn. by rewrite E, Hm.
  - constructor; [| done]. intros Hc. apply Hseen in Hc. apply Hc. left.
  - intros x [-> | Hx]%elem_of_cons.
    + intros Hc. assert (existsb (String.eqb c) seen = true); [| congruence].
      apply existsb_exists. exists c. split; [by apply list_elem_of_In | apply String.eqb_refl].
    + intros Hs. apply (Hseen x Hx). by right.
Qed.

(** The capabilities a bounded tool grant can reach. *)
Definition bounded_capabilities : list string :=
  ["command.run"; "filesystem.read"; "filesystem.write"; "logs.read"].

Lemma tool_agrees_capability tool cap kind :
  tool_agrees tool cap kind = true -> cap ∈ bounded_capabilities.
Proof.
  unfold tool_agrees, bounded_capabilities. intros H.
  assert (String.eqb cap "command.run" = true \/ String.eqb cap "filesystem.read" = true
          \/ String.eqb cap "filesystem.write" = true \/ String.eqb cap "logs.read" = true) as Hc.
  { repeat case_match; bool_prop; try done; auto. }
  rewrite !String.eqb_eq in Hc. rewrite !elem_of_cons. tauto.
Qed.

Lemma bounded_validate_ok b :
  bounded_validate b = Ok tt ->
  1 <= zlen (bg_tools b) <= MAX_BOUNDED_TOOL_GRANT_TOOLS /\
  check_tools [] (bg_tools b) = Ok tt /\
  (forall max, bg_max_uses b = Some max ->
     max <= MAX_BOUNDED_TOOL_GRANT_USES /\ bg_uses b <= max).
Proof.
  unfold bounded_validate. intros H.
  destruct (bg_grant_type b). cbn [guard_err rbind] in H.
  do 3 (apply rbind_ok_inv in H as ([] & _ & H)).
  apply rbind_ok_inv in H as ([] & Hlen & H). apply rbind_ok_inv in H as ([] & Hct & H).
  do 2 (apply rbind_ok_inv in H as ([] & _ & H)).
  split_and!; [| | done |].
  - destruct (bg_tools b) as [|t l]; [discriminate Hlen |].
    rewrite zlen_cons. pose proof (zlen_nonneg l). lia.
  - clear H Hct. res_inv; bool_prop; lia.
  - intros max Hm. rewrite Hm in H. clear Hlen Hct. res_inv. by bool_prop.
Qed.

Lemma bounded_match_inv b facts p now dev :
  bounded_tool_grant_matches b facts p now dev = true ->
  bounded_validate b = Ok tt /\ bg_principal_id b = p /\ now < bg_expires_unix b /\
  option_map trim dev = Some (trim (bg_device_id b)) /\
  (forall max, bg_max_uses b = Some max -> bg_uses b < max) /\
  (forall ws, bg_workspace_id b = Some ws -> option_map trim (f_workspace_id facts) = Some ws) /\
  exists tool, facts_bounded_tool facts = Some tool /\
    exists listed, listed ∈ bg_tools b /\ canonical_bounded_tool listed = Some tool.
Proof.
  unfold bounded_tool_grant_matches. intros H.
  destruct (bounded_validate b) as [[]|] eqn:Ev; [cbn [is_ok negb] in H | done].
  destruct (negb (String.eqb (bg_principal_id b) p) || _) eqn:E1; [done |].
  destruct (opt_filter _ (option_map trim dev)) as [active|] eqn:Edev; [| done].
  destruct (String.eqb_spec (trim (bg_device_id b)) active) as [Hdev |]; [| done]. cbn [negb] in H.
  destruct (match bg_max_uses b with Some max => _ | None => _ end) eqn:Emax; [done |].
  destruct (match bg_workspace_id b with Some w => _ | None => _ end) eqn:Ews; [done |].
  destruct (facts_bounded_tool facts) as [tool|] eqn:Etool; [| done].
  apply existsb_exists in H as (listed & Hin%list_elem_of_In & Hl). bool_prop.
  split_and!; eauto.
  - by apply String.eqb_eq.
  - apply opt_filter_Some in Edev as [Hd _]. by rewrite Hdev.
  - intros max Hm. rewrite Hm in Emax. by bool_prop.
  - intros ws Hw. rewrite Hw in Ews. clear Edev. revert Ews.
    destruct (opt_filter _ _) as [fw|] eqn:Ef; [| done]. intros Ews.
    apply opt_filter_Some in Ef as [Hf _]. bool_prop. apply String.eqb_eq in Ews. by subst.
Qed.

(** A bounded tool grant that matches is well formed (1 to 8 distinct tools
    of the allowlist, a use ceiling of at most 10000), unexpired, of the same
    principal, minted on the active device, with uses left, in its workspace if
    it names one; and the operation is one of the listed tools with the
    capability that belongs to it, so no other capability is ever reached. *)
Theorem bounded_grant_confined b facts p now dev :
  bounded_tool_grant_matches b facts p now dev = true ->
  bg_principal_id b = p /\ now < bg_expires_unix b /\
  option_map trim dev = Some (trim (bg_device_id b)) /\
  (forall max, bg_max_uses b = Some max ->
     bg_uses b < max /\ max <= MAX_BOUNDED_TOOL_GRANT_USES) /\
  (forall ws, bg_workspace_id b = Some ws -> option_map trim (f_workspace_id facts) = Some ws) /\
  f_capability facts ∈ bounded_capabilities /\
  exists cs tool, map canonical_bounded_tool (bg_tools b) = map Some cs /\ NoDup cs /\
    1 <= zlen cs <= MAX_BOUNDED_TOOL_GRANT_TOOLS /\
    (forall c, c ∈ cs -> c ∈ BOUNDED_TOOL_GRANT_TOOLS) /\
    facts_bounded_tool facts = Some tool /\ tool ∈ cs.
Proof.
  intros (Hv & Hp & Hexp & Hdev & Huses & Hws & tool & Htool & listed & Hin & Hl)%bounded_match_inv.
  apply bounded_validate_ok in Hv as (Hlen & (cs & Hcs & Hnd & _)%check_tools_nodup & Hmax).
  assert (Hz : zlen cs = zlen (bg_tools b)).
  { pose proof (f_equal length Hcs) as He. rewrite !length_map in He. unfold zlen. lia. }
  split_and!; [done | done | done | | done | |].
  - intros max Hm. pose proof (Hmax _ Hm). specialize (Huses _ Hm). lia.
  - unfold facts_bounded_tool in Htool. repeat case_match; simplify_eq.
    by eapply tool_agrees_capability.
  - exists cs, tool. split_and!; [done | done | lia | lia | | done |].
    + intros c Hc. assert (Hs : Some c ∈ map canonical_bounded_tool (bg_tools b)).
      { rewrite Hcs. by apply list_elem_of_fmap_2. }
      apply list_elem_of_fmap in Hs as (x & Hx & _). by eapply canonical_in_allowlist.
    + assert (Hs : Some tool ∈ map Some cs).
      { rewrite <- Hcs. apply list_elem_of_fmap. eauto. }
      apply list_elem_of_fmap in Hs as (x & Hx & ?). by simplify_eq.
Qed.

Definition sample_bounded : BoundedToolGrant :=
  {| bg_id := "grant_b"; bg_grant_type := BoundedTool; bg_principal_id := "prin_a";
     bg_device_id := "dev_1"; bg_tools := ["fs_write"; "command_run"];
     bg_workspace_id := Some "ws_1"; bg_expires_unix := 100;
     bg_max_uses := Some 3; bg_uses := 2;
     bg_minted_at_unix := 10 |}.

Lemma bounded_grant_confined_witness :
  f_capability sample_facts ∈ bounded_capabilities /\ bg_uses sample_bounded < 3.
Proof.
  destruct (bounded_grant_confined sample_bounded sample_facts "prin_a" 50 (Some "dev_1"))
    as (_ & _ & _ & Hu & _ & Hc & _); [reflexivity |].
  split; [exact Hc | by apply (Hu 3)].
Defined.
