(* ===== verification/Session.v ===== *)
(** * Sessions ([crates/ownmesh-session/src/lib.rs], [pty.rs])

    The session manager: one record per session with its controller seat, its
    observers, its replay ring and the receipts of the last controller input and
    resize.  Identifiers that the code draws from [Uuid::new_v4] and the clock are
    arguments of the operations.  An operation returns its result and the manager
    as the code leaves it, on errors too. *)

From stdpp Require Import base list strings gmap sorting.
From Stdlib Require Import ZArith Lia Ascii.
From S2P Require Import Prelude RustStr.

Open Scope Z_scope.

(** ** Data *)

Inductive SessionError : Type :=
| NotFound
| LeaseHeld (holder : string)
| NotController
| NotReader
| ObserverCannotWrite
| ErrClosed
| Invalid (msg : string)
| Persist (msg : string)
| SessionLimit
| ChunkTooLarge
| ReplayBudget
| SequenceStale (kind : string) (got last : Z)
| SequenceGap (kind : string) (got expected : Z)
| SequenceConflict (kind : string) (seq : Z)
| SequenceRequired (kind : string).

Inductive SeqReserveOutcome : Type :=
| Deliver (seq : Z)
| RetryPending (seq : Z)
| Replayed (seq : Z).

Inductive SeqReceiptState : Type := RNone | RPending | RApplied.

Definition MAX_SESSIONS : Z := 64.
Definition DEFAULT_REPLAY_CHUNK_LIMIT : Z := 256.
Definition MAX_CHUNK_BYTES : Z := 64 * 1024.
Definition MAX_REPLAY_BYTES : Z := 1024 * 1024.
Definition DEFAULT_REPLAY_PAGE_LIMIT : Z := 64.
Definition MAX_REPLAY_PAGE_LIMIT : Z := 256.
Definition MAX_REPLAY_PAGE_BYTES : Z := 256 * 1024.
Definition MAX_SESSIONS_FILE_BYTES : Z := 8 * 1024 * 1024.

Inductive SessionState : Type := Starting | Running | Detached | Closed.

#[export] Instance SessionState_eq_dec : EqDecision SessionState.
Proof. solve_decision. Defined.

Inductive SessionKind : Type := Pty | Process.

#[export] Instance SessionKind_eq_dec : EqDecision SessionKind.
Proof. solve_decision. Defined.

Inductive StreamKind : Type := Stdout | Stderr | System.

Record OutputChunk : Type := {
  oc_seq : Z;
  oc_data : string;
  oc_stream : StreamKind
}.

Record ReplayPage : Type := {
  rp_chunks : list OutputChunk;
  rp_truncated : bool;
  rp_next_seq : option Z;
  rp_returned_bytes : Z
}.

Record ControllerLease : Type := {
  cl_principal_id : string;
  cl_lease_id : string;
  cl_epoch : Z;
  cl_expires_unix : Z
}.

#[export] Instance ControllerLease_eta : Eta ControllerLease := fun c =>
  {| cl_principal_id := cl_principal_id c; cl_lease_id := cl_lease_id c;
     cl_epoch := cl_epoch c; cl_expires_unix := cl_expires_unix c |}.

Inductive PtyViewMode : Type := Raw | Cooked.

Record PtySize : Type := { ps_cols : Z; ps_rows : Z }.

(** [PtySize::default]. *)
Definition default_pty_size : PtySize := {| ps_cols := 80; ps_rows := 24 |}.

Record SidecarHostBinding : Type := {
  sb_device_id : string;
  sb_workspace_id : string;
  sb_owner_principal : string;
  sb_host_nonce : string;
  sb_controller_epoch : Z;
  sb_binding_expires_unix : Z;
  sb_host_expires_unix : Z;
  sb_child_pid : option Z;
  sb_child_process_birth : option Z
}.

Record SessionInfo : Type := {
  si_id : string;
  si_kind : SessionKind;
  si_state : SessionState;
  si_title : string;
  si_controller : option ControllerLease;
  si_controller_epoch : Z;
  si_observers : list string;
  si_cols : Z;
  si_rows : Z;
  si_next_seq : Z;
  si_view_mode : PtyViewMode;
  si_host_pid : option Z;
  si_sidecar_host : option SidecarHostBinding;
  si_command : option (list string);
  si_cwd : option string;
  si_workspace_id : option string;
  si_last_input_seq : Z;
  si_last_input_digest : option string;
  si_last_input_state : SeqReceiptState;
  si_last_resize_seq : Z;
  si_last_resize_digest : option string;
  si_last_resize_state : SeqReceiptState
}.

#[export] Instance SessionInfo_eta : Eta SessionInfo := fun i =>
  {| si_id := si_id i; si_kind := si_kind i; si_state := si_state i; si_title := si_title i;
     si_controller := si_controller i; si_controller_epoch := si_controller_epoch i;
     si_observers := si_observers i; si_cols := si_cols i; si_rows := si_rows i;
     si_next_seq := si_next_seq i; si_view_mode := si_view_mode i;
     si_host_pid := si_host_pid i; si_sidecar_host := si_sidecar_host i;
     si_command := si_command i; si_cwd := si_cwd i; si_workspace_id := si_workspace_id i;
     si_last_input_seq := si_last_input_seq i; si_last_input_digest := si_last_input_digest i;
     si_last_input_state := si_last_input_state i; si_last_resize_seq := si_last_resize_seq i;
     si_last_resize_digest := si_last_resize_digest i;
     si_last_resize_state := si_last_resize_state i |}.

Record Session : Type := {
  s_info : SessionInfo;
  s_replay : list OutputChunk;
  s_replay_limit : Z;
  s_replay_bytes : Z
}.

#[export] Instance Session_eta : Eta Session := fun s =>
  {| s_info := s_info s; s_replay := s_replay s; s_replay_limit := s_replay_limit s;
     s_replay_bytes := s_replay_bytes s |}.

Record SessionManager : Type := {
  sm_sessions : gmap string Session;
  sm_default_replay_limit : Z;
  sm_default_lease_ttl_secs : Z;
  sm_max_sessions : Z;
  sm_max_replay_bytes : Z
}.

#[export] Instance SessionManager_eta : Eta SessionManager := fun m =>
  {| sm_sessions := sm_sessions m; sm_default_replay_limit := sm_default_replay_limit m;
     sm_default_lease_ttl_secs := sm_default_lease_ttl_secs m;
     sm_max_sessions := sm_max_sessions m; sm_max_replay_bytes := sm_max_replay_bytes m |}.

(** [SessionManager::new]. *)
Definition new_manager : SessionManager :=
  {| sm_sessions := ∅; sm_default_replay_limit := DEFAULT_REPLAY_CHUNK_LIMIT;
     sm_default_lease_ttl_secs := 3600; sm_max_sessions := MAX_SESSIONS;
     sm_max_replay_bytes := MAX_REPLAY_BYTES |}.

(** [self.sessions.get_mut(id).ok_or(NotFound)?] followed by the rest of the
    handler on the session's record. *)
Definition with_session {A} (m : SessionManager) (id : string)
    (f : Session -> result A SessionError * Session) : result A SessionError * SessionManager :=
  match sm_sessions m !! id with
  | None => (Err NotFound, m)
  | Some s => let '(r, s') := f s in (r, m <| sm_sessions := <[id := s']> (sm_sessions m) |>)
  end.

(** The same for handlers that touch only [s.info]. *)
Definition with_info {A} (m : SessionManager) (id : string)
    (f : SessionInfo -> result A SessionError * SessionInfo)
  : result A SessionError * SessionManager :=
  with_session m id (fun s => let '(r, i) := f (s_info s) in (r, s <| s_info := i |>)).

(** ** Budgets of a loaded manager *)

Definition data_len (c : OutputChunk) : Z := str_len (oc_data c).

Definition ring_bytes (l : list OutputChunk) : Z := foldr (fun c n => data_len c + n) 0 l.

(** [while s.replay.len() > s.replay_limit { pop_front }]. *)
Fixpoint trim_count (limit bytes : Z) (l : list OutputChunk) : Z * list OutputChunk :=
  match l with
  | [] => (bytes, [])
  | front :: rest =>
      if limit <? zlen l then trim_count limit (u64_saturating_sub bytes (data_len front)) rest
      else (bytes, l)
  end.

(** [while s.replay_bytes > max_bytes { pop_front or break }]. *)
Fixpoint trim_bytes (max_bytes bytes : Z) (l : list OutputChunk) : Z * list OutputChunk :=
  match l with
  | [] => (bytes, [])
  | front :: rest =>
      if max_bytes <? bytes then trim_bytes max_bytes (u64_saturating_sub bytes (data_len front)) rest
      else (bytes, l)
  end.

Definition enforce_session_budget (default_limit max_bytes : Z) (s : Session) : Session :=
  let limit := clamp (s_replay_limit s) 1 (Z.max default_limit DEFAULT_REPLAY_CHUNK_LIMIT) in
  let '(bytes, ring) := trim_count limit (ring_bytes (s_replay s)) (s_replay s) in
  let '(bytes, ring) := trim_bytes max_bytes bytes ring in
  {| s_info := s_info s; s_replay := ring; s_replay_limit := limit; s_replay_bytes := bytes |}.

(** [ids.sort()]. *)
Definition sorted_ids (sessions : gmap string Session) : list string :=
  sort_by String.compare (map fst (map_to_list sessions)).

Definition drop_excess (max_sessions : Z) (sessions : gmap string Session) : gmap string Session :=
  if max_sessions <? Z.of_nat (size sessions) then
    let drop_n := Z.to_nat (Z.of_nat (size sessions) - max_sessions) in
    foldl (fun ss id => delete id ss) sessions (take drop_n (sorted_ids sessions))
  else sessions.

Definition enforce_loaded_budgets (m : SessionManager) : SessionManager :=
  let max_sessions := clamp (sm_max_sessions m) 1 MAX_SESSIONS in
  let max_bytes := clamp (sm_max_replay_bytes m) 1 MAX_REPLAY_BYTES in
  let default_limit :=
    clamp (sm_default_replay_limit m) 1 (Z.max DEFAULT_REPLAY_CHUNK_LIMIT 1024) in
  {| sm_sessions := enforce_session_budget default_limit max_bytes
                      <$> drop_excess max_sessions (sm_sessions m);
     sm_default_replay_limit := default_limit;
     sm_default_lease_ttl_secs := sm_default_lease_ttl_secs m;
     sm_max_sessions := max_sessions;
     sm_max_replay_bytes := max_bytes |}.

(** ** Leases *)

Definition is_active (c : ControllerLease) (now_unix : Z) : bool := now_unix <? cl_expires_unix c.

Definition active_controller (i : SessionInfo) (now_unix : Z) : option ControllerLease :=
  match si_controller i with
  | Some c => if is_active c now_unix then Some c else None
  | None => None
  end.

Definition closed (i : SessionInfo) : bool := bool_decide (si_state i = Closed).

Definition contains (l : list string) (p : string) : bool := existsb (fun o => String.eqb o p) l.

(** [observers.retain(|o| o != p)]. *)
Definition without (p : string) (l : list string) : list string :=
  List.filter (fun o => negb (String.eqb o p)) l.

(** [if !observers.contains(p) { observers.push(p) }]. *)
Definition push_unique (p : string) (l : list string) : list string :=
  if contains l p then l else l ++ [p].

Arguments contains : simpl never.
Arguments without : simpl never.
Arguments push_unique : simpl never.

(** The record [open_with] creates; [ses_uuid] and [lease_uuid] are the two
    identifiers drawn. *)
Definition open_info (ses_uuid lease_uuid : string) (kind : SessionKind) (title creator : string)
    (expires_unix : Z) (command : option (list string)) (cwd : option string)
    (size : option PtySize) (workspace_id : option string) : SessionInfo :=
  let lease := {| cl_principal_id := creator; cl_lease_id := "lease_" +:+ lease_uuid;
                  cl_epoch := 1; cl_expires_unix := expires_unix |} in
  let size := match size with Some sz => sz | None => default_pty_size end in
  {| si_id := "ses_" +:+ ses_uuid; si_kind := kind; si_state := Running; si_title := title;
     si_controller := Some lease; si_controller_epoch := 1; si_observers := [];
     si_cols := ps_cols size; si_rows := ps_rows size; si_next_seq := 1;
     si_view_mode := Raw; si_host_pid := None; si_sidecar_host := None;
     si_command := command; si_cwd := cwd; si_workspace_id := workspace_id;
     si_last_input_seq := 0; si_last_input_digest := None; si_last_input_state := RNone;
     si_last_resize_seq := 0; si_last_resize_digest := None;
     si_last_resize_state := RNone |}.

Definition open_with (m : SessionManager) (ses_uuid lease_uuid : string) (kind : SessionKind)
    (title creator : string) (now_unix : Z) (command : option (list string))
    (cwd : option string) (size : option PtySize) (workspace_id : option string)
  : result SessionInfo SessionError * SessionManager :=
  if sm_max_sessions m <=? Z.of_nat (base.size (sm_sessions m)) then (Err SessionLimit, m)
  else
    let info := open_info ses_uuid lease_uuid kind title creator
                  (wrap_i64 (now_unix + sm_default_lease_ttl_secs m)) command cwd size
                  workspace_id in
    (Ok info,
     m <| sm_sessions := <[si_id info := {| s_info := info; s_replay := [];
                                            s_replay_limit := sm_default_replay_limit m;
                                            s_replay_bytes := 0 |}]> (sm_sessions m) |>).

(** [open]. *)
Definition open (m : SessionManager) (ses_uuid lease_uuid : string) (kind : SessionKind)
    (title creator : string) (now_unix : Z) : result SessionInfo SessionError * SessionManager :=
  open_with m ses_uuid lease_uuid kind title creator now_unix None None None None.

Definition get_info (m : SessionManager) (id : string) : result SessionInfo SessionError :=
  match sm_sessions m !! id with Some s => Ok (s_info s) | None => Err NotFound end.

Definition is_controller (m : SessionManager) (id principal : string) (now_unix : Z)
  : result bool SessionError :=
  let? info := get_info m id in
  Ok (match active_controller info now_unix with
      | Some c => String.eqb (cl_principal_id c) principal
      | None => false
      end).

Definition authorize_controller (m : SessionManager) (id principal : string) (now_unix : Z)
  : result unit SessionError :=
  let? b := is_controller m id principal now_unix in
  if b then Ok tt else Err NotController.

Definition authorize_controller_lease (m : SessionManager) (id principal lease_id : string)
    (epoch now_unix : Z) : result unit SessionError :=
  let? info := get_info m id in
  match active_controller info now_unix with
  | Some lease =>
      if String.eqb (cl_principal_id lease) principal && String.eqb (cl_lease_id lease) lease_id
         && (cl_epoch lease =? epoch)
      then Ok tt else Err NotController
  | None => Err NotController
  end.

Definition renew_info (now ttl : Z) (i : SessionInfo)
  : result ControllerLease SessionError * SessionInfo :=
  match si_controller i with
  | None => (Err NotController, i)
  | Some lease =>
      match i64_checked_add now ttl with
      | None => (Err (Invalid "lease expiry overflow"), i)
      | Some expires =>
          let lease := lease <| cl_expires_unix := expires |> in
          (Ok lease, i <| si_controller := Some lease |>)
      end
  end.

Definition renew_controller_lease (m : SessionManager) (id principal lease_id : string)
    (epoch now ttl : Z) : result ControllerLease SessionError * SessionManager :=
  if negb ((1 <=? ttl) && (ttl <=? 3600)) then (Err (Invalid "lease ttl out of bounds"), m)
  else match authorize_controller_lease m id principal lease_id epoch now with
       | Err e => (Err e, m)
       | Ok _ =>
           with_info m id (renew_info now ttl)
       end.

Definition release_info (principal : string) (now_unix : Z) (i : SessionInfo)
  : result unit SessionError * SessionInfo :=
  match si_controller i with
  | Some c =>
      if String.eqb (cl_principal_id c) principal && is_active c now_unix then
        (Ok tt, i <| si_observers := push_unique principal (si_observers i) |>
                  <| si_controller := None |> <| si_state := Detached |>)
      else (Err NotController, i)
  | None => (Ok tt, i)
  end.

Definition release_controller (m : SessionManager) (id principal : string) (now_unix : Z)
  : result unit SessionError * SessionManager :=
  with_info m id (release_info principal now_unix).

Definition detach_controller_lease (m : SessionManager) (id principal lease_id : string)
    (epoch now : Z) : result unit SessionError * SessionManager :=
  match authorize_controller_lease m id principal lease_id epoch now with
  | Err e => (Err e, m)
  | Ok _ =>
      match get_info m id with
      | Err e => (Err e, m)
      | Ok info =>
          match u64_checked_add (si_controller_epoch info) 1 with
          | None => (Err (Invalid "controller epoch exhausted"), m)
          | Some next_epoch =>
              match release_controller m id principal now with
              | (Err e, m) => (Err e, m)
              | (Ok _, m) =>
                  with_info m id (fun i => (Ok tt, i <| si_controller_epoch := next_epoch |>))
              end
          end
      end
  end.

Definition attach_info (p : string) (now_unix : Z) (i : SessionInfo)
  : result unit SessionError * SessionInfo :=
  if closed i then (Err ErrClosed, i)
  else
    let active := option_map cl_principal_id (active_controller i now_unix) in
    if negb (contains (si_observers i) p) && negb (bool_decide (active = Some p)) then
      let is_expired_controller :=
        match si_controller i with
        | Some c => String.eqb (cl_principal_id c) p && negb (is_active c now_unix)
        | None => false
        end in
      if negb is_expired_controller
      then (Ok tt, i <| si_observers := si_observers i ++ [p] |>)
      else (Ok tt, i)
    else (Ok tt, i).

Definition attach_observer (m : SessionManager) (id p : string) (now_unix : Z)
  : result unit SessionError * SessionManager := with_info m id (attach_info p now_unix).

Definition seat_lease (principal lease_uuid : string) (epoch expires : Z) : ControllerLease :=
  {| cl_principal_id := principal; cl_lease_id := "lease_" +:+ lease_uuid;
     cl_epoch := epoch; cl_expires_unix := expires |}.

Definition claim_info (principal lease_uuid : string) (now_unix ttl : Z) (i : SessionInfo)
  : result ControllerLease SessionError * SessionInfo :=
  if closed i then (Err ErrClosed, i)
  else match active_controller i now_unix with
  | Some cur => (Err (LeaseHeld (cl_principal_id cur)), i)
  | None =>
      let i := i <| si_observers := without principal (si_observers i) |> in
      match u64_checked_add (si_controller_epoch i) 1 with
      | None => (Err (Invalid "controller epoch exhausted"), i)
      | Some epoch =>
          let lease := seat_lease principal lease_uuid epoch (wrap_i64 (now_unix + ttl)) in
          (Ok lease, i <| si_controller := Some lease |>
                       <| si_controller_epoch := epoch |> <| si_state := Running |>)
      end
  end.

Definition claim_controller (m : SessionManager) (id principal lease_uuid : string) (now_unix : Z)
  : result ControllerLease SessionError * SessionManager :=
  with_info m id (claim_info principal lease_uuid now_unix (sm_default_lease_ttl_secs m)).

Definition give_info (from to lease_uuid : string) (now_unix ttl : Z) (i : SessionInfo)
  : result ControllerLease SessionError * SessionInfo :=
  match si_controller i with
  | None => (Err NotController, i)
  | Some c =>
      if String.eqb (cl_principal_id c) from then
        if is_active c now_unix then
          let i := i <| si_observers := push_unique from (si_observers i) |> in
          let i := i <| si_observers := without to (si_observers i) |> in
          match u64_checked_add (si_controller_epoch i) 1 with
          | None => (Err (Invalid "controller epoch exhausted"), i)
          | Some epoch =>
              let lease := seat_lease to lease_uuid epoch (wrap_i64 (now_unix + ttl)) in
              (Ok lease, i <| si_controller := Some lease |> <| si_controller_epoch := epoch |>)
          end
        else (Err NotController, i)
      else (Err (LeaseHeld (cl_principal_id c)), i)
  end.

Definition give_controller (m : SessionManager) (id from to lease_uuid : string) (now_unix : Z)
  : result ControllerLease SessionError * SessionManager :=
  with_info m id (give_info from to lease_uuid now_unix (sm_default_lease_ttl_secs m)).

(** ** Output and replay *)

Definition push_session (max_bytes : Z) (data : string) (stream : StreamKind) (s : Session)
  : result OutputChunk SessionError * Session :=
  if closed (s_info s) then (Err ErrClosed, s)
  else if max_bytes <? str_len data then (Err ReplayBudget, s)
  else
    let chunk := {| oc_seq := si_next_seq (s_info s); oc_data := data; oc_stream := stream |} in
    let info := s_info s <| si_next_seq := wrap_u64 (si_next_seq (s_info s) + 1) |> in
    let bytes := u64_saturating_add (s_replay_bytes s) (str_len data) in
    let '(bytes, ring) := trim_count (s_replay_limit s) bytes (s_replay s ++ [chunk]) in
    let '(bytes, ring) := trim_bytes max_bytes bytes ring in
    (Ok chunk, {| s_info := info; s_replay := ring; s_replay_limit := s_replay_limit s;
                  s_replay_bytes := bytes |}).

Definition push_output (m : SessionManager) (id data : string) (stream : StreamKind)
  : result OutputChunk SessionError * SessionManager :=
  if MAX_CHUNK_BYTES <? str_len data then (Err ChunkTooLarge, m)
  else with_session m id (push_session (sm_max_replay_bytes m) data stream).

Definition authorize_stdin (m : SessionManager) (id principal : string) (now_unix : Z)
  : result unit SessionError :=
  match sm_sessions m !! id with
  | None => Err NotFound
  | Some s =>
      if closed (s_info s) then Err ErrClosed
      else match si_controller (s_info s) with
           | Some c =>
               if String.eqb (cl_principal_id c) principal
               then if is_active c now_unix then Ok tt else Err NotController
               else Err ObserverCannotWrite
           | None => Err NotController
           end
  end.

Definition readers (m : SessionManager) (id : string) : result (gset string) SessionError :=
  match sm_sessions m !! id with
  | None => Err NotFound
  | Some s =>
      let set : gset string := list_to_set (si_observers (s_info s)) in
      Ok (match si_controller (s_info s) with
          | Some c => {[cl_principal_id c]} ∪ set
          | None => set
          end)
  end.

Definition authorize_reader (m : SessionManager) (id principal : string)
  : result unit SessionError :=
  let? set := readers m id in
  if bool_decide (principal ∈ set) then Ok tt else Err NotReader.

(** The loop that fills a page; the accumulator [rev_chunks] is reversed. *)
Fixpoint fill_page (limit max_bytes : Z) (rev_chunks : list OutputChunk) (bytes : Z)
    (l : list OutputChunk) : ReplayPage :=
  match l with
  | [] => {| rp_chunks := rev rev_chunks; rp_truncated := false; rp_next_seq := None;
             rp_returned_bytes := bytes |}
  | c :: rest =>
      if (limit <=? zlen rev_chunks) || (max_bytes <? u64_saturating_add bytes (data_len c)) then
        {| rp_chunks := rev rev_chunks; rp_truncated := true; rp_next_seq := Some (oc_seq c);
           rp_returned_bytes := bytes |}
      else fill_page limit max_bytes (c :: rev_chunks) (u64_saturating_add bytes (data_len c)) rest
  end.

Definition replay_from_bounded (m : SessionManager) (id principal : string)
    (from_seq limit max_bytes : Z) : result ReplayPage SessionError :=
  authorize_reader m id principal ;?
  match sm_sessions m !! id with
  | None => Err NotFound
  | Some s =>
      let limit := clamp limit 1 MAX_REPLAY_PAGE_LIMIT in
      let max_bytes := clamp max_bytes 1 MAX_REPLAY_PAGE_BYTES in
      Ok (fill_page limit max_bytes [] 0
            (List.filter (fun c => from_seq <=? oc_seq c) (s_replay s)))
  end.

Definition replay_from (m : SessionManager) (id principal : string) (from_seq : Z)
  : result (list OutputChunk) SessionError :=
  let? page := replay_from_bounded m id principal from_seq
                 DEFAULT_REPLAY_PAGE_LIMIT MAX_REPLAY_PAGE_BYTES in
  Ok (rp_chunks page).

Definition resize (m : SessionManager) (id principal : string) (cols rows now_unix : Z)
  : result unit SessionError * SessionManager :=
  match authorize_controller m id principal now_unix with
  | Err e => (Err e, m)
  | Ok _ => with_info m id (fun i => (Ok tt, i <| si_cols := cols |> <| si_rows := rows |>))
  end.

(** ** Receipts of controller input and resize *)

Definition last_seq (input : bool) (i : SessionInfo) : Z :=
  if input then si_last_input_seq i else si_last_resize_seq i.
Definition last_digest (input : bool) (i : SessionInfo) : option string :=
  if input then si_last_input_digest i else si_last_resize_digest i.
Definition last_state (input : bool) (i : SessionInfo) : SeqReceiptState :=
  if input then si_last_input_state i else si_last_resize_state i.

Definition seq_kind (input : bool) : string := if input then "input" else "resize".

Definition reserve_info (seq : Z) (digest : string) (input : bool) (i : SessionInfo)
  : result SeqReserveOutcome SessionError * SessionInfo :=
  if closed i then (Err ErrClosed, i)
  else
    let last := last_seq input i in
    if (0 <? last) && (seq =? last) then
      let prior := match last_digest input i with Some d => d | None => "" end in
      if String.eqb prior digest then
        (Ok (match last_state input i with
             | RApplied => Replayed seq
             | RPending | RNone => RetryPending seq
             end), i)
      else (Err (SequenceConflict (seq_kind input) seq), i)
    else
      let expected := u64_saturating_add last 1 in
      if seq <? expected then (Err (SequenceStale (seq_kind input) seq last), i)
      else if expected <? seq then (Err (SequenceGap (seq_kind input) seq expected), i)
      else (Ok (Deliver seq),
            if input
            then i <| si_last_input_seq := seq |> <| si_last_input_digest := Some digest |>
                   <| si_last_input_state := RPending |>
            else i <| si_last_resize_seq := seq |> <| si_last_resize_digest := Some digest |>
                   <| si_last_resize_state := RPending |>).

Definition reserve_controller_seq (m : SessionManager) (id : string) (seq : Z) (digest : string)
    (input : bool) : result SeqReserveOutcome SessionError * SessionManager :=
  if seq =? 0 then (Err (Invalid (seq_kind input +:+ "_seq must be >= 1")), m)
  else with_info m id (reserve_info seq digest input).

Definition finalize_info (seq : Z) (input : bool) (i : SessionInfo)
  : result unit SessionError * SessionInfo :=
  let last := last_seq input i in
  if negb (last =? seq) then
    (Err (Invalid (seq_kind input +:+ "_seq finalize mismatch: reserved " +:+ u64_to_string last
                   +:+ ", got " +:+ u64_to_string seq)), i)
  else (Ok tt, if input then i <| si_last_input_state := RApplied |>
               else i <| si_last_resize_state := RApplied |>).

Definition finalize_controller_seq (m : SessionManager) (id : string) (seq : Z) (input : bool)
  : result unit SessionError * SessionManager :=
  with_info m id (finalize_info seq input).

Definition reserve_input_seq m id seq digest := reserve_controller_seq m id seq digest true.
Definition finalize_input_seq m id seq := finalize_controller_seq m id seq true.
Definition reserve_resize_seq m id seq digest := reserve_controller_seq m id seq digest false.
Definition finalize_resize_seq m id seq := finalize_controller_seq m id seq false.

(** [advance_input_seq] and [advance_resize_seq]. *)
Definition advance_seq (m : SessionManager) (id : string) (seq : Z) (input : bool)
  : result Z SessionError * SessionManager :=
  match reserve_controller_seq m id seq "" input with
  | (Err e, m) => (Err e, m)
  | (Ok (Deliver seq | RetryPending seq), m) =>
      match finalize_controller_seq m id seq input with
      | (Err e, m) => (Err e, m)
      | (Ok _, m) => (Ok seq, m)
      end
  | (Ok (Replayed seq), m) => (Ok seq, m)
  end.

(** ** Remaining operations *)

Definition set_view_mode (m : SessionManager) (id principal : string) (mode : PtyViewMode)
    (now_unix : Z) : result unit SessionError * SessionManager :=
  match authorize_controller m id principal now_unix with
  | Err e => (Err e, m)
  | Ok _ => with_info m id (fun i => (Ok tt, i <| si_view_mode := mode |>))
  end.

Definition set_host_pid (m : SessionManager) (id : string) (pid : option Z)
  : result unit SessionError * SessionManager :=
  with_info m id (fun i => (Ok tt, i <| si_host_pid := pid |>)).

Definition set_state (m : SessionManager) (id : string) (state : SessionState)
  : result unit SessionError * SessionManager :=
  with_info m id (fun i => (Ok tt, i <| si_state := state |>)).

Definition set_sidecar_host_binding (m : SessionManager) (id : string)
    (binding : option SidecarHostBinding) : result unit SessionError * SessionManager :=
  with_info m id (fun i => (Ok tt, i <| si_sidecar_host := binding |>)).

Definition reconcile_info (principal lease_id : string) (epoch expires_unix : Z)
    (attached : bool) (i : SessionInfo) : result unit SessionError * SessionInfo :=
  if closed i then (Err ErrClosed, i)
  else if negb attached then
    (Ok tt, i <| si_observers := push_unique principal (si_observers i) |>
              <| si_controller := None |> <| si_state := Detached |>
              <| si_controller_epoch := epoch |>)
  else
    let lease := {| cl_principal_id := principal; cl_lease_id := lease_id; cl_epoch := epoch;
                    cl_expires_unix := expires_unix |} in
    (Ok tt, i <| si_observers := without principal (si_observers i) |>
              <| si_controller := Some lease |> <| si_controller_epoch := epoch |>
              <| si_state := Running |>).

Definition reconcile_controller_from_transition (m : SessionManager) (id principal lease_id : string)
    (epoch expires_unix : Z) (attached : bool) : result unit SessionError * SessionManager :=
  with_info m id (reconcile_info principal lease_id epoch expires_unix attached).

Definition set_expires_info (expires_unix : Z) (i : SessionInfo)
  : result unit SessionError * SessionInfo :=
  match si_controller i with
  | Some c => (Ok tt, i <| si_controller := Some (c <| cl_expires_unix := expires_unix |>) |>)
  | None => (Err NotController, i)
  end.

Definition set_controller_expires_unix (m : SessionManager) (id : string) (expires_unix : Z)
  : result unit SessionError * SessionManager := with_info m id (set_expires_info expires_unix).

Definition close (m : SessionManager) (id : string) : result unit SessionError * SessionManager :=
  with_info m id (fun i => (Ok tt, i <| si_state := Closed |> <| si_controller := None |>)).

Definition terminate (m : SessionManager) (id : string) : result unit SessionError * SessionManager :=
  match close m id with
  | (Err e, m) => (Err e, m)
  | (Ok _, m) => (Ok tt, m <| sm_sessions := delete id (sm_sessions m) |>)
  end.

Definition terminate_all (m : SessionManager) : Z * SessionManager :=
  (Z.of_nat (size (sm_sessions m)), m <| sm_sessions := ∅ |>).

(** One iteration of [expire_stale_leases]: whether the lease was demoted, and the
    session's record. *)
Definition expire_session (now_unix : Z) (s : Session) : bool * Session :=
  match si_controller (s_info s) with
  | Some c =>
      if negb (is_active c now_unix) then
        (true, s <| s_info := s_info s <| si_controller := None |> <| si_state := Detached |>
                      <| si_observers := push_unique (cl_principal_id c) (si_observers (s_info s)) |> |>)
      else (false, s)
  | None => (false, s)
  end.

(** How many sessions an iteration counted. *)
Definition count_sessions (f : Session -> bool) (sessions : gmap string Session) : Z :=
  zlen (List.filter (fun p => f (snd p)) (map_to_list sessions)).

Definition expire_stale_leases (m : SessionManager) (now_unix : Z) : Z * SessionManager :=
  (count_sessions (fun s => fst (expire_session now_unix s)) (sm_sessions m),
   m <| sm_sessions := (fun s => snd (expire_session now_unix s)) <$> sm_sessions m |>).

Definition restart_notice : string :=
  "[system] session host disconnected after daemon restart" +:+ String (ascii_of_nat 10) "".

(** One iteration of [mark_hosts_detached_after_restart]. *)
Definition mark_host_detached (s : Session) : bool * Session :=
  let i := s_info s in
  if closed i then (false, s)
  else if match si_host_pid i with Some _ => true | None => false end
          || bool_decide (si_kind i = Pty) then
    let i1 := i <| si_host_pid := None |> in
    let was_running := bool_decide (si_state i1 = Running) in
    let i2 := if was_running then i1 <| si_state := Detached |> else i1 in
    let chunk := {| oc_seq := si_next_seq i2; oc_data := restart_notice; oc_stream := System |} in
    (was_running, s <| s_replay := s_replay s ++ [chunk] |>
                    <| s_info := i2 <| si_next_seq := wrap_u64 (si_next_seq i2 + 1) |> |>)
  else (false, s).

Definition mark_hosts_detached_after_restart (m : SessionManager) : Z * SessionManager :=
  (count_sessions (fun s => fst (mark_host_detached s)) (sm_sessions m),
   m <| sm_sessions := (fun s => snd (mark_host_detached s)) <$> sm_sessions m |>).

(** ** Handoff bundles *)

Record ContextBundle : Type := {
  cb_session_id : string;
  cb_summary : string;
  cb_cwd : option string;
  cb_files : list string;
  cb_notes : list string
}.

(** [ContextBundle::new]. *)
Definition new_bundle (session_id summary : string) : ContextBundle :=
  {| cb_session_id := session_id; cb_summary := summary; cb_cwd := None; cb_files := [];
     cb_notes := [] |}.

(** ** Lookups after an operation *)

Lemma with_session_lookup {A} m id (f : Session -> result A SessionError * Session) j s' :
  sm_sessions (snd (with_session m id f)) !! j = Some s' ->
  exists s, sm_sessions m !! j = Some s /\ (s' = s \/ (j = id /\ s' = snd (f s))).
Proof.
  unfold with_session. destruct (sm_sessions m !! id) as [s|] eqn:E; [| eauto].
  destruct (f s) as [r s1] eqn:Ef. cbn. intros [[<- <-]|[? ?]]%lookup_insert_Some; [| eauto].
  exists s. rewrite Ef. auto.
Qed.

Lemma with_info_lookup {A} m id (f : SessionInfo -> result A SessionError * SessionInfo) j s' :
  sm_sessions (snd (with_info m id f)) !! j = Some s' ->
  exists s, sm_sessions m !! j = Some s /\
    (s' = s \/ (j = id /\ s' = s <| s_info := snd (f (s_info s)) |>)).
Proof.
  intros (s & ? & H)%with_session_lookup. exists s. split; [done |].
  destruct H as [-> | [-> ->]]; [auto |]. right. by destruct (f (s_info s)).
Qed.

Lemma with_session_found {A} m id (f : Session -> result A SessionError * Session) s :
  sm_sessions m !! id = Some s ->
  with_session m id f = (fst (f s), m <| sm_sessions := <[id := snd (f s)]> (sm_sessions m) |>).
Proof. unfold with_session. intros ->. by destruct (f s). Qed.

Lemma with_info_found {A} m id (f : SessionInfo -> result A SessionError * SessionInfo) s :
  sm_sessions m !! id = Some s ->
  with_info m id f = (fst (f (s_info s)),
    m <| sm_sessions := <[id := s <| s_info := snd (f (s_info s)) |>]> (sm_sessions m) |>).
Proof.
  intros H. unfold with_info. rewrite (with_session_found m id _ s H). by destruct (f (s_info s)).
Qed.

Lemma get_info_ok m id i :
  get_info m id = Ok i <-> exists s, sm_sessions m !! id = Some s /\ s_info s = i.
Proof.
  unfold get_info. destruct (sm_sessions m !! id); split; intros; repeat res_step; naive_solver.
Qed.

(** ** Observer lists *)

Lemma contains_spec l p : contains l p = true <-> p ∈ l.
Proof.
  unfold contains. rewrite existsb_exists. setoid_rewrite String.eqb_eq.
  rewrite list_elem_of_In. naive_solver.
Qed.

Lemma elem_of_without q p l : q ∈ without p l <-> q ∈ l /\ q <> p.
Proof.
  unfold without. rewrite !list_elem_of_In, List.filter_In, negb_true_iff, String.eqb_neq. done.
Qed.

Lemma NoDup_without p l : NoDup l -> NoDup (without p l).
Proof. rewrite !NoDup_ListNoDup. apply List.NoDup_filter. Qed.

Lemma elem_of_push_unique q p l : q ∈ push_unique p l <-> q ∈ l \/ q = p.
Proof.
  unfold push_unique. destruct (contains l p) eqn:E.
  - apply contains_spec in E. naive_solver.
  - rewrite elem_of_app, list_elem_of_singleton. done.
Qed.

Lemma NoDup_push_unique p l : NoDup l -> NoDup (push_unique p l).
Proof.
  unfold push_unique. destruct (contains l p) eqn:E; [done |]. intros H.
  apply NoDup_app. split_and!; [done | | apply NoDup_singleton].
  intros x Hx ->%list_elem_of_singleton. apply contains_spec in Hx. congruence.
Qed.

#[export] Hint Resolve NoDup_without NoDup_push_unique : ownmesh.
