(* ===== verification/SessionRun.v ===== *)
(** * Commands of the session manager

    Every mutating operation of [SessionManager] as a command, so that sequences of
    calls are data; [effect] is what a command does to the record of one session,
    and [exec_effect] says that the manager does exactly that. *)

From stdpp Require Import base list strings gmap.
From Stdlib Require Import ZArith Lia.
From S2P Require Import Prelude RustStr Session.

Open Scope Z_scope.

Inductive command : Type :=
| COpen (ses_uuid lease_uuid : string) (kind : SessionKind) (title creator : string) (now : Z)
    (cmd : option (list string)) (cwd : option string) (size : option PtySize) (ws : option string)
| CRenew (id principal lease_id : string) (epoch now ttl : Z)
| CDetach (id principal lease_id : string) (epoch now : Z)
| CAttach (id principal : string) (now : Z)
| CClaim (id principal lease_uuid : string) (now : Z)
| CGive (id from to lease_uuid : string) (now : Z)
| CRelease (id principal : string) (now : Z)
| CPush (id data : string) (stream : StreamKind)
| CResize (id principal : string) (cols rows now : Z)
| CReserve (id : string) (seq : Z) (digest : string) (input : bool)
| CFinalize (id : string) (seq : Z) (input : bool)
| CViewMode (id principal : string) (mode : PtyViewMode) (now : Z)
| CHostPid (id : string) (pid : option Z)
| CSetState (id : string) (state : SessionState)
| CSidecar (id : string) (binding : option SidecarHostBinding)
| CReconcile (id principal lease_id : string) (epoch expires : Z) (attached : bool)
| CSetExpires (id : string) (expires : Z)
| CClose (id : string)
| CTerminate (id : string)
| CTerminateAll
| CExpire (now : Z)
| CMarkDetached
| CEnforceBudgets.

(** The manager after a command, whatever the command answered. *)
Definition exec (m : SessionManager) (c : command) : SessionManager :=
  match c with
  | COpen su lu kind title creator now cmd cwd size ws =>
      snd (open_with m su lu kind title creator now cmd cwd size ws)
  | CRenew id p l e now ttl => snd (renew_controller_lease m id p l e now ttl)
  | CDetach id p l e now => snd (detach_controller_lease m id p l e now)
  | CAttach id p now => snd (attach_observer m id p now)
  | CClaim id p lu now => snd (claim_controller m id p lu now)
  | CGive id from to lu now => snd (give_controller m id from to lu now)
  | CRelease id p now => snd (release_controller m id p now)
  | CPush id data stream => snd (push_output m id data stream)
  | CResize id p cols rows now => snd (resize m id p cols rows now)
  | CReserve id seq digest input => snd (reserve_controller_seq m id seq digest input)
  | CFinalize id seq input => snd (finalize_controller_seq m id seq input)
  | CViewMode id p mode now => snd (set_view_mode m id p mode now)
  | CHostPid id pid => snd (set_host_pid m id pid)
  | CSetState id st => snd (set_state m id st)
  | CSidecar id b => snd (set_sidecar_host_binding m id b)
  | CReconcile id p l e exp att => snd (reconcile_controller_from_transition m id p l e exp att)
  | CSetExpires id exp => snd (set_controller_expires_unix m id exp)
  | CClose id => snd (close m id)
  | CTerminate id => snd (terminate m id)
  | CTerminateAll => snd (terminate_all m)
  | CExpire now => snd (expire_stale_leases m now)
  | CMarkDetached => snd (mark_hosts_detached_after_restart m)
  | CEnforceBudgets => enforce_loaded_budgets m
  end.

(** The identifier a command creates a session under. *)
Definition opened (c : command) : option string :=
  match c with COpen su _ _ _ _ _ _ _ _ _ => Some ("ses_" +:+ su) | _ => None end.

(** ** Effect on one session *)

Definition on_info {A} (f : SessionInfo -> result A SessionError * SessionInfo) (s : Session)
  : Session := s <| s_info := snd (f (s_info s)) |>.

(** [detach_controller_lease] after its authorization: release, then the next epoch. *)
Definition detach_info (principal : string) (now : Z) (i : SessionInfo) : SessionInfo :=
  match u64_checked_add (si_controller_epoch i) 1 with
  | None => i
  | Some next_epoch =>
      match release_info principal now i with
      | (Err _, i) => i
      | (Ok _, i) => i <| si_controller_epoch := next_epoch |>
      end
  end.

(** The record of session [j] after a command, from the record before it. *)
Definition effect (m : SessionManager) (c : command) (j : string) (s : Session) : Session :=
  let at_ id (s' : Session) := if String.eqb j id then s' else s in
  match c with
  | COpen _ _ _ _ _ _ _ _ _ _ | CTerminate _ | CTerminateAll => s
  | CRenew id p l e now ttl =>
      at_ id (if (1 <=? ttl) && (ttl <=? 3600) && is_ok (authorize_controller_lease m id p l e now)
              then on_info (renew_info now ttl) s else s)
  | CDetach id p l e now =>
      at_ id (if is_ok (authorize_controller_lease m id p l e now)
              then s <| s_info := detach_info p now (s_info s) |> else s)
  | CAttach id p now => at_ id (on_info (attach_info p now) s)
  | CClaim id p lu now => at_ id (on_info (claim_info p lu now (sm_default_lease_ttl_secs m)) s)
  | CGive id from to lu now =>
      at_ id (on_info (give_info from to lu now (sm_default_lease_ttl_secs m)) s)
  | CRelease id p now => at_ id (on_info (release_info p now) s)
  | CPush id data stream =>
      at_ id (if MAX_CHUNK_BYTES <? str_len data then s
              else snd (push_session (sm_max_replay_bytes m) data stream s))
  | CResize id p cols rows now =>
      at_ id (if is_ok (authorize_controller m id p now)
              then s <| s_info := s_info s <| si_cols := cols |> <| si_rows := rows |> |> else s)
  | CReserve id seq digest input =>
      at_ id (if seq =? 0 then s else on_info (reserve_info seq digest input) s)
  | CFinalize id seq input => at_ id (on_info (finalize_info seq input) s)
  | CViewMode id p mode now =>
      at_ id (if is_ok (authorize_controller m id p now)
              then s <| s_info := s_info s <| si_view_mode := mode |> |> else s)
  | CHostPid id pid => at_ id (s <| s_info := s_info s <| si_host_pid := pid |> |>)
  | CSetState id st => at_ id (s <| s_info := s_info s <| si_state := st |> |>)
  | CSidecar id b => at_ id (s <| s_info := s_info s <| si_sidecar_host := b |> |>)
  | CReconcile id p l e exp att => at_ id (on_info (reconcile_info p l e exp att) s)
  | CSetExpires id exp => at_ id (on_info (set_expires_info exp) s)
  | CClose id =>
      at_ id (s <| s_info := s_info s <| si_state := Closed |> <| si_controller := None |> |>)
  | CExpire now => snd (expire_session now s)
  | CMarkDetached => snd (mark_host_detached s)
  | CEnforceBudgets =>
      enforce_session_budget
        (clamp (sm_default_replay_limit m) 1 (Z.max DEFAULT_REPLAY_CHUNK_LIMIT 1024))
        (clamp (sm_max_replay_bytes m) 1 MAX_REPLAY_BYTES) s
  end.

(** [m'] holds sessions of [m] only, each changed by [f]. *)
Definition moves (f : string -> Session -> Session) (m m' : SessionManager) : Prop :=
  forall j s', sm_sessions m' !! j = Some s' ->
  exists s, sm_sessions m !! j = Some s /\ s' = f j s.

Lemma moves_same (f : string -> Session -> Session) m :
  (forall j s, f j s = s) -> moves f m m.
Proof. intros Hf j s ?. exists s. by rewrite Hf. Qed.

Lemma at_self {A} (j : string) (x y : A) : (if String.eqb j j then x else y) = x.
Proof. by rewrite String.eqb_refl. Qed.

Lemma at_same {A} (j id : string) (x : A) : (if String.eqb j id then x else x) = x.
Proof. by destruct (String.eqb j id). Qed.

Lemma moves_session {A} m id (f : Session -> result A SessionError * Session) g :
  (forall s, sm_sessions m !! id = Some s -> g s = snd (f s)) ->
  moves (fun j s => if String.eqb j id then g s else s) m (snd (with_session m id f)).
Proof.
  intros Hg j s' H. destruct (sm_sessions m !! id) as [s|] eqn:Es.
  - rewrite (with_session_found _ _ _ _ Es) in H. cbn in H.
    apply lookup_insert_Some in H as [[<- <-] | [Hne H]].
    + exists s. by rewrite at_self, Hg.
    + exists s'. split; [done |]. by destruct (String.eqb_spec j id).
  - unfold with_session in H. rewrite Es in H. cbn in H. exists s'. split; [done |].
    destruct (String.eqb_spec j id); congruence.
Qed.

Lemma moves_info {A} m id (f : SessionInfo -> result A SessionError * SessionInfo) :
  moves (fun j s => if String.eqb j id then on_info f s else s) m (snd (with_info m id f)).
Proof.
  apply moves_session. intros s _. unfold on_info. by destruct (f (s_info s)).
Qed.

Lemma moves_fmap m (f : Session -> Session) :
  moves (fun _ => f) m (m <| sm_sessions := f <$> sm_sessions m |>).
Proof.
  intros j s' H. cbn in H. rewrite lookup_fmap in H.
  destruct (sm_sessions m !! j) as [s|]; cbn in H; simplify_eq. eauto.
Qed.

Lemma drop_excess_subseteq n sessions : drop_excess n sessions ⊆ sessions.
Proof.
  unfold drop_excess. destruct (_ <? _); [| done].
  generalize (take (Z.to_nat (Z.of_nat (size sessions) - n)) (sorted_ids sessions)). intros ids.
  revert sessions. induction ids as [|id ids IH]; intros ss; cbn; [done |].
  etrans; [apply IH | apply delete_subseteq].
Qed.

Lemma authorize_lease_inv m id p l e now :
  authorize_controller_lease m id p l e now = Ok tt ->
  exists s c, sm_sessions m !! id = Some s /\ si_controller (s_info s) = Some c /\
    is_active c now = true /\ cl_principal_id c = p /\ cl_lease_id c = l /\ cl_epoch c = e.
Proof.
  unfold authorize_controller_lease, active_controller. intros (i & Hi & H)%rbind_ok_inv.
  apply get_info_ok in Hi as (s & Hs & <-).
  destruct (si_controller (s_info s)) as [c|] eqn:Ec; [| done].
  destruct (is_active c now) eqn:Ea; [| done].
  destruct (_ && _) eqn:E in H; [| done]. bool_prop.
  exists s, c. by rewrite <- !String.eqb_eq.
Qed.

Lemma detach_moves m id p l e now :
  moves (effect m (CDetach id p l e now)) m (snd (detach_controller_lease m id p l e now)).
Proof.
  unfold detach_controller_lease, effect.
  destruct (authorize_controller_lease _ _ _ _ _ _) as [[]|] eqn:Ea; cbn [is_ok].
  2: { apply moves_same. intros. apply at_same. }
  apply authorize_lease_inv in Ea as (s & c & Hs & _). unfold get_info. rewrite Hs.
  intros j s' H. destruct (String.eqb_spec j id) as [-> | Hne].
  - exists s. split; [done |]. revert H. unfold detach_info.
    destruct (u64_checked_add _ _) as [e'|]; cbn; [| rewrite Hs; intros [= <-]; by destruct s].
    unfold release_controller. rewrite (with_info_found _ _ _ _ Hs).
    destruct (release_info p now (s_info s)) as [[[]|err] i]; cbn.
    + rewrite (with_info_found _ id _ _ (lookup_insert_eq (sm_sessions m) id _)). cbn.
      rewrite lookup_insert_eq. by intros [= <-].
    + rewrite lookup_insert_eq. by intros [= <-].
  - exists s'. split; [| done]. revert H.
    destruct (u64_checked_add _ _) as [e'|]; [| done].
    unfold release_controller. rewrite (with_info_found _ _ _ _ Hs).
    destruct (release_info p now (s_info s)) as [[[]|err] i]; cbn.
    + rewrite (with_info_found _ id _ _ (lookup_insert_eq (sm_sessions m) id _)). cbn.
      by rewrite !lookup_insert_ne.
    + by rewrite lookup_insert_ne.
Qed.

Lemma terminate_moves m id : moves (fun _ s => s) m (snd (terminate m id)).
Proof.
  intros j s' H. exists s'. split; [| done]. revert H. unfold terminate, close.
  destruct (sm_sessions m !! id) as [s0|] eqn:Es.
  - rewrite (with_info_found _ _ _ _ Es). cbn. rewrite delete_insert_eq.
    by intros [_ ?]%lookup_delete_Some.
  - unfold with_info, with_session. by rewrite Es.
Qed.

Lemma enforce_moves m : moves (effect m CEnforceBudgets) m (enforce_loaded_budgets m).
Proof.
  intros j s' H. unfold enforce_loaded_budgets in H. cbn in H. rewrite lookup_fmap in H.
  destruct (drop_excess _ _ !! j) as [s|] eqn:E; cbn in H; simplify_eq.
  exists s. split; [by apply (lookup_weaken _ _ _ _ E), drop_excess_subseteq | done].
Qed.

(** Every session after a command was there before, or is the one the command
    opened, and [effect] says how its record changed. *)
Lemma exec_effect m c j s' :
  opened c <> Some j -> sm_sessions (exec m c) !! j = Some s' ->
  exists s, sm_sessions m !! j = Some s /\ s' = effect m c j s.
Proof.
  intros Ho. destruct (opened c) as [id|] eqn:Eo.
  { destruct c; try discriminate. cbn in *. simplify_eq. unfold open_with.
    destruct (_ <=? _); cbn; [eauto |]. rewrite lookup_insert_ne by congruence. eauto. }
  clear Ho. revert j s'. change (moves (effect m c) m (exec m c)).
  destruct c; cbn [exec]; try discriminate; try apply moves_info; try apply detach_moves;
    try apply terminate_moves; try apply enforce_moves.
  - unfold renew_controller_lease, effect. destruct ((1 <=? ttl) && (ttl <=? 3600)); cbn [negb andb].
    2: { apply moves_same. intros. apply at_same. }
    destruct (authorize_controller_lease _ _ _ _ _ _); cbn [is_ok]; [apply moves_info |].
    apply moves_same. intros. apply at_same.
  - unfold push_output, effect. destruct (_ <? _).
    + apply moves_same. intros. apply at_same.
    + by apply moves_session.
  - unfold resize, effect. destruct (authorize_controller _ _ _ _); cbn [is_ok]; [apply moves_info |].
    apply moves_same. intros. apply at_same.
  - unfold reserve_controller_seq, effect. destruct (seq =? 0).
    + apply moves_same. intros. apply at_same.
    + apply moves_info.
  - unfold set_view_mode, effect.
    destruct (authorize_controller _ _ _ _); cbn [is_ok]; [apply moves_info |].
    apply moves_same. intros. apply at_same.
  - apply moves_fmap.
  - apply moves_fmap.
Qed.

(** What opening a session puts in the map. *)
Lemma exec_opened m c id s :
  opened c = Some id -> sm_sessions (exec m c) !! id = Some s ->
  sm_sessions m !! id = Some s \/
  (si_controller_epoch (s_info s) = 1 /\ si_observers (s_info s) = [] /\
   (exists l, si_controller (s_info s) = Some l /\ cl_epoch l = 1) /\
   si_next_seq (s_info s) = 1 /\ s_replay s = [] /\ s_replay_bytes s = 0 /\
   s_replay_limit s = sm_default_replay_limit m /\
   forall input, last_seq input (s_info s) = 0).
Proof.
  destruct c; cbn [opened exec]; try discriminate. intros [= <-]. unfold open_with.
  destruct (_ <=? _); [by left |]. cbn. rewrite lookup_insert_eq. intros [= <-]. right.
  cbn. split_and!; eauto. by intros [].
Qed.

(** ** Runs *)

(** A run of commands; [used] are the identifiers sessions were ever opened under,
    and no [Uuid::new_v4] repeats. *)
Inductive run : gset string -> SessionManager -> list command -> gset string -> SessionManager -> Prop :=
| run_nil used m : run used m [] used m
| run_cons used m c cs used' m' :
    (forall id, opened c = Some id -> id ∉ used) ->
    run (match opened c with Some id => {[id]} ∪ used | None => used end) (exec m c) cs used' m' ->
    run used m (c :: cs) used' m'.

Lemma run_used used m cs used' m' : run used m cs used' m' -> used ⊆ used'.
Proof. induction 1 as [| ? ? c ? ? ? _ _ IH]; [done |]. destruct (opened c); set_solver. Qed.

(** [G] holds of every command of a run and the manager that executes it. *)
Fixpoint along (G : SessionManager -> command -> Prop) (m : SessionManager) (cs : list command) : Prop :=
  match cs with [] => True | c :: cs => G m c /\ along G (exec m c) cs end.

Lemma along_impl (G H : SessionManager -> command -> Prop) m cs :
  (forall m c, c ∈ cs -> G m c -> H m c) -> along G m cs -> along H m cs.
Proof.
  revert m. induction cs as [|c cs IH]; intros m I; [done |]. intros [Hc Ha].
  split; [apply I; [by left | done] |]. apply IH; [|done]. intros m' c' Hin. apply I. by right.
Qed.

(** Induction along a run for what is known of one session of it. *)
Lemma run_session_along (G : SessionManager -> command -> Prop) (P : SessionManager -> Session -> Prop) id :
  (forall m c s, G m c -> opened c <> Some id -> sm_sessions m !! id = Some s ->
     P m s -> P (exec m c) (effect m c id s)) ->
  forall used m cs used' m' s', run used m cs used' m' -> along G m cs -> id ∈ used ->
  (forall s, sm_sessions m !! id = Some s -> P m s) ->
  sm_sessions m' !! id = Some s' -> P m' s'.
Proof.
  intros Hstep used m cs used' m' s' Hrun.
  induction Hrun as [| used m c cs used' m' Hf Hrun IH]; [eauto |].
  intros [G0 Ha] Hin Hm Hs'. assert (Ho : opened c <> Some id) by (intros Ho; by apply (Hf id Ho)).
  apply IH; [done | destruct (opened c); set_solver | | done].
  intros s Hs. destruct (exec_effect m c id s Ho Hs) as (s0 & Hs0 & ->). eauto.
Qed.

Lemma run_session_ind (P : SessionManager -> Session -> Prop) id :
  (forall m c s, opened c <> Some id -> sm_sessions m !! id = Some s ->
     P m s -> P (exec m c) (effect m c id s)) ->
  forall used m cs used' m' s', run used m cs used' m' -> id ∈ used ->
  (forall s, sm_sessions m !! id = Some s -> P m s) ->
  sm_sessions m' !! id = Some s' -> P m' s'.
Proof.
  intros Hstep used m cs used' m' s' Hrun. apply (run_session_along (fun _ _ => True) P id) with (2 := Hrun).
  - intros. by apply Hstep.
  - clear Hrun. revert m. induction cs as [|c cs IH]; intros m; [done |]. by split.
Qed.

(** A manager with one session, opened by [alice]. *)
Definition sample_open : command :=
  COpen "u1" "l1" Pty "shell" "alice" 100 None None None (Some "ws_1").
Definition opened_manager : SessionManager := exec new_manager sample_open.
