(* ===== verification/SessionSeat.v ===== *)
(** * The controller seat

    An abstract transition system for the controller seat of one session (the lease
    holder, the generation counter and the observers), labelled with the requests made
    on it; the refinement of the manager's operations to it, and what the seat
    guarantees over whole runs. *)

From stdpp Require Import base list strings gmap.
From Stdlib Require Import ZArith Lia.
From S2P Require Import Prelude RustStr Session SessionRun.

Open Scope Z_scope.

(** ** The abstract seat *)

Record seat : Type := Seat {
  holder : option ControllerLease;
  generation : Z;
  watchers : list string
}.

Definition seat_of (i : SessionInfo) : seat :=
  Seat (si_controller i) (si_controller_epoch i) (si_observers i).

Definition same_lease (c c' : ControllerLease) : Prop :=
  cl_principal_id c = cl_principal_id c' /\ cl_lease_id c = cl_lease_id c' /\
  cl_epoch c = cl_epoch c'.

(** Nobody holds a lease that is still running at [now]. *)
Definition vacant (now : Z) (h : option ControllerLease) : Prop :=
  forall c, h = Some c -> is_active c now = false.

(** Requests that may not be refused: a claim of a vacant seat of an open session; a
    handoff or a release by the active holder; a detachment that names the active lease
    exactly; the demotion of a lapsed lease; the closing of a held seat.  The first two
    and the detachment need a generation to move to. *)
Definition entitled (j : string) (shut : bool) (c : command) (st : seat) : Prop :=
  match c with
  | CClaim id _ _ now => id = j /\ shut = false /\ vacant now (holder st) /\ generation st < u64_max
  | CGive id from _ _ now =>
      id = j /\ generation st < u64_max /\
      exists l, holder st = Some l /\ is_active l now = true /\ cl_principal_id l = from
  | CRelease id p now =>
      id = j /\ exists l, holder st = Some l /\ is_active l now = true /\ cl_principal_id l = p
  | CDetach id p lid e now =>
      id = j /\ generation st < u64_max /\
      exists l, holder st = Some l /\ is_active l now = true /\
        cl_principal_id l = p /\ cl_lease_id l = lid /\ cl_epoch l = e
  | CExpire now => exists l, holder st = Some l /\ is_active l now = false
  | CClose id => id = j /\ exists l, holder st = Some l
  | _ => False
  end.

(** How the seat of session [j] may change, [shut] when the session is closed.  Only a
    claim of a vacant seat brings a new holder, with the next generation; only the active
    holder passes the seat on, leaves it or, naming lease and generation exactly, detaches
    or renews; only a lapsed lease is demoted.  A recovered transition installs what it
    recorded.  Where the generation counter is full, a claim and a handoff fail with the
    watcher list already edited. *)
Inductive seat_step (j : string) (shut : bool) : command -> seat -> seat -> Prop :=
| seat_stay c st : ~ entitled j shut c st -> seat_step j shut c st st
| seat_watch p now h e ws :
    shut = false -> p ∉ ws -> option_map cl_principal_id h <> Some p ->
    seat_step j shut (CAttach j p now) (Seat h e ws) (Seat h e (ws ++ [p]))
| seat_claim p lu now exp h e ws :
    shut = false -> vacant now h ->
    seat_step j shut (CClaim j p lu now) (Seat h e ws)
      (Seat (Some (seat_lease p lu (e + 1) exp)) (e + 1) (without p ws))
| seat_claim_full p lu now h e ws :
    shut = false -> vacant now h -> u64_max <= e ->
    seat_step j shut (CClaim j p lu now) (Seat h e ws) (Seat h e (without p ws))
| seat_give to lu now exp c e ws :
    is_active c now = true ->
    seat_step j shut (CGive j (cl_principal_id c) to lu now) (Seat (Some c) e ws)
      (Seat (Some (seat_lease to lu (e + 1) exp)) (e + 1)
         (without to (push_unique (cl_principal_id c) ws)))
| seat_give_full to lu now c e ws :
    is_active c now = true -> u64_max <= e ->
    seat_step j shut (CGive j (cl_principal_id c) to lu now) (Seat (Some c) e ws)
      (Seat (Some c) e (without to (push_unique (cl_principal_id c) ws)))
| seat_release now c e ws :
    is_active c now = true ->
    seat_step j shut (CRelease j (cl_principal_id c) now) (Seat (Some c) e ws)
      (Seat None e (push_unique (cl_principal_id c) ws))
| seat_detach now c e ws :
    is_active c now = true ->
    seat_step j shut (CDetach j (cl_principal_id c) (cl_lease_id c) (cl_epoch c) now)
      (Seat (Some c) e ws) (Seat None (e + 1) (push_unique (cl_principal_id c) ws))
| seat_renew now ttl c c' e ws :
    is_active c now = true -> same_lease c c' ->
    seat_step j shut (CRenew j (cl_principal_id c) (cl_lease_id c) (cl_epoch c) now ttl)
      (Seat (Some c) e ws) (Seat (Some c') e ws)
| seat_reschedule exp c c' e ws :
    same_lease c c' -> seat_step j shut (CSetExpires j exp) (Seat (Some c) e ws) (Seat (Some c') e ws)
| seat_lapse now c e ws :
    is_active c now = false ->
    seat_step j shut (CExpire now) (Seat (Some c) e ws) (Seat None e (push_unique (cl_principal_id c) ws))
| seat_close h e ws : seat_step j shut (CClose j) (Seat h e ws) (Seat None e ws)
| seat_recover_attached p l e' exp h e ws :
    shut = false ->
    seat_step j shut (CReconcile j p l e' exp true) (Seat h e ws)
      (Seat (Some {| cl_principal_id := p; cl_lease_id := l; cl_epoch := e'; cl_expires_unix := exp |}) e'
         (without p ws))
| seat_recover_detached p l e' exp h e ws :
    shut = false ->
    seat_step j shut (CReconcile j p l e' exp false) (Seat h e ws) (Seat None e' (push_unique p ws)).

(** ** Refinement *)

Create HintDb seat.
#[export] Hint Constructors seat_step : seat.
#[export] Hint Unfold same_lease : seat.

Lemma checked_succ e e' : u64_checked_add e 1 = Some e' -> e' = e + 1.
Proof. by intros [-> _]%u64_checked_add_Some. Qed.

Lemma checked_succ_full e : u64_checked_add e 1 = None -> u64_max <= e.
Proof. unfold u64_checked_add. case_match; intros; [done |]. bool_prop. lia. Qed.

Lemma active_vacant i now : active_controller i now = None -> vacant now (si_controller i).
Proof. unfold active_controller, vacant. destruct (si_controller i) as [c|]; [|done]. destruct (is_active c now) eqn:E; [done |]. by intros _ ? [= <-]. Qed.

(** The request is refused: nothing obliges the seat to move. *)
Ltac seat_refused := apply seat_stay; cbn; unfold vacant; naive_solver congruence.

Section operations.
Context (j : string).

Lemma claim_seat p lu now ttl i :
  seat_step j (closed i) (CClaim j p lu now) (seat_of i) (seat_of (snd (claim_info p lu now ttl i))).
Proof.
  unfold claim_info. destruct (closed i) eqn:C; [seat_refused |].
  destruct (active_controller i now) as [c|] eqn:A.
  { unfold active_controller in A. apply seat_stay. intros (_ & _ & V & _). cbn in V.
    destruct (si_controller i) as [c0|]; [|done]. by rewrite (V c0 eq_refl) in A. }
  apply active_vacant in A. cbn. destruct (u64_checked_add _ _) eqn:E; cbn.
  - apply checked_succ in E as ->. by apply seat_claim.
  - apply checked_succ_full in E. by apply seat_claim_full.
Qed.

Lemma give_seat from to lu now ttl i :
  seat_step j (closed i) (CGive j from to lu now) (seat_of i) (seat_of (snd (give_info from to lu now ttl i))).
Proof.
  unfold give_info, seat_of. destruct (si_controller i) as [c|] eqn:Ec; [| cbn; rewrite Ec; seat_refused].
  destruct (String.eqb_spec (cl_principal_id c) from) as [<- |]; [| cbn; rewrite Ec; seat_refused].
  destruct (is_active c now) eqn:Ea; [cbn | cbn; rewrite Ec; seat_refused].
  destruct (u64_checked_add _ _) eqn:E; cbn.
  - apply checked_succ in E as ->. by apply seat_give.
  - apply checked_succ_full in E. rewrite Ec. by apply seat_give_full.
Qed.

Lemma release_seat p now i :
  seat_step j (closed i) (CRelease j p now) (seat_of i) (seat_of (snd (release_info p now i))).
Proof.
  unfold release_info, seat_of. destruct (si_controller i) as [c|] eqn:Ec; [| cbn; rewrite Ec; seat_refused].
  destruct (String.eqb_spec (cl_principal_id c) p) as [<- |]; [| cbn; rewrite Ec; seat_refused].
  destruct (is_active c now) eqn:Ea; [cbn; by apply seat_release | cbn; rewrite Ec; seat_refused].
Qed.

Lemma set_expires_seat exp i :
  seat_step j (closed i) (CSetExpires j exp) (seat_of i) (seat_of (snd (set_expires_info exp i))).
Proof.
  unfold set_expires_info, seat_of. destruct (si_controller i) as [c|] eqn:Ec; cbn.
  - by apply seat_reschedule.
  - rewrite Ec. seat_refused.
Qed.

Lemma attach_seat p now i :
  seat_step j (closed i) (CAttach j p now) (seat_of i) (seat_of (snd (attach_info p now i))).
Proof.
  unfold attach_info. destruct (closed i) eqn:C; [seat_refused |].
  destruct (contains (si_observers i) p) eqn:Eo; [seat_refused |].
  destruct (bool_decide _) eqn:Ea; [seat_refused |]. cbn [negb andb].
  destruct (match si_controller i with Some c => _ | None => _ end) eqn:Ex; [seat_refused |].
  unfold seat_of. cbn. apply seat_watch; [done | rewrite <- contains_spec; congruence |].
  unfold active_controller in Ea. bool_prop.
  destruct (si_controller i) as [c|]; cbn; [intros [= <-] | congruence].
  rewrite String.eqb_refl in Ex. cbn in Ex. bool_prop. rewrite Ex in Ea. by apply Ea.
Qed.

Lemma expire_seat now s :
  seat_step j (closed (s_info s)) (CExpire now) (seat_of (s_info s)) (seat_of (s_info (snd (expire_session now s)))).
Proof.
  unfold expire_session, seat_of. destruct (si_controller (s_info s)) as [c|] eqn:Ec.
  - destruct (is_active c now) eqn:Ea; cbn; [rewrite Ec; seat_refused | by apply seat_lapse].
  - cbn. rewrite Ec. seat_refused.
Qed.

Lemma reconcile_seat p l e exp (att : bool) i :
  seat_step j (closed i) (CReconcile j p l e exp att) (seat_of i) (seat_of (snd (reconcile_info p l e exp att i))).
Proof.
  unfold reconcile_info. destruct (closed i) eqn:C; cbn; [seat_refused |].
  destruct att; cbn; [by apply seat_recover_attached | by apply seat_recover_detached].
Qed.
End operations.

Lemma mark_keeps_seat s : seat_of (s_info (snd (mark_host_detached s))) = seat_of (s_info s).
Proof. unfold mark_host_detached. by repeat case_match. Qed.

Lemma push_keeps_seat max data stream s :
  seat_of (s_info (snd (push_session max data stream s))) = seat_of (s_info s).
Proof.
  unfold push_session. destruct (closed _); [done |]. destruct (_ <? _); [done |].
  cbv zeta. destruct (trim_count _ _ _) as [b r]. by destruct (trim_bytes _ _ _).
Qed.

Lemma reserve_keeps_seat seq d input i :
  seat_of (snd (reserve_info seq d input i)) = seat_of i.
Proof. unfold reserve_info. by repeat case_match. Qed.

Lemma finalize_keeps_seat seq input i : seat_of (snd (finalize_info seq input i)) = seat_of i.
Proof. unfold finalize_info. by repeat case_match. Qed.

Lemma enforce_keeps_seat d b s : seat_of (s_info (enforce_session_budget d b s)) = seat_of (s_info s).
Proof.
  unfold enforce_session_budget. destruct (trim_count _ _ _) as [n r]. by destruct (trim_bytes _ _ _).
Qed.

Lemma renew_seat m j p l e now ttl s :
  sm_sessions m !! j = Some s -> authorize_controller_lease m j p l e now = Ok tt ->
  seat_step j (closed (s_info s)) (CRenew j p l e now ttl) (seat_of (s_info s))
    (seat_of (s_info (on_info (renew_info now ttl) s))).
Proof.
  intros Hs (s0 & c & ? & Hc & Ha & <- & <- & <-)%authorize_lease_inv. simplify_eq.
  unfold on_info, renew_info, seat_of. cbn. rewrite Hc.
  destruct (i64_checked_add _ _); cbn; [by apply seat_renew | rewrite Hc; seat_refused].
Qed.

Lemma detach_seat m j p l e now s :
  sm_sessions m !! j = Some s -> authorize_controller_lease m j p l e now = Ok tt ->
  seat_step j (closed (s_info s)) (CDetach j p l e now) (seat_of (s_info s)) (seat_of (detach_info p now (s_info s))).
Proof.
  intros Hs (s0 & c & ? & Hc & Ha & <- & <- & <-)%authorize_lease_inv. simplify_eq.
  unfold detach_info. destruct (u64_checked_add _ _) eqn:E.
  - apply checked_succ in E as ->. unfold release_info, seat_of. rewrite Hc, String.eqb_refl, Ha. by apply seat_detach.
  - apply checked_succ_full in E. apply seat_stay. cbn. intros (_ & ? & _). lia.
Qed.

Lemma refused_unauthorized m j p l e now s err :
  sm_sessions m !! j = Some s -> authorize_controller_lease m j p l e now = Err err ->
  ~ exists c, si_controller (s_info s) = Some c /\ is_active c now = true /\
      cl_principal_id c = p /\ cl_lease_id c = l /\ cl_epoch c = e.
Proof.
  intros Hs H (c & Hc & Ha & <- & <- & <-). unfold authorize_controller_lease, active_controller, get_info in H.
  rewrite Hs in H. cbn in H. by rewrite Hc, Ha, !String.eqb_refl, Z.eqb_refl in H.
Qed.

Lemma effect_seat_step m c j s :
  sm_sessions m !! j = Some s ->
  seat_step j (closed (s_info s)) c (seat_of (s_info s)) (seat_of (s_info (effect m c j s))).
Proof.
  intros Hs. destruct c; cbn [effect];
    try (destruct (String.eqb_spec j id) as [<- |]; [| seat_refused]); try seat_refused.
  - destruct (_ && _) eqn:E; [| seat_refused].
    apply andb_prop in E as [_ E]. apply (renew_seat m); [done |].
    by destruct (authorize_controller_lease _ _ _ _ _ _) as [[]|].
  - destruct (authorize_controller_lease _ _ _ _ _ _) as [[]|] eqn:Ea; cbn [is_ok]; [by apply (detach_seat m) |].
    apply seat_stay. intros (_ & _ & C). exact (refused_unauthorized _ _ _ _ _ _ _ _ Hs Ea C).
  - apply attach_seat.
  - apply claim_seat.
  - apply give_seat.
  - apply release_seat.
  - destruct (_ <? _); [seat_refused |]. rewrite push_keeps_seat. seat_refused.
  - destruct (is_ok _); seat_refused.
  - destruct (_ =? _); [seat_refused |]. cbn. rewrite reserve_keeps_seat. seat_refused.
  - cbn. rewrite finalize_keeps_seat. seat_refused.
  - destruct (is_ok _); seat_refused.
  - apply reconcile_seat.
  - apply set_expires_seat.
  - apply seat_close.
  - apply expire_seat.
  - rewrite mark_keeps_seat. seat_refused.
  - rewrite enforce_keeps_seat. seat_refused.
Qed.

(** C35: the manager implements the abstract seat.  Whatever a command does, and whatever it
    answers, the controller, epoch and observers of every session that was there before
    and is there afterwards move by one step of the abstract seat under that very
    command: they change only as the command entitles its caller to, and a claim, a
    handoff, a release, a detachment or a demotion that is due is not refused. *)
Theorem exec_refines_seat m c j s' :
  opened c <> Some j -> sm_sessions (exec m c) !! j = Some s' ->
  exists s, sm_sessions m !! j = Some s /\
    seat_step j (closed (s_info s)) c (seat_of (s_info s)) (seat_of (s_info s')).
Proof.
  intros Ho (s & Hs & ->)%exec_effect; [| done]. exists s. split; [done |]. by apply effect_seat_step.
Qed.

(** ** The seat invariant *)

(** No observer twice; the lease is of the current generation; the holder is not
    also an observer (as long as the generation counter is not full). *)
Definition seat_ok (st : seat) : Prop :=
  NoDup (watchers st) /\
  (forall c, holder st = Some c -> cl_epoch c = generation st) /\
  (forall c, holder st = Some c -> generation st < u64_max -> cl_principal_id c ∉ watchers st).

Lemma seat_step_ok j shut c st st' : seat_step j shut c st st' -> seat_ok st -> seat_ok st'.
Proof.
  intros H (Hnd & He & Hd).
  assert (Htake : forall c1 e1 p l, cl_epoch c1 = e1 -> cl_principal_id c1 = p -> NoDup l -> seat_ok (Seat (Some c1) e1 (without p l))).
  { intros c1 e1 p l <- <- Hl. unfold seat_ok. cbn. split_and!; [auto with ownmesh | by intros ? [= <-] |].
    intros ? [= <-] _. rewrite elem_of_without. tauto. }
  assert (Hkeep : forall c0 c1 e1 ws1, same_lease c0 c1 -> seat_ok (Seat (Some c0) e1 ws1) -> seat_ok (Seat (Some c1) e1 ws1)).
  { intros c0 c1 e1 ws1 (Hp & _ & Hepoch) (? & He1 & Hd1). unfold seat_ok in *. cbn in *. split_and!; [done | |];
      intros ? [= <-]; [rewrite <- Hepoch; by apply He1 | rewrite <- Hp; by apply Hd1]. }
  destruct H; cbn in *; try (apply Htake; auto with ownmesh; fail);
    try (eapply Hkeep; [eassumption | by split_and!]; fail); unfold seat_ok in *; cbn in *.
  - done.
  - split_and!; [| done |].
    + apply NoDup_app. split_and!; [done | | apply NoDup_singleton].
      by intros x Hx ->%list_elem_of_singleton.
    + intros c -> Hlt. rewrite elem_of_app, list_elem_of_singleton. cbn in *.
      intros [? | Hp]; [by eapply Hd |]. subst. congruence.
  - split_and!; [auto with ownmesh | done |]. intros. lia.
  - split_and!; [auto with ownmesh | done |]. intros. lia.
  - split_and!; [auto with ownmesh | done | done].
  - split_and!; [auto with ownmesh | done | done].
  - split_and!; [auto with ownmesh | done | done].
  - split_and!; done.
  - split_and!; [auto with ownmesh | done | done].
Qed.

Definition seats_ok (m : SessionManager) : Prop :=
  forall id s, sm_sessions m !! id = Some s -> seat_ok (seat_of (s_info s)).

Lemma seats_ok_exec m c : seats_ok m -> seats_ok (exec m c).
Proof.
  intros Hm id s Hs. destruct (decide (opened c = Some id)) as [Ho | Ho].
  - destruct (exec_opened m c id s Ho Hs) as [? | (He & Hw & (l & Hl & He') & _)]; [eauto |].
    unfold seat_ok, seat_of. cbn. rewrite He, Hw, Hl.
    split_and!; [constructor | by intros ? [= <-] |]. intros ? [= <-] _. apply not_elem_of_nil.
  - destruct (exec_effect m c id s Ho Hs) as (s0 & H0 & ->).
    eapply seat_step_ok; [by apply effect_seat_step | eauto].
Qed.

Lemma run_seats_ok used m cs used' m' : run used m cs used' m' -> seats_ok m -> seats_ok m'.
Proof. induction 1; eauto using seats_ok_exec. Qed.

(** In every run from a manager whose seats are well formed (the empty one,
    say), every session keeps a well-formed controller seat: no observer is
    listed twice, the lease carries the current controller epoch, and the
    controller is not listed among the observers. *)
Theorem seats_ok_run used m cs used' m' :
  run used m cs used' m' -> seats_ok m -> seats_ok m'.
Proof. intros Hrun Hm. by eapply run_seats_ok. Qed.

(** ** Fencing *)

(** Recovery installs no seat behind the one it finds. *)
Definition recovery_ahead (m : SessionManager) (c : command) : Prop :=
  match c with
  | CReconcile id _ _ e _ _ =>
      forall s, sm_sessions m !! id = Some s -> si_controller_epoch (s_info s) <= e
  | _ => True
  end.

(** A recovered transition that names this lease of session [id]. *)
Definition recorded (id p l : string) (e : Z) (cs : list command) : Prop :=
  exists exp, CReconcile id p l e exp true ∈ cs.

(** What is known of a seat once lease [c] was accepted: its generation is over, or it is
    the current one and whoever holds the seat holds [c] or a lease that a recovered
    transition of [cs] named. *)
Definition fenced_by (id : string) (cs : list command) (c : ControllerLease) (st : seat) : Prop :=
  cl_epoch c < generation st \/
  (cl_epoch c = generation st /\ forall c', holder st = Some c' ->
     same_lease c c' \/ recorded id (cl_principal_id c') (cl_lease_id c') (cl_epoch c') cs).

Lemma fenced_step id cs shut cmd c st st' :
  seat_step id shut cmd st st' -> cmd ∈ cs ->
  (forall p l e exp att, cmd = CReconcile id p l e exp att -> generation st <= e) ->
  fenced_by id cs c st -> fenced_by id cs c st'.
Proof.
  intros H Hin Hahead Hf. unfold fenced_by in *.
  assert (Hkeep : forall c0 c1, same_lease c0 c1 ->
    same_lease c c0 \/ recorded id (cl_principal_id c0) (cl_lease_id c0) (cl_epoch c0) cs ->
    same_lease c c1 \/ recorded id (cl_principal_id c1) (cl_lease_id c1) (cl_epoch c1) cs).
  { intros c0 c1 (Hp & Hl & He) [(? & ? & ?) | ?]; [left; unfold same_lease; split_and!; congruence |].
    right. by rewrite <- Hp, <- Hl, <- He. }
  destruct H; cbn in *; try exact Hf; try (left; lia).
  - destruct Hf as [? | [? _]]; [by left | by right].
  - destruct Hf as [? | [? Hf]]; [by left | right]. split; [done |]. intros ? [= <-]. by eapply Hkeep, Hf.
  - destruct Hf as [? | [? Hf]]; [by left | right]. split; [done |]. intros ? [= <-]. by eapply Hkeep, Hf.
  - destruct Hf as [? | [? _]]; [by left | by right].
  - destruct Hf as [? | [? _]]; [by left | by right].
  - specialize (Hahead _ _ _ _ _ eq_refl). destruct (decide (cl_epoch c < e')); [by left | right].
    split; [lia |]. intros ? [= <-]. right. by exists exp.
  - specialize (Hahead _ _ _ _ _ eq_refl). destruct (decide (cl_epoch c < e')); [by left | right]. split; [lia | done].
Qed.

Lemma fenced_run id c used m cs used' m' s' :
  run used m cs used' m' -> id ∈ used -> along recovery_ahead m cs ->
  (forall s, sm_sessions m !! id = Some s -> fenced_by id cs c (seat_of (s_info s))) ->
  sm_sessions m' !! id = Some s' -> fenced_by id cs c (seat_of (s_info s')).
Proof.
  intros Hrun Hin Ha. apply (run_session_along (fun m cmd => cmd ∈ cs /\ recovery_ahead m cmd)
    (fun _ s => fenced_by id cs c (seat_of (s_info s))) id) with (2 := Hrun) (4 := Hin).
  - intros m0 cmd s [Hc Hah] Ho Hs Hf. eapply fenced_step; [by apply effect_seat_step | done | | done].
    intros p l e exp att ->. cbn in *. by apply Hah.
  - eapply along_impl; [|exact Ha]. by intros m0 cmd ?.
Qed.

Lemma authorized_seat m id p l e now :
  seats_ok m -> authorize_controller_lease m id p l e now = Ok tt ->
  exists c s, sm_sessions m !! id = Some s /\ cl_principal_id c = p /\ cl_lease_id c = l /\
    cl_epoch c = e /\ si_controller (s_info s) = Some c /\ si_controller_epoch (s_info s) = e.
Proof.
  intros Hok (s & c & Hs & Hc & _ & Hp & Hl & He)%authorize_lease_inv.
  exists c, s. split_and!; try done. rewrite <- He. symmetry. by apply (Hok id s Hs).
Qed.

(** If along a run in which recovery installs no seat behind the one it finds a lease is
    accepted for a remote mutation and a lease is accepted later, the later epoch is not
    smaller; and under one epoch only one principal and one lease token are accepted, unless
    a recovered transition named the later ones with that very epoch. *)
Lemma run_fencing used m cs used' m' id p l e now p' l' e' now' :
  run used m cs used' m' -> along recovery_ahead m cs -> seats_ok m -> id ∈ used ->
  authorize_controller_lease m id p l e now = Ok tt ->
  authorize_controller_lease m' id p' l' e' now' = Ok tt ->
  e <= e' /\ (e = e' -> (p = p' /\ l = l') \/ recorded id p' l' e' cs).
Proof.
  intros Hrun Hah Hok Hin Ha Ha'.
  pose proof (run_seats_ok _ _ _ _ _ Hrun Hok) as Hok'.
  destruct (authorized_seat _ _ _ _ _ _ Hok Ha) as (c & s & Hs & <- & <- & <- & Hc & He).
  destruct (authorized_seat _ _ _ _ _ _ Hok' Ha') as (c' & s' & Hs' & <- & <- & <- & Hc' & He').
  assert (fenced_by id cs c (seat_of (s_info s'))) as Hf.
  { eapply fenced_run; [done | done | done | | done]. intros s0 Hs0. simplify_eq. right. cbn. split; [done |].
    intros c1 Hc1. rewrite Hc in Hc1. simplify_eq. by left. }
  unfold fenced_by in Hf. cbn in Hf. rewrite He' in Hf. split; [destruct Hf as [? | [? _]]; lia |].
  intros E. destruct Hf as [? | [_ Hf]]; [lia |]. destruct (Hf c' Hc') as [(? & ? & _) | ?]; [left | right]; done.
Qed.

(** A handoff: [alice], who opened the session, gives it to [bob]. *)
Definition sample_give : command := CGive "ses_u1" "alice" "bob" "l2" 200.
Definition given_manager : SessionManager := exec opened_manager sample_give.

Lemma new_manager_seats : seats_ok new_manager.
Proof. intros id s H. cbn in H. by rewrite lookup_empty in H. Qed.

Lemma opened_manager_seats : seats_ok opened_manager.
Proof. by apply seats_ok_exec, new_manager_seats. Qed.

Lemma sample_run : run {["ses_u1"]} opened_manager [sample_give] {["ses_u1"]} given_manager.
Proof. by apply run_cons; [| apply run_nil]. Qed.

Lemma exec_refines_seat_witness :
  exists s s', sm_sessions opened_manager !! "ses_u1" = Some s /\
    sm_sessions given_manager !! "ses_u1" = Some s' /\
    seat_step "ses_u1" (closed (s_info s)) sample_give (seat_of (s_info s)) (seat_of (s_info s')).
Proof.
  assert (H : exists s', sm_sessions given_manager !! "ses_u1" = Some s')
    by (vm_compute; eexists; reflexivity).
  destruct H as (s' & Hs').
  destruct (exec_refines_seat opened_manager sample_give "ses_u1" s') as (s & Hs & Hstep);
    [discriminate | exact Hs' |].
  exists s, s'. auto.
Defined.

Lemma seats_ok_run_witness : seats_ok given_manager.
Proof. exact (seats_ok_run _ _ _ _ _ sample_run opened_manager_seats). Defined.
