(* ===== verification/SessionSeq.v ===== *)
(** * At-most-once controller input

    The receipts of [reserve_input_seq]/[reserve_resize_seq] and their finalization
    against an abstract delivery log: over any run of commands the [Deliver]
    outcomes of a session's input (or resize) channel carry consecutive sequence
    numbers, and a replayed or pending receipt is that of the last delivery. *)

From stdpp Require Import base list strings gmap.
From Stdlib Require Import ZArith Lia.
From S2P Require Import Prelude RustStr Session SessionRun.

Open Scope Z_scope.

(** The side effect a command hands to its caller on channel [input] of session
    [id]: sequence number and payload digest. *)
Definition delivery (id : string) (input : bool) (m : SessionManager) (c : command)
  : list (Z * string) :=
  match c with
  | CReserve id' seq digest input' =>
      if String.eqb id id' && Bool.eqb input input' then
        match fst (reserve_controller_seq m id' seq digest input') with
        | Ok (Deliver q) => [(q, digest)]
        | _ => []
        end
      else []
  | _ => []
  end.

Fixpoint deliveries (id : string) (input : bool) (m : SessionManager) (cs : list command)
  : list (Z * string) :=
  match cs with
  | [] => []
  | c :: cs => delivery id input m c ++ deliveries id input (exec m c) cs
  end.

(** The receipt of a channel: last sequence number, its digest, its state. *)
Definition receipt (input : bool) (i : SessionInfo) : Z * option string * SeqReceiptState :=
  (last_seq input i, last_digest input i, last_state input i).

(** How a command moves the receipt of channel [input] of session [id], and what it
    delivers: nothing, the next sequence number, or a finalization. *)
Inductive receipt_step (id : string) (input : bool) (c : command)
  : Z * option string * SeqReceiptState -> list (Z * string) ->
    Z * option string * SeqReceiptState -> Prop :=
| receipt_keep r : receipt_step id input c r [] r
| receipt_deliver q d st digest :
    q + 1 <= u64_max ->
    receipt_step id input c (q, d, st) [(q + 1, digest)] (q + 1, Some digest, RPending)
| receipt_finalize q d st :
    c = CFinalize id q input -> receipt_step id input c (q, d, st) [] (q, d, RApplied).

Lemma push_keeps_receipt input max data stream s :
  receipt input (s_info (snd (push_session max data stream s))) = receipt input (s_info s).
Proof.
  unfold push_session. destruct (closed _); [done |]. destruct (_ <? _); [done |].
  cbv zeta. destruct (trim_count _ _ _) as [b r]. destruct (trim_bytes _ _ _). by destruct input.
Qed.

Lemma enforce_keeps_receipt input d b s :
  receipt input (s_info (enforce_session_budget d b s)) = receipt input (s_info s).
Proof.
  unfold enforce_session_budget. destruct (trim_count _ _ _) as [n r]. by destruct (trim_bytes _ _ _).
Qed.

Lemma next_expected last seq :
  0 <= last <= u64_max -> (0 <? last) && (seq =? last) = false -> seq <> 0 ->
  (seq <? u64_saturating_add last 1) = false -> (u64_saturating_add last 1 <? seq) = false ->
  seq = last + 1 /\ last + 1 <= u64_max.
Proof.
  unfold u64_saturating_add. intros ? E ? ? ?. bool_prop.
  destruct (0 <? last) eqn:El; cbn [andb] in E; bool_prop; lia.
Qed.

Lemma reserve_receipt id input c input' seq digest i :
  0 <= last_seq input i <= u64_max -> seq <> 0 ->
  receipt_step id input c (receipt input i)
    (if Bool.eqb input input' then
       match fst (reserve_info seq digest input' i) with Ok (Deliver q) => [(q, digest)] | _ => [] end
     else [])
    (receipt input (snd (reserve_info seq digest input' i))).
Proof.
  intros H0 Hseq. destruct (Bool.eqb_spec input input') as [<- | Hne].
  - unfold reserve_info. destruct (closed i); [constructor |].
    destruct (_ && _) eqn:Eq.
    { destruct (String.eqb _ _); [destruct (last_state input i) |]; constructor. }
    destruct (seq <? _) eqn:E1; [constructor |]. destruct (_ <? seq) eqn:E2; [constructor |].
    destruct (next_expected (last_seq input i) seq) as [-> ?]; [done .. |].
    destruct input; by apply receipt_deliver.
  - unfold reserve_info. destruct input, input'; try done; repeat case_match; constructor.
Qed.

Lemma finalize_receipt id input input' seq i :
  receipt_step id input (CFinalize id seq input') (receipt input i) []
    (receipt input (snd (finalize_info seq input' i))).
Proof.
  unfold finalize_info. destruct (Z.eqb_spec (last_seq input' i) seq) as [<- |]; [cbn | constructor].
  destruct input, input'; try constructor; done.
Qed.

Lemma effect_receipt m c id s input :
  sm_sessions m !! id = Some s -> 0 <= last_seq input (s_info s) <= u64_max ->
  receipt_step id input c (receipt input (s_info s)) (delivery id input m c)
    (receipt input (s_info (effect m c id s))).
Proof.
  intros Hs Hb. destruct c; cbn [effect delivery];
    try (destruct (String.eqb_spec id id0) as [<- |]; [cbn [andb] | constructor]);
    try constructor.
  - destruct (_ && _); [| constructor]. unfold on_info, renew_info.
    repeat case_match; destruct input; constructor.
  - destruct (is_ok _); [| constructor]. unfold detach_info, release_info.
    repeat case_match; simplify_eq; destruct input; constructor.
  - unfold on_info, attach_info. repeat case_match; destruct input; constructor.
  - unfold on_info, claim_info. repeat case_match; destruct input; constructor.
  - unfold on_info, give_info. repeat case_match; destruct input; constructor.
  - unfold on_info, release_info. repeat case_match; destruct input; constructor.
  - destruct (_ <? _); [constructor |]. rewrite push_keeps_receipt. constructor.
  - destruct (is_ok _); destruct input; constructor.
  - unfold reserve_controller_seq. destruct (Z.eqb_spec seq 0) as [-> | Hne].
    + destruct (Bool.eqb _ _); constructor.
    + rewrite (with_info_found _ _ _ _ Hs). cbn [fst]. by apply reserve_receipt.
  - apply finalize_receipt.
  - destruct (is_ok _); destruct input; constructor.
  - unfold on_info, reconcile_info. repeat case_match; destruct input; constructor.
  - unfold on_info, set_expires_info. repeat case_match; destruct input; constructor.
  - unfold expire_session. repeat case_match; destruct input; constructor.
  - unfold mark_host_detached. repeat case_match; destruct input; constructor.
  - rewrite enforce_keeps_receipt. constructor.
Qed.

Lemma delivery_absent id input m c : sm_sessions m !! id = None -> delivery id input m c = [].
Proof.
  intros Hn. destruct c; cbn; try done. destruct (String.eqb_spec id id0) as [<- |]; [| done].
  unfold reserve_controller_seq, with_info, with_session. rewrite Hn.
  destruct (Bool.eqb _ _), (_ =? _); done.
Qed.

Lemma exec_absent m c id :
  opened c <> Some id -> sm_sessions m !! id = None -> sm_sessions (exec m c) !! id = None.
Proof.
  intros Ho Hn. destruct (sm_sessions (exec m c) !! id) as [s|] eqn:E; [| done].
  destruct (exec_effect m c id s Ho E) as (? & ? & _). congruence.
Qed.

Lemma deliveries_absent used m cs used' m' id input :
  run used m cs used' m' -> id ∈ used -> sm_sessions m !! id = None ->
  deliveries id input m cs = [] /\ sm_sessions m' !! id = None.
Proof.
  intros Hrun. induction Hrun as [| used m c cs used' m' Hf Hrun IH]; [done |].
  intros Hin Hn. cbn. rewrite delivery_absent by done. apply IH.
  - destruct (opened c); set_solver.
  - apply exec_absent; [| done]. intros Ho. by apply (Hf id Ho).
Qed.

(** What a run did to one channel: the receipt counts the deliveries, remembers the
    digest of the last one, and is applied only by a finalization. *)
Definition channel_log (id : string) (input : bool) (cs : list command) (log : list (Z * string))
    (i i' : SessionInfo) : Prop :=
  last_seq input i' = last_seq input i + zlen log /\
  last_digest input i' = match last log with Some (_, d) => Some d | None => last_digest input i end /\
  (last_state input i' = RApplied ->
     (log = [] /\ last_state input i = RApplied) \/ CFinalize id (last_seq input i') input ∈ cs).

Lemma channel_log_step id input c cs log0 log i i1 i2 :
  receipt_step id input c (receipt input i) log0 (receipt input i1) ->
  channel_log id input cs log i1 i2 -> channel_log id input (c :: cs) (log0 ++ log) i i2.
Proof.
  unfold receipt, channel_log. intros Hstep (Hq & Hd & Hst). rewrite zlen_app, last_app.
  rewrite elem_of_cons. inversion Hstep; clear Hstep; subst; autorewrite with ownmesh in *.
  - split_and!; [lia | rewrite Hd; destruct (last log) as [[]|]; cbn; congruence |].
    intros [[-> ?] | ?]%Hst; [left | right; by right]. split; [done | congruence].
  - split_and!; [cbn; lia | |].
    + rewrite Hd. destruct (last log) as [[]|]; cbn; congruence.
    + intros [[-> ?] | ?]%Hst; [congruence | right; by right].
  - split_and!; [lia | rewrite Hd; destruct (last log) as [[]|]; cbn; congruence |].
    intros [[-> ?] | ?]%Hst; right; [left | by right]. f_equal. unfold zlen in Hq. cbn in Hq. lia.
Qed.

Lemma receipt_step_seq id input c i log i' :
  receipt_step id input c (receipt input i) log (receipt input i') ->
  0 <= last_seq input i <= u64_max ->
  0 <= last_seq input i' <= u64_max /\ last_seq input i' = last_seq input i + zlen log /\
  map fst log = seqZ (last_seq input i + 1) (zlen log).
Proof.
  unfold receipt. intros H ?. inversion H; subst; autorewrite with ownmesh; split_and!;
    try done; try lia; congruence.
Qed.

Lemma deliveries_log used m cs used' m' id input s :
  run used m cs used' m' -> id ∈ used -> sm_sessions m !! id = Some s ->
  0 <= last_seq input (s_info s) <= u64_max ->
  map fst (deliveries id input m cs) =
    seqZ (last_seq input (s_info s) + 1) (zlen (deliveries id input m cs)) /\
  (forall s', sm_sessions m' !! id = Some s' ->
     channel_log id input cs (deliveries id input m cs) (s_info s) (s_info s')).
Proof.
  intros Hrun. revert s. induction Hrun as [used m | used m c cs used' m' Hf Hrun IH].
  { intros s _ Hs _. cbn. split; [done |]. intros s' Hs'. simplify_eq.
    unfold channel_log. rewrite zlen_nil. split_and!; [lia | done | auto]. }
  intros s Hin Hs Hb. cbn [deliveries].
  assert (Hin' : id ∈ match opened c with Some id0 => {[id0]} ∪ used | None => used end)
    by (destruct (opened c); set_solver).
  pose proof (effect_receipt m c id s input Hs Hb) as Hstep.
  destruct (sm_sessions (exec m c) !! id) as [s1|] eqn:E1.
  - destruct (exec_effect m c id s1) as (? & ? & ->); [| done |].
    { intros Ho. by apply (Hf id Ho). }
    simplify_eq.
    destruct (receipt_step_seq _ _ _ _ _ _ Hstep Hb) as (Hb1 & Hnext & Hfst).
    destruct (IH _ Hin' eq_refl Hb1) as [Hseq Hlog].
    split; [| intros s' Hs'; by eapply channel_log_step, Hlog].
    rewrite map_app, Hseq, Hfst, Hnext, zlen_app.
    rewrite (seqZ_app _ (zlen (delivery id input m c))) by apply zlen_nonneg.
    do 2 f_equal; lia.
  - destruct (deliveries_absent _ _ _ _ _ id input Hrun Hin' E1) as [-> Hn].
    destruct (receipt_step_seq _ _ _ _ _ _ Hstep Hb) as (_ & _ & Hfst).
    rewrite app_nil_r. split; [done | intros; congruence].
Qed.

(** C36: controller input (and resize) is delivered at most once and without gaps.
    Over any run, with any interleaving of other commands, handoffs, restarts and
    retries, the sequence numbers for which [reserve_*_seq] told its caller to
    perform the side effect are exactly the consecutive numbers after the last one
    reserved before the run; none is delivered twice. *)
Theorem deliveries_gapless used m cs used' m' id input s :
  run used m cs used' m' -> id ∈ used -> sm_sessions m !! id = Some s ->
  0 <= last_seq input (s_info s) <= u64_max ->
  let log := deliveries id input m cs in
  map fst log = seqZ (last_seq input (s_info s) + 1) (zlen log) /\ NoDup (map fst log) /\
  (forall s', sm_sessions m' !! id = Some s' ->
     last_seq input (s_info s') = last_seq input (s_info s) + zlen log).
Proof.
  intros Hrun Hin Hs Hb. destruct (deliveries_log _ _ _ _ _ _ _ _ Hrun Hin Hs Hb) as [Hseq Hlog].
  split_and!; [done | rewrite Hseq; apply NoDup_seqZ | by intros s' [? _]%Hlog].
Qed.

Lemma last_delivery (log : list (Z * string)) :
  map fst log = seqZ (0 + 1) (zlen log) -> 0 < zlen log -> exists d, last log = Some (zlen log, d).
Proof.
  destruct log as [|[q d] log _] using rev_ind; [done |]. rewrite map_app, zlen_app. cbn [map fst].
  change (zlen [(q, d)]) with 1. intros H _. exists d. rewrite last_snoc. do 2 f_equal.
  rewrite (seqZ_app _ (zlen log)) in H by (apply zlen_nonneg || lia).
  apply app_inj_2 in H as [_ H]; [| done]. cbn in H. injection H as ->. lia.
Qed.

(** The answers of [reserve_info] in terms of the receipt. *)
Lemma reserve_answer input i seq digest :
  0 <= last_seq input i <= u64_max -> seq <> 0 ->
  let prior := match last_digest input i with Some d => d | None => "" end in
  match fst (reserve_info seq digest input i) with
  | Ok (Deliver q) => q = seq /\ seq = last_seq input i + 1
  | Ok (RetryPending q) => q = seq /\ 0 < last_seq input i /\ seq = last_seq input i /\ prior = digest
  | Ok (Replayed q) => q = seq /\ 0 < last_seq input i /\ seq = last_seq input i /\ prior = digest /\
                       last_state input i = RApplied
  | Err _ => True
  end.
Proof.
  cbv zeta. intros Hb Hne. unfold reserve_info. destruct (closed i); [done |].
  destruct (_ && _) eqn:Eq.
  - bool_prop. destruct (String.eqb_spec (match last_digest input i with Some d => d | None => "" end)
      digest); [| done]. destruct (last_state input i) eqn:Es; cbn; auto.
  - destruct (seq <? _) eqn:E1; [done |]. destruct (_ <? seq) eqn:E2; [done |].
    split; [done |]. by apply next_expected.
Qed.

Lemma last_seq_bounds used m cs used' m' id input s s' :
  run used m cs used' m' -> id ∈ used -> sm_sessions m !! id = Some s ->
  0 <= last_seq input (s_info s) <= u64_max -> sm_sessions m' !! id = Some s' ->
  0 <= last_seq input (s_info s') <= u64_max.
Proof.
  intros Hrun Hin Hs Hb. apply (run_session_ind
    (fun _ s => 0 <= last_seq input (s_info s) <= u64_max) id) with (2 := Hrun) (3 := Hin).
  - intros m0 c s0 _ Hs0 Hb0.
    by apply (receipt_step_seq _ _ _ _ _ _ (effect_receipt m0 c id s0 input Hs0 Hb0) Hb0).
  - intros s0 Hs0. by simplify_eq.
Qed.

(** Receipts are honest. In a run that starts with a session that has not
    reserved anything yet, when [reserve_*_seq] answers that a sequence number was
    already applied or is pending, that number and this very digest are the last
    delivery of the run; "already applied" moreover needs an earlier finalization
    of that number. *)
Theorem receipt_is_last_delivery used m cs used' m' id input s seq digest :
  run used m cs used' m' -> id ∈ used -> sm_sessions m !! id = Some s ->
  last_seq input (s_info s) = 0 -> last_state input (s_info s) = RNone ->
  let log := deliveries id input m cs in
  let answer := fst (reserve_controller_seq m' id seq digest input) in
  (answer = Ok (RetryPending seq) -> last log = Some (seq, digest)) /\
  (answer = Ok (Replayed seq) ->
     last log = Some (seq, digest) /\ CFinalize id seq input ∈ cs) /\
  (forall q, answer = Ok (Deliver q) -> q = seq /\ seq = zlen log + 1).
Proof.
  intros Hrun Hin Hs H0 Hst log answer.
  destruct (deliveries_log _ _ _ _ _ _ input _ Hrun Hin Hs) as [Hseq Hlog]; [zify_bounds; lia |].
  fold log in Hseq, Hlog. rewrite H0 in Hseq.
  subst answer. unfold reserve_controller_seq. destruct (Z.eqb_spec seq 0) as [| Hne]; [done |].
  destruct (sm_sessions m' !! id) as [s'|] eqn:Es'.
  2: { unfold with_info, with_session. by rewrite Es'. }
  rewrite (with_info_found _ _ _ _ Es'). cbn [fst].
  destruct (Hlog s' eq_refl) as (Hq & Hd & Hap). rewrite H0, Hst in *.
  assert (Hb' : 0 <= last_seq input (s_info s') <= u64_max).
  { eapply last_seq_bounds; eauto. rewrite H0. zify_bounds. lia. }
  pose proof (reserve_answer input (s_info s') seq digest Hb' Hne) as Ha.
  split_and!; [| | intros q]; intros E; rewrite E in Ha.
  - destruct Ha as (_ & Hpos & -> & Hdig). rewrite Hd in Hdig.
    destruct (last_delivery log Hseq) as (d & Hl); [lia |]. rewrite Hl in *. subst. do 2 f_equal. lia.
  - destruct Ha as (_ & Hpos & -> & Hdig & Hst'). rewrite Hd in Hdig.
    destruct (last_delivery log Hseq) as (d & Hl); [lia |]. rewrite Hl in *. subst.
    split; [do 2 f_equal; lia |]. destruct (Hap Hst') as [[_ ?] | ?]; [done | done].
  - destruct Ha as [-> ->]. split; [done | lia].
Qed.

(** Two inputs, the first one retried before and after its finalization, and a gap. *)
Definition sample_inputs : list command :=
  [CReserve "ses_u1" 1 "d1" true; CReserve "ses_u1" 1 "d1" true; CFinalize "ses_u1" 1 true;
   CReserve "ses_u1" 1 "d1" true; CReserve "ses_u1" 3 "d3" true; CReserve "ses_u1" 2 "d2" true;
   CFinalize "ses_u1" 2 true].
Definition inputs_manager : SessionManager := foldl exec opened_manager sample_inputs.

Lemma sample_inputs_run :
  run {["ses_u1"]} opened_manager sample_inputs {["ses_u1"]} inputs_manager.
Proof. unfold sample_inputs. repeat (apply run_cons; [done |]). apply run_nil. Qed.

Lemma deliveries_gapless_witness :
  map fst (deliveries "ses_u1" true opened_manager sample_inputs) = [1; 2].
Proof.
  assert (H : exists s, sm_sessions opened_manager !! "ses_u1" = Some s /\
    last_seq true (s_info s) = 0) by (vm_compute; eexists; split; reflexivity).
  destruct H as (s & Hs & H0).
  destruct (deliveries_gapless {["ses_u1"]} opened_manager sample_inputs {["ses_u1"]} inputs_manager
    "ses_u1" true s sample_inputs_run) as (-> & _); [by apply elem_of_singleton | exact Hs | | ].
  - rewrite H0. zify_bounds. lia.
  - rewrite H0. vm_compute. reflexivity.
Defined.

Lemma receipt_is_last_delivery_witness :
  last (deliveries "ses_u1" true opened_manager sample_inputs) = Some (2, "d2").
Proof.
  assert (H : exists s, sm_sessions opened_manager !! "ses_u1" = Some s /\
    last_seq true (s_info s) = 0 /\ last_state true (s_info s) = RNone)
    by (vm_compute; eexists; repeat split; reflexivity).
  destruct H as (s & Hs & H0 & Hst).
  destruct (receipt_is_last_delivery {["ses_u1"]} opened_manager sample_inputs {["ses_u1"]}
    inputs_manager "ses_u1" true s 2 "d2" sample_inputs_run) as (_ & Hr & _);
    [by apply elem_of_singleton | exact Hs | exact H0 | exact Hst |].
  apply Hr. vm_compute. reflexivity.
Defined.
