(* ===== verification/SessionRing.v ===== *)
(** * The replay ring

    [push_output] keeps a bounded ring of output chunks.  The reference is the
    complete log of a session's output: the ring is the longest suffix of that log
    within the chunk and byte budgets.  Paging through [replay_from_bounded] reads
    exactly the retained chunks, and loading untrusted state restores the budgets. *)

From stdpp Require Import base list strings gmap sorting.
From Stdlib Require Import ZArith Lia.
From S2P Require Import Prelude RustStr Session SessionRun.

Open Scope Z_scope.

(** ** Reference *)

Definition fits (limit max_bytes : Z) (l : list OutputChunk) : bool :=
  (zlen l <=? limit) && (ring_bytes l <=? max_bytes).

(** The longest suffix of a log within both budgets. *)
Fixpoint retained (limit max_bytes : Z) (log : list OutputChunk) : list OutputChunk :=
  match log with
  | [] => []
  | _ :: rest => if fits limit max_bytes log then log else retained limit max_bytes rest
  end.

Lemma ring_bytes_cons c l : ring_bytes (c :: l) = data_len c + ring_bytes l.
Proof. done. Qed.

Lemma ring_bytes_app l k : ring_bytes (l ++ k) = ring_bytes l + ring_bytes k.
Proof. induction l as [|c l IH]; [done |]. cbn [app]. rewrite !ring_bytes_cons. lia. Qed.

Lemma data_len_nonneg c : 0 <= data_len c.
Proof. unfold data_len, str_len. lia. Qed.

Lemma ring_bytes_nonneg l : 0 <= ring_bytes l.
Proof.
  induction l as [|c l IH]; [done |]. rewrite ring_bytes_cons. pose proof (data_len_nonneg c). lia.
Qed.

#[export] Hint Rewrite ring_bytes_app ring_bytes_cons : ownmesh.

Lemma fits_true limit max l : fits limit max l = true <-> zlen l <= limit /\ ring_bytes l <= max.
Proof. unfold fits. rewrite andb_true_iff, !Z.leb_le. done. Qed.

Lemma fits_suffix limit max p l : fits limit max (p ++ l) = true -> fits limit max l = true.
Proof.
  rewrite !fits_true. autorewrite with ownmesh.
  pose proof (zlen_nonneg p). pose proof (ring_bytes_nonneg p). lia.
Qed.

Lemma retained_fits limit max l : fits limit max l = true -> retained limit max l = l.
Proof. destruct l; cbn; [done |]. by intros ->. Qed.

Lemma retained_suffix limit max l : exists p, l = p ++ retained limit max l.
Proof.
  induction l as [|c l [p IH]]; [by exists [] |]. cbn [retained].
  destruct (fits _ _ _); [by exists [] |]. exists (c :: p). cbn. by f_equal.
Qed.

Lemma retained_sound limit max l :
  0 <= limit -> 0 <= max -> fits limit max (retained limit max l) = true.
Proof.
  intros ? ?. induction l as [|c l IH]; cbn [retained].
  - apply fits_true. rewrite zlen_nil. cbn. lia.
  - by destruct (fits limit max (c :: l)) eqn:E.
Qed.

(** [retained] is the longest: any suffix within the budgets is a suffix of it. *)
Lemma retained_longest limit max p l :
  fits limit max l = true -> exists q, retained limit max (p ++ l) = q ++ l.
Proof.
  intros Hl. induction p as [|c p [q IH]]; cbn [app].
  - exists []. by apply retained_fits.
  - cbn [retained]. destruct (fits limit max (c :: p ++ l)).
    + by exists (c :: p).
    + eauto.
Qed.

(** Trimming what was already trimmed and then extended is trimming the whole log. *)
Lemma retained_snoc limit max log c :
  retained limit max (retained limit max log ++ [c]) = retained limit max (log ++ [c]).
Proof.
  induction log as [|x log IH]; [done |]. cbn [retained app].
  destruct (fits limit max (x :: log)) eqn:E; [done |].
  destruct (fits limit max (x :: log ++ [c])) eqn:E2; [| done].
  exfalso. assert (fits limit max (x :: log) = true); [| congruence].
  change (x :: log ++ [c]) with ((x :: log) ++ [c]) in E2. rewrite fits_true in E2 |- *.
  autorewrite with ownmesh in *. pose proof (data_len_nonneg c). cbn in *. lia.
Qed.

(** ** The two trimming loops compute the reference *)

Lemma saturating_drop c l : u64_saturating_sub (ring_bytes (c :: l)) (data_len c) = ring_bytes l.
Proof.
  unfold u64_saturating_sub. rewrite ring_bytes_cons. pose proof (ring_bytes_nonneg l). lia.
Qed.

Lemma trim_bytes_retained limit max l :
  zlen l <= limit -> trim_bytes max (ring_bytes l) l = (ring_bytes (retained limit max l), retained limit max l).
Proof.
  induction l as [|c l IH]; [done |]. rewrite zlen_cons. intros Hl. cbn [trim_bytes retained].
  destruct (Z.ltb_spec max (ring_bytes (c :: l))).
  - rewrite saturating_drop, IH by lia. unfold fits.
    destruct (Z.leb_spec (ring_bytes (c :: l)) max); [lia |]. by rewrite andb_false_r.
  - replace (fits limit max (c :: l)) with true; [done |]. symmetry. apply fits_true.
    rewrite zlen_cons. lia.
Qed.

Lemma trims_retained limit max l :
  (let '(b, r) := trim_count limit (ring_bytes l) l in trim_bytes max b r) =
  (ring_bytes (retained limit max l), retained limit max l).
Proof.
  induction l as [|c l IH]; [done |]. cbn [trim_count].
  destruct (Z.ltb_spec limit (zlen (c :: l))) as [Hlt | Hge].
  - rewrite saturating_drop, IH. cbn [retained]. unfold fits.
    by destruct (Z.leb_spec (zlen (c :: l)) limit); [lia |].
  - by apply trim_bytes_retained.
Qed.

(** ** Pushing output *)

(** The byte counter of a session is exact. *)
Definition counted (s : Session) : Prop := s_replay_bytes s = ring_bytes (s_replay s).

Lemma push_retained max data stream s c s' :
  counted s -> s_replay_bytes s + str_len data <= u64_max ->
  push_session max data stream s = (Ok c, s') ->
  c = {| oc_seq := si_next_seq (s_info s); oc_data := data; oc_stream := stream |} /\
  counted s' /\ s_replay s' = retained (s_replay_limit s) max (s_replay s ++ [c]) /\
  s_replay_limit s' = s_replay_limit s /\
  si_next_seq (s_info s') = wrap_u64 (si_next_seq (s_info s) + 1) /\ str_len data <= max.
Proof.
  unfold push_session, counted. intros Hc Hmax. destruct (closed _); [done |].
  destruct (_ <? _) eqn:Em; [done |]. bool_prop.
  set (chunk := {| oc_seq := si_next_seq (s_info s); oc_data := data; oc_stream := stream |}).
  replace (u64_saturating_add _ _) with (ring_bytes (s_replay s ++ [chunk])).
  2: { unfold u64_saturating_add. rewrite ring_bytes_app, ring_bytes_cons. cbn. unfold data_len.
       cbn. lia. }
  pose proof (trims_retained (s_replay_limit s) max (s_replay s ++ [chunk])) as Ht.
  destruct (trim_count _ _ _) as [b r]. rewrite Ht. intros [= <- <-]. done.
Qed.

(** ** Runs against the complete log *)

(** The output a command appends to session [id]. *)
Definition output (id : string) (m : SessionManager) (c : command) : list OutputChunk :=
  match c with
  | CPush id' data stream =>
      if String.eqb id id' then
        match fst (push_output m id' data stream) with Ok chunk => [chunk] | Err _ => [] end
      else []
  | _ => []
  end.

Fixpoint outputs (id : string) (m : SessionManager) (cs : list command) : list OutputChunk :=
  match cs with
  | [] => []
  | c :: cs => output id m c ++ outputs id (exec m c) cs
  end.

(** Commands of a running daemon; the other two belong to its restart. *)
Definition in_process (c : command) : Prop :=
  match c with CMarkDetached | CEnforceBudgets => False | _ => True end.

Definition ring_view (s : Session) : list OutputChunk * Z * Z * Z :=
  (s_replay s, s_replay_bytes s, s_replay_limit s, si_next_seq (s_info s)).

Lemma on_info_view {A} (f : SessionInfo -> result A SessionError * SessionInfo) s :
  si_next_seq (snd (f (s_info s))) = si_next_seq (s_info s) ->
  ring_view (on_info f s) = ring_view s.
Proof. unfold ring_view, on_info. cbn. by intros ->. Qed.

Lemma detach_next_seq p now i : si_next_seq (detach_info p now i) = si_next_seq i.
Proof. unfold detach_info, release_info. repeat case_match; by simplify_eq. Qed.

Lemma effect_view m c id s :
  in_process c ->
  (forall data stream, c <> CPush id data stream) -> ring_view (effect m c id s) = ring_view s.
Proof.
  intros Hp Hc. destruct c; cbn [effect]; try done;
    try (destruct (String.eqb_spec id id0) as [<- |]; [| done]);
    try (apply on_info_view); try done.
  - destruct (_ && _); [| done]. apply on_info_view. unfold renew_info. by repeat case_match.
  - destruct (is_ok _); [| done]. unfold ring_view. cbn. by rewrite detach_next_seq.
  - unfold attach_info. by repeat case_match.
  - unfold claim_info. by repeat case_match.
  - unfold give_info. by repeat case_match.
  - unfold release_info. by repeat case_match.
  - by destruct (Hc data stream).
  - by destruct (is_ok _).
  - destruct (_ =? _); [done |]. apply on_info_view. unfold reserve_info. by repeat case_match.
  - unfold finalize_info. by repeat case_match.
  - by destruct (is_ok _).
  - unfold reconcile_info. by repeat case_match.
  - unfold set_expires_info. by repeat case_match.
  - unfold expire_session. by repeat case_match.
Qed.

Lemma with_session_max {A} m id (f : Session -> result A SessionError * Session) :
  sm_max_replay_bytes (snd (with_session m id f)) = sm_max_replay_bytes m.
Proof. unfold with_session. by repeat case_match. Qed.

Lemma with_info_max {A} m id (f : SessionInfo -> result A SessionError * SessionInfo) :
  sm_max_replay_bytes (snd (with_info m id f)) = sm_max_replay_bytes m.
Proof. apply with_session_max. Qed.

#[export] Hint Rewrite @with_session_max @with_info_max : ownmesh.

Lemma exec_max_bytes m c : in_process c -> sm_max_replay_bytes (exec m c) = sm_max_replay_bytes m.
Proof.
  intros Hp. destruct c; try done; cbn [exec]; try apply with_info_max.
  - unfold open_with. by destruct (_ <=? _).
  - unfold renew_controller_lease. destruct (negb _); [done |].
    destruct (authorize_controller_lease _ _ _ _ _ _); [apply with_info_max | done].
  - unfold detach_controller_lease. destruct (authorize_controller_lease _ _ _ _ _ _); [| done].
    destruct (get_info _ _); [| done]. destruct (u64_checked_add _ _); [| done].
    destruct (release_controller _ _ _ _) as [[] m1] eqn:E; cbn; rewrite ?with_info_max;
      apply (f_equal snd) in E; cbn in E; subst; apply with_info_max.
  - unfold push_output. destruct (_ <? _); [done | apply with_session_max].
  - unfold resize. destruct (authorize_controller _ _ _ _); [apply with_info_max | done].
  - unfold reserve_controller_seq. destruct (_ =? _); [done | apply with_info_max].
  - unfold set_view_mode. destruct (authorize_controller _ _ _ _); [apply with_info_max | done].
  - unfold terminate, close. destruct (with_info _ _ _) as [[] m1] eqn:E; cbn;
      apply (f_equal snd) in E; cbn in E; subst; apply with_info_max.
Qed.

(** A session's ring against the complete log of its output. *)
Record ring_state (limit max : Z) (log : list OutputChunk) (m : SessionManager) (s : Session)
  : Prop := {
  rs_counted : counted s;
  rs_ring : s_replay s = retained limit max log;
  rs_limit : s_replay_limit s = limit;
  rs_max : sm_max_replay_bytes m = max;
  rs_max_range : 0 <= max <= MAX_REPLAY_BYTES;
  rs_limit_range : 0 <= limit
}.

Lemma ring_state_bytes limit max log m s :
  ring_state limit max log m s -> 0 <= s_replay_bytes s <= max.
Proof.
  intros [Hc Hr _ _ ? ?]. rewrite Hc, Hr. split; [apply ring_bytes_nonneg |].
  pose proof (retained_sound limit max log) as Hs. rewrite fits_true in Hs. lia.
Qed.

(** What a command may do to a session whose ring represents [log]: append [out]. *)
Definition ring_advances (limit max : Z) (log out : list OutputChunk) (m' : SessionManager)
    (s s' : Session) : Prop :=
  ring_state limit max (log ++ out) m' s' /\
  si_next_seq (s_info s') = si_next_seq (s_info s) + zlen out /\
  map oc_seq out = seqZ (si_next_seq (s_info s)) (zlen out).

Lemma ring_keeps limit max log m m' s s' :
  ring_view s' = ring_view s -> sm_max_replay_bytes m' = sm_max_replay_bytes m ->
  ring_state limit max log m s -> ring_advances limit max log [] m' s s'.
Proof.
  unfold ring_view, ring_advances. intros [= H1 H2 H3 H4] Hm [Hc Hr Hl Hx ? ?].
  rewrite zlen_nil, app_nil_r, H4. split_and!; [| lia | done].
  constructor; try done; unfold counted in *; congruence.
Qed.

Lemma ring_pushes limit max log m m' data stream s :
  (MAX_CHUNK_BYTES <? str_len data) = false -> sm_max_replay_bytes m' = sm_max_replay_bytes m ->
  ring_state limit max log m s -> 1 <= si_next_seq (s_info s) < u64_max ->
  ring_advances limit max log
    (match fst (push_session max data stream s) with Ok chunk => [chunk] | Err _ => [] end)
    m' s (snd (push_session max data stream s)).
Proof.
  intros Hlen Hm Hr Hn. pose proof (ring_state_bytes _ _ _ _ _ Hr) as Hb. bool_prop.
  destruct (push_session max data stream s) as [[c | e] s'] eqn:E; cbn [fst snd].
  - destruct Hr as [Hc Hri Hl Hx ? ?].
    destruct (push_retained max data stream s c s' Hc) as (-> & Hc' & Hr' & Hl' & Hn' & _); [| done |].
    { unfold MAX_CHUNK_BYTES, MAX_REPLAY_BYTES in *. zify_bounds. lia. }
    rewrite wrap_u64_small in Hn' by (zify_bounds; lia).
    unfold ring_advances. rewrite zlen_cons, zlen_nil, Hn'. split_and!; [| lia | done].
    constructor; try done; [| congruence..]. rewrite Hr', Hri, Hl. apply retained_snoc.
  - assert (s' = s) as ->.
    { unfold push_session in E. destruct (closed _); [by simplify_eq |].
      destruct (_ <? _); [by simplify_eq |]. cbv zeta in E.
      destruct (trim_count _ _ _) as [b r]. by destruct (trim_bytes _ _ _). }
    by eapply ring_keeps.
Qed.

Lemma ring_effect limit max log m c id s :
  in_process c -> sm_sessions m !! id = Some s -> ring_state limit max log m s ->
  1 <= si_next_seq (s_info s) < u64_max ->
  ring_advances limit max log (output id m c) (exec m c) s (effect m c id s).
Proof.
  intros Hp Hs Hr Hn. pose proof (exec_max_bytes m c Hp) as Hm.
  assert (Hkeep : (forall data stream, c <> CPush id data stream) ->
    ring_advances limit max log (output id m c) (exec m c) s (effect m c id s)).
  { intros Hc. replace (output id m c) with (@nil OutputChunk).
    - eapply ring_keeps; eauto using effect_view.
    - destruct c; try done. cbn. destruct (String.eqb_spec id id0) as [<- |]; [| done].
      by destruct (Hc data stream). }
  destruct c; try (apply Hkeep; discriminate).
  destruct (decide (id = id0)) as [<- | Hne]; [clear Hkeep | apply Hkeep; congruence].
  cbn [output effect]. rewrite !String.eqb_refl. unfold push_output.
  destruct (_ <? _) eqn:El; [by eapply ring_keeps |].
  rewrite (with_session_found _ _ _ _ Hs). cbn [fst].
  rewrite (rs_max _ _ _ _ _ Hr). by apply (ring_pushes limit max log m).
Qed.

Lemma outputs_absent used m cs used' m' id :
  run used m cs used' m' -> id ∈ used -> sm_sessions m !! id = None ->
  sm_sessions m' !! id = None.
Proof.
  intros Hrun. induction Hrun as [| used m c cs used' m' Hf Hrun IH]; [done |].
  intros Hin Hn. apply IH; [destruct (opened c); set_solver |].
  destruct (sm_sessions (exec m c) !! id) as [s|] eqn:E; [| done].
  destruct (exec_effect m c id s) as (? & ? & _); [| done | congruence].
  intros Ho. by apply (Hf id Ho).
Qed.

(** C37: the replay ring is the bounded tail of the session's output.  Between two starts of
    the daemon (its two start-up passes, [CMarkDetached] and [CEnforceBudgets], are
    excluded), and from a session whose ring is so to begin with, with the complete log of
    what was ever pushed to the session: the ring is the longest suffix of that log within
    the chunk and byte budgets, its byte counter is exact and within the budget, and the log
    carries consecutive sequence numbers. *)
Theorem ring_is_bounded_tail used m cs used' m' id s s' limit max log :
  run used m cs used' m' -> Forall in_process cs -> id ∈ used ->
  sm_sessions m !! id = Some s -> ring_state limit max log m s ->
  1 <= si_next_seq (s_info s) -> si_next_seq (s_info s) + zlen (outputs id m cs) < u64_max ->
  sm_sessions m' !! id = Some s' ->
  ring_advances limit max log (outputs id m cs) m' s s' /\ 0 <= s_replay_bytes s' <= max.
Proof.
  intros Hrun. revert s log. induction Hrun as [| used m c cs used' m' Hf Hrun IH];
    intros s log Hip Hin Hs Hr Hlo Hhi Hs'; cbn [outputs] in *.
  { simplify_eq. split; [by eapply ring_keeps | by eapply ring_state_bytes]. }
  inversion Hip as [| ? ? Hc Hcs]; subst.
  assert (Hin' : id ∈ match opened c with Some id0 => {[id0]} ∪ used | None => used end)
    by (destruct (opened c); set_solver).
  rewrite zlen_app in Hhi. pose proof (zlen_nonneg (output id m c)).
  pose proof (zlen_nonneg (outputs id (exec m c) cs)).
  destruct (ring_effect limit max log m c id s) as (Hr1 & Hn1 & Hq1); [done.. | lia |].
  destruct (sm_sessions (exec m c) !! id) as [s1|] eqn:E1.
  2: { rewrite (outputs_absent _ _ _ _ _ id Hrun Hin' E1) in Hs'. done. }
  destruct (exec_effect m c id s1) as (s0 & Hs0 & ->); [by intros Ho; apply (Hf id Ho) | done |].
  simplify_eq. destruct (IH _ _ Hcs Hin' eq_refl Hr1) as [(Hr2 & Hn2 & Hq2) Hb2]; [lia | lia | done |].
  split; [| done]. unfold ring_advances. rewrite zlen_app, map_app, app_assoc, Hn2, Hn1.
  split_and!; [done | lia |]. rewrite Hq1, Hq2, Hn1.
  by rewrite seqZ_app by apply zlen_nonneg.
Qed.

(** ** Paging *)

(** A reader that follows [next_seq] until the page is not truncated. *)
Fixpoint read_pages (fuel : nat) (m : SessionManager) (id principal : string)
    (from limit max_bytes : Z) : result (list OutputChunk) SessionError :=
  match fuel with
  | O => Ok []
  | S fuel =>
      let? page := replay_from_bounded m id principal from limit max_bytes in
      match rp_next_seq page with
      | None => Ok (rp_chunks page)
      | Some next =>
          let? rest := read_pages fuel m id principal next limit max_bytes in
          Ok (rp_chunks page ++ rest)
      end
  end.

(** A page is a prefix of what it was asked for, within its limits, and stops only
    where the next chunk would exceed one of them. *)
Lemma fill_page_spec limit max rv b l :
  zlen rv <= limit -> 0 <= b <= max -> max < u64_max ->
  exists pre post, l = pre ++ post /\
    rp_chunks (fill_page limit max rv b l) = rev rv ++ pre /\
    rp_next_seq (fill_page limit max rv b l) = option_map oc_seq (head post) /\
    rp_truncated (fill_page limit max rv b l) = match post with [] => false | _ => true end /\
    rp_returned_bytes (fill_page limit max rv b l) = b + ring_bytes pre /\
    zlen rv + zlen pre <= limit /\ b + ring_bytes pre <= max /\
    (forall c, head post = Some c -> limit <= zlen rv + zlen pre \/ max < b + ring_bytes pre + data_len c).
Proof.
  revert rv b. induction l as [|c l IH]; intros rv b Hl Hb Hm; cbn [fill_page].
  { exists [], []. change (zlen (@nil OutputChunk)) with 0. cbn. rewrite app_nil_r. 
    split_and!; try done; try lia. }
  pose proof (data_len_nonneg c) as Hd.
  destruct (_ || _) eqn:E.
  - exists [], (c :: l). change (zlen (@nil OutputChunk)) with 0. cbn. rewrite app_nil_r. split_and!; try done; try lia.
    intros ? [= <-]. apply orb_true_iff in E as [E | E]; bool_prop; [left; lia |].
    right. unfold u64_saturating_add in E. lia.
  - bool_prop. unfold u64_saturating_add in *.
    replace (Z.min (b + data_len c) u64_max) with (b + data_len c) in * by lia.
    destruct (IH (c :: rv) (b + data_len c)) as (pre & post & -> & H1 & H2 & H3 & H4 & H5 & H6 & H7);
      [rewrite zlen_cons; lia | lia | done |].
    exists (c :: pre), post. rewrite H1, H2, H3, H4. cbn [rev app]. rewrite <- app_assoc.
    rewrite zlen_cons in *. rewrite ring_bytes_cons.
    split_and!; try done; try lia. intros c0 Hc0. destruct (H7 c0 Hc0); [left | right]; lia.
Qed.

(** The chunks of a ring from a sequence number on. *)
Definition from_seq_on (from : Z) (l : list OutputChunk) : list OutputChunk :=
  List.filter (fun c => from <=? oc_seq c) l.

Lemma elem_of_from from l c : c ∈ from_seq_on from l <-> c ∈ l /\ from <= oc_seq c.
Proof. unfold from_seq_on. by rewrite !list_elem_of_In, List.filter_In, Z.leb_le. Qed.

(** Sequence numbers of the ring increase. *)
Definition increasing (l : list OutputChunk) : Prop := StronglySorted Z.lt (map oc_seq l).

Lemma from_seq_all from l : Forall (fun c => from <= oc_seq c) l -> from_seq_on from l = l.
Proof.
  induction 1 as [|c l Hc _ IH]; [done |]. cbn. unfold from_seq_on in IH. rewrite IH.
  by destruct (Z.leb_spec from (oc_seq c)); [| lia].
Qed.

Lemma increasing_head c l : increasing (c :: l) -> Forall (fun c' => oc_seq c < oc_seq c') l.
Proof.
  unfold increasing. cbn. intros H%StronglySorted_inv. destruct H as [_ H].
  exact (proj1 (List.Forall_map _ _ _) H).
Qed.

(** Restarting at a chunk of the ring gives that chunk and what follows it. *)
Lemma from_seq_restart from l pre c post :
  increasing l -> from_seq_on from l = pre ++ c :: post ->
  from_seq_on (oc_seq c) l = c :: post.
Proof.
  revert pre. induction l as [|x l IH]; intros pre Hi H; [by destruct pre |].
  pose proof (increasing_head _ _ Hi) as Hx.
  assert (Hi' : increasing l) by (unfold increasing in *; cbn in Hi; by apply StronglySorted_inv in Hi as [? _]).
  cbn [from_seq_on List.filter] in *. fold (from_seq_on from l) in H. fold (from_seq_on (oc_seq c) l).
  destruct (from <=? oc_seq x) eqn:Ef.
  - destruct pre as [|y pre]; injection H as -> H.
    + rewrite Z.leb_refl. f_equal. rewrite <- H. bool_prop.
      rewrite !from_seq_all; [done | |]; eapply Forall_impl; try exact Hx; cbn; lia.
    + assert (Hlt : oc_seq y < oc_seq c).
      { rewrite Forall_forall in Hx. apply Hx.
        by apply (elem_of_from from l c); rewrite H; apply elem_of_app; right; left. }
      destruct (Z.leb_spec (oc_seq c) (oc_seq y)); [lia |]. by eapply IH.
  - bool_prop. assert (Hlt : oc_seq x < oc_seq c).
    { assert (from <= oc_seq c); [| lia].
      by apply (elem_of_from from l c); rewrite H; apply elem_of_app; right; left. }
    destruct (Z.leb_spec (oc_seq c) (oc_seq x)); [lia |]. by eapply IH.
Qed.

(** The chunks before the first that is larger than a page. *)
Fixpoint fitting (max : Z) (l : list OutputChunk) : list OutputChunk :=
  match l with
  | c :: l => if data_len c <=? max then c :: fitting max l else []
  | [] => []
  end.

Lemma fitting_app max pre post : ring_bytes pre <= max -> fitting max (pre ++ post) = pre ++ fitting max post.
Proof.
  induction pre as [|c pre IH]; [done |]. rewrite ring_bytes_cons. pose proof (ring_bytes_nonneg pre).
  pose proof (data_len_nonneg c). intros H'. cbn [app fitting]. rewrite (proj2 (Z.leb_le _ _)) by lia. by rewrite IH by lia.
Qed.

Lemma fitting_all max l : Forall (fun c => data_len c <= max) l -> fitting max l = l.
Proof. induction 1 as [|c l Hc _ IH]; [done |]. cbn. by rewrite (proj2 (Z.leb_le _ _) Hc), IH. Qed.

Section paging.
Context (m : SessionManager) (id principal : string) (s : Session) (limit max_bytes : Z).
Context (Ha : authorize_reader m id principal = Ok tt) (Hs : sm_sessions m !! id = Some s).
Context (Hi : increasing (s_replay s)).
Local Abbreviation page_max := (clamp max_bytes 1 MAX_REPLAY_PAGE_BYTES).

(** One page: a prefix that fits, and where it stops. *)
Lemma page_read from :
  exists pre post, from_seq_on from (s_replay s) = pre ++ post /\ ring_bytes pre <= page_max
  /\ (forall fuel, read_pages (S fuel) m id principal from limit max_bytes =
       match post with
       | [] => Ok pre
       | c :: _ => let? rest := read_pages fuel m id principal (oc_seq c) limit max_bytes in Ok (pre ++ rest)
       end)
  /\ match post with
     | [] => True
     | c :: _ => from_seq_on (oc_seq c) (s_replay s) = post /\ (pre = [] -> page_max < data_len c)
     end.
Proof.
  set (lim := clamp limit 1 MAX_REPLAY_PAGE_LIMIT).
  assert (Hlim : 1 <= lim) by (unfold lim, clamp, MAX_REPLAY_PAGE_LIMIT; lia).
  assert (Hmx : 1 <= page_max < u64_max) by (unfold clamp, MAX_REPLAY_PAGE_BYTES; zify_bounds; lia).
  destruct (fill_page_spec lim page_max [] 0 (from_seq_on from (s_replay s)))
    as (pre & post & Hsplit & Hch & Hnext & _ & _ & _ & Hb & Hstop); [by rewrite zlen_nil; lia | lia.. |].
  exists pre, post. split_and!; [done | lia | |].
  - intros fuel. cbn [read_pages]. unfold replay_from_bounded. rewrite Ha, Hs. cbn [rbind].
    fold lim. fold (from_seq_on from (s_replay s)). rewrite Hnext, Hch. by destruct post.
  - destruct post as [|c post]; [done |]. split; [by eapply from_seq_restart |].
    intros ->. destruct (Hstop c eq_refl) as [H | H]; [unfold zlen in H; cbn in H; lia | cbn in H; lia].
Qed.

(** A reader at a chunk that no page holds stays there. *)
Lemma page_stuck from c post fuel :
  from_seq_on from (s_replay s) = c :: post -> page_max < data_len c ->
  read_pages fuel m id principal from limit max_bytes = Ok [].
Proof.
  intros Hf Hc. revert from Hf. induction fuel as [|fuel IH]; intros from Hf; [done |].
  destruct (page_read from) as ([|x pre] & post' & Hsplit & Hb & Hr & Hp); rewrite Hf in Hsplit.
  - cbn in Hsplit. subst post'. rewrite Hr, (IH (oc_seq c)); [done | apply Hp].
  - exfalso. injection Hsplit as <- _. rewrite ring_bytes_cons in Hb. pose proof (ring_bytes_nonneg pre). lia.
Qed.

(** C38: paging is complete and makes progress.  An authorized reader of a ring with increasing
    sequence numbers who follows [next_seq] from any starting point, with any page limits,
    gets after at most one page per retained chunk exactly the retained chunks from there
    on, in order, up to the first that is larger than the page's byte limit; so all of
    them, if the limit admits each single chunk. *)
Theorem paging_complete from fuel :
  (length (from_seq_on from (s_replay s)) < fuel)%nat ->
  read_pages fuel m id principal from limit max_bytes
    = Ok (fitting (clamp max_bytes 1 MAX_REPLAY_PAGE_BYTES) (from_seq_on from (s_replay s)))
  /\ (Forall (fun c => data_len c <= clamp max_bytes 1 MAX_REPLAY_PAGE_BYTES) (s_replay s) ->
      read_pages fuel m id principal from limit max_bytes = Ok (from_seq_on from (s_replay s))).
Proof.
  intros Hf. assert (read_pages fuel m id principal from limit max_bytes
    = Ok (fitting page_max (from_seq_on from (s_replay s)))) as E.
  { revert from Hf. induction fuel as [|fuel IH]; intros from Hf; [lia |].
    destruct (page_read from) as (pre & post & Hsplit & Hb & Hr & Hp). rewrite Hr, Hsplit, fitting_app by done.
    destruct post as [|c post]; [by rewrite app_nil_r |]. destruct Hp as [Hre Hst]. destruct pre as [|x pre].
    - rewrite (page_stuck _ c post fuel Hre (Hst eq_refl)). cbn. by rewrite (proj2 (Z.leb_gt _ _) (Hst eq_refl)).
    - rewrite IH, Hre; [done |]. rewrite Hre. rewrite Hsplit, length_app in Hf. cbn in *. lia. }
  split; [done |]. intros Hfit. rewrite E, fitting_all; [done |].
  rewrite Forall_forall in Hfit |- *. intros c Hc. apply Hfit. by apply elem_of_from in Hc as [? _].
Qed.
End paging.

(** ** Loading untrusted state *)

Lemma delete_all_lookup (ids : list string) (ss : gmap string Session) k :
  foldl (fun ss id => delete id ss) ss ids !! k = if decide (k ∈ ids) then None else ss !! k.
Proof.
  revert ss. induction ids as [|id ids IH]; intros ss; cbn; [done |]. rewrite IH.
  destruct (decide (k ∈ ids)), (decide (k ∈ id :: ids)) as [Hin | Hin]; try done.
  - destruct Hin. by right.
  - apply elem_of_cons in Hin as [-> | ?]; [by rewrite lookup_delete_eq | done].
  - rewrite lookup_delete_ne; [done |]. intros ->. apply Hin. by left.
Qed.

Lemma delete_all_size (ids : list string) (ss : gmap string Session) :
  NoDup ids -> (forall id, id ∈ ids -> is_Some (ss !! id)) ->
  (size (foldl (fun ss id => delete id ss) ss ids) + length ids = size ss)%nat.
Proof.
  intros Hnd. revert ss. induction Hnd as [|id ids Hni Hnd IH]; intros ss Hin; cbn; [lia |].
  destruct (Hin id (list_elem_of_here _ _)) as [s Hs].
  assert (Hd : (size (delete id ss) + 1 = size ss)%nat).
  { rewrite map_size_delete, Hs. pose proof (map_size_ne_0_lookup_2 ss id (mk_is_Some _ _ Hs)). lia. }
  assert (Hi : forall id', id' ∈ ids -> is_Some (delete id ss !! id')).
  { intros id' Hid'. rewrite lookup_delete_ne by (intros ->; done). apply Hin. by right. }
  specialize (IH (delete id ss) Hi). lia.
Qed.

Lemma sorted_ids_perm ss : sorted_ids ss ≡ₚ map fst (map_to_list ss).
Proof. apply sort_by_perm. Qed.

Lemma sorted_ids_nodup ss : NoDup (sorted_ids ss).
Proof. rewrite sorted_ids_perm. apply NoDup_fst_map_to_list. Qed.

Lemma sorted_ids_elem ss id : id ∈ sorted_ids ss <-> is_Some (ss !! id).
Proof.
  rewrite sorted_ids_perm. split.
  - intros ((k & s) & -> & H%elem_of_map_to_list)%list_elem_of_fmap. by exists s.
  - intros [s Hs]. apply list_elem_of_fmap. exists (id, s). split; [done |].
    by apply elem_of_map_to_list.
Qed.

Lemma sorted_ids_length ss : length (sorted_ids ss) = size ss.
Proof. rewrite sorted_ids_perm, length_map. apply length_map_to_list. Qed.

(** [drop_excess] keeps the sessions with the greatest identifiers. *)
Lemma drop_excess_spec n ss :
  0 <= n -> Z.of_nat (size (drop_excess n ss)) = Z.min n (Z.of_nat (size ss)) /\
  (forall id id', is_Some (drop_excess n ss !! id) -> is_Some (ss !! id') ->
     drop_excess n ss !! id' = None -> String.compare id' id <> Gt).
Proof.
  intros Hn. unfold drop_excess. destruct (Z.ltb_spec n (Z.of_nat (size ss))) as [Hlt | Hge].
  2: { split; [lia |]. intros ? ? _ [? ?]. congruence. }
  set (k := Z.to_nat (Z.of_nat (size ss) - n)).
  pose proof (take_drop k (sorted_ids ss)) as Hsplit.
  pose proof (sorted_ids_nodup ss) as Hnd. pose proof Hnd as Hnd'. rewrite <- Hsplit in Hnd'.
  apply NoDup_app in Hnd' as (Hnd1 & Hdisj & _). split.
  - pose proof (delete_all_size (take k (sorted_ids ss)) ss Hnd1) as Hsz.
    rewrite length_take, sorted_ids_length in Hsz.
    assert (size (foldl (fun ss id => delete id ss) ss (take k (sorted_ids ss))) + k `min` size ss =
            size ss)%nat; [| lia]. apply Hsz. intros id Hid. apply sorted_ids_elem.
    rewrite <- Hsplit, elem_of_app. by left.
  - intros id id' Hid Hid' Hgone. rewrite !delete_all_lookup in *.
    destruct (decide (id ∈ _)); [by destruct Hid |]. destruct (decide (id' ∈ _)); [| by destruct Hid'; congruence].
    eapply (StronglySorted_app_lr (fun a b => String.compare a b <> Gt) (take k (sorted_ids ss))
      (drop k (sorted_ids ss))); [| done |].
    + rewrite Hsplit. apply sort_by_sorted; [apply str_compare_trans | apply str_compare_total].
    + apply sorted_ids_elem in Hid. rewrite <- Hsplit in Hid. apply elem_of_app in Hid as [? | ?]; done.
Qed.


(** The restart notice is not accounted for. When a daemon restart marks the
    host of an open PTY session as gone, the notice is appended to the ring without
    counting its bytes and without trimming: the byte counter falls short of the
    ring by the length of the notice, and a full ring ends up one chunk over its
    limit. *)
Theorem restart_notice_uncounted s :
  counted s -> closed (s_info s) = false -> si_kind (s_info s) = Pty ->
  let s' := snd (mark_host_detached s) in
  ring_bytes (s_replay s') = s_replay_bytes s' + str_len restart_notice /\
  zlen (s_replay s') = zlen (s_replay s) + 1 /\
  s_replay_limit s' = s_replay_limit s.
Proof.
  intros Hc Hcl Hk. unfold mark_host_detached. rewrite Hcl, bool_decide_true, orb_true_r by done.
  cbn [fst snd s_replay s_replay_bytes s_replay_limit update]. autorewrite with ownmesh.
  rewrite <- Hc. cbn [ring_bytes foldr]. unfold data_len. cbn [oc_data]. split_and!; try done; lia.
Qed.

Definition sample_session : Session :=
  {| s_info := open_info "u1" "l1" Pty "shell" "alice" 3700 None None None (Some "ws_1");
     s_replay := []; s_replay_limit := 256; s_replay_bytes := 0 |}.

Lemma restart_notice_uncounted_witness :
  ring_bytes (s_replay (snd (mark_host_detached sample_session))) = 56 /\
  s_replay_bytes (snd (mark_host_detached sample_session)) = 0.
Proof.
  destruct (restart_notice_uncounted sample_session) as (-> & _ & _); [reflexivity .. |].
  split; reflexivity.
Defined.

(** Three outputs to a session opened with room for 256 chunks. *)
Definition sample_pushes : list command :=
  [CPush "ses_u1" "a" Stdout; CPush "ses_u1" "bc" Stderr; CPush "ses_u1" "d" Stdout].
Definition pushed_manager : SessionManager := foldl exec opened_manager sample_pushes.

Lemma sample_pushes_run :
  run {["ses_u1"]} opened_manager sample_pushes {["ses_u1"]} pushed_manager.
Proof. unfold sample_pushes. repeat (apply run_cons; [done |]). apply run_nil. Qed.

Lemma ring_is_bounded_tail_witness :
  exists s', sm_sessions pushed_manager !! "ses_u1" = Some s' /\
    map oc_seq (s_replay s') = [1; 2; 3] /\ s_replay_bytes s' = 4.
Proof.
  assert (Hs' : exists s', sm_sessions pushed_manager !! "ses_u1" = Some s')
    by (vm_compute; eexists; reflexivity).
  destruct Hs' as [s' Hs']. exists s'. split; [done |].
  destruct (ring_is_bounded_tail {["ses_u1"]} opened_manager sample_pushes {["ses_u1"]}
    pushed_manager "ses_u1" sample_session s' 256 MAX_REPLAY_BYTES [] sample_pushes_run)
    as [(Hr & _ & _) _].
  - repeat constructor.
  - by apply elem_of_singleton.
  - vm_compute. reflexivity.
  - constructor; try reflexivity; unfold MAX_REPLAY_BYTES; lia.
  - vm_compute. discriminate.
  - vm_compute. reflexivity.
  - exact Hs'.
  - destruct Hr as [-> -> _ _ _ _]. split; vm_compute; reflexivity.
Defined.

Lemma paging_complete_witness :
  exists l, read_pages 4 pushed_manager "ses_u1" "alice" 1 1 65536 = Ok l /\ map oc_seq l = [1; 2; 3].
Proof.
  assert (Hs : exists s, sm_sessions pushed_manager !! "ses_u1" = Some s /\
    map oc_seq (s_replay s) = [1; 2; 3] /\ map data_len (s_replay s) = [1; 2; 1] /\
    map oc_seq (from_seq_on 1 (s_replay s)) = [1; 2; 3]).
  { eexists. split; [vm_compute; reflexivity |]. split_and!; reflexivity. }
  destruct Hs as (s & Hs & Hq & Hd & Hf). exists (from_seq_on 1 (s_replay s)). split; [| exact Hf].
  refine (proj2 (paging_complete pushed_manager "ses_u1" "alice" s 1 65536 _ Hs _ 1 4 _) _).
  - vm_compute. reflexivity.
  - unfold increasing. rewrite Hq. repeat constructor.
  - rewrite <- (length_map oc_seq), Hf. cbn. lia.
  - apply (proj1 (List.Forall_map data_len (fun n => n <= clamp 65536 1 MAX_REPLAY_PAGE_BYTES) _)).
    rewrite Hd. repeat constructor; unfold clamp, MAX_REPLAY_PAGE_BYTES; lia.
Defined.
