(* ===== verification/TransitionJournal.v ===== *)
(** * Transition journal ([crates/ownmesh-transition-journal/src/lib.rs])

    The owner-only journal of sidecar controller transitions: an intent is made
    durable before the sidecar is touched, marked applied with the new binding, and
    cleared when the session snapshot is committed.  The file is modelled with the
    journal in memory; a write may fail before it replaces the file or, as
    [atomic_write_owner_only] of [ownmesh-ipc] can, after it did. *)

From stdpp Require Import base list strings gmap.
From Stdlib Require Import ZArith Lia Ascii.
From S2P Require Import Prelude RustStr Session.

Open Scope Z_scope.

(** ** Data *)

Definition VERSION : Z := 1.
Definition MAX_BYTES : Z := 256 * 1024.
Definition MAX_ENTRIES : Z := 64.

Inductive TransitionPhase : Type := Intent | Applied.

#[export] Instance TransitionPhase_eq_dec : EqDecision TransitionPhase.
Proof. solve_decision. Defined.

Inductive TransitionKind : Type :=
| KDetach | KClaim | KGive | KRenew | KReclaim | KClose | KTerminate.

#[export] Instance TransitionKind_eq_dec : EqDecision TransitionKind.
Proof. solve_decision. Defined.

Record TransitionTarget : Type := {
  tt_principal : string;
  tt_controller_epoch : Z;
  tt_binding_expires_unix : Z;
  tt_controller_attached : bool;
  tt_lease_id : option string;
  tt_terminal : bool
}.

#[export] Instance TransitionTarget_eq_dec : EqDecision TransitionTarget.
Proof. solve_decision. Defined.

#[export] Instance SidecarHostBinding_eq_dec : EqDecision SidecarHostBinding.
Proof. solve_decision. Defined.

Record TransitionRecord : Type := {
  tr_transition_id : string;
  tr_kind : TransitionKind;
  tr_phase : TransitionPhase;
  tr_session_id : string;
  tr_device_id : string;
  tr_workspace_id : string;
  tr_authenticated_principal : string;
  tr_old_binding : SidecarHostBinding;
  tr_target : TransitionTarget;
  tr_new_binding : option SidecarHostBinding;
  tr_created_unix : Z;
  tr_expires_unix : Z
}.

#[export] Instance TransitionRecord_eq_dec : EqDecision TransitionRecord.
Proof. solve_decision. Defined.

#[export] Instance TransitionRecord_eta : Eta TransitionRecord := fun r =>
  {| tr_transition_id := tr_transition_id r; tr_kind := tr_kind r; tr_phase := tr_phase r;
     tr_session_id := tr_session_id r; tr_device_id := tr_device_id r;
     tr_workspace_id := tr_workspace_id r;
     tr_authenticated_principal := tr_authenticated_principal r;
     tr_old_binding := tr_old_binding r; tr_target := tr_target r;
     tr_new_binding := tr_new_binding r; tr_created_unix := tr_created_unix r;
     tr_expires_unix := tr_expires_unix r |}.

(** The file's contents. *)
Record Disk : Type := { dk_version : Z; dk_entries : gmap string TransitionRecord }.

(** ** Validation *)

Definition valid (value : string) : result unit string :=
  if is_empty value || (256 <? str_len value)
     || (has_control value || contains_char "/" value || contains_char "\" value)
  then Err "invalid transition journal identifier" else Ok tt.

Fixpoint valid_all (values : list string) : result unit string :=
  match values with
  | [] => Ok tt
  | v :: rest => valid v ;? valid_all rest
  end.

Definition validate_binding (binding : SidecarHostBinding) : result unit string :=
  valid_all [sb_device_id binding; sb_workspace_id binding; sb_owner_principal binding;
             sb_host_nonce binding] ;?
  guard_err ((sb_controller_epoch binding =? 0) || (sb_binding_expires_unix binding <=? 0)
             || (sb_host_expires_unix binding <=? sb_binding_expires_unix binding))
    "invalid transition journal binding" ;?
  guard_err (negb (Bool.eqb (match sb_child_pid binding with Some _ => true | None => false end)
                            (match sb_child_process_birth binding with Some _ => true | None => false end)))
    "transition journal binding has incomplete child identity".

Definition kind_is_terminal (k : TransitionKind) : bool :=
  match k with KClose | KTerminate => true | _ => false end.

Definition validate (record : TransitionRecord) : result unit string :=
  let target := tr_target record in
  valid_all [tr_transition_id record; tr_session_id record; tr_device_id record;
             tr_workspace_id record; tr_authenticated_principal record; tt_principal target] ;?
  guard_err ((tt_controller_epoch target =? 0) || (tr_created_unix record <=? 0)
             || (tr_expires_unix record <=? tr_created_unix record)
             || (tt_binding_expires_unix target <=? tr_created_unix record)
             || (tr_expires_unix record <? tt_binding_expires_unix target))
    "invalid transition journal epoch or expiry" ;?
  guard_err ((tr_expires_unix record <? sb_host_expires_unix (tr_old_binding record))
             || match tr_new_binding record with
                | Some binding => tr_expires_unix record <? sb_host_expires_unix binding
                | None => false
                end)
    "invalid transition journal host-expiry bound" ;?
  validate_binding (tr_old_binding record) ;?
  match tr_new_binding record with Some b => validate_binding b | None => Ok tt end ;?
  guard_err (bool_decide (tr_phase record = Applied)
             && match tr_new_binding record with None => true | Some _ => false end
             && negb (tt_terminal target))
    "applied transition missing binding" ;?
  guard_err (negb (Bool.eqb (tt_terminal target) (kind_is_terminal (tr_kind record))))
    "transition kind/target.terminal mismatch".

(** ** The journal *)

(** [serde_json] on [Disk]: encoding then decoding gives the value back. *)
Class Codec (Bytes : Type) : Type := {
  enc : Disk -> Bytes;
  dec : Bytes -> result Disk string;
  bytes_len : Bytes -> Z;
  dec_enc : forall d, dec (enc d) = Ok d
}.

(** How a call of [atomic_write_owner_only] ends. *)
Inductive write_outcome : Type :=
| Written
| FailedBefore (e : string)
| FailedAfter (e : string).

Section journal.
Context {Bytes : Type} `{!Codec Bytes}.

(** The journal object and the file behind it. *)
Record Journal : Type := {
  j_entries : gmap string TransitionRecord;
  j_file : option Bytes
}.

#[export] Instance Journal_eta : Eta Journal := fun j =>
  {| j_entries := j_entries j; j_file := j_file j |}.

(** The loop of [parse_and_validate] over the entries, in key order. *)
Fixpoint check_entries (l : list (string * TransitionRecord)) : result (list TransitionRecord) string :=
  match l with
  | [] => Ok []
  | (id, record) :: rest =>
      guard_err (negb (String.eqb id (tr_transition_id record)))
        ("transition journal key/id mismatch (" +:+ id +:+ " != " +:+ tr_transition_id record +:+ ")") ;?
      validate record ;?
      let? entries := check_entries rest in
      Ok (record :: entries)
  end.

(** The entries in the order of a [BTreeMap]. *)
Definition in_key_order (m : gmap string TransitionRecord) : list (string * TransitionRecord) :=
  sort_by (fun a b => String.compare (fst a) (fst b)) (map_to_list m).

Definition parse_and_validate (bytes : Bytes) : result (list TransitionRecord) string :=
  let? disk := map_err (fun e => "parse transition journal: " +:+ e) (dec bytes) in
  guard_err (negb (dk_version disk =? VERSION))
    ("invalid transition journal version (expected 1, got " +:+ u64_to_string (dk_version disk) +:+ ")") ;?
  guard_err (MAX_ENTRIES <? Z.of_nat (size (dk_entries disk)))
    ("transition journal entry cap exceeded (" +:+ u64_to_string (Z.of_nat (size (dk_entries disk)))
     +:+ "/64)") ;?
  check_entries (in_key_order (dk_entries disk)).

(** [SessionTransitionJournal::open]; [prepared] is the outcome of preparing the
    directory, [readable] that of opening the file within the byte budget. *)
Definition open_journal (prepared : result unit string) (readable : result unit string)
    (file : option Bytes) : result Journal string :=
  map_err (fun e => "prepare transition journal: " +:+ e) prepared ;?
  match file with
  | None => Ok {| j_entries := ∅; j_file := None |}
  | Some bytes =>
      map_err (fun e => "read transition journal: " +:+ e) readable ;?
      guard_err (MAX_BYTES <? bytes_len bytes)
        "read transition journal: owner-only file exceeds 262144 byte budget" ;?
      let? entries := parse_and_validate bytes in
      Ok {| j_entries := list_to_map (map (fun r => (tr_transition_id r, r)) entries);
            j_file := Some bytes |}
  end.

Definition persist (w : write_outcome) (j : Journal) : result unit string * Journal :=
  let bytes := enc {| dk_version := VERSION; dk_entries := j_entries j |} in
  if MAX_BYTES <? bytes_len bytes then (Err "transition journal byte cap reached", j)
  else match w with
       | Written => (Ok tt, j <| j_file := Some bytes |>)
       | FailedBefore e => (Err ("persist transition journal: " +:+ e), j)
       | FailedAfter e => (Err ("persist transition journal: " +:+ e), j <| j_file := Some bytes |>)
       end.

Definition begin_ (w : write_outcome) (record : TransitionRecord) (j : Journal)
  : result TransitionRecord string * Journal :=
  match validate record with
  | Err e => (Err e, j)
  | Ok _ =>
      match j_entries j !! tr_transition_id record with
      | Some existing =>
          if bool_decide (existing = record) then (Ok existing, j)
          else (Err "transition journal id reuse conflict", j)
      | None =>
          if MAX_ENTRIES <=? Z.of_nat (size (j_entries j)) then
            (Err "transition journal entry cap reached", j)
          else
            let j1 := j <| j_entries := <[tr_transition_id record := record]> (j_entries j) |> in
            match persist w j1 with
            | (Err e, j2) =>
                (Err e, j2 <| j_entries := delete (tr_transition_id record) (j_entries j2) |>)
            | (Ok _, j2) => (Ok record, j2)
            end
      end
  end.

(** Commit a validated candidate in place of [original]; shared by the two marks. *)
Definition commit (w : write_outcome) (id : string) (original candidate : TransitionRecord)
    (j : Journal) : result unit string * Journal :=
  match validate candidate with
  | Err e => (Err e, j)
  | Ok _ =>
      let j1 := j <| j_entries := <[id := candidate]> (j_entries j) |> in
      match persist w j1 with
      | (Err e, j2) => (Err e, j2 <| j_entries := <[id := original]> (j_entries j2) |>)
      | (Ok _, j2) => (Ok tt, j2)
      end
  end.

Definition mark_applied (w : write_outcome) (id : string) (binding : SidecarHostBinding)
    (j : Journal) : result unit string * Journal :=
  match j_entries j !! id with
  | None => (Err "transition journal record not found", j)
  | Some original =>
      if bool_decide (tr_phase original = Applied) then
        if bool_decide (tr_new_binding original = Some binding) then (Ok tt, j)
        else (Err "transition journal applied binding conflict", j)
      else commit w id original
             (original <| tr_phase := Applied |> <| tr_new_binding := Some binding |>) j
  end.

Definition mark_terminal_applied (w : write_outcome) (id : string) (j : Journal)
  : result unit string * Journal :=
  match j_entries j !! id with
  | None => (Err "transition journal record not found", j)
  | Some original =>
      if negb (tt_terminal (tr_target original)) then
        (Err "non-terminal transition cannot record terminal receipt", j)
      else if bool_decide (tr_phase original = Applied) then
        match tr_new_binding original with
        | None => (Ok tt, j)
        | Some _ => (Err "terminal transition applied binding conflict", j)
        end
      else commit w id original
             (original <| tr_phase := Applied |> <| tr_new_binding := None |>) j
  end.

Definition clear (w : write_outcome) (id : string) (j : Journal) : result unit string * Journal :=
  match j_entries j !! id with
  | None => (Ok tt, j)
  | Some removed =>
      let j1 := j <| j_entries := delete id (j_entries j) |> in
      match persist w j1 with
      | (Err e, j2) => (Err e, j2 <| j_entries := <[id := removed]> (j_entries j2) |>)
      | (Ok _, j2) => (Ok tt, j2)
      end
  end.

Definition pending (j : Journal) : list TransitionRecord := map snd (in_key_order (j_entries j)).

(** ** Invariants *)

(** The operations of the journal, each with the outcome of its write. *)
Inductive jop : Type :=
| JBegin (record : TransitionRecord)
| JApplied (id : string) (binding : SidecarHostBinding)
| JTerminalApplied (id : string)
| JClear (id : string).

Definition jexec (w : write_outcome) (op : jop) (j : Journal) : bool * Journal :=
  match op with
  | JBegin r => let '(x, j') := begin_ w r j in (is_ok x, j')
  | JApplied id b => let '(x, j') := mark_applied w id b j in (is_ok x, j')
  | JTerminalApplied id => let '(x, j') := mark_terminal_applied w id j in (is_ok x, j')
  | JClear id => let '(x, j') := clear w id j in (is_ok x, j')
  end.

Definition entries_ok (m : gmap string TransitionRecord) : Prop :=
  map_Forall (fun id r => tr_transition_id r = id /\ validate r = Ok tt) m /\
  Z.of_nat (size m) <= MAX_ENTRIES.

(** A file is the encoding of well-formed entries, within the byte budget. *)
Definition file_ok (f : option Bytes) : Prop :=
  forall bytes, f = Some bytes -> bytes_len bytes <= MAX_BYTES /\
  exists m, bytes = enc {| dk_version := VERSION; dk_entries := m |} /\ entries_ok m.

Definition journal_ok (j : Journal) : Prop := entries_ok (j_entries j) /\ file_ok (j_file j).

(** The file holds what memory holds. *)
Definition in_sync (j : Journal) : Prop :=
  match j_file j with
  | None => j_entries j = ∅
  | Some bytes => bytes = enc {| dk_version := VERSION; dk_entries := j_entries j |}
  end.

(** What [persist] may do. *)
Lemma persist_cases w j r j' :
  persist w j = (r, j') -> entries_ok (j_entries j) -> file_ok (j_file j) ->
  j_entries j' = j_entries j /\ file_ok (j_file j') /\
  (r = Ok tt -> in_sync j') /\
  (is_ok r = false -> (forall e, w <> FailedAfter e) -> j_file j' = j_file j).
Proof.
  unfold persist. intros H He Hf.
  destruct (Z.ltb_spec MAX_BYTES (bytes_len (enc {| dk_version := VERSION; dk_entries := j_entries j |}))).
  { by simplify_eq. }
  assert (Hnew : file_ok (Some (enc {| dk_version := VERSION; dk_entries := j_entries j |}))).
  { intros bytes [= <-]. split; [lia |]. by exists (j_entries j). }
  destruct w; simplify_eq; cbn; split_and!; try done. intros _ Hw. by destruct (Hw e).
Qed.

(** An operation that writes candidate entries [m1] and restores [m0] on failure. *)
Lemma persist_or_restore w j m1 r j2 :
  persist w (j <| j_entries := m1 |>) = (r, j2) -> entries_ok m1 -> journal_ok j ->
  let j' := if is_ok r then j2 else j2 <| j_entries := j_entries j |> in
  journal_ok j' /\ j_entries j' = (if is_ok r then m1 else j_entries j) /\
  ((is_ok r = true \/ forall e, w <> FailedAfter e) ->
     (is_ok r = true \/ in_sync j) -> in_sync j').
Proof.
  intros H H1 [He Hf]. destruct (persist_cases _ _ _ _ H) as (Hm & Hf' & Hok & Hfail); [done..|].
  cbn in Hm. destruct r as [[]|e]; cbn.
  - split_and!; [| done | auto]. split; [by rewrite Hm | done].
  - split_and!; [by split | done |]. intros [? | Hw] [? | Hs]; try done.
    unfold in_sync in *. cbn. by rewrite Hfail.
Qed.

Lemma entries_ok_insert m id r :
  entries_ok m -> tr_transition_id r = id -> validate r = Ok tt ->
  Z.of_nat (size (<[id := r]> m)) <= MAX_ENTRIES -> entries_ok (<[id := r]> m).
Proof. intros [Hm _] ? ? ?. split; [| done]. by apply map_Forall_insert_2. Qed.

Lemma entries_ok_replace m id r0 r :
  entries_ok m -> m !! id = Some r0 -> tr_transition_id r = id -> validate r = Ok tt ->
  entries_ok (<[id := r]> m).
Proof.
  intros Hm H0 ? ?. apply entries_ok_insert; try done.
  rewrite map_size_insert_Some by (by exists r0). apply Hm.
Qed.

Lemma entries_ok_delete m id : entries_ok m -> entries_ok (delete id m).
Proof.
  intros [Hm Hs]. split; [by apply map_Forall_delete |].
  enough (size (delete id m) <= size m)%nat by lia.
  rewrite map_size_delete. destruct (m !! id); cbn; lia.
Qed.
(** What any operation guarantees, whatever its write does. *)
Definition op_safe (w : write_outcome) (j : Journal) (ok : bool) (j' : Journal) : Prop :=
  journal_ok j' /\ (ok = false -> j_entries j' = j_entries j) /\
  (in_sync j -> (ok = true \/ forall e, w <> FailedAfter e) -> in_sync j').

Lemma op_unchanged w j ok : journal_ok j -> op_safe w j ok j.
Proof. by intros. Qed.

Lemma commit_safe w id original candidate j :
  journal_ok j -> j_entries j !! id = Some original -> tr_transition_id candidate = id ->
  let '(x, j') := commit w id original candidate j in op_safe w j (is_ok x) j'.
Proof.
  intros Hj Ho Hid. unfold commit. destruct (validate candidate) as [[]|] eqn:Ev; [| done].
  destruct (persist w _) as [r j2] eqn:Ep.
  destruct (persist_or_restore _ _ _ _ _ Ep) as (Hok & He & Hs); [by eapply entries_ok_replace; eauto; apply Hj | done |].
  assert (Hr : <[id := original]> (j_entries j2) = j_entries j).
  { destruct (persist_cases _ _ _ _ Ep) as (-> & _); [by eapply entries_ok_replace; eauto; apply Hj | apply Hj |].
    cbn. by rewrite insert_insert_eq, insert_id. }
  unfold op_safe. destruct r as [[]|]; cbn in *; [split_and!; [done | done | auto] |].
  rewrite Hr. split_and!; auto.
Qed.

Lemma jexec_safe w op j : journal_ok j -> let '(ok, j') := jexec w op j in op_safe w j ok j'.
Proof.
  intros Hj. destruct op as [r | id b | id | id]; cbn [jexec].
  - unfold begin_. destruct (validate r) as [[]|] eqn:Ev; [| done].
    destruct (j_entries j !! _) as [r0|] eqn:El; [by case_bool_decide |].
    destruct (Z.leb_spec MAX_ENTRIES (Z.of_nat (size (j_entries j)))) as [|Hcap]; [done |].
    destruct (persist w _) as [x j2] eqn:Ep.
    assert (Hins : entries_ok (<[tr_transition_id r := r]> (j_entries j))).
    { apply entries_ok_insert; try done; [apply Hj |]. rewrite map_size_insert_None by done. lia. }
    destruct (persist_or_restore _ _ _ _ _ Ep Hins Hj) as (Hok & He & Hs).
    destruct (persist_cases _ _ _ _ Ep Hins (proj2 Hj)) as (Hm & _). cbn in Hm.
    unfold op_safe. destruct x as [[]|]; cbn in *; [split_and!; [done | done | auto] |].
    rewrite Hm, delete_insert_id by done. split_and!; auto.
  - unfold mark_applied. destruct (j_entries j !! id) as [r0|] eqn:El; [| done].
    case_bool_decide; [by case_bool_decide |].
    pose proof (commit_safe w id r0 (r0 <| tr_phase := Applied |> <| tr_new_binding := Some b |>) j
      Hj El) as Hc. destruct (commit _ _ _ _ _). apply Hc. cbn. by apply Hj in El as [? _].
  - unfold mark_terminal_applied. destruct (j_entries j !! id) as [r0|] eqn:El; [| done].
    destruct (negb _); [done |]. case_bool_decide; [by destruct (tr_new_binding r0) |].
    pose proof (commit_safe w id r0 (r0 <| tr_phase := Applied |> <| tr_new_binding := None |>) j
      Hj El) as Hc. destruct (commit _ _ _ _ _). apply Hc. cbn. by apply Hj in El as [? _].
  - unfold clear. destruct (j_entries j !! id) as [r0|] eqn:El; [| done].
    destruct (persist w _) as [x j2] eqn:Ep.
    pose proof (entries_ok_delete (j_entries j) id (proj1 Hj)) as Hdel.
    destruct (persist_or_restore _ _ _ _ _ Ep Hdel Hj) as (Hok & He & Hs).
    destruct (persist_cases _ _ _ _ Ep Hdel (proj2 Hj)) as (Hm & _). cbn in Hm.
    unfold op_safe. destruct x as [[]|]; cbn in *; [split_and!; [done | done | auto] |].
    rewrite Hm, insert_delete_id by done. split_and!; auto.
Qed.

(** ** Reopening *)

Lemma check_entries_ok l :
  Forall (fun p => tr_transition_id (snd p) = fst p /\ validate (snd p) = Ok tt) l ->
  check_entries l = Ok (map snd l).
Proof.
  induction 1 as [|[id r] l [Hid Hv] _ IH]; [done |]. cbn in *.
  rewrite Hid, String.eqb_refl. cbn. by rewrite Hv, IH.
Qed.

Lemma in_key_order_perm m : in_key_order m ≡ₚ map_to_list m.
Proof. apply sort_by_perm. Qed.

Lemma entries_ok_list m :
  entries_ok m ->
  Forall (fun p => tr_transition_id (snd p) = fst p /\ validate (snd p) = Ok tt) (in_key_order m).
Proof.
  intros [Hm _]. rewrite in_key_order_perm. apply map_Forall_to_list in Hm.
  eapply Forall_impl; [exact Hm |]. by intros [].
Qed.

Lemma rebuild_entries m :
  entries_ok m ->
  list_to_map (map (fun r => (tr_transition_id r, r)) (map snd (in_key_order m))) = m.
Proof.
  intros Hm. rewrite map_map.
  replace (map _ (in_key_order m)) with (in_key_order m).
  - rewrite <- (list_to_map_to_list m) at 2. apply list_to_map_proper; [| apply in_key_order_perm].
    rewrite in_key_order_perm. apply NoDup_fst_map_to_list.
  - pose proof (entries_ok_list m Hm) as Hf. induction Hf as [|[id r] l [Hid _] _ IH]; [done |].
    cbn in *. by rewrite <- IH, Hid.
Qed.

Lemma open_encoded m :
  entries_ok m -> bytes_len (enc {| dk_version := VERSION; dk_entries := m |}) <= MAX_BYTES ->
  open_journal (Ok tt) (Ok tt) (Some (enc {| dk_version := VERSION; dk_entries := m |})) =
  Ok {| j_entries := m; j_file := Some (enc {| dk_version := VERSION; dk_entries := m |}) |}.
Proof.
  intros Hm Hb. unfold open_journal, parse_and_validate. cbn [map_err rbind].
  destruct (Z.ltb_spec MAX_BYTES (bytes_len (enc {| dk_version := VERSION; dk_entries := m |})));
    [lia | cbn [guard_err rbind]].
  rewrite dec_enc. cbn [map_err rbind dk_version dk_entries]. rewrite Z.eqb_refl. cbn [negb guard_err rbind].
  destruct (Z.ltb_spec MAX_ENTRIES (Z.of_nat (size m))); [destruct Hm; lia |]. cbn [guard_err rbind].
  rewrite check_entries_ok by by apply entries_ok_list. cbn [rbind]. by rewrite rebuild_entries.
Qed.
(** ** Sequences of operations *)

Lemma persist_entries w j : j_entries (snd (persist w j)) = j_entries j.
Proof. unfold persist. destruct (_ <? _); [done |]. by destruct w. Qed.

Lemma commit_effect w id original candidate j :
  j_entries j !! id = Some original ->
  j_entries (snd (commit w id original candidate j)) =
    (if is_ok (fst (commit w id original candidate j)) then <[id := candidate]> (j_entries j)
     else j_entries j).
Proof.
  intros Hl. unfold commit. destruct (validate candidate); [| done].
  pose proof (persist_entries w (j <| j_entries := <[id := candidate]> (j_entries j) |>)) as Hp.
  destruct (persist w _) as [[[]|] j2]; cbn in *; rewrite Hp; [done |].
  by rewrite insert_insert_eq, insert_id.
Qed.

Fixpoint jrun (ops : list (write_outcome * jop)) (j : Journal) : Journal :=
  match ops with
  | [] => j
  | (w, op) :: ops => jrun ops (snd (jexec w op j))
  end.

Definition no_late_failure (ops : list (write_outcome * jop)) : Prop :=
  Forall (fun p => forall e, fst p <> FailedAfter e) ops.

Lemma jrun_ok ops j : journal_ok j -> journal_ok (jrun ops j).
Proof.
  revert j. induction ops as [|[w op] ops IH]; intros j Hj; [done |]. cbn. apply IH.
  pose proof (jexec_safe w op j Hj) as H. destruct (jexec w op j). apply H.
Qed.

Lemma jrun_in_sync ops j :
  journal_ok j -> in_sync j -> no_late_failure ops -> in_sync (jrun ops j).
Proof.
  intros Hj Hs Hw. revert j Hj Hs. induction Hw as [|[w op] ops Hw _ IH]; intros j Hj Hs; [done |].
  cbn. pose proof (jexec_safe w op j Hj) as H. destruct (jexec w op j). destruct H as (? & _ & H).
  apply IH; auto.
Qed.

(** The journal file is always readable. After any sequence of operations with
    any outcome of their writes, opening the file again succeeds and gives at most
    64 records, each valid and stored under its own identifier. *)
Theorem journal_reopens ops j :
  journal_ok j -> exists j', open_journal (Ok tt) (Ok tt) (j_file (jrun ops j)) = Ok j' /\
    entries_ok (j_entries j').
Proof.
  intros [_ Hf]%(jrun_ok ops). destruct (j_file (jrun ops j)) as [bytes|].
  - destruct (Hf bytes eq_refl) as (Hb & m & -> & Hm). eexists. by rewrite open_encoded.
  - eexists. split; [done |]. cbn. split; [apply map_Forall_empty |]. rewrite map_size_empty. done.
Qed.

(** C39: the file is authoritative. As long as no write fails after it replaced the
    file, whatever operations fail, opening the file gives exactly the records the
    daemon had in memory: a failed operation leaves neither a trace in memory nor on
    disk, a successful one is durable. *)
Theorem journal_reopen_exact ops j :
  journal_ok j -> in_sync j -> no_late_failure ops ->
  exists j', open_journal (Ok tt) (Ok tt) (j_file (jrun ops j)) = Ok j' /\
    j_entries j' = j_entries (jrun ops j).
Proof.
  intros Hj Hs Hw. pose proof (jrun_in_sync ops j Hj Hs Hw) as Hsync.
  destruct (jrun_ok ops j Hj) as [Hm Hf]. unfold in_sync in Hsync.
  destruct (j_file (jrun ops j)) as [bytes|].
  - destruct (Hf bytes eq_refl) as (Hb & _). subst. eexists. by rewrite open_encoded.
  - eexists. split; [done |]. by rewrite Hsync.
Qed.

(** How operation [op] with answer [ok] may change the record stored under [id]. *)
Definition record_change (op : jop) (ok : bool) (id : string)
    (before after : option TransitionRecord) : Prop :=
  match before, after with
  | Some r, Some r' =>
      r' = r \/
      (ok = true /\ tr_phase r = Intent /\
       ((exists b, op = JApplied id b /\
           r' = r <| tr_phase := Applied |> <| tr_new_binding := Some b |>) \/
        (op = JTerminalApplied id /\ tt_terminal (tr_target r) = true /\
           r' = r <| tr_phase := Applied |> <| tr_new_binding := None |>)))
  | Some r, None => op = JClear id /\ ok = true
  | None, Some r' => op = JBegin r' /\ ok = true /\ tr_transition_id r' = id /\ validate r' = Ok tt
  | None, None => True
  end.

Lemma record_same op ok id x : record_change op ok id x x.
Proof. destruct x; cbn; auto. Qed.

Lemma begin_change w r j id :
  record_change (JBegin r) (fst (jexec w (JBegin r) j)) id (j_entries j !! id)
    (j_entries (snd (jexec w (JBegin r) j)) !! id).
Proof.
  cbn [jexec]. unfold begin_. destruct (validate r) as [[]|] eqn:Ev; [| apply record_same].
  destruct (j_entries j !! tr_transition_id r) as [r0|] eqn:El.
  { case_bool_decide; apply record_same. }
  destruct (_ <=? _); [apply record_same |].
  pose proof (persist_entries w (j <| j_entries := <[tr_transition_id r := r]> (j_entries j) |>)) as Hp.
  destruct (persist w _) as [[[]|] j2]; cbn [fst snd is_ok] in *.
  - rewrite Hp. cbn. destruct (decide (tr_transition_id r = id)) as [<- | Hne].
    + by rewrite El, lookup_insert_eq.
    + rewrite lookup_insert_ne by done. apply record_same.
  - cbn. rewrite Hp. cbn. rewrite delete_insert_id by done. apply record_same.
Qed.

Lemma commit_change op w id' r0 candidate j id :
  j_entries j !! id' = Some r0 ->
  (id' = id -> record_change op true id (Some r0) (Some candidate)) ->
  let '(x, j') := commit w id' r0 candidate j in
  record_change op (is_ok x) id (j_entries j !! id) (j_entries j' !! id).
Proof.
  intros El Hc. pose proof (commit_effect w id' r0 candidate j El) as He.
  destruct (commit _ _ _ _ _) as [x j2]. cbn in He. rewrite He.
  destruct x as [[]|]; cbn [is_ok]; [| apply record_same].
  destruct (decide (id' = id)) as [<- | Hne].
  - rewrite El, lookup_insert_eq. auto.
  - rewrite lookup_insert_ne by done. apply record_same.
Qed.

Lemma applied_change w id' b j id :
  record_change (JApplied id' b) (fst (jexec w (JApplied id' b) j)) id (j_entries j !! id)
    (j_entries (snd (jexec w (JApplied id' b) j)) !! id).
Proof.
  cbn [jexec]. unfold mark_applied.
  destruct (j_entries j !! id') as [r0|] eqn:El; [| apply record_same].
  case_bool_decide as Hph; [case_bool_decide; apply record_same |].
  pose proof (commit_change (JApplied id' b) w id' r0
    (r0 <| tr_phase := Applied |> <| tr_new_binding := Some b |>) j id El) as Hc.
  destruct (commit _ _ _ _ _). apply Hc. intros ->. right.
  split_and!; [done | by destruct (tr_phase r0) | eauto].
Qed.

Lemma terminal_change w id' j id :
  record_change (JTerminalApplied id') (fst (jexec w (JTerminalApplied id') j)) id
    (j_entries j !! id) (j_entries (snd (jexec w (JTerminalApplied id') j)) !! id).
Proof.
  cbn [jexec]. unfold mark_terminal_applied.
  destruct (j_entries j !! id') as [r0|] eqn:El; [| apply record_same].
  destruct (tt_terminal (tr_target r0)) eqn:Et; cbn [negb]; [| apply record_same].
  case_bool_decide as Hph; [destruct (tr_new_binding r0); apply record_same |].
  pose proof (commit_change (JTerminalApplied id') w id' r0
    (r0 <| tr_phase := Applied |> <| tr_new_binding := None |>) j id El) as Hc.
  destruct (commit _ _ _ _ _). apply Hc. intros ->. right.
  split_and!; [done | by destruct (tr_phase r0) | auto].
Qed.

Lemma clear_change w id' j id :
  record_change (JClear id') (fst (jexec w (JClear id') j)) id (j_entries j !! id)
    (j_entries (snd (jexec w (JClear id') j)) !! id).
Proof.
  cbn [jexec]. unfold clear. destruct (j_entries j !! id') as [r0|] eqn:El; [| apply record_same].
  pose proof (persist_entries w (j <| j_entries := delete id' (j_entries j) |>)) as Hp.
  destruct (persist w _) as [[[]|] j2]; cbn [fst snd is_ok] in *.
  - rewrite Hp. cbn. destruct (decide (id' = id)) as [<- | Hne].
    + by rewrite El, lookup_delete_eq.
    + rewrite lookup_delete_ne by done. apply record_same.
  - cbn. rewrite Hp. cbn. rewrite insert_delete_id by done. apply record_same.
Qed.

(** What one operation does to the record of one transition. Records appear only
    by a successful [begin] of exactly that record, disappear only by a successful
    [clear], and otherwise change only from intent to applied, once, with nothing
    but the phase and the new binding touched. *)
Theorem journal_op_effect w op j id :
  record_change op (fst (jexec w op j)) id (j_entries j !! id)
    (j_entries (snd (jexec w op j)) !! id).
Proof.
  destruct op; [apply begin_change | apply applied_change | apply terminal_change | apply clear_change].
Qed.

(** A late write failure leaves an intent behind. When the write of [begin] fails
    after the file was replaced (the directory flush, say), [begin] reports failure
    and forgets the record, but the file holds it: the next daemon finds a pending
    intent that its caller was told does not exist. *)
Theorem begin_late_failure_durable record e j :
  journal_ok j -> validate record = Ok tt -> j_entries j !! tr_transition_id record = None ->
  Z.of_nat (size (j_entries j)) < MAX_ENTRIES ->
  bytes_len (enc {| dk_version := VERSION;
    dk_entries := <[tr_transition_id record := record]> (j_entries j) |}) <= MAX_BYTES ->
  exists err j' j'', begin_ (FailedAfter e) record j = (Err err, j') /\
    j_entries j' = j_entries j /\
    open_journal (Ok tt) (Ok tt) (j_file j') = Ok j'' /\
    j_entries j'' !! tr_transition_id record = Some record.
Proof.
  intros Hj Hv Hn Hsz Hb. unfold begin_, persist. rewrite Hv, Hn.
  destruct (Z.leb_spec MAX_ENTRIES (Z.of_nat (size (j_entries j)))); [lia |]. cbn [j_entries update].
  destruct (Z.ltb_spec MAX_BYTES (bytes_len (enc {| dk_version := VERSION;
    dk_entries := <[tr_transition_id record := record]> (j_entries j) |}))); [lia |].
  do 3 eexists. split_and!; [reflexivity | cbn; by apply delete_insert_id | cbn |].
  - apply open_encoded; [| done]. apply entries_ok_insert; try done; [apply Hj |].
    rewrite map_size_insert_None by done. lia.
  - cbn. apply lookup_insert_eq.
Qed.
End journal.

Arguments Journal : clear implicits.

(** ** A claim, journalled *)

(** A codec that keeps the value, with a thousand bytes an entry. *)
Definition plain_codec : Codec Disk :=
  {| enc d := d; dec d := Ok d; bytes_len d := 1000 * Z.of_nat (size (dk_entries d));
     dec_enc d := eq_refl |}.

Definition sample_binding : SidecarHostBinding :=
  {| sb_device_id := "dev_1"; sb_workspace_id := "ws_1"; sb_owner_principal := "alice";
     sb_host_nonce := "n1"; sb_controller_epoch := 1; sb_binding_expires_unix := 500;
     sb_host_expires_unix := 900; sb_child_pid := Some 42; sb_child_process_birth := Some 7 |}.

Definition sample_record : TransitionRecord :=
  {| tr_transition_id := "t1"; tr_kind := KClaim; tr_phase := Intent; tr_session_id := "ses_u1";
     tr_device_id := "dev_1"; tr_workspace_id := "ws_1"; tr_authenticated_principal := "bob";
     tr_old_binding := sample_binding;
     tr_target := {| tt_principal := "bob"; tt_controller_epoch := 2;
       tt_binding_expires_unix := 800; tt_controller_attached := true;
       tt_lease_id := Some "lease_l2"; tt_terminal := false |};
     tr_new_binding := None; tr_created_unix := 100; tr_expires_unix := 1000 |}.

Definition empty_journal : Journal Disk := {| j_entries := ∅; j_file := None |}.

Lemma empty_journal_ok : journal_ok (Codec0 := plain_codec) empty_journal.
Proof. split; [split; [apply map_Forall_empty | done] | done]. Qed.

Lemma journal_reopens_witness :
  exists j', open_journal (Codec0 := plain_codec) (Ok tt) (Ok tt)
    (j_file (jrun (Codec0 := plain_codec)
      [(FailedAfter "sync", JBegin sample_record); (Written, JBegin sample_record)] empty_journal))
    = Ok j' /\ entries_ok (j_entries j').
Proof. apply (journal_reopens (Codec0 := plain_codec)). exact empty_journal_ok. Defined.

Lemma journal_reopen_exact_witness :
  exists j', open_journal (Codec0 := plain_codec) (Ok tt) (Ok tt)
    (j_file (jrun (Codec0 := plain_codec)
      [(FailedBefore "disk full", JBegin sample_record); (Written, JBegin sample_record)]
      empty_journal)) = Ok j' /\ j_entries j' !! "t1" = Some sample_record.
Proof.
  destruct (journal_reopen_exact (Codec0 := plain_codec)
    [(FailedBefore "disk full", JBegin sample_record); (Written, JBegin sample_record)]
    empty_journal empty_journal_ok) as (j' & Hopen & He); [reflexivity | by repeat constructor |].
  exists j'. split; [exact Hopen |]. rewrite He. vm_compute. reflexivity.
Defined.

Lemma begin_late_failure_durable_witness :
  exists err j' j'', begin_ (Codec0 := plain_codec) (FailedAfter "sync") sample_record empty_journal
    = (Err err, j') /\ j_entries j' = ∅ /\
    open_journal (Codec0 := plain_codec) (Ok tt) (Ok tt) (j_file j') = Ok j'' /\
    j_entries j'' !! "t1" = Some sample_record.
Proof.
  apply (begin_late_failure_durable (Codec0 := plain_codec) sample_record "sync" empty_journal);
    [exact empty_journal_ok | vm_compute; reflexivity | reflexivity | vm_compute; reflexivity
    | vm_compute; discriminate].
Defined.
