(* ===== verification/Recovery.v ===== *)
(** * Recovery of sidecar transitions ([crates/ownmeshd/src/runtime.rs])

    What the daemon does at startup with the records left in the transition journal:
    replay a live record against the session supervisor, restore the controller seat
    and the sidecar binding it stands for, commit the sessions and clear the record;
    clear an expired record only on proof that its sidecar is dead.  The supervisor,
    the operating system's process table, the clock and the outcomes of the writes
    are arguments; of an error the code and the constant part of its message are
    kept. *)

From stdpp Require Import base list strings gmap.
From Stdlib Require Import ZArith Lia.
From S2P Require Import Prelude RustStr Ipc Session TransitionJournal.

Open Scope Z_scope.

(** [session_err]. *)
Definition session_err (err : SessionError) : IpcError :=
  let code :=
    match err with
    | NotFound | Invalid _ | ChunkTooLarge | SequenceRequired _ | SequenceStale _ _ _
    | SequenceGap _ _ _ | SequenceConflict _ _ => INVALID_PARAMS
    | NotReader => POLICY_DENIED
    | SessionLimit | ReplayBudget | LeaseHeld _ | NotController | ObserverCannotWrite
    | ErrClosed => CONFLICT
    | Persist _ => INTERNAL
    end in
  Remote code "session error".

(** The answers of the world around one recovery step: whether the supervisor is
    connected, what it answers to the replayed mutation (nonce and epoch of the new
    binding), to a termination and to a liveness probe, what the operating system
    knows of a process id, and how the three writes end. *)
Record World : Type := {
  w_now : Z;
  w_supervisor : bool;
  w_replay : result (string * Z) string;
  w_terminate : result unit string;
  w_host_live : result bool string;
  w_process_birth : Z -> result (option Z) string;
  w_mark : write_outcome;
  w_commit : result unit string;
  w_clear : write_outcome
}.

Section recovery.
Context {Bytes : Type} `{!Codec Bytes}.

(** The part of the daemon's state that recovery touches. *)
Record Runtime : Type := {
  rt_sessions : SessionManager;
  rt_journal : Journal Bytes
}.

#[export] Instance Runtime_eta : Eta Runtime := fun rt =>
  {| rt_sessions := rt_sessions rt; rt_journal := rt_journal rt |}.

Definition clear_record (w : World) (message : string) (id : string) (rt : Runtime)
  : result unit IpcError * Runtime :=
  let '(r, j) := clear (w_clear w) id (rt_journal rt) in
  (map_err (fun _ => Remote INTERNAL message) r, rt <| rt_journal := j |>).

(** One iteration of the loop over the bindings of a record: dead for sure, alive, or
    left to the supervisor. *)
Definition binding_proof (w : World) (b : SidecarHostBinding) : option bool :=
  match sb_child_pid b, sb_child_process_birth b with
  | Some pid, Some expected_birth =>
      match w_process_birth w pid with
      | Ok None => Some true
      | Ok (Some birth) => if negb (birth =? expected_birth) then Some true else Some false
      | Err _ => None
      end
  | _, _ => None
  end.

Definition record_bindings (r : TransitionRecord) : list SidecarHostBinding :=
  tr_old_binding r :: match tr_new_binding r with Some b => [b] | None => [] end.

Fixpoint scan_bindings (w : World) (need_supervisor : bool) (l : list SidecarHostBinding)
  : option bool :=
  match l with
  | [] => Some need_supervisor
  | b :: rest =>
      match binding_proof w b with
      | Some true => scan_bindings w need_supervisor rest
      | Some false => None
      | None => scan_bindings w true rest
      end
  end.

Definition prove_expired_sidecar_dead (w : World) (record : TransitionRecord) : result bool string :=
  match scan_bindings w false (record_bindings record) with
  | None => Ok false
  | Some true =>
      if w_supervisor w then
        match w_host_live w with
        | Ok live => Ok (negb live)
        | Err _ => Err "supervisor liveness probe failed"
        end
      else Err "sidecar has no attested child pid and the session supervisor is not connected"
  | Some false => Ok true
  end.

Definition expiry_covers (record : TransitionRecord) : bool :=
  negb ((tr_expires_unix record <? sb_host_expires_unix (tr_old_binding record))
        || match tr_new_binding record with
           | Some b => tr_expires_unix record <? sb_host_expires_unix b
           | None => false
           end).

Definition reconcile_expired_transition_record (w : World) (record : TransitionRecord)
    (rt : Runtime) : result unit IpcError * Runtime :=
  if negb (expiry_covers record) then
    (Err (Remote CONFLICT "inconsistent host-expiry bound; retained for review"), rt)
  else match prove_expired_sidecar_dead w record with
  | Err _ => (Err (Remote CONFLICT "cannot prove its sidecar terminated; retained fail-closed"), rt)
  | Ok false => (Err (Remote CONFLICT "still references a live sidecar; retained for review"), rt)
  | Ok true =>
      match sm_sessions (rt_sessions rt) !! tr_session_id record with
      | None => clear_record w "clear moot expired transition" (tr_transition_id record) rt
      | Some s =>
          if bool_decide (si_state (s_info s) = Closed) then
            if match si_sidecar_host (s_info s) with
               | Some b =>
                   (String.eqb (sb_host_nonce b) (sb_host_nonce (tr_old_binding record))
                    || match tr_new_binding record with
                       | Some nb => String.eqb (sb_host_nonce b) (sb_host_nonce nb)
                       | None => false
                       end)
                   && (w_now w <? sb_host_expires_unix b)
               | None => false
               end
            then (Err (Remote CONFLICT "references a still-live host; retained for review"), rt)
            else clear_record w "clear moot expired transition" (tr_transition_id record) rt
          else (Err (Remote CONFLICT "session still present; retained for review"), rt)
      end
  end.

(** The binding a replayed mutation leaves: the supervisor's nonce and epoch, the
    rest from the record. *)
Definition replayed_binding (record : TransitionRecord) (next : string * Z) : SidecarHostBinding :=
  {| sb_device_id := tr_device_id record; sb_workspace_id := tr_workspace_id record;
     sb_owner_principal := tt_principal (tr_target record); sb_host_nonce := fst next;
     sb_controller_epoch := snd next;
     sb_binding_expires_unix := tt_binding_expires_unix (tr_target record);
     sb_host_expires_unix := sb_host_expires_unix (tr_old_binding record);
     sb_child_pid := sb_child_pid (tr_old_binding record);
     sb_child_process_birth := sb_child_process_birth (tr_old_binding record) |}.

(** The [match record.phase]: the binding recovery ends up with ([None] for a
    terminal transition) and the journal after marking the record applied. *)
Definition recovered_binding (w : World) (record : TransitionRecord) (rt : Runtime)
  : result (option SidecarHostBinding) IpcError * Runtime :=
  let terminal := kind_is_terminal (tr_kind record) in
  match tr_phase record with
  | Applied =>
      if terminal then (Ok None, rt)
      else match tr_new_binding record with
           | Some b => (Ok (Some b), rt)
           | None => (Err (Remote INTERNAL "applied sidecar transition missing binding"), rt)
           end
  | Intent =>
      if negb (w_supervisor w) then
        (Err (Remote CONFLICT "sidecar unavailable during transition recovery"), rt)
      else if terminal then
        match w_terminate w with
        | Err _ => (Err (Remote CONFLICT "replay sidecar transition"), rt)
        | Ok _ =>
            let '(r, j) := mark_terminal_applied (w_mark w) (tr_transition_id record) (rt_journal rt) in
            (let? _ := map_err (fun _ => Remote INTERNAL "mark recovered terminal transition applied") r in
             Ok None, rt <| rt_journal := j |>)
        end
      else
        match w_replay w with
        | Err _ => (Err (Remote CONFLICT "replay sidecar transition"), rt)
        | Ok next =>
            let binding := replayed_binding record next in
            let '(r, j) := mark_applied (w_mark w) (tr_transition_id record) binding (rt_journal rt) in
            (let? _ := map_err (fun _ => Remote INTERNAL "mark recovered transition applied") r in
             Ok (Some binding), rt <| rt_journal := j |>)
        end
  end.

(** [commit_sessions]: persist, or put the snapshot back. *)
Definition commit_sessions (w : World) (snapshot : SessionManager) (rt : Runtime)
  : result unit IpcError * Runtime :=
  match w_commit w with
  | Ok _ => (Ok tt, rt)
  | Err _ => (Err (Remote INTERNAL "persist sessions"), rt <| rt_sessions := snapshot |>)
  end.

(** Run a session operation inside recovery. *)
Definition on_sessions {A} (f : SessionManager -> result A SessionError * SessionManager)
    (rt : Runtime) : result unit IpcError * Runtime :=
  let '(r, m) := f (rt_sessions rt) in
  (match r with Ok _ => Ok tt | Err e => Err (session_err e) end, rt <| rt_sessions := m |>).

(** Sequencing of the fallible state-passing steps. *)
Definition and_then (x : result unit IpcError * Runtime)
    (k : Runtime -> result unit IpcError * Runtime) : result unit IpcError * Runtime :=
  match x with
  | (Ok _, rt) => k rt
  | (Err e, rt) => (Err e, rt)
  end.

Definition recover_seat (record : TransitionRecord) (rt : Runtime) : result unit IpcError * Runtime :=
  let target := tr_target record in
  match tt_lease_id target with
  | None => (Err (Remote INTERNAL "missing its recorded lease id; retained fail-closed"), rt)
  | Some lease_id =>
      on_sessions (fun m => reconcile_controller_from_transition m (tr_session_id record)
        (tt_principal target) lease_id (tt_controller_epoch target)
        (tt_binding_expires_unix target) (tt_controller_attached target)) rt
  end.

(** The tail of the recovery: binding or terminal state, commit, clear. *)
Definition install (w : World) (record : TransitionRecord) (binding : option SidecarHostBinding)
    (snapshot : SessionManager) (rt : Runtime) : result unit IpcError * Runtime :=
  and_then
    match binding with
    | Some b => on_sessions (fun m => set_sidecar_host_binding m (tr_session_id record) (Some b)) rt
    | None =>
        and_then
          match tr_kind record with
          | KClose => on_sessions (fun m => close m (tr_session_id record)) rt
          | _ => on_sessions (fun m => terminate m (tr_session_id record)) rt
          end
          (on_sessions (fun m => set_sidecar_host_binding m (tr_session_id record) None))
    end
    (fun rt => and_then (commit_sessions w snapshot rt)
       (clear_record w "clear recovered transition journal" (tr_transition_id record))).

Definition recover_transition_record (w : World) (record : TransitionRecord) (rt : Runtime)
  : result unit IpcError * Runtime :=
  if tr_expires_unix record <=? w_now w then reconcile_expired_transition_record w record rt
  else
    let terminal := kind_is_terminal (tr_kind record) in
    match sm_sessions (rt_sessions rt) !! tr_session_id record with
    | None =>
        if terminal && bool_decide (tr_phase record = Applied) then
          clear_record w "clear completed terminal transition" (tr_transition_id record) rt
        else (Err (session_err NotFound), rt)
    | Some s =>
        if negb (bool_decide (si_workspace_id (s_info s) = Some (tr_workspace_id record))) then
          (Err (Remote CONFLICT "sidecar transition workspace mismatch during recovery"), rt)
        else
          match recovered_binding w record rt with
          | (Err e, rt) => (Err e, rt)
          | (Ok binding, rt) =>
              let snapshot := rt_sessions rt in
              if terminal then install w record binding snapshot rt
              else
                let durable_ahead :=
                  tt_controller_epoch (tr_target record) <? si_controller_epoch (s_info s) in
                let binding_stale :=
                  match si_sidecar_host (s_info s) with
                  | Some b => sb_controller_epoch b <? tt_controller_epoch (tr_target record)
                  | None => false
                  end in
                if durable_ahead then
                  if binding_stale then
                    (Err (Remote CONFLICT "older than the durable controller generation; retained"), rt)
                  else clear_record w "clear already-superseded recovered transition"
                         (tr_transition_id record) rt
                else and_then (recover_seat record rt) (install w record binding snapshot)
          end
    end.

(** [recover_sidecar_transitions]: the safe pass over the expired records, whose
    failures are only reported, then the live ones in key order, stopping at the
    first that fails.  Each record meets its own answers of the world. *)
Fixpoint expired_pass (l : list (World * TransitionRecord)) (rt : Runtime) : Runtime :=
  match l with
  | [] => rt
  | (w, r) :: rest =>
      expired_pass rest
        (if tr_expires_unix r <=? w_now w then snd (reconcile_expired_transition_record w r rt) else rt)
  end.

Fixpoint live_pass (l : list (World * TransitionRecord)) (rt : Runtime)
  : result unit IpcError * Runtime :=
  match l with
  | [] => (Ok tt, rt)
  | (w, r) :: rest =>
      if w_now w <? tr_expires_unix r
      then and_then (recover_transition_record w r rt) (live_pass rest)
      else live_pass rest rt
  end.

Definition recover_sidecar_transitions (worlds1 worlds2 : list World) (rt : Runtime)
  : result unit IpcError * Runtime :=
  let rt := expired_pass (combine worlds1 (pending (rt_journal rt))) rt in
  live_pass (combine worlds2 (pending (rt_journal rt))) rt.
(** ** Clearing *)

Lemma clear_entries w id (j : Journal Bytes) :
  j_entries (snd (clear w id j)) =
    (if is_ok (fst (clear w id j)) then delete id (j_entries j) else j_entries j).
Proof.
  unfold clear. destruct (j_entries j !! id) as [r|] eqn:El.
  2: { cbn. by rewrite delete_id. }
  pose proof (persist_entries w (j <| j_entries := delete id (j_entries j) |>)) as Hp.
  destruct (persist w _) as [[[]|] j2]; cbn in *; rewrite Hp; [done |].
  by rewrite insert_delete_id.
Qed.

Lemma clear_record_spec w msg id rt :
  rt_sessions (snd (clear_record w msg id rt)) = rt_sessions rt /\
  j_entries (rt_journal (snd (clear_record w msg id rt))) =
    (if is_ok (fst (clear_record w msg id rt)) then delete id (j_entries (rt_journal rt))
     else j_entries (rt_journal rt)).
Proof.
  unfold clear_record. pose proof (clear_entries (w_clear w) id (rt_journal rt)) as H.
  destruct (clear _ _ _) as [[[]|] j]; cbn in *; auto.
Qed.

(** ** Expired records *)

(** Proof that the sidecar of a binding is gone: its process is, or the supervisor
    tracks no host of the session. *)
Definition proven_dead (w : World) (b : SidecarHostBinding) : Prop :=
  binding_proof w b = Some true \/ (w_supervisor w = true /\ w_host_live w = Ok false).

Lemma scan_bindings_spec w need l out :
  scan_bindings w need l = Some out ->
  (need = true -> out = true) /\
  Forall (fun b => binding_proof w b = Some true \/ (binding_proof w b = None /\ out = true)) l.
Proof.
  revert need. induction l as [|b l IH]; intros need; cbn; [intros [= ->]; auto |].
  destruct (binding_proof w b) as [[]|] eqn:E; [| done |]; intros [Hn Hf]%IH; split; auto.
Qed.

Lemma prove_dead_sound w record :
  prove_expired_sidecar_dead w record = Ok true -> Forall (proven_dead w) (record_bindings record).
Proof.
  unfold prove_expired_sidecar_dead. destruct (scan_bindings _ _ _) as [need|] eqn:E; [| done].
  apply scan_bindings_spec in E as [_ Hf]. destruct need.
  - destruct (w_supervisor w) eqn:Es; [| done]. destruct (w_host_live w) as [[]|] eqn:El; try done.
    intros _. eapply Forall_impl; [exact Hf |]. intros b _. by right.
  - intros _. eapply Forall_impl; [exact Hf |]. intros b [? | [_ ?]]; [by left | done].
Qed.

(** The two ends of reconciling an expired record. *)
Definition cleared_or_retained (w : World) (record : TransitionRecord) (rt : Runtime)
    (out : result unit IpcError * Runtime) : Prop :=
  rt_sessions (snd out) = rt_sessions rt /\
  match fst out with
  | Err _ => j_entries (rt_journal (snd out)) = j_entries (rt_journal rt)
  | Ok _ =>
      j_entries (rt_journal (snd out)) =
        delete (tr_transition_id record) (j_entries (rt_journal rt)) /\
      Forall (proven_dead w) (record_bindings record) /\
      Forall (fun b => sb_host_expires_unix b <= tr_expires_unix record) (record_bindings record) /\
      (forall s, sm_sessions (rt_sessions rt) !! tr_session_id record = Some s ->
         si_state (s_info s) = Closed)
  end.

Lemma retained w record rt e : cleared_or_retained w record rt (Err e, rt).
Proof. done. Qed.

Lemma expired_ends w record rt :
  cleared_or_retained w record rt (reconcile_expired_transition_record w record rt).
Proof.
  unfold reconcile_expired_transition_record.
  destruct (expiry_covers record) eqn:Ec; [cbn [negb] | apply retained].
  destruct (prove_expired_sidecar_dead w record) as [[]|] eqn:Ep; try apply retained.
  apply prove_dead_sound in Ep.
  assert (Hclear : (forall s, sm_sessions (rt_sessions rt) !! tr_session_id record = Some s ->
      si_state (s_info s) = Closed) ->
    cleared_or_retained w record rt
      (clear_record w "clear moot expired transition" (tr_transition_id record) rt)).
  { intros Hst. destruct (clear_record_spec w "clear moot expired transition"
      (tr_transition_id record) rt) as [Hs Hj]. split; [done |].
    destruct (fst (clear_record _ _ _ _)); [split_and!; try done | done].
    unfold expiry_covers in Ec. unfold record_bindings. bool_prop.
    destruct (tr_new_binding record); bool_prop; repeat constructor; done. }
  destruct (sm_sessions (rt_sessions rt) !! tr_session_id record) as [s|] eqn:El; [| by apply Hclear].
  case_bool_decide; [| apply retained].
  destruct (match si_sidecar_host (s_info s) with Some _ => _ | None => _ end); [apply retained |].
  apply Hclear. by intros s' [= <-].
Qed.

(** An expired record is cleared only on proof. Reconciling an expired record
    never touches the sessions; when it fails the journal keeps all records; when it
    succeeds the record is gone, every sidecar it references is proven dead (its
    process by the operating system, or no host tracked by the supervisor), its
    expiry covers their lifetimes, and its session is gone or closed. *)
Theorem expired_cleared_on_proof w record rt :
  cleared_or_retained w record rt (reconcile_expired_transition_record w record rt).
Proof. apply expired_ends. Qed.

Lemma reconcile_expired_sessions w record rt :
  rt_sessions (snd (reconcile_expired_transition_record w record rt)) = rt_sessions rt /\
  (is_ok (fst (reconcile_expired_transition_record w record rt)) = false ->
   j_entries (rt_journal (snd (reconcile_expired_transition_record w record rt))) =
     j_entries (rt_journal rt)).
Proof.
  destruct (expired_ends w record rt) as [Hs Hj]. split; [done |].
  destruct (fst (reconcile_expired_transition_record w record rt)); [done | auto].
Qed.

(** ** Live records *)

Lemma and_then_ok x k rt' :
  and_then x k = (Ok tt, rt') -> exists rt1, x = (Ok tt, rt1) /\ k rt1 = (Ok tt, rt').
Proof. destruct x as [[[]|] rt1]; cbn; [eauto | done]. Qed.

Lemma on_sessions_ok {A} (f : SessionManager -> result A SessionError * SessionManager) rt rt' :
  on_sessions f rt = (Ok tt, rt') ->
  exists a m, f (rt_sessions rt) = (Ok a, m) /\ rt' = rt <| rt_sessions := m |>.
Proof.
  unfold on_sessions. destruct (f (rt_sessions rt)) as [[a|] m]; intros [= <-]; eauto.
Qed.

Lemma commit_sessions_ok w snap rt rt' : commit_sessions w snap rt = (Ok tt, rt') -> rt' = rt.
Proof. unfold commit_sessions. destruct (w_commit w); by intros [= <-]. Qed.

Lemma recovered_binding_sessions w record rt :
  rt_sessions (snd (recovered_binding w record rt)) = rt_sessions rt.
Proof.
  unfold recovered_binding. destruct (tr_phase record); [| by repeat case_match].
  destruct (negb _); [done |]. destruct (kind_is_terminal _).
  - destruct (w_terminate w); [| done]. by destruct (mark_terminal_applied _ _ _).
  - destruct (w_replay w); [| done]. by destruct (mark_applied _ _ _ _).
Qed.

Lemma recovered_terminal w record rt :
  kind_is_terminal (tr_kind record) = true ->
  forall b, fst (recovered_binding w record rt) = Ok b -> b = None.
Proof.
  unfold recovered_binding. intros -> b. destruct (tr_phase record); [| by intros [= <-]].
  destruct (negb _); [done |]. destruct (w_terminate w); [| done].
  destruct (mark_terminal_applied _ _ _) as [[]]; by intros [= <-].
Qed.

Lemma recovered_nonterminal w record rt :
  kind_is_terminal (tr_kind record) = false ->
  forall b, fst (recovered_binding w record rt) = Ok b -> exists b0, b = Some b0.
Proof.
  unfold recovered_binding. intros -> b. destruct (tr_phase record).
  - destruct (negb _); [done |]. destruct (w_replay w); [| done].
    destruct (mark_applied _ _ _ _) as [[]]; intros [= <-]; eauto.
  - destruct (tr_new_binding record); intros [= <-]; eauto.
Qed.

Lemma terminate_present m id s :
  sm_sessions m !! id = Some s ->
  fst (terminate m id) = Ok tt /\ sm_sessions (snd (terminate m id)) !! id = None.
Proof.
  intros Hs. unfold terminate, close. rewrite (with_info_found _ _ _ _ Hs). cbn.
  split; [done | apply lookup_delete_eq].
Qed.

Lemma set_sidecar_absent m id b :
  sm_sessions m !! id = None -> set_sidecar_host_binding m id b = (Err NotFound, m).
Proof. intros H. unfold set_sidecar_host_binding, with_info, with_session. by rewrite H. Qed.

(** Recovering a termination cannot succeed while its session is there. Whatever
    the world answers, the recovery of a live [Terminate] record of a present session
    fails. When the supervisor and the journal answer favourably it fails with
    "session not found": it has removed the session from memory and then clears the
    sidecar binding of the session it removed. The session snapshot is not
    committed and the record is not cleared. *)
Theorem terminate_recovery_fails w record rt s :
  sm_sessions (rt_sessions rt) !! tr_session_id record = Some s ->
  w_now w < tr_expires_unix record -> tr_kind record = KTerminate ->
  let out := recover_transition_record w record rt in
  is_ok (fst out) = false /\
  (si_workspace_id (s_info s) = Some (tr_workspace_id record) ->
   fst (recovered_binding w record rt) = Ok None ->
   fst out = Err (session_err NotFound) /\
   sm_sessions (rt_sessions (snd out)) !! tr_session_id record = None /\
   rt_journal (snd out) = rt_journal (snd (recovered_binding w record rt))).
Proof.
  intros Hs Hlive Hk out. subst out. unfold recover_transition_record.
  destruct (Z.leb_spec (tr_expires_unix record) (w_now w)); [lia |]. rewrite Hs, Hk.
  cbn [kind_is_terminal].
  case_bool_decide as Hws; cbn [negb]; [| split; [done | congruence]].
  pose proof (recovered_binding_sessions w record rt) as Hsame.
  pose proof (recovered_terminal w record rt) as Hnone. rewrite Hk in Hnone.
  destruct (recovered_binding w record rt) as [[b|e] rt1]; cbn in Hsame, Hnone; [| done].
  rewrite (Hnone eq_refl b eq_refl).
  destruct (terminate_present (rt_sessions rt1) (tr_session_id record) s) as [Ht1 Ht2];
    [congruence |].
  unfold install. rewrite Hk. unfold on_sessions.
  destruct (terminate _ _) as [x m]. cbn in Ht1, Ht2. subst x. cbn.
  rewrite set_sidecar_absent by done. by split_and!.
Qed.
(** Every session of [m'] was in [m] with no greater controller epoch. *)
Definition epochs_grow (m m' : SessionManager) : Prop :=
  forall j s', sm_sessions m' !! j = Some s' -> exists s, sm_sessions m !! j = Some s /\
  si_controller_epoch (s_info s) <= si_controller_epoch (s_info s').

Lemma epochs_refl m : epochs_grow m m.
Proof. intros j s ?. exists s. split; [done | lia]. Qed.

Lemma epochs_trans m1 m2 m3 : epochs_grow m1 m2 -> epochs_grow m2 m3 -> epochs_grow m1 m3.
Proof.
  intros H12 H23 j s3 (s2 & (s1 & ? & ?)%H12 & ?)%H23. exists s1. split; [done | lia].
Qed.

Lemma epochs_info {A} m id (f : SessionInfo -> result A SessionError * SessionInfo) :
  (forall s, sm_sessions m !! id = Some s ->
     si_controller_epoch (s_info s) <= si_controller_epoch (snd (f (s_info s)))) ->
  epochs_grow m (snd (with_info m id f)).
Proof.
  intros Hf j s' (s & Hs & [-> | [-> ->]])%with_info_lookup; exists s; (split; [done |]); [lia |].
  by apply Hf.
Qed.

Lemma epochs_terminate m id : epochs_grow m (snd (terminate m id)).
Proof.
  intros j s' H. exists s'. split; [| lia]. revert H. unfold terminate, close.
  destruct (sm_sessions m !! id) as [s0|] eqn:Es.
  - rewrite (with_info_found _ _ _ _ Es). cbn. rewrite delete_insert_eq.
    by intros [_ ?]%lookup_delete_Some.
  - unfold with_info, with_session. by rewrite Es.
Qed.

Lemma epochs_on_sessions {A} (f : SessionManager -> result A SessionError * SessionManager) rt :
  epochs_grow (rt_sessions rt) (snd (f (rt_sessions rt))) ->
  epochs_grow (rt_sessions rt) (rt_sessions (snd (on_sessions f rt))).
Proof. unfold on_sessions. by destruct (f (rt_sessions rt)). Qed.

Lemma epochs_and_then m x k :
  epochs_grow m (rt_sessions (snd x)) ->
  (forall rt, epochs_grow m (rt_sessions rt) -> epochs_grow m (rt_sessions (snd (k rt)))) ->
  epochs_grow m (rt_sessions (snd (and_then x k))).
Proof. destruct x as [[]]; cbn; auto. Qed.

Lemma epochs_install w record b snap rt m :
  epochs_grow m snap -> epochs_grow m (rt_sessions rt) ->
  epochs_grow m (rt_sessions (snd (install w record b snap rt))).
Proof.
  intros Hsnap Hrt.
  assert (Hset : forall b rt, epochs_grow m (rt_sessions rt) -> epochs_grow m (rt_sessions (snd
    (on_sessions (fun m => set_sidecar_host_binding m (tr_session_id record) b) rt)))).
  { intros b0 rt0 H. eapply epochs_trans; [exact H |]. apply epochs_on_sessions, epochs_info.
    intros. cbn. lia. }
  apply epochs_and_then.
  - destruct b; [by apply Hset |]. apply epochs_and_then; [| apply Hset].
    destruct (tr_kind record); eapply epochs_trans; try exact Hrt; apply epochs_on_sessions;
      try apply epochs_terminate. apply epochs_info. intros. cbn. lia.
  - intros rt1 H1. apply epochs_and_then.
    + unfold commit_sessions. by destruct (w_commit w).
    + intros rt2 H2. by destruct (clear_record_spec w "clear recovered transition journal"
        (tr_transition_id record) rt2) as [-> _].
Qed.

(** Recovery never lowers a controller epoch. Whatever record is recovered and
    whatever the world answers, every session that is there afterwards was there
    before, with no greater epoch: a stale record cannot regress the generation of a
    session and so cannot bring an older controller back. *)
Theorem recovery_epochs_grow w record rt :
  epochs_grow (rt_sessions rt) (rt_sessions (snd (recover_transition_record w record rt))).
Proof.
  unfold recover_transition_record. destruct (_ <=? _).
  { destruct (reconcile_expired_sessions w record rt) as [-> _]. apply epochs_refl. }
  destruct (sm_sessions _ !! _) as [s|] eqn:Hs.
  2: { destruct (_ && _); [| apply epochs_refl]. destruct (clear_record_spec w
         "clear completed terminal transition" (tr_transition_id record) rt) as [-> _].
       apply epochs_refl. }
  destruct (negb _); [apply epochs_refl |].
  pose proof (recovered_binding_sessions w record rt) as Hsame.
  destruct (recovered_binding w record rt) as [[b|e] rt1]; cbn in Hsame; rewrite <- Hsame in *;
    [| apply epochs_refl].
  destruct (kind_is_terminal _); [apply epochs_install; apply epochs_refl |].
  destruct (_ <? _) eqn:Ea.
  { destruct (match si_sidecar_host _ with Some _ => _ | None => _ end); [apply epochs_refl |].
    destruct (clear_record_spec w "clear already-superseded recovered transition"
      (tr_transition_id record) rt1) as [-> _]. apply epochs_refl. }
  apply epochs_and_then; [| intros rt2 H2; by apply epochs_install, H2; apply epochs_refl].
  unfold recover_seat. destruct (tt_lease_id _) as [lid|]; [| apply epochs_refl].
  apply epochs_on_sessions, epochs_info. intros s0 Hs0. simplify_eq. bool_prop.
  unfold reconcile_info. destruct (closed _); [cbn; lia |].
  destruct (tt_controller_attached _); cbn; lia.
Qed.
Lemma install_ok w record b snap rt rt' :
  install w record (Some b) snap rt = (Ok tt, rt') ->
  rt_sessions rt' = snd (set_sidecar_host_binding (rt_sessions rt) (tr_session_id record) (Some b)) /\
  j_entries (rt_journal rt') = delete (tr_transition_id record) (j_entries (rt_journal rt)).
Proof.
  unfold install. intros (rt1 & (a & m & Hset & ->)%on_sessions_ok & H)%and_then_ok.
  apply and_then_ok in H as (rt2 & ->%commit_sessions_ok & Hc).
  destruct (clear_record_spec w "clear recovered transition journal" (tr_transition_id record)
    (rt <| rt_sessions := m |>)) as [H1 H2].
  rewrite Hc in H1, H2. cbn in *. rewrite Hset. auto.
Qed.

(** The seat a transition record stands for, on a session's metadata. *)
Definition seat_recorded (record : TransitionRecord) (b : SidecarHostBinding) (i : SessionInfo)
  : Prop :=
  let target := tr_target record in
  si_controller_epoch i = tt_controller_epoch target /\ si_sidecar_host i = Some b /\
  if tt_controller_attached target then
    exists lease_id, tt_lease_id target = Some lease_id /\ si_state i = Running /\
      (tt_principal target ∉ si_observers i) /\
      si_controller i = Some {| cl_principal_id := tt_principal target; cl_lease_id := lease_id;
        cl_epoch := tt_controller_epoch target;
        cl_expires_unix := tt_binding_expires_unix target |}
  else si_controller i = None /\ si_state i = Detached /\ tt_principal target ∈ si_observers i.

Lemma recover_seat_ok record rt rt1 s :
  recover_seat record rt = (Ok tt, rt1) ->
  sm_sessions (rt_sessions rt) !! tr_session_id record = Some s ->
  rt_journal rt1 = rt_journal rt /\
  exists s1, sm_sessions (rt_sessions rt1) !! tr_session_id record = Some s1 /\
    forall b, seat_recorded record b (s_info s1 <| si_sidecar_host := Some b |>).
Proof.
  unfold recover_seat. destruct (tt_lease_id _) as [lid|] eqn:El; [| done].
  intros (a & m & Hr & ->)%on_sessions_ok Hs. cbn. split; [done |]. revert Hr.
  unfold reconcile_controller_from_transition. rewrite (with_info_found _ _ _ _ Hs).
  unfold reconcile_info. destruct (closed (s_info s)); [done |].
  intros [= _ <-]. cbn. rewrite lookup_insert_eq. eexists. split; [done |]. intros b.
  unfold seat_recorded. destruct (tt_controller_attached _); cbn; split_and!; try done.
  - exists lid. split_and!; try done. rewrite elem_of_without. tauto.
  - rewrite elem_of_push_unique. by right.
Qed.

(** C40: a recovered transition is complete. When the recovery of a live, non-terminal
    record succeeds, the record is gone from the journal, and either the durable
    session was already past the record's generation and is untouched, or it has
    exactly the recorded seat (the successor's lease with its recorded token, epoch
    and expiry, or no controller after a detach) together with the binding of the
    applied or replayed mutation. *)
Theorem recovery_completes w record rt rt' s :
  recover_transition_record w record rt = (Ok tt, rt') ->
  sm_sessions (rt_sessions rt) !! tr_session_id record = Some s ->
  w_now w < tr_expires_unix record -> kind_is_terminal (tr_kind record) = false ->
  j_entries (rt_journal rt') !! tr_transition_id record = None /\
  ((tt_controller_epoch (tr_target record) < si_controller_epoch (s_info s) /\
    rt_sessions rt' = rt_sessions rt) \/
   exists b s', (fst (recovered_binding w record rt) = Ok (Some b)) /\
     sm_sessions (rt_sessions rt') !! tr_session_id record = Some s' /\
     seat_recorded record b (s_info s')).
Proof.
  intros H Hs Hlive Hk. unfold recover_transition_record in H.
  destruct (Z.leb_spec (tr_expires_unix record) (w_now w)); [lia |].
  rewrite Hs, Hk in H. destruct (negb _); [done |].
  pose proof (recovered_binding_sessions w record rt) as Hsame.
  pose proof (recovered_nonterminal w record rt Hk) as Hsome.
  destruct (recovered_binding w record rt) as [[b|e] rt1]; cbn in Hsame, Hsome; [| done].
  destruct (Hsome b eq_refl) as [b0 ->]. destruct (_ <? _) eqn:Ea.
  - destruct (match si_sidecar_host _ with Some _ => _ | None => _ end); [done |].
    destruct (clear_record_spec w "clear already-superseded recovered transition"
      (tr_transition_id record) rt1) as [H1 H2]. rewrite H in H1, H2. cbn in H1, H2. bool_prop.
    rewrite H1, H2, Hsame. split; [apply lookup_delete_eq | by left].
  - apply and_then_ok in H as (rt2 & Hseat & (Hset & Hj)%install_ok).
    destruct (recover_seat_ok _ _ _ s Hseat) as (Hj2 & s1 & Hs1 & Hrec); [by rewrite Hsame |].
    rewrite Hj. split; [apply lookup_delete_eq |]. right.
    exists b0, (s1 <| s_info := s_info s1 <| si_sidecar_host := Some b0 |> |>).
    split_and!; [done | | apply Hrec]. rewrite Hset.
    unfold set_sidecar_host_binding. rewrite (with_info_found _ _ _ _ Hs1). apply lookup_insert_eq.
Qed.
End recovery.

Arguments Runtime : clear implicits.

(** ** A crash between the intent and the session commit *)

(** [alice] controls [ses_u1]; [bob]'s claim was journalled but not committed. *)
Definition crashed : Runtime Disk :=
  {| rt_sessions := snd (open_with new_manager "u1" "l1" Pty "shell" "alice" 100 None None None
       (Some "ws_1"));
     rt_journal := snd (begin_ (Codec0 := plain_codec) Written sample_record empty_journal) |}.

Definition kind_world : World :=
  {| w_now := 300; w_supervisor := true; w_replay := Ok ("n2", 2); w_terminate := Ok tt;
     w_host_live := Ok false; w_process_birth := fun _ => Ok None; w_mark := Written;
     w_commit := Ok tt; w_clear := Written |}.

Definition recovered : result unit IpcError * Runtime Disk :=
  recover_transition_record (Codec0 := plain_codec) kind_world sample_record crashed.

Lemma recovery_completes_witness :
  exists s', sm_sessions (rt_sessions (snd recovered)) !! "ses_u1" = Some s' /\
    option_map cl_principal_id (si_controller (s_info s')) = Some "bob" /\
    si_controller_epoch (s_info s') = 2.
Proof.
  assert (Hs : exists s, sm_sessions (rt_sessions crashed) !! "ses_u1" = Some s /\
    si_controller_epoch (s_info s) = 1)
    by (eexists; split; [vm_compute; reflexivity | reflexivity]).
  destruct Hs as (s & Hs & He).
  destruct (recovery_completes (Codec0 := plain_codec) kind_world sample_record crashed
    (snd recovered) s) as (_ & [[Hlt _] | (b & s' & _ & Hs' & Hseat)]).
  - vm_compute. reflexivity.
  - exact Hs.
  - reflexivity.
  - reflexivity.
  - cbn in Hlt. lia.
  - exists s'. split; [exact Hs' |]. destruct Hseat as (He' & _ & lid & _ & _ & _ & ->). auto.
Defined.

(** The same session, with a termination journalled instead. *)
Definition terminate_record : TransitionRecord :=
  sample_record <| tr_kind := KTerminate |>
    <| tr_target := {| tt_principal := "alice"; tt_controller_epoch := 1;
         tt_binding_expires_unix := 800; tt_controller_attached := false;
         tt_lease_id := Some "lease_l1"; tt_terminal := true |} |>.

Definition crashed_terminate : Runtime Disk :=
  {| rt_sessions := rt_sessions crashed;
     rt_journal := snd (begin_ (Codec0 := plain_codec) Written terminate_record empty_journal) |}.

Lemma terminate_recovery_fails_witness :
  fst (recover_transition_record (Codec0 := plain_codec) kind_world terminate_record crashed_terminate)
    = Err (session_err NotFound).
Proof.
  assert (Hs : exists s, sm_sessions (rt_sessions crashed_terminate) !! "ses_u1" = Some s /\
    si_workspace_id (s_info s) = Some "ws_1")
    by (eexists; split; [vm_compute; reflexivity | reflexivity]).
  destruct Hs as (s & Hs & Hws).
  destruct (terminate_recovery_fails (Codec0 := plain_codec) kind_world terminate_record
    crashed_terminate s Hs eq_refl eq_refl) as [_ H].
  apply H; [exact Hws | vm_compute; reflexivity].
Defined.
