(* ===== verification/SessionFence.v ===== *)
(** * Fencing of controller leases, recovery included

    The life of the daemon's sessions as a sequence of manager commands and recoveries of
    transition records.  Recovery changes the sessions only by commands of the manager, and
    never installs a seat behind the one it finds; with the runs of [SessionSeat.v] this
    gives that controller epochs fence. *)

From stdpp Require Import base list strings gmap.
From Stdlib Require Import ZArith Lia.
From S2P Require Import Prelude RustStr Ipc Session SessionRun SessionSeat TransitionJournal Recovery.

Open Scope Z_scope.

(** ** What a recovery does to the sessions *)

(** The record names this lease as the one to install. *)
Definition names (record : TransitionRecord) (id p l : string) (e : Z) : Prop :=
  tr_session_id record = id /\ tt_principal (tr_target record) = p /\
  tt_lease_id (tr_target record) = Some l /\ tt_controller_epoch (tr_target record) = e /\
  tt_controller_attached (tr_target record) = true.

(** A command that recovering [record] may run. *)
Definition by_record (record : TransitionRecord) (c : command) : Prop :=
  opened c = None /\ forall id p l e exp, c = CReconcile id p l e exp true -> names record id p l e.

(** [m'] comes from [m] by such commands, and no seat is put behind the one found. *)
Definition recovers (record : TransitionRecord) (m m' : SessionManager) : Prop :=
  exists cs, m' = fold_left exec cs m /\ along recovery_ahead m cs /\ Forall (by_record record) cs.

Lemma along_app G m cs ds : along G m (cs ++ ds) <-> along G m cs /\ along G (fold_left exec cs m) ds.
Proof. revert m. induction cs as [|c cs IH]; intros m; cbn; [tauto |]. rewrite IH. tauto. Qed.

Section fence.
Context {Bytes : Type} `{!Codec Bytes}.
Context (record : TransitionRecord).

Lemma recovers_refl m : recovers record m m.
Proof. by exists []. Qed.

Lemma recovers_exec m m' c :
  recovers record m m' -> recovery_ahead m' c -> by_record record c -> recovers record m (exec m' c).
Proof.
  intros (cs & -> & A & F) Hc Hb. exists (cs ++ [c]). rewrite fold_left_app. split_and!; [done | |].
  - apply along_app. by split.
  - apply Forall_app. by split; [| apply Forall_singleton].
Qed.

Lemma recovers_on_sessions {A} (f : SessionManager -> result A SessionError * SessionManager) c m rt :
  recovers record m (rt_sessions rt) -> recovery_ahead (rt_sessions rt) c -> by_record record c ->
  snd (f (rt_sessions rt)) = exec (rt_sessions rt) c ->
  recovers record m (rt_sessions (snd (on_sessions (Bytes := Bytes) f rt))).
Proof.
  intros R Hc Hb E. unfold on_sessions. destruct (f (rt_sessions rt)) as [r m']. cbn in *. subst. by apply recovers_exec.
Qed.

Lemma recovers_and_then m x k :
  recovers record m (rt_sessions (snd x)) ->
  (forall rt, recovers record m (rt_sessions rt) -> recovers record m (rt_sessions (snd (k rt)))) ->
  recovers record m (rt_sessions (snd (and_then (Bytes := Bytes) x k))).
Proof. destruct x as [[]]; cbn; auto. Qed.

Lemma recovers_install w b snap rt m :
  recovers record m snap -> recovers record m (rt_sessions rt) ->
  recovers record m (rt_sessions (snd (install w record b snap rt))).
Proof.
  intros Hsnap Hrt.
  assert (Hset : forall b rt, recovers record m (rt_sessions rt) -> recovers record m (rt_sessions (snd
    (on_sessions (Bytes := Bytes) (fun m => set_sidecar_host_binding m (tr_session_id record) b) rt)))).
  { intros b0 rt0 H. by apply (recovers_on_sessions _ (CSidecar (tr_session_id record) b0)). }
  apply recovers_and_then.
  - destruct b; [by apply Hset |]. apply recovers_and_then; [| apply Hset].
    destruct (tr_kind record);
      first [ by apply (recovers_on_sessions _ (CClose (tr_session_id record)))
            | by apply (recovers_on_sessions _ (CTerminate (tr_session_id record))) ].
  - intros rt1 H1. apply recovers_and_then.
    + unfold commit_sessions. by destruct (w_commit w).
    + intros rt2 H2. by destruct (clear_record_spec w "clear recovered transition journal"
        (tr_transition_id record) rt2) as [-> _].
Qed.

Lemma recovery_recovers w rt :
  recovers record (rt_sessions rt) (rt_sessions (snd (recover_transition_record w record rt))).
Proof.
  unfold recover_transition_record. destruct (_ <=? _).
  { destruct (reconcile_expired_sessions w record rt) as [-> _]. apply recovers_refl. }
  destruct (sm_sessions _ !! _) as [s|] eqn:Hs.
  2: { destruct (_ && _); [| apply recovers_refl]. destruct (clear_record_spec w
         "clear completed terminal transition" (tr_transition_id record) rt) as [-> _].
       apply recovers_refl. }
  destruct (negb _); [apply recovers_refl |].
  pose proof (recovered_binding_sessions w record rt) as Hsame.
  destruct (recovered_binding w record rt) as [[b|e] rt1]; cbn in Hsame; rewrite <- Hsame in *;
    [| apply recovers_refl].
  destruct (kind_is_terminal _); [apply recovers_install; apply recovers_refl |].
  destruct (_ <? _) eqn:Ea.
  { destruct (match si_sidecar_host _ with Some _ => _ | None => _ end); [apply recovers_refl |].
    destruct (clear_record_spec w "clear already-superseded recovered transition"
      (tr_transition_id record) rt1) as [-> _]. apply recovers_refl. }
  apply recovers_and_then; [| intros rt2 H2; by apply recovers_install, H2; apply recovers_refl].
  unfold recover_seat. destruct (tt_lease_id _) as [lid|] eqn:El; [| apply recovers_refl].
  eapply (recovers_on_sessions _ (CReconcile (tr_session_id record) (tt_principal (tr_target record)) lid
    (tt_controller_epoch (tr_target record)) (tt_binding_expires_unix (tr_target record))
    (tt_controller_attached (tr_target record)))); [apply recovers_refl | | | done].
  - cbn. intros s0 Hs0. simplify_eq. bool_prop. lia.
  - split; [done |]. intros id p l e exp [= <- <- <- <- _ Ha]. unfold names. by rewrite El.
Qed.

Lemma recovers_run used m m' :
  recovers record m m' ->
  exists cs, run used m cs used m' /\ along recovery_ahead m cs /\ Forall (by_record record) cs.
Proof.
  intros (cs & -> & A & F). exists cs. split_and!; [| done | done]. clear A. revert m.
  induction F as [|c cs [Hc _] F IH]; intros m; [apply run_nil |].
  apply run_cons; [by rewrite Hc |]. rewrite Hc. apply IH.
Qed.
End fence.

(** ** The life of the sessions *)

Inductive deed : Type := Command (c : command) | Recover (w : World) (record : TransitionRecord).

(** Recovery alone reconciles a seat from a record. *)
Definition reconciles (c : command) : Prop :=
  match c with CReconcile _ _ _ _ _ _ => True | _ => False end.

Section life.
Context {Bytes : Type} `{!Codec Bytes}.

(** [used] are the identifiers sessions were ever opened under, and none is drawn twice. *)
Inductive life : gset string -> Runtime Bytes -> list deed -> gset string -> Runtime Bytes -> Prop :=
| life_nil used rt : life used rt [] used rt
| life_command used rt c ds used' rt' :
    ~ reconciles c -> (forall id, opened c = Some id -> id ∉ used) ->
    life (match opened c with Some id => {[id]} ∪ used | None => used end)
      (rt <| rt_sessions := exec (rt_sessions rt) c |>) ds used' rt' ->
    life used rt (Command c :: ds) used' rt'
| life_recover used rt w record ds used' rt' :
    life used (snd (recover_transition_record w record rt)) ds used' rt' ->
    life used rt (Recover w record :: ds) used' rt'.

Lemma run_app used m cs used1 m1 ds used2 m2 :
  run used m cs used1 m1 -> run used1 m1 ds used2 m2 -> run used m (cs ++ ds) used2 m2.
Proof. induction 1; [done |]. intros. apply run_cons; auto. Qed.

Lemma run_fold used m cs used' m' : run used m cs used' m' -> m' = fold_left exec cs m.
Proof. induction 1; done. Qed.

(** A life is a run of the manager in which recovery is checked. *)
Lemma life_run used rt ds used' rt' :
  life used rt ds used' rt' ->
  exists cs, run used (rt_sessions rt) cs used' (rt_sessions rt') /\ along recovery_ahead (rt_sessions rt) cs /\
  forall id p l e, recorded id p l e cs -> exists w record, Recover w record ∈ ds /\ names record id p l e.
Proof.
  induction 1 as [|used rt c ds used' rt' Nc Hf _ (cs & R & A & N)|used rt w record ds used' rt' _ (cs & R & A & N)].
  - exists []. split_and!; [apply run_nil | done |]. by intros ? ? ? ? [? ?%elem_of_nil].
  - exists (c :: cs). split_and!; [by apply run_cons | split; [by destruct c | done] |].
    intros id p l e [exp [<- | Hin]%elem_of_cons]; [done |]. destruct (N id p l e) as (w & r & ? & ?); [by exists exp |].
    exists w, r. split; [by right | done].
  - destruct (recovers_run record used _ _ (recovery_recovers record w rt)) as (cs0 & R0 & A0 & F0).
    exists (cs0 ++ cs). split_and!; [by eapply run_app | apply along_app; by rewrite <- (run_fold _ _ _ _ _ R0) |].
    intros id p l e [exp [Hin | Hin]%elem_of_app].
    + rewrite Forall_forall in F0. destruct (F0 _ Hin) as [_ Hn]. exists w, record. split; [by left | by eapply Hn].
    + destruct (N id p l e) as (w' & r & ? & ?); [by exists exp |]. exists w', r. split; [by right | done].
Qed.

(** C33: controller epochs fence.  If in the life of the sessions, through all commands of the
    manager and any recoveries of transition records, a lease is accepted for a remote
    mutation and a lease is accepted later, the later epoch is not smaller; and under one
    epoch only one principal and one lease token are accepted, unless the later ones are
    those that a transition record recovered in between names for that very epoch. *)
Theorem lease_fencing used rt ds used' rt' id p l e now p' l' e' now' :
  life used rt ds used' rt' -> seats_ok (rt_sessions rt) -> id ∈ used ->
  authorize_controller_lease (rt_sessions rt) id p l e now = Ok tt ->
  authorize_controller_lease (rt_sessions rt') id p' l' e' now' = Ok tt ->
  e <= e' /\ (e = e' -> (p = p' /\ l = l') \/ exists w record, Recover w record ∈ ds /\ names record id p' l' e').
Proof.
  intros (cs & R & A & N)%life_run Hok Hin Ha Ha'.
  destruct (run_fencing _ _ _ _ _ _ _ _ _ _ _ _ _ _ R A Hok Hin Ha Ha') as [Hle Heq].
  split; [done |]. intros E. destruct (Heq E) as [? | ?%N]; auto.
Qed.
End life.

(** ** A claim that a crash interrupted *)

(** [alice] opened the session; [bob]'s claim was journalled, is recovered, and [alice]
    asks for the seat again. *)
Definition sample_deeds : list deed :=
  [Recover kind_world sample_record; Command (CClaim "ses_u1" "alice" "l3" 310)].

Lemma crashed_seats : seats_ok (rt_sessions crashed).
Proof. exact opened_manager_seats. Qed.

Local Abbreviation after_recovery := (snd (recover_transition_record (Codec0 := plain_codec) kind_world sample_record crashed)).
Local Abbreviation after_claim :=
  (after_recovery <| rt_sessions := exec (rt_sessions after_recovery) (CClaim "ses_u1" "alice" "l3" 310) |>).

Lemma lease_fencing_witness :
  life (Codec0 := plain_codec) {["ses_u1"]} crashed sample_deeds {["ses_u1"]} after_claim
  /\ authorize_controller_lease (rt_sessions after_claim) "ses_u1" "bob" "lease_l2" 2 400 = Ok tt /\ 1 <= 2.
Proof.
  assert (H : life (Codec0 := plain_codec) {["ses_u1"]} crashed sample_deeds {["ses_u1"]} after_claim).
  { apply life_recover, life_command; [intros [] | discriminate | apply life_nil]. }
  assert (A : authorize_controller_lease (rt_sessions after_claim) "ses_u1" "bob" "lease_l2" 2 400 = Ok tt)
    by (vm_compute; reflexivity).
  split; [exact H |]. split; [exact A |].
  refine (proj1 (lease_fencing (Codec0 := plain_codec) _ _ _ _ _ "ses_u1" "alice" "lease_l1" 1 150 "bob" "lease_l2" 2 400 H
    crashed_seats _ _ A)).
  - by apply elem_of_singleton.
  - vm_compute. reflexivity.
Defined.
