(* ===== verification/OpJournal.v ===== *)
(** * The operation journal ([crates/ownmeshd/src/runtime.rs])

    The durable map from idempotency keys to operation outcomes that makes a side
    effect run at most once per key: an in-progress marker is written before the
    operation runs and replaced by a compact receipt after it.  The files
    [op-journal.json] and [op-journal.json.bak] are part of the state; the clock and
    the outcomes of the file operations are arguments.  The writer reports an error
    only before its atomic replacement ([ownmesh-persist]), so a failed write leaves
    the file as it was. *)

From stdpp Require Import base list strings gmap.
From Stdlib Require Import ZArith Lia Ascii.
From S2P Require Import Prelude RustStr Json Ipc.

Open Scope Z_scope.

Definition OP_JOURNAL_STATE_FIELD : string := "__ownmesh_operation_state".
Definition OP_JOURNAL_IN_PROGRESS : string := "in_progress".
Definition OP_JOURNAL_RECOVERY_STATE_FIELD : string := "__ownmesh_recovery_state".
Definition OP_JOURNAL_RECOVERED_UNIX_FIELD : string := "__ownmesh_recovered_unix".
Definition OP_JOURNAL_RECOVERABLE_ORPHANED : string := "recoverable_orphaned".
Definition MAX_OP_JOURNAL_ENTRIES : Z := 4096.
Definition MAX_OP_JOURNAL_FILE_BYTES : Z := 4 * 1024 * 1024.
Definition OP_JOURNAL_COMPLETED_TTL_SECS : Z := 30 * 24 * 60 * 60.
Definition OP_JOURNAL_COMPLETED_UNIX_FIELD : string := "__ownmesh_completed_unix".
Definition MAX_LEGACY_READ_BYTES : Z := MAX_OP_JOURNAL_FILE_BYTES * 4.

(** ** The state of an entry *)

Inductive OpJournalEntryState : Type := InProgress | Uncertain | Completed.

#[export] Instance OpJournalEntryState_eq_dec : EqDecision OpJournalEntryState.
Proof. solve_decision. Defined.

(** [v.get(key).and_then(Value::as_str).is_some_and(|s| !s.is_empty())]. *)
Definition has_str (v : Value) (key : string) : bool :=
  match get_str v key with Some s => negb (is_empty s) | None => false end.

Definition has_exact_once_operation_id (object : Value) : bool := has_str object "operation_id".

Definition legacy_completed_body (object : Value) : bool :=
  has_str object "operation_id"
  && (has_str object "decision"
      || match get object "approval_required" with Some v => is_boolean v | None => false end
      || has_str object "review_id").

Definition op_journal_entry_state (value : Value) : OpJournalEntryState :=
  if negb (is_object value) then Uncertain
  else match get value OP_JOURNAL_STATE_FIELD with
       | None =>
           if match get value "durable_receipt" with
              | Some v => match as_bool v with Some b => b | None => false end
              | None => false
              end && has_exact_once_operation_id value then Completed
           else if legacy_completed_body value then Completed
           else Uncertain
       | Some field =>
           match as_str field with
           | Some s =>
               if String.eqb s OP_JOURNAL_IN_PROGRESS then InProgress
               else if String.eqb s "completed" && has_exact_once_operation_id value then Completed
               else Uncertain
           | None => Uncertain
           end
       end.

Definition is_op_journal_in_progress (value : Value) : bool :=
  bool_decide (op_journal_entry_state value = InProgress).

Definition is_op_journal_recoverable_orphan (value : Value) : bool :=
  is_op_journal_in_progress value
  && match get_str value OP_JOURNAL_RECOVERY_STATE_FIELD with
     | Some s => String.eqb s OP_JOURNAL_RECOVERABLE_ORPHANED
     | None => false
     end.

Definition is_op_journal_uncertain (value : Value) : bool :=
  negb (bool_decide (op_journal_entry_state value = Completed)).

(** ** Compaction *)

(** The phase of a review receipt overrides its status. *)
Definition receipt_status (value : Value) : Value :=
  let status := match get value "status" with Some s => s | None => JString "completed" end in
  match opt_filter is_string (get value "phase") with
  | Some (JString phase) =>
      if existsb (String.eqb phase) ["completed"; "failed"; "cancelled"]
         && (negb (String.eqb phase "completed")
             || match get value "status" with None => true | Some _ => false end)
      then JString phase else status
  | _ => status
  end.

Definition short_string (v : Value) : bool :=
  match as_str v with Some s => negb (is_empty s) && (str_len s <=? 256) | None => false end.

Definition any_value (v : Value) : bool := true.

Definition flag_value (v : Value) : bool := is_boolean v || is_number v.

(** The fields a compact receipt keeps, each with its filter, in insertion order. *)
Definition receipt_fields : list (string * (Value -> bool)) :=
  [("closed", flag_value); ("detached", flag_value); ("terminated", flag_value);
   ("reconciled", flag_value); ("live_pty", flag_value);
   ("operation_id", any_value); (OP_JOURNAL_COMPLETED_UNIX_FIELD, any_value);
   ("remote_payload_hash", any_value); ("review_id", any_value); ("workspace_id", any_value);
   ("phase", is_string); ("id", short_string); ("session_id", short_string);
   ("controller_epoch", fun v => is_u64 v || is_i64 v);
   ("controller", is_object); ("lease", is_object); ("session", is_object);
   ("error", is_object)].

Definition keep_field (value : Value) (ms : gmap string Value) (f : string * (Value -> bool))
  : gmap string Value :=
  match opt_filter (snd f) (get value (fst f)) with
  | Some x => <[fst f := x]> ms
  | None => ms
  end.

Definition receipt_base (value : Value) : gmap string Value :=
  list_to_map [("durable_receipt", JBool true); ("truncated", JBool true);
               ("status", receipt_status value);
               ("note", JString "op-journal entry compacted before durable persistence")].

(** The body of the loop of [op_journal_durable_view] on a completed entry. *)
Definition compact (value : Value) : Value :=
  Object (foldl (keep_field value) (receipt_base value) receipt_fields).

Definition durable_entry (value : Value) : Value :=
  if is_op_journal_uncertain value then value else compact value.

Definition op_journal_durable_view (journal : gmap string Value) : gmap string Value :=
  durable_entry <$> journal.

(** [str::is_char_boundary] on UTF-8 text. *)
Definition is_char_boundary (s : string) (i : nat) : bool :=
  match String.get i s with
  | Some c => negb (in_range 128 191 (code c))
  | None => Nat.eqb i (String.length s)
  end.

Fixpoint boundary_below (s : string) (cut : nat) : nat :=
  match cut with
  | O => O
  | S n => if is_char_boundary s cut then cut else boundary_below s n
  end.

Definition ellipsis : string :=
  String (byte_of 226) (String (byte_of 128) (String (byte_of 166) "")).

Definition bounded_journal_error_message (message : string) : string :=
  if str_len message <=? 512 then message
  else String.substring 0 (boundary_below message 512) message +:+ ellipsis.

(** ** The journal and its files *)

(** [serde_json] on the journal map, pretty-printed: decoding what was encoded gives
    the map back. *)
Class JournalCodec (Bytes : Type) : Type := {
  jenc : gmap string Value -> Bytes;
  jdec : Bytes -> result (gmap string Value) string;
  jlen : Bytes -> Z;
  jdec_jenc : forall j, jdec (jenc j) = Ok j
}.

(** The outcomes of the file operations of one call: reading the journal, removing
    the stale backup before the write, the write, and the removal after it. *)
Record JournalIo : Type := {
  io_read : result unit string;
  io_remove : result unit string;
  io_write : result unit string;
  io_remove_after : bool
}.

Definition io_ok : JournalIo :=
  {| io_read := Ok tt; io_remove := Ok tt; io_write := Ok tt; io_remove_after := true |}.

Definition journal_degraded_error (reason : string) : IpcError :=
  Remote CONFLICT
    ("OWNMESH_E_JOURNAL_DEGRADED: side effects are refused because the op-journal could not be loaded ("
     +:+ reason
     +:+ "). Repair locally with `ownmesh doctor --repair-journal --i-understand-replay-risk` then restart ownmeshd").

Definition map_len {A} (m : gmap string A) : Z := Z.of_nat (size m).

(** [HashMap::retain] on the values. *)
Definition retain (p : Value -> bool) (m : gmap string Value) : gmap string Value :=
  filter (fun kv => p (snd kv) = true) m.

(** The marker of an operation about to run. *)
Definition in_progress_marker (operation_id : string) : Value :=
  json_object [(OP_JOURNAL_STATE_FIELD, JString OP_JOURNAL_IN_PROGRESS);
               ("operation_id", JString operation_id)].

(** A completed entry carries a positive completion stamp older than the window. *)
Definition stamp_expired (now : Z) (value : Value) : bool :=
  match get_i64 value OP_JOURNAL_COMPLETED_UNIX_FIELD with
  | Some stamp =>
      (0 <? stamp) && (OP_JOURNAL_COMPLETED_TTL_SECS <=? i64_saturating_sub now stamp)
  | None => false
  end.

Section journal.
Context {Bytes : Type} `{!JournalCodec Bytes}.

Record OpJournal : Type := {
  oj_entries : gmap string Value;
  oj_degraded : option string;
  oj_primary : option Bytes;
  oj_backup : option Bytes
}.

#[export] Instance OpJournal_eta : Eta OpJournal := fun j =>
  {| oj_entries := oj_entries j; oj_degraded := oj_degraded j;
     oj_primary := oj_primary j; oj_backup := oj_backup j |}.

Definition durable_bytes (j : gmap string Value) : Bytes := jenc (op_journal_durable_view j).

(** The write of [persist_op_journal] and the clean-up after it. *)
Definition write_journal (io : JournalIo) (bytes : Bytes) (j : OpJournal)
  : result unit IpcError * OpJournal :=
  match io_write io with
  | Err e => (Err (Remote INTERNAL ("failed to persist op journal: " +:+ e)), j)
  | Ok _ =>
      let j := j <| oj_primary := Some bytes |> in
      (Ok tt, if io_remove_after io then j <| oj_backup := None |> else j)
  end.

Definition persist_op_journal (io : JournalIo) (j : OpJournal) : result unit IpcError * OpJournal :=
  match oj_degraded j with
  | Some reason => (Err (journal_degraded_error reason), j)
  | None =>
      let encoded := durable_bytes (oj_entries j) in
      if MAX_OP_JOURNAL_FILE_BYTES <? jlen encoded then
        (Err (Remote INTERNAL "op journal exceeds 4194304 durable byte budget"), j)
      else if MAX_OP_JOURNAL_ENTRIES <? map_len (oj_entries j) then
        (Err (Remote INTERNAL "op journal exceeds 4096 entry budget"), j)
      else match oj_primary j with
           | Some _ =>
               match io_remove io with
               | Err e => (Err (Remote INTERNAL ("failed to remove stale op journal backup: " +:+ e)), j)
               | Ok _ => write_journal io encoded (j <| oj_backup := None |>)
               end
           | None => write_journal io encoded j
           end
  end.

(** [self.op_journal = entries], then persist, restoring the previous map when the
    persist fails. *)
Definition commit_entries (io : JournalIo) (entries : gmap string Value) (j : OpJournal)
  : result unit IpcError * OpJournal :=
  match persist_op_journal io (j <| oj_entries := entries |>) with
  | (Err e, j') => (Err e, j' <| oj_entries := oj_entries j |>)
  | (Ok _, j') => (Ok tt, j')
  end.

(** [retain] the entries that pass and persist when one was dropped. *)
Definition prune (io : JournalIo) (keep : Value -> bool) (j : OpJournal)
  : result Z IpcError * OpJournal :=
  let kept := retain keep (oj_entries j) in
  let dropped := map_len (oj_entries j) - map_len kept in
  if dropped =? 0 then (Ok 0, j <| oj_entries := kept |>)
  else match commit_entries io kept j with
       | (Err e, j') => (Err e, j')
       | (Ok _, j') => (Ok dropped, j')
       end.

Definition evict_expired_completed_op_journal_entries (io : JournalIo) (now : Z) (j : OpJournal)
  : result Z IpcError * OpJournal :=
  prune io (fun value => is_op_journal_uncertain value || negb (stamp_expired now value)) j.

Definition acknowledge_control_plane_operations (io : JournalIo) (operation_ids : list string)
    (j : OpJournal) : result Z IpcError * OpJournal :=
  match operation_ids with
  | [] => (Ok 0, j)
  | _ =>
      prune io (fun entry =>
        is_op_journal_uncertain entry
        || negb match get_str entry "operation_id" with
                | Some id => existsb (String.eqb id) operation_ids
                | None => false
                end) j
  end.

Definition maybe_make_op_journal_room (io : JournalIo) (now : Z) (key operation_id : string)
    (j : OpJournal) : result unit IpcError * OpJournal :=
  let projected := <[key := in_progress_marker operation_id]> (oj_entries j) in
  let at_byte_cap := MAX_OP_JOURNAL_FILE_BYTES <=? jlen (durable_bytes projected) in
  if (map_len (oj_entries j) <? MAX_OP_JOURNAL_ENTRIES) && negb at_byte_cap then (Ok tt, j)
  else match evict_expired_completed_op_journal_entries io now j with
       | (Err e, j') => (Err e, j')
       | (Ok _, j') => (Ok tt, j')
       end.

(** ** Idempotency operations *)

Definition lookup_idempotent (io : JournalIo) (now : Z) (key : option string) (j : OpJournal)
  : result (option Value) IpcError * OpJournal :=
  match key with
  | None => (Ok None, j)
  | Some key =>
      match oj_entries j !! key with
      | None => (Ok None, j)
      | Some entry =>
          if is_op_journal_uncertain entry then
            (Err (Remote CONFLICT
               (if is_op_journal_recoverable_orphan entry
                then "OWNMESH_E_OPERATION_ORPHANED: idempotency key " +:+ key
                     +:+ " was accepted by a prior daemon process but has no durable terminal result; operator investigation and reconciliation are required and automatic retry is refused"
                else "idempotency key " +:+ key
                     +:+ " has an in-progress or uncertain outcome; retry refused")), j)
          else if bool_decide (op_journal_entry_state entry = Completed) && stamp_expired now entry then
            (Ok None, snd (commit_entries io (delete key (oj_entries j)) j))
          else (Ok (Some entry), j)
      end
  end.

Definition begin_idempotent (io : JournalIo) (now : Z) (key : option string) (operation_id : string)
    (j : OpJournal) : result unit IpcError * OpJournal :=
  match key with
  | None => (Ok tt, j)
  | Some key =>
      match oj_entries j !! key with
      | Some _ => (Err (Remote CONFLICT ("idempotency key " +:+ key +:+ " is already reserved")), j)
      | None =>
          match maybe_make_op_journal_room io now key operation_id j with
          | (Err e, j1) => (Err e, j1)
          | (Ok _, j1) =>
              if MAX_OP_JOURNAL_ENTRIES <=? map_len (oj_entries j1) then
                (Err (Remote JOURNAL_CAPACITY
                   "op journal at capacity (4096) with no evictable completed receipts; refuse new idempotency key (run `ownmesh doctor` for journal pressure)"), j1)
              else commit_entries io (<[key := in_progress_marker operation_id]> (oj_entries j1)) j1
          end
      end
  end.

Definition store_idempotent (io : JournalIo) (now : Z) (key : option string) (value : Value)
    (j : OpJournal) : result unit IpcError * OpJournal :=
  match key with
  | None => (Ok tt, j)
  | Some k =>
      let stored := insert_member OP_JOURNAL_COMPLETED_UNIX_FIELD (json_i64 now) value in
      match commit_entries io (<[k := stored]> (oj_entries j)) j with
      | (Err e, j') => (Err e, j')
      | (Ok _, j') =>
          (Ok tt, match op_journal_durable_view (oj_entries j') !! k with
                  | Some receipt => j' <| oj_entries := <[k := receipt]> (oj_entries j') |>
                  | None => j'
                  end)
      end
  end.

Definition failed_receipt (operation_id : string) (error_code : Z) (error_message : string) : Value :=
  json_object
    [("durable_receipt", JBool true); ("status", JString "failed");
     ("operation_id", JString operation_id);
     ("error", json_object
        [("code", json_i64 error_code);
         ("message", JString (bounded_journal_error_message error_message));
         ("retryable", JBool false)])].

(** The entry is this operation's own in-progress marker. *)
Definition own_marker (operation_id : string) (entry : Value) : bool :=
  is_op_journal_in_progress entry
  && match get_str entry "operation_id" with
     | Some id => String.eqb id operation_id
     | None => false
     end.

Definition fail_idempotent (io : JournalIo) (now : Z) (key : option string) (operation_id : string)
    (error_code : Z) (error_message : string) (j : OpJournal) : result bool IpcError * OpJournal :=
  match key with
  | None => (Ok false, j)
  | Some k =>
      match oj_entries j !! k with
      | None => (Ok false, j)
      | Some entry =>
          if negb (own_marker operation_id entry) then (Ok false, j)
          else match store_idempotent io now key
                       (failed_receipt operation_id error_code error_message) j with
               | (Err e, j') => (Err e, j')
               | (Ok _, j') => (Ok true, j')
               end
      end
  end.

(** ** Loading *)

Definition mark_loaded (now : Z) (value : Value) : Value :=
  let value :=
    if is_op_journal_in_progress value
       && match get value OP_JOURNAL_RECOVERY_STATE_FIELD with None => true | Some _ => false end
    then insert_member OP_JOURNAL_RECOVERED_UNIX_FIELD (json_i64 now)
           (insert_member OP_JOURNAL_RECOVERY_STATE_FIELD (JString OP_JOURNAL_RECOVERABLE_ORPHANED) value)
    else value in
  if negb (is_op_journal_uncertain value)
     && match get value OP_JOURNAL_COMPLETED_UNIX_FIELD with None => true | Some _ => false end
  then insert_member OP_JOURNAL_COMPLETED_UNIX_FIELD (json_i64 now) value
  else value.

Definition bound_op_journal (now : Z) (journal : gmap string Value)
  : result (gmap string Value) string :=
  guard_err (MAX_OP_JOURNAL_ENTRIES <? map_len journal) "operation journal exceeds 4096 entry budget" ;?
  let bounded := mark_loaded now <$> op_journal_durable_view journal in
  guard_err (MAX_OP_JOURNAL_FILE_BYTES <? jlen (jenc bounded))
    "operation journal exceeds 4194304 byte budget after compaction" ;?
  Ok bounded.

Definition read_and_bound_op_journal (io : JournalIo) (now : Z) (file : Bytes)
  : result (gmap string Value) string :=
  io_read io ;?
  guard_err (MAX_LEGACY_READ_BYTES <? jlen file) "op journal exceeds 16777216 read budget" ;?
  let? parsed := jdec file in
  bound_op_journal now parsed.

(** [load_op_journal]: the loaded map, and the two files after the call. *)
Definition load_op_journal (io : JournalIo) (now : Z) (primary backup : option Bytes)
  : result (gmap string Value) string * (option Bytes * option Bytes) :=
  match primary, backup with
  | None, None => (Ok ∅, (None, None))
  | None, Some bak =>
      match read_and_bound_op_journal io now bak with
      | Err e => (Err e, (primary, backup))
      | Ok journal =>
          match io_write io with
          | Err e => (Err ("failed to persist recovered op journal: " +:+ e), (primary, backup))
          | Ok _ =>
              match io_remove io with
              | Err e => (Err ("failed to remove recovered op journal backup: " +:+ e),
                          (Some (jenc journal), backup))
              | Ok _ => (Ok journal, (Some (jenc journal), None))
              end
          end
      end
  | Some file, _ =>
      match read_and_bound_op_journal io now file with
      | Err e => (Err e, (primary, backup))
      | Ok journal =>
          match io_remove io with
          | Err e => (Err ("failed to remove stale op journal backup: " +:+ e), (primary, backup))
          | Ok _ =>
              match io_write io with
              | Err e => (Err ("failed to persist compacted operation journal: " +:+ e), (primary, None))
              | Ok _ => (Ok journal, (Some (jenc journal), None))
              end
          end
      end
  end.

(** The journal part of [DaemonRuntime::open]: a journal that does not load leaves the
    daemon in degraded mode with an empty map. *)
Definition open_op_journal (io : JournalIo) (now : Z) (primary backup : option Bytes) : OpJournal :=
  let '(r, (primary', backup')) := load_op_journal io now primary backup in
  match r with
  | Ok journal => {| oj_entries := journal; oj_degraded := None;
                     oj_primary := primary'; oj_backup := backup' |}
  | Err reason => {| oj_entries := ∅; oj_degraded := Some reason;
                     oj_primary := primary'; oj_backup := backup' |}
  end.

Definition restart (io : JournalIo) (now : Z) (j : OpJournal) : OpJournal :=
  open_op_journal io now (oj_primary j) (oj_backup j).
End journal.
Arguments OpJournal Bytes : clear implicits.

(** ** Compaction keeps what replay needs *)

Lemma is_op_journal_uncertain_true v :
  is_op_journal_uncertain v = true <-> op_journal_entry_state v <> Completed.
Proof.
  unfold is_op_journal_uncertain. rewrite negb_true_iff. apply bool_decide_eq_false.
Qed.

Lemma is_op_journal_uncertain_false v :
  is_op_journal_uncertain v = false <-> op_journal_entry_state v = Completed.
Proof.
  unfold is_op_journal_uncertain. rewrite negb_false_iff. apply bool_decide_eq_true.
Qed.

Lemma keep_fields_other value fields ms k :
  k ∉ fields.*1 -> foldl (keep_field value) ms fields !! k = ms !! k.
Proof.
  revert ms. induction fields as [|[k' p] fields IH]; intros ms Hk; [done |].
  cbn in Hk. apply not_elem_of_cons in Hk as [Hne Hk]. cbn [foldl]. rewrite IH by done.
  unfold keep_field; cbn [fst snd]. destruct (opt_filter _ _); [by apply lookup_insert_ne | done].
Qed.

Lemma keep_fields_in value fields ms k p :
  NoDup fields.*1 -> (k, p) ∈ fields -> ms !! k = None ->
  foldl (keep_field value) ms fields !! k = opt_filter p (get value k).
Proof.
  revert ms. induction fields as [|[k' p'] fields IH]; intros ms Hnd Hin Hms.
  { by apply elem_of_nil in Hin. }
  apply NoDup_cons in Hnd as [Hk' Hnd]. cbn [foldl].
  apply elem_of_cons in Hin as [Heq | Hin].
  - injection Heq as -> ->. rewrite keep_fields_other by done.
    unfold keep_field; cbn [fst snd]. destruct (opt_filter _ _); [by rewrite lookup_insert_eq | done].
  - apply IH; [done | done |]. unfold keep_field; cbn [fst snd].
    destruct (opt_filter p' _); [| done].
    rewrite lookup_insert_ne; [done |]. intros <-. apply Hk'. by apply (list_elem_of_fmap_2' fst _ _ _ Hin).
Qed.

Lemma keep_fields_ext v w fields ms :
  Forall (fun f => opt_filter (snd f) (get v (fst f)) = opt_filter (snd f) (get w (fst f))) fields ->
  foldl (keep_field v) ms fields = foldl (keep_field w) ms fields.
Proof.
  intros H. revert ms. induction H as [|f fields Hf _ IH]; intros ms; [done |].
  cbn [foldl]. unfold keep_field at 2 4. by rewrite Hf, IH.
Qed.

Lemma receipt_fields_nodup : NoDup receipt_fields.*1.
Proof. by apply (bool_decide_unpack _); vm_compute. Qed.

Lemma receipt_base_fresh v k : k ∈ receipt_fields.*1 -> receipt_base v !! k = None.
Proof.
  intros Hk. apply not_elem_of_list_to_map_1. cbn [fmap list_fmap fst].
  assert (H : Forall (fun k => k ∉ ["durable_receipt"; "truncated"; "status"; "note"]) receipt_fields.*1)
    by (by apply (bool_decide_unpack _); vm_compute).
  by apply (proj1 (Forall_forall _ _) H).
Qed.

Lemma get_compact_field v k p :
  (k, p) ∈ receipt_fields -> get (compact v) k = opt_filter p (get v k).
Proof.
  intros Hin. cbn [compact get]. apply keep_fields_in; [apply receipt_fields_nodup | done |].
  apply receipt_base_fresh. by apply (list_elem_of_fmap_2' fst _ _ _ Hin).
Qed.

Lemma get_compact_other v k :
  k ∉ receipt_fields.*1 -> get (compact v) k = receipt_base v !! k.
Proof. apply keep_fields_other. Qed.

(** Look a fixed key up in a compacted entry. *)
Ltac compact_get :=
  match goal with
  | |- context [get (compact ?v) ?k] =>
      first
        [ rewrite (get_compact_other v k) by (by apply (bool_decide_unpack _); vm_compute)
        | erewrite (get_compact_field v k) by
            (unfold receipt_fields;
             repeat (apply elem_of_cons; first [left; reflexivity | right])) ]
  end.

Lemma get_compact_operation_id v : get (compact v) "operation_id" = get v "operation_id".
Proof. compact_get. by destruct (get v _). Qed.

Lemma get_compact_stamp v :
  get (compact v) OP_JOURNAL_COMPLETED_UNIX_FIELD = get v OP_JOURNAL_COMPLETED_UNIX_FIELD.
Proof. compact_get. by destruct (get v _). Qed.

Lemma get_compact_status v : get (compact v) "status" = Some (receipt_status v).
Proof. by compact_get. Qed.

Lemma opt_filter_idem {A} (p : A -> bool) o : opt_filter p (opt_filter p o) = opt_filter p o.
Proof. destruct o as [x|]; cbn; [destruct (p x) eqn:E; cbn; by rewrite ?E | done]. Qed.

Lemma receipt_status_compact v : receipt_status (compact v) = receipt_status v.
Proof.
  unfold receipt_status at 1. rewrite get_compact_status.
  replace (get (compact v) "phase") with (opt_filter is_string (get v "phase"))
    by (symmetry; compact_get; done).
  rewrite opt_filter_idem. unfold receipt_status.
  destruct (opt_filter is_string (get v "phase")) as [[| | |phase| |]|]; try done.
  rewrite orb_false_r.
  destruct (existsb _ _) eqn:E; cbn [andb]; [| done].
  by destruct (String.eqb phase "completed"), (get v "status"); cbn [negb orb].
Qed.

Lemma completed_operation_id v :
  op_journal_entry_state v = Completed -> has_exact_once_operation_id v = true.
Proof.
  unfold op_journal_entry_state, legacy_completed_body. intros H.
  destruct (is_object v); [| done]. cbn [negb] in H.
  destruct (get v OP_JOURNAL_STATE_FIELD) as [field|].
  - destruct (as_str field) as [s|]; [| done].
    destruct (String.eqb s OP_JOURNAL_IN_PROGRESS); [done |].
    destruct (String.eqb s "completed"); [| done]. by destruct (has_exact_once_operation_id v).
  - destruct (has_exact_once_operation_id v) eqn:E; [done |].
    rewrite andb_false_r in H. unfold has_exact_once_operation_id in E. by rewrite E in H.
Qed.

Lemma compact_completed v :
  op_journal_entry_state v = Completed -> op_journal_entry_state (compact v) = Completed.
Proof.
  intros H%completed_operation_id. unfold op_journal_entry_state.
  change (is_object (compact v)) with true. cbn [negb].
  compact_get. change (receipt_base v !! OP_JOURNAL_STATE_FIELD) with (@None Value). cbv iota.
  compact_get. change (receipt_base v !! "durable_receipt") with (Some (JBool true)). cbn [as_bool andb].
  unfold has_exact_once_operation_id, has_str, get_str in *.
  rewrite get_compact_operation_id. by rewrite H.
Qed.

Lemma compact_idempotent v : compact (compact v) = compact v.
Proof.
  unfold compact at 1.
  replace (receipt_base (compact v)) with (receipt_base v)
    by (unfold receipt_base; by rewrite receipt_status_compact).
  change (compact v) with (Object (foldl (keep_field v) (receipt_base v) receipt_fields)) at 2.
  f_equal. apply keep_fields_ext, Forall_forall. intros [k p] Hin. cbn [fst snd].
  rewrite (get_compact_field v k p Hin). apply opt_filter_idem.
Qed.

Lemma receipt_status_insert k x v :
  k <> "status" -> k <> "phase" -> receipt_status (insert_member k x v) = receipt_status v.
Proof. intros. unfold receipt_status. by rewrite !get_insert_member_ne. Qed.

(** Stamping a compact receipt gives a compact receipt. *)
Lemma compact_stamped v x :
  compact (insert_member OP_JOURNAL_COMPLETED_UNIX_FIELD x (compact v))
  = insert_member OP_JOURNAL_COMPLETED_UNIX_FIELD x (compact v).
Proof.
  set (w' := insert_member _ x (compact v)).
  apply object_ext; [done | unfold w'; by rewrite is_object_insert_member |]. intros i.
  destruct (decide (i = OP_JOURNAL_COMPLETED_UNIX_FIELD)) as [-> | Hne];
    [apply get_compact_stamp |].
  assert (Hw : get w' i = get (compact v) i) by (by apply get_insert_member_ne).
  rewrite Hw. destruct (decide (i ∈ receipt_fields.*1)) as [Hin | Hout].
  - apply list_elem_of_fmap in Hin as ([k p] & -> & Hin). cbn [fst] in *.
    rewrite (get_compact_field w' k p Hin), Hw, (get_compact_field v k p Hin). apply opt_filter_idem.
  - rewrite !get_compact_other by done. unfold receipt_base, w'.
    by rewrite receipt_status_insert, receipt_status_compact.
Qed.

Lemma durable_entry_idempotent v : durable_entry (durable_entry v) = durable_entry v.
Proof.
  unfold durable_entry at 2 3. destruct (is_op_journal_uncertain v) eqn:E.
  { unfold durable_entry. by rewrite E. }
  apply is_op_journal_uncertain_false, compact_completed, is_op_journal_uncertain_false in E.
  unfold durable_entry. by rewrite E, compact_idempotent.
Qed.

Lemma durable_entry_state v : op_journal_entry_state (durable_entry v) = op_journal_entry_state v.
Proof.
  unfold durable_entry. destruct (is_op_journal_uncertain v) eqn:E; [done |].
  apply is_op_journal_uncertain_false in E. by rewrite compact_completed.
Qed.

Lemma durable_entry_uncertain v : is_op_journal_uncertain v = true -> durable_entry v = v.
Proof. unfold durable_entry. by intros ->. Qed.

Lemma durable_view_idempotent j :
  op_journal_durable_view (op_journal_durable_view j) = op_journal_durable_view j.
Proof.
  unfold op_journal_durable_view. rewrite <- map_fmap_compose.
  apply map_fmap_ext. intros k v _. apply durable_entry_idempotent.
Qed.

(** The durable view of the journal has the same keys and entry states; an entry
    that is not provably completed is kept verbatim; a completed entry keeps its
    operation id, its completion stamp and its review and error fields, its status is
    the one replay must report, and taking the view again changes nothing. *)
Theorem durable_view_faithful journal k v :
  journal !! k = Some v ->
  exists d, op_journal_durable_view journal !! k = Some d /\
    op_journal_entry_state d = op_journal_entry_state v /\
    (op_journal_entry_state v <> Completed -> d = v) /\
    (op_journal_entry_state v = Completed ->
       get d "operation_id" = get v "operation_id" /\
       get d OP_JOURNAL_COMPLETED_UNIX_FIELD = get v OP_JOURNAL_COMPLETED_UNIX_FIELD /\
       get d "review_id" = get v "review_id" /\
       get d "error" = opt_filter is_object (get v "error") /\
       get d "status" = Some (receipt_status v)) /\
    op_journal_durable_view (op_journal_durable_view journal) !! k = Some d.
Proof.
  intros Hk. exists (durable_entry v). rewrite durable_view_idempotent.
  assert (Hd : op_journal_durable_view journal !! k = Some (durable_entry v))
    by (unfold op_journal_durable_view; by rewrite lookup_fmap, Hk).
  split_and!; try done; [apply durable_entry_state | |].
  - intros Hu. by apply durable_entry_uncertain, is_op_journal_uncertain_true.
  - intros Hc. apply is_op_journal_uncertain_false in Hc. unfold durable_entry. rewrite Hc.
    split_and!; [apply get_compact_operation_id | apply get_compact_stamp | | | apply get_compact_status];
      compact_get; [by destruct (get v _) | done].
Qed.

(** A failed review receipt: compaction must not report it as completed. *)
Definition failed_review : Value :=
  json_object [("operation_id", JString "op_1"); ("review_id", JString "rv_1");
               ("phase", JString "failed"); ("stdout", JString "large")].

Lemma durable_view_faithful_witness :
  ({["k" := failed_review]} : gmap string Value) !! "k" = Some failed_review /\
  (exists d, op_journal_durable_view {["k" := failed_review]} !! "k" = Some d /\
     op_journal_entry_state d = op_journal_entry_state failed_review) /\
  receipt_status failed_review = JString "failed".
Proof.
  split; [by vm_compute |]. split; [| by vm_compute].
  destruct (durable_view_faithful {["k" := failed_review]} "k" failed_review) as (d & H1 & H2 & _);
    [by vm_compute | by exists d].
Defined.
