(* ===== verification/OpJournalRun.v ===== *)
(** * Runs of the operation journal

    Arbitrary interleavings of the journal operations of [OpJournal.v], daemon restarts
    and file errors included.  A property of the entry under one key is carried through
    a run both in memory and on disk; with it: an accepted key never runs again while
    its outcome is unknown, and a receipt replays unchanged for its whole window. *)

From stdpp Require Import base list strings gmap.
From Stdlib Require Import ZArith Lia.
From S2P Require Import Prelude RustStr Json Ipc OpJournal.

Open Scope Z_scope.

(** ** Operations and runs *)

Inductive journal_op : Type :=
| OLookup (io : JournalIo) (now : Z) (key : string)
| OBegin (io : JournalIo) (now : Z) (key operation_id : string)
| OStore (io : JournalIo) (now : Z) (key : string) (value : Value)
| OFail (io : JournalIo) (now : Z) (key operation_id : string) (code : Z) (message : string)
| OEvict (io : JournalIo) (now : Z)
| OAck (io : JournalIo) (operation_ids : list string)
| ORestart (io : JournalIo) (now : Z).

Section run.
Context {Bytes : Type} `{!JournalCodec Bytes}.

Definition jstep (op : journal_op) (j : OpJournal Bytes) : OpJournal Bytes :=
  match op with
  | OLookup io now key => snd (lookup_idempotent io now (Some key) j)
  | OBegin io now key oid => snd (begin_idempotent io now (Some key) oid j)
  | OStore io now key v => snd (store_idempotent io now (Some key) v j)
  | OFail io now key oid code msg => snd (fail_idempotent io now (Some key) oid code msg j)
  | OEvict io now => snd (evict_expired_completed_op_journal_entries io now j)
  | OAck io ids => snd (acknowledge_control_plane_operations io ids j)
  | ORestart io now => restart io now j
  end.

Definition jrun (ops : list journal_op) (j : OpJournal Bytes) : OpJournal Bytes :=
  foldl (fun j op => jstep op j) j ops.

(** ** A property of one key's entry, in memory and on disk *)

(** The file the next start reads. *)
Definition disk (j : OpJournal Bytes) : option Bytes :=
  match oj_primary j with Some b => Some b | None => oj_backup j end.

Definition on_disk (P : Value -> Prop) (k : string) (j : OpJournal Bytes) : Prop :=
  exists b d v, disk j = Some b /\ jdec b = Ok d /\ d !! k = Some v /\ P v.

Definition in_memory (P : Value -> Prop) (k : string) (entries : gmap string Value) : Prop :=
  exists v, entries !! k = Some v /\ P v.

Definition held (P : Value -> Prop) (k : string) (j : OpJournal Bytes) : Prop :=
  (oj_degraded j = None -> in_memory P k (oj_entries j)) /\ on_disk P k j.

Section held.
Context (P : Value -> Prop) (k : string).
Hypothesis P_durable : forall v, P v -> P (durable_entry v).

Lemma durable_view_in_memory entries :
  in_memory P k entries -> in_memory P k (op_journal_durable_view entries).
Proof.
  intros (v & Hv & Hp). exists (durable_entry v). split; [| by apply P_durable].
  unfold op_journal_durable_view. by rewrite lookup_fmap, Hv.
Qed.

Lemma written_on_disk j entries :
  disk j = Some (jenc entries) -> in_memory P k entries -> on_disk P k j.
Proof. intros Hd (v & Hv & Hp). exists (jenc entries), entries, v. by rewrite jdec_jenc. Qed.

Lemma on_disk_ext j j' : disk j' = disk j -> on_disk P k j -> on_disk P k j'.
Proof. unfold on_disk. by intros ->. Qed.

(** A persist that fails leaves everything; one that succeeds writes the view. *)
Lemma persist_op_cases io (j : OpJournal Bytes) :
  (exists e, persist_op_journal io j = (Err e, snd (persist_op_journal io j)) /\
     oj_entries (snd (persist_op_journal io j)) = oj_entries j /\
     oj_degraded (snd (persist_op_journal io j)) = oj_degraded j /\
     oj_primary (snd (persist_op_journal io j)) = oj_primary j /\
     disk (snd (persist_op_journal io j)) = disk j) \/
  (persist_op_journal io j = (Ok tt, snd (persist_op_journal io j)) /\
     oj_degraded j = None /\
     map_len (oj_entries j) <= MAX_OP_JOURNAL_ENTRIES /\
     jlen (durable_bytes (oj_entries j)) <= MAX_OP_JOURNAL_FILE_BYTES /\
     oj_entries (snd (persist_op_journal io j)) = oj_entries j /\
     oj_degraded (snd (persist_op_journal io j)) = None /\
     oj_primary (snd (persist_op_journal io j)) = Some (durable_bytes (oj_entries j))).
Proof.
  unfold persist_op_journal, disk. destruct j as [es [reason|] p b]; cbn; [by left; eexists; split_and! |].
  destruct (Z.ltb_spec MAX_OP_JOURNAL_FILE_BYTES (jlen (durable_bytes es))); [by left; eexists; split_and! |].
  destruct (Z.ltb_spec MAX_OP_JOURNAL_ENTRIES (map_len es)); [by left; eexists; split_and! |].
  unfold write_journal.
  destruct p, (io_remove io), (io_write io), (io_remove_after io); cbn; first [by left; eexists; split_and! | by right].
Qed.

Lemma commit_held io entries j :
  held P k j -> (oj_degraded j = None -> in_memory P k entries) ->
  held P k (snd (commit_entries io entries j)).
Proof.
  intros [Hm Hd] He. unfold commit_entries.
  destruct (persist_op_cases io (j <| oj_entries := entries |>))
    as [(e & -> & Hes & Hdg & _ & Hdk) | (-> & Hdg0 & _ & _ & Hes & Hdg & Hp)]; cbn in *.
  - split; cbn; [by rewrite Hdg |]. by eapply on_disk_ext; [| exact Hd].
  - split; [rewrite Hes; auto |].
    eapply written_on_disk; [unfold disk; by rewrite Hp |]. auto using durable_view_in_memory.
Qed.

Lemma retain_in_memory keep entries :
  (forall v, P v -> keep v = true) -> in_memory P k entries -> in_memory P k (retain keep entries).
Proof.
  intros Hk (v & Hv & Hp). exists v. split; [| done].
  apply map_lookup_filter_Some. cbn. auto.
Qed.

Lemma prune_held io keep j :
  (forall v, P v -> keep v = true) -> held P k j -> held P k (snd (prune io keep j)).
Proof.
  intros Hk Hh. pose proof Hh as [Hm Hd]. unfold prune. destruct (_ =? 0); cbn.
  - split; cbn; [auto using retain_in_memory |]. by eapply on_disk_ext; [| exact Hd].
  - pose proof (commit_held io (retain keep (oj_entries j)) j Hh) as H.
    destruct (commit_entries _ _ _) as [[] ?]; cbn in *; auto using retain_in_memory.
Qed.

Lemma insert_in_memory k' v entries :
  k' <> k -> in_memory P k entries -> in_memory P k (<[k' := v]> entries).
Proof. intros Hne (w & Hw & Hp). exists w. by rewrite lookup_insert_ne. Qed.

Lemma begin_held io now k' oid j :
  (forall v, P v -> is_op_journal_uncertain v || negb (stamp_expired now v) = true) ->
  held P k j -> held P k (snd (begin_idempotent io now (Some k') oid j)).
Proof.
  intros Hev Hh. unfold begin_idempotent.
  destruct (oj_entries j !! k') eqn:Ek; [done |].
  assert (H1 : held P k (snd (maybe_make_op_journal_room io now k' oid j)) ).
  { unfold maybe_make_op_journal_room. destruct (_ && _); [done |].
    pose proof (prune_held io _ j Hev Hh) as H.
    unfold evict_expired_completed_op_journal_entries. by destruct (prune _ _ _) as [[] ?]. }
  assert (Hne : oj_degraded (snd (maybe_make_op_journal_room io now k' oid j)) = None ->
          in_memory P k (<[k' := in_progress_marker oid]>
             (oj_entries (snd (maybe_make_op_journal_room io now k' oid j))))).
  { intros Hdg. apply insert_in_memory; [| by apply H1]. intros ->.
    destruct Hh as [Hm _]. destruct Hm as (v & Hv & _); [| congruence].
    revert Hdg. unfold maybe_make_op_journal_room, evict_expired_completed_op_journal_entries, prune.
    destruct (_ && _); [done |]. destruct (_ =? 0); [done |]. unfold commit_entries.
    destruct (persist_op_cases io (j <| oj_entries := retain
      (fun value => is_op_journal_uncertain value || negb (stamp_expired now value)) (oj_entries j) |>))
      as [(e & -> & _ & Hdg & _) | (-> & Hdg & _)]; cbn in *; congruence. }
  destruct (maybe_make_op_journal_room _ _ _ _ _) as [[] j1]; cbn in *; [| done].
  destruct (_ <=? _); [done |]. by apply commit_held.
Qed.

Lemma store_held io now k' v j :
  k' <> k -> held P k j -> held P k (snd (store_idempotent io now (Some k') v j)).
Proof.
  intros Hne Hh. unfold store_idempotent.
  pose proof (commit_held io (<[k' := insert_member OP_JOURNAL_COMPLETED_UNIX_FIELD (json_i64 now) v]>
    (oj_entries j)) j Hh) as H.
  destruct (commit_entries _ _ _) as [[] j']; cbn in *.
  - destruct (op_journal_durable_view _ !! k') as [r|]; cbn.
    + destruct H as [Hm Hd]; [by intros; apply insert_in_memory; auto; apply Hh |].
      split; cbn; [by intros; apply insert_in_memory; auto | by eapply on_disk_ext; [| exact Hd]].
    + apply H. by intros; apply insert_in_memory; auto; apply Hh.
  - apply H. by intros; apply insert_in_memory; auto; apply Hh.
Qed.

Lemma lookup_held io now k' j :
  (k' = k -> forall v, P v -> is_op_journal_uncertain v || negb (stamp_expired now v) = true) ->
  held P k j -> held P k (snd (lookup_idempotent io now (Some k') j)).
Proof.
  intros Hev Hh. unfold lookup_idempotent.
  destruct (oj_entries j !! k') as [e|] eqn:Ek; [| done].
  destruct (is_op_journal_uncertain e) eqn:Eu; [done |].
  destruct (bool_decide _ && _) eqn:Ex; [| done]. cbn [snd]. apply commit_held; [done |].
  intros Hdg. destruct Hh as [Hm _]. destruct (Hm Hdg) as (v & Hv & Hp).
  destruct (decide (k' = k)) as [-> | Hne].
  - assert (e = v) as -> by congruence. specialize (Hev eq_refl v Hp).
    apply andb_prop in Ex as [_ Ex]. by rewrite Eu, Ex in Hev.
  - exists v. by rewrite lookup_delete_ne.
Qed.

(** A degraded journal refuses every store. *)
Lemma store_degraded_held io now k' v reason j :
  oj_degraded j = Some reason -> held P k j -> held P k (snd (store_idempotent io now (Some k') v j)).
Proof.
  intros Edg [_ Hd]. unfold store_idempotent, commit_entries, persist_op_journal. cbn. rewrite Edg. cbn.
  split; cbn; [congruence |]. by eapply on_disk_ext; [| exact Hd].
Qed.

Lemma fail_held io now k' oid code msg j :
  (k' = k -> forall v, P v -> own_marker oid v = false) ->
  held P k j -> held P k (snd (fail_idempotent io now (Some k') oid code msg j)).
Proof.
  intros Hown Hh. unfold fail_idempotent.
  destruct (oj_entries j !! k') as [e|] eqn:Ek; [| done].
  destruct (own_marker oid e) eqn:Eo; cbn [negb]; [| done].
  destruct (decide (k' = k)) as [-> | Hne].
  - destruct (oj_degraded j) as [reason|] eqn:Edg.
    + pose proof (store_degraded_held io now k (failed_receipt oid code msg) reason j Edg Hh) as H.
      by destruct (store_idempotent _ _ _ _ _) as [[] ?].
    + destruct Hh as [Hm _]. destruct (Hm Edg) as (v & Hv & Hp).
      assert (e = v) as -> by congruence. by rewrite (Hown eq_refl v Hp) in Eo.
  - pose proof (store_held io now k' (failed_receipt oid code msg) j Hne Hh) as H.
    by destruct (store_idempotent _ _ _ _ _) as [[] ?].
Qed.

Lemma bound_in_memory now d d' :
  (forall v, P v -> P (mark_loaded now v)) ->
  bound_op_journal now d = Ok d' -> in_memory P k d -> in_memory P k d'.
Proof.
  intros Hl H Hm. unfold bound_op_journal in H. res_inv.
  destruct (durable_view_in_memory _ Hm) as (v & Hv & Hp).
  exists (mark_loaded now v). rewrite lookup_fmap, Hv. auto.
Qed.

Lemma read_in_memory io now b d d' :
  (forall v, P v -> P (mark_loaded now v)) -> jdec b = Ok d ->
  read_and_bound_op_journal io now b = Ok d' -> in_memory P k d -> in_memory P k d'.
Proof.
  intros Hl Hb H. unfold read_and_bound_op_journal in H. rewrite Hb in H. res_inv.
  by eapply bound_in_memory.
Qed.

Lemma restart_held io now j :
  (forall v, P v -> P (mark_loaded now v)) -> on_disk P k j -> held P k (restart io now j).
Proof.
  intros Hl Hd. pose proof Hd as (b & d & v & Hb & Hdec & Hv & Hp).
  assert (Hm : in_memory P k d) by (by exists v).
  unfold restart, open_op_journal, load_op_journal, disk in *.
  destruct (oj_primary j) as [p|]; [injection Hb as -> |]; [| rewrite Hb];
    destruct (read_and_bound_op_journal io now b) as [d'|] eqn:Er;
    try (pose proof (read_in_memory io now b d d' Hl Hdec Er Hm) as Hm');
    destruct (io_remove io), (io_write io); cbn;
    (split; cbn; [done || (by intros) |]);
    first [ by eapply written_on_disk; [reflexivity | exact Hm']
          | by exists b, d, v ].
Qed.

(** What keeps [P] at [k] through an operation. *)
Definition keeps (op : journal_op) : Prop :=
  match op with
  | OLookup _ now k' =>
      k' = k -> forall v, P v -> is_op_journal_uncertain v || negb (stamp_expired now v) = true
  | OBegin _ now _ _ | OEvict _ now =>
      forall v, P v -> is_op_journal_uncertain v || negb (stamp_expired now v) = true
  | OStore _ _ k' _ => k' <> k
  | OFail _ _ k' oid _ _ => k' = k -> forall v, P v -> own_marker oid v = false
  | OAck _ ids =>
      forall v, P v -> is_op_journal_uncertain v = true \/
        forall id, get_str v "operation_id" = Some id -> id ∉ ids
  | ORestart _ now => forall v, P v -> P (mark_loaded now v)
  end.

Lemma step_held op j : keeps op -> held P k j -> held P k (jstep op j).
Proof.
  destruct op; cbn [keeps jstep]; intros Hk Hh;
    [by apply lookup_held | by apply begin_held | by apply store_held | by apply fail_held
    | by apply prune_held | | by apply restart_held; [| apply Hh]].
  unfold acknowledge_control_plane_operations. destruct operation_ids as [|i ids]; [done |].
  apply prune_held; [| done]. intros v Hp. apply orb_true_iff.
  destruct (Hk v Hp) as [-> | Hid]; [by left |]. right. apply negb_true_iff.
  destruct (get_str v "operation_id") as [id|]; [| done].
  destruct (existsb (String.eqb id) (i :: ids)) eqn:E; [| done].
  apply existsb_exists in E as (x & Hx & ->%String.eqb_eq).
  destruct (Hid x eq_refl). by apply list_elem_of_In.
Qed.

Lemma run_held ops j : Forall keeps ops -> held P k j -> held P k (jrun ops j).
Proof.
  intros Hf. revert j. induction Hf as [|op ops Hk _ IH]; intros j Hh; [done |].
  cbn. by apply IH, step_held.
Qed.
End held.

(** ** Entry states under the fields loading adds *)

Definition state_keys : list string :=
  [OP_JOURNAL_STATE_FIELD; "durable_receipt"; "operation_id"; "decision"; "approval_required";
   "review_id"].

Lemma state_insert_member k x v :
  k ∉ state_keys -> op_journal_entry_state (insert_member k x v) = op_journal_entry_state v.
Proof.
  intros Hk. unfold state_keys in Hk. rewrite !not_elem_of_cons in Hk. destruct Hk as (?&?&?&?&?&?&_).
  unfold op_journal_entry_state, legacy_completed_body, has_exact_once_operation_id, has_str, get_str.
  rewrite is_object_insert_member, !get_insert_member_ne by done. done.
Qed.

Lemma mark_loaded_state now v : op_journal_entry_state (mark_loaded now v) = op_journal_entry_state v.
Proof.
  unfold mark_loaded.
  destruct (is_op_journal_in_progress v && _);
    destruct (negb _ && _); rewrite ?state_insert_member; done || (by apply (bool_decide_unpack _); vm_compute).
Qed.

Lemma mark_loaded_other now v k :
  k <> OP_JOURNAL_RECOVERED_UNIX_FIELD -> k <> OP_JOURNAL_RECOVERY_STATE_FIELD ->
  k <> OP_JOURNAL_COMPLETED_UNIX_FIELD -> get (mark_loaded now v) k = get v k.
Proof.
  intros. unfold mark_loaded.
  destruct (is_op_journal_in_progress v && _); destruct (negb _ && _);
    by rewrite ?get_insert_member_ne.
Qed.

(** ** At most once *)

(** The entry blocks its key, and only operation [oid] may close it. *)
Definition fence (oid : string) (v : Value) : Prop :=
  is_op_journal_uncertain v = true /\ get_str v "operation_id" = Some oid.

Lemma fence_durable oid v : fence oid v -> fence oid (durable_entry v).
Proof. intros [Hu Hid]. by rewrite durable_entry_uncertain. Qed.

Lemma fence_loaded oid now v : fence oid v -> fence oid (mark_loaded now v).
Proof.
  intros [Hu Hid]. split.
  - rewrite is_op_journal_uncertain_true in *. by rewrite mark_loaded_state.
  - unfold get_str in *. by rewrite mark_loaded_other.
Qed.

Lemma commit_ok io entries (j j' : OpJournal Bytes) :
  commit_entries io entries j = (Ok tt, j') ->
  oj_entries j' = entries /\ oj_degraded j' = None /\
  oj_primary j' = Some (durable_bytes entries) /\
  map_len entries <= MAX_OP_JOURNAL_ENTRIES /\
  jlen (durable_bytes entries) <= MAX_OP_JOURNAL_FILE_BYTES.
Proof.
  unfold commit_entries.
  destruct (persist_op_cases io (j <| oj_entries := entries |>))
    as [(e & -> & _) | (-> & _ & ? & ? & ? & ? & ?)]; intros Heq; simplify_eq; done.
Qed.

Lemma commit_err io entries (j j' : OpJournal Bytes) e :
  commit_entries io entries j = (Err e, j') ->
  oj_entries j' = oj_entries j /\ oj_degraded j' = oj_degraded j /\
  oj_primary j' = oj_primary j.
Proof.
  unfold commit_entries.
  destruct (persist_op_cases io (j <| oj_entries := entries |>))
    as [(e' & -> & _ & ? & ? & _) | (-> & _)]; intros Heq; simplify_eq. done.
Qed.

Lemma commit_degraded io entries (j : OpJournal Bytes) reason :
  oj_degraded j = Some reason -> exists e, fst (commit_entries io entries j) = Err e.
Proof. intros H. unfold commit_entries, persist_op_journal. cbn. rewrite H. cbn. eauto. Qed.

Lemma written_held P k v io entries (j j' : OpJournal Bytes) :
  (forall v, P v -> P (durable_entry v)) -> commit_entries io entries j = (Ok tt, j') ->
  entries !! k = Some v -> P v -> held P k j'.
Proof.
  intros HP Hc Hv Hp. destruct (commit_ok _ _ _ _ Hc) as (He & Hd & Hpr & _).
  assert (Hm : in_memory P k entries) by (by exists v).
  split; [by rewrite He |].
  eapply written_on_disk; [unfold disk; by rewrite Hpr |]. by apply durable_view_in_memory.
Qed.

Lemma begin_ok_held io now k oid (j j' : OpJournal Bytes) :
  begin_idempotent io now (Some k) oid j = (Ok tt, j') -> held (fence oid) k j'.
Proof.
  unfold begin_idempotent. destruct (oj_entries j !! k); [done |].
  destruct (maybe_make_op_journal_room _ _ _ _ _) as [[] j1]; [| done].
  destruct (_ <=? _); [done |]. intros Hc.
  eapply written_held; [apply fence_durable | exact Hc | by rewrite lookup_insert_eq |].
  split; by vm_compute.
Qed.

Lemma begin_ok_not_degraded io now k oid (j j' : OpJournal Bytes) :
  begin_idempotent io now (Some k) oid j = (Ok tt, j') -> oj_degraded j' = None.
Proof.
  unfold begin_idempotent. destruct (oj_entries j !! k); [done |].
  destruct (maybe_make_op_journal_room _ _ _ _ _) as [[] j1]; [| done].
  destruct (_ <=? _); [done |]. by intros (_ & ? & _)%commit_ok.
Qed.

Lemma begin_blocked P k io now oid (j : OpJournal Bytes) :
  held P k j -> exists e, fst (begin_idempotent io now (Some k) oid j) = Err e.
Proof.
  intros [Hm _]. unfold begin_idempotent. destruct (oj_entries j !! k) eqn:E; [by eauto |].
  destruct (oj_degraded j) as [reason|] eqn:Ed; [| destruct Hm as (v & Hv & _); [done | congruence]].
  destruct (maybe_make_op_journal_room io now k oid j) as [[] j1] eqn:Er; [| by eauto].
  destruct (_ <=? _); [by eauto |]. apply (commit_degraded _ _ _ reason).
  revert Er. unfold maybe_make_op_journal_room, evict_expired_completed_op_journal_entries, prune.
  destruct (_ && _); [by intros; simplify_eq |]. destruct (_ =? 0); [by intros; simplify_eq |].
  match goal with |- context [commit_entries io ?es j] =>
    destruct (commit_degraded io es j reason Ed) as [e He] end.
  by destruct (commit_entries _ _ _) as [[] j2]; cbn in He; intros; simplify_eq.
Qed.

(** [ops] neither stores under [k] nor closes operation [oid] of [k]. *)
Definition not_closed (k oid : string) (op : journal_op) : Prop :=
  match op with
  | OStore _ _ k' _ => k' <> k
  | OFail _ _ k' oid' _ _ => ~ (k' = k /\ oid' = oid)
  | _ => True
  end.

Lemma not_closed_keeps k oid op : not_closed k oid op -> keeps (fence oid) k op.
Proof.
  destruct op; cbn; try done.
  - by intros _ _ v [-> _].
  - by intros _ v [-> _].
  - intros Hne -> v [_ Hid]. unfold own_marker. rewrite Hid, andb_comm.
    destruct (String.eqb_spec oid operation_id) as [->|]; [by destruct Hne | done].
  - by intros _ v [-> _].
  - intros _ v [-> _]. by left.
  - intros _ v. apply fence_loaded.
Qed.

(** Once an operation is accepted under an idempotency key, no sequence of journal
    operations, evictions, acknowledgements, file errors and daemon restarts lets the
    key be accepted again until that operation itself records its outcome: a new
    reservation fails, and on a journal that loaded a lookup is refused as a conflict
    and changes nothing. *)
Theorem at_most_once k oid io now (j j1 : OpJournal Bytes) ops :
  begin_idempotent io now (Some k) oid j = (Ok tt, j1) ->
  Forall (not_closed k oid) ops ->
  let j2 := jrun ops j1 in
  (forall io' now' oid', exists e, fst (begin_idempotent io' now' (Some k) oid' j2) = Err e) /\
  (oj_degraded j2 = None -> forall io' now',
     exists msg, lookup_idempotent io' now' (Some k) j2 = (Err (Remote CONFLICT msg), j2)).
Proof.
  intros Hb%begin_ok_held Hops j2.
  assert (Hh : held (fence oid) k j2).
  { apply run_held; [apply fence_durable | | done].
    eapply Forall_impl; [exact Hops |]. apply not_closed_keeps. }
  split; [intros; by eapply begin_blocked |].
  intros Hd io' now'. destruct Hh as [Hm _]. destruct (Hm Hd) as (v & Hv & Hu & _).
  unfold lookup_idempotent. rewrite Hv, Hu. by eauto.
Qed.

(** ** Replay of receipts *)

(** The receipt [store_idempotent] leaves for [value] at time [t]. *)
Definition receipt_of (t : Z) (value : Value) : Value :=
  compact (insert_member OP_JOURNAL_COMPLETED_UNIX_FIELD (json_i64 t) value).

Lemma completed_is_object v : op_journal_entry_state v = Completed -> is_object v = true.
Proof. unfold op_journal_entry_state. by destruct (is_object v). Qed.

Lemma stored_completed t v :
  op_journal_entry_state v = Completed ->
  op_journal_entry_state (insert_member OP_JOURNAL_COMPLETED_UNIX_FIELD (json_i64 t) v) = Completed.
Proof. intros H. rewrite state_insert_member; [done |]. by apply (bool_decide_unpack _); vm_compute. Qed.

Lemma receipt_of_completed t v :
  op_journal_entry_state v = Completed -> op_journal_entry_state (receipt_of t v) = Completed.
Proof. intros H. by apply compact_completed, stored_completed. Qed.

Lemma receipt_of_durable t v : durable_entry (receipt_of t v) = receipt_of t v.
Proof.
  unfold durable_entry. destruct (is_op_journal_uncertain _); [done |]. apply compact_idempotent.
Qed.

Lemma receipt_of_stamp t v :
  op_journal_entry_state v = Completed ->
  get (receipt_of t v) OP_JOURNAL_COMPLETED_UNIX_FIELD = Some (json_i64 t).
Proof.
  intros H%completed_is_object. unfold receipt_of.
  by rewrite get_compact_stamp, get_insert_member_eq.
Qed.

Lemma receipt_of_operation_id t v : get (receipt_of t v) "operation_id" = get v "operation_id".
Proof. unfold receipt_of. by rewrite get_compact_operation_id, get_insert_member_ne. Qed.

Lemma receipt_of_loaded t v now :
  op_journal_entry_state v = Completed -> mark_loaded now (receipt_of t v) = receipt_of t v.
Proof.
  intros H. unfold mark_loaded, is_op_journal_in_progress, is_op_journal_uncertain.
  rewrite receipt_of_completed by done. cbn [bool_decide negb andb]. cbv zeta.
  rewrite (bool_decide_eq_false_2 (Completed = InProgress)) by done. cbn [andb].
  rewrite receipt_of_completed by done. by rewrite receipt_of_stamp, andb_false_r.
Qed.

Lemma receipt_of_fresh t v now :
  op_journal_entry_state v = Completed -> 0 < t <= i64_max -> now < t + OP_JOURNAL_COMPLETED_TTL_SECS ->
  stamp_expired now (receipt_of t v) = false.
Proof.
  intros H Ht Hn. unfold stamp_expired, get_i64. rewrite receipt_of_stamp by done.
  rewrite as_i64_json by (unfold i64_min; lia).
  apply andb_false_iff. right. apply Z.leb_gt.
  unfold i64_saturating_sub, OP_JOURNAL_COMPLETED_TTL_SECS, i64_min, i64_max in *. lia.
Qed.

(** The operation leaves a receipt under [k] for [oid], stored at [t], alone: its clock
    is inside the window, it does not store under [k] again and does not acknowledge
    [oid]. *)
Definition in_window (k : string) (oid : option string) (t : Z) (op : journal_op) : Prop :=
  match op with
  | OLookup _ now _ | OBegin _ now _ _ | OEvict _ now => now < t + OP_JOURNAL_COMPLETED_TTL_SECS
  | OStore _ _ k' _ => k' <> k
  | OAck _ ids => forall id, oid = Some id -> id ∉ ids
  | OFail _ _ _ _ _ _ | ORestart _ _ => True
  end.

Lemma in_window_keeps k t v op :
  op_journal_entry_state v = Completed -> 0 < t <= i64_max ->
  in_window k (get_str v "operation_id") t op -> keeps (eq (receipt_of t v)) k op.
Proof.
  intros Hc Ht.
  assert (Hfresh : forall now, now < t + OP_JOURNAL_COMPLETED_TTL_SECS ->
    forall w, receipt_of t v = w -> is_op_journal_uncertain w || negb (stamp_expired now w) = true).
  { intros now Hn w <-. rewrite (receipt_of_fresh t v now Hc Ht Hn). apply orb_true_r. }
  destruct op; cbn [in_window keeps]; intros Hw; try done.
  - intros _. by apply Hfresh.
  - by apply Hfresh.
  - intros _ w <-. unfold own_marker, is_op_journal_in_progress. by rewrite receipt_of_completed.
  - by apply Hfresh.
  - intros w <-. right. unfold get_str. rewrite receipt_of_operation_id. apply Hw.
  - intros w <-. by rewrite receipt_of_loaded.
Qed.

Lemma store_ok_held io t k v (j j' : OpJournal Bytes) :
  op_journal_entry_state v = Completed -> store_idempotent io t (Some k) v j = (Ok tt, j') ->
  held (eq (receipt_of t v)) k j'.
Proof.
  intros Hc. unfold store_idempotent.
  destruct (commit_entries _ _ _) as [[[]|] j1] eqn:Ec; [| done]. intros H. injection H as <-.
  destruct (commit_ok _ _ _ _ Ec) as (He & Hd & Hp & _).
  set (stored := insert_member _ _ v) in *.
  assert (Hde : durable_entry stored = receipt_of t v).
  { unfold durable_entry, stored. by rewrite (proj2 (is_op_journal_uncertain_false _) (stored_completed t v Hc)). }
  assert (Hv : op_journal_durable_view (oj_entries j1) !! k = Some (receipt_of t v)).
  { unfold op_journal_durable_view. by rewrite He, lookup_fmap, lookup_insert_eq; cbn; rewrite Hde. }
  rewrite Hv. split.
  - intros _. exists (receipt_of t v). cbn. by rewrite lookup_insert_eq.
  - eapply (written_on_disk _ _ _ (op_journal_durable_view (oj_entries j1)));
      [unfold disk; cbn; by rewrite Hp, He | by exists (receipt_of t v)].
Qed.

(** A completed result stored at time [t] replays for its whole retention window:
    through any operations, file errors and restarts inside the window that neither
    store under the key again nor acknowledge its operation, a lookup on a journal that
    loaded returns exactly the compact receipt of the result, with its operation id
    and status, and the key cannot be reserved again. *)
Theorem receipt_replays k t v io (j j1 : OpJournal Bytes) ops :
  op_journal_entry_state v = Completed -> 0 < t <= i64_max ->
  store_idempotent io t (Some k) v j = (Ok tt, j1) ->
  Forall (in_window k (get_str v "operation_id") t) ops ->
  let j2 := jrun ops j1 in
  (forall io' now' oid', exists e, fst (begin_idempotent io' now' (Some k) oid' j2) = Err e) /\
  (oj_degraded j2 = None -> forall io' now', now' < t + OP_JOURNAL_COMPLETED_TTL_SECS ->
     lookup_idempotent io' now' (Some k) j2 = (Ok (Some (receipt_of t v)), j2)) /\
  get (receipt_of t v) "operation_id" = get v "operation_id" /\
  get (receipt_of t v) "status" = Some (receipt_status v).
Proof.
  intros Hc Ht Hs Hops j2.
  assert (Hh : held (eq (receipt_of t v)) k j2).
  { apply run_held; [by intros ? <-; rewrite receipt_of_durable | | by eapply store_ok_held].
    eapply Forall_impl; [exact Hops |]. intros op. by apply in_window_keeps. }
  split_and!; [intros; by eapply begin_blocked | | apply receipt_of_operation_id |].
  - intros Hd io' now' Hn. destruct Hh as [Hm _]. destruct (Hm Hd) as (w & Hw & <-).
    unfold lookup_idempotent. rewrite Hw.
    rewrite (proj2 (is_op_journal_uncertain_false _) (receipt_of_completed t v Hc)).
    by rewrite receipt_of_fresh, andb_false_r.
  - unfold receipt_of. rewrite get_compact_status. f_equal. unfold receipt_status.
    by rewrite !get_insert_member_ne.
Qed.

(** ** Memory and disk agree *)

Definition compacted (entries : gmap string Value) : Prop :=
  map_Forall (fun _ v => durable_entry v = v) entries.

Lemma compacted_view entries : compacted entries -> op_journal_durable_view entries = entries.
Proof.
  intros H. unfold op_journal_durable_view. rewrite <- (map_fmap_id entries) at 2.
  apply map_fmap_ext. intros i v Hv. exact (H i v Hv).
Qed.

(** What the next start reads is what memory holds, within the budgets. *)
Definition synced (j : OpJournal Bytes) : Prop :=
  oj_degraded j = None ->
  compacted (oj_entries j) /\
  map_len (oj_entries j) <= MAX_OP_JOURNAL_ENTRIES /\
  match oj_primary j with
  | Some b => b = jenc (oj_entries j) /\ jlen b <= MAX_OP_JOURNAL_FILE_BYTES
  | None => oj_entries j = ∅
  end.

Lemma commit_synced io entries (j : OpJournal Bytes) :
  synced j -> (oj_degraded j = None -> compacted entries) ->
  synced (snd (commit_entries io entries j)).
Proof.
  intros Hs Hc. destruct (commit_entries io entries j) as [[[]|e] j'] eqn:E; cbn [snd].
  - pose proof (commit_ok _ _ _ _ E) as (He & Hd & Hp & Hn & Hb). intros _.
    destruct (oj_degraded j) as [reason|] eqn:Ed.
    { destruct (commit_degraded io entries j reason Ed) as [e He']. by rewrite E in He'. }
    specialize (Hc eq_refl). rewrite He, Hp. split_and!; [done | done | | done].
    unfold durable_bytes. by rewrite compacted_view.
  - apply commit_err in E as (He & Hd & Hp). unfold synced. by rewrite He, Hd, Hp.
Qed.

Lemma map_len_retain keep entries :
  map_len entries - map_len (retain keep entries) = 0 -> retain keep entries = entries.
Proof.
  unfold map_len, retain. intros H. apply map_subseteq_size_eq; [apply map_filter_subseteq | lia].
Qed.

Lemma compacted_retain keep entries : compacted entries -> compacted (retain keep entries).
Proof. intros H i v [Hv _]%map_lookup_filter_Some. exact (H i v Hv). Qed.

Lemma prune_synced io keep (j : OpJournal Bytes) : synced j -> synced (snd (prune io keep j)).
Proof.
  intros Hs. unfold prune. destruct (Z.eqb_spec
    (map_len (oj_entries j) - map_len (retain keep (oj_entries j))) 0) as [E | E]; cbn [snd].
  - apply map_len_retain in E. unfold synced. cbn. by rewrite E.
  - pose proof (commit_synced io (retain keep (oj_entries j)) j Hs) as H.
    destruct (commit_entries _ _ _) as [[] ?]; apply H; intros Hd; by apply compacted_retain, Hs.
Qed.

Lemma room_synced io now key oid (j : OpJournal Bytes) :
  synced j -> synced (snd (maybe_make_op_journal_room io now key oid j)).
Proof.
  intros Hs. unfold maybe_make_op_journal_room. destruct (_ && _); [done |].
  pose proof (prune_synced io (fun value => is_op_journal_uncertain value || negb (stamp_expired now value))
    j Hs) as H.
  unfold evict_expired_completed_op_journal_entries. by destruct (prune _ _ _) as [[] ?].
Qed.

Lemma store_synced io now key v (j : OpJournal Bytes) :
  synced j -> synced (snd (store_idempotent io now (Some key) v j)).
Proof.
  intros Hs. unfold store_idempotent. set (stored := insert_member _ _ v).
  destruct (commit_entries _ _ _) as [[[]|e] j1] eqn:Ec; cbn [snd].
  - apply commit_ok in Ec as Hok. destruct Hok as (He & Hd & Hp & Hn & Hb).
    destruct (oj_degraded j) as [reason|] eqn:Ed.
    { destruct (commit_degraded io (<[key := stored]> (oj_entries j)) j reason Ed) as [e He'].
      by rewrite Ec in He'. }
    destruct (Hs Ed) as (Hc & _ & _).
    assert (Hv : op_journal_durable_view (oj_entries j1) = <[key := durable_entry stored]> (oj_entries j)).
    { rewrite He. unfold op_journal_durable_view. rewrite fmap_insert.
      f_equal. by apply compacted_view. }
    rewrite Hv, lookup_insert_eq. intros _. cbn. rewrite Hp, He, insert_insert_eq. split_and!.
    + apply map_Forall_insert_2; [apply durable_entry_idempotent | done].
    + unfold map_len in *. by rewrite map_size_insert in Hn |- *.
    + unfold durable_bytes. by rewrite <- He, Hv.
    + done.
  - apply commit_err in Ec as (He & Hd & Hp). unfold synced. by rewrite He, Hd, Hp.
Qed.

Lemma mark_loaded_durable now v :
  durable_entry (mark_loaded now (durable_entry v)) = mark_loaded now (durable_entry v).
Proof.
  destruct (is_op_journal_uncertain (mark_loaded now (durable_entry v))) eqn:E.
  { by apply durable_entry_uncertain. }
  unfold durable_entry at 1. rewrite E.
  apply is_op_journal_uncertain_false in E as Ec. rewrite mark_loaded_state, durable_entry_state in Ec.
  unfold durable_entry. rewrite (proj2 (is_op_journal_uncertain_false _) Ec).
  unfold mark_loaded, is_op_journal_in_progress, is_op_journal_uncertain.
  rewrite compact_completed, (bool_decide_eq_false_2 (Completed = InProgress)) by done.
  cbn [andb]. rewrite compact_completed by done. destruct (negb _ && _);
    [apply compact_stamped | apply compact_idempotent].
Qed.

Lemma bound_ok now d d' :
  bound_op_journal now d = Ok d' ->
  compacted d' /\ map_len d' <= MAX_OP_JOURNAL_ENTRIES /\ jlen (jenc d') <= MAX_OP_JOURNAL_FILE_BYTES.
Proof.
  unfold bound_op_journal. intros H. res_inv. bool_prop. split_and!; [| | done].
  - intros i v Hv. unfold op_journal_durable_view in Hv. rewrite !lookup_fmap in Hv.
    destruct (d !! i) as [w|]; cbn in Hv; [| done]. injection Hv as <-. apply mark_loaded_durable.
  - unfold map_len, op_journal_durable_view in *. by rewrite !map_size_fmap.
Qed.

Lemma restart_synced io now (j : OpJournal Bytes) : synced (restart io now j).
Proof.
  unfold restart, open_op_journal, load_op_journal.
  assert (Hr : forall b d, read_and_bound_op_journal io now b = Ok d ->
    compacted d /\ map_len d <= MAX_OP_JOURNAL_ENTRIES /\ jlen (jenc d) <= MAX_OP_JOURNAL_FILE_BYTES).
  { intros b d H. unfold read_and_bound_op_journal in H. res_inv. by eapply bound_ok. }
  destruct (oj_primary j) as [p|], (oj_backup j) as [b|];
    try (destruct (read_and_bound_op_journal io now _) as [d|] eqn:E; [apply Hr in E |]);
    destruct (io_remove io), (io_write io); intros Hd; try discriminate Hd; cbn; try naive_solver.
  all: split_and!; [apply map_Forall_empty | unfold map_len; by rewrite map_size_empty | done].
Qed.

Lemma step_synced op (j : OpJournal Bytes) : synced j -> synced (jstep op j).
Proof.
  intros Hs. destruct op; cbn [jstep].
  - unfold lookup_idempotent. destruct (oj_entries j !! key); [| done].
    destruct (is_op_journal_uncertain _); [done |]. destruct (_ && _); [| done]. cbn [snd].
    apply commit_synced; [done |]. intros Hd. by apply map_Forall_delete, Hs.
  - unfold begin_idempotent. destruct (oj_entries j !! key); [done |].
    pose proof (room_synced io now key operation_id j Hs) as H.
    destruct (maybe_make_op_journal_room _ _ _ _ _) as [[] j1]; cbn in *; [| done].
    destruct (_ <=? _); [done |]. apply commit_synced; [done |]. intros Hd.
    apply map_Forall_insert_2; [by apply durable_entry_uncertain; vm_compute | by apply H].
  - by apply store_synced.
  - unfold fail_idempotent. destruct (oj_entries j !! key); [| done]. destruct (negb _); [done |].
    pose proof (store_synced io now key (failed_receipt operation_id code message) j Hs).
    by destruct (store_idempotent _ _ _ _ _) as [[] ?].
  - by apply prune_synced.
  - unfold acknowledge_control_plane_operations. destruct operation_ids; [done |]. by apply prune_synced.
  - apply restart_synced.
Qed.

(** From a daemon start on, at every moment of every run a loaded journal is at most
    4096 entries, its file is at most 4 MiB and holds exactly the map in memory, and
    every completed entry is in its compact form: no failed write leaves memory and
    disk apart. *)
Theorem journal_synced io now primary backup ops :
  synced (jrun ops (open_op_journal io now primary backup)).
Proof.
  set (j0 := {| oj_entries := ∅; oj_degraded := None; oj_primary := primary; oj_backup := backup |}).
  change (open_op_journal io now primary backup) with (restart io now j0).
  assert (H : synced (restart io now j0)) by apply restart_synced.
  revert H. generalize (restart io now j0). unfold jrun.
  induction ops as [|op ops IH]; intros j H; [done |]. cbn. by apply IH, step_synced.
Qed.
End run.

(** ** Witnesses *)

(** A codec that keeps the map itself and counts a kilobyte per entry. *)
#[export] Instance plain_journal_codec : JournalCodec (gmap string Value).
Proof.
  refine {| jenc := fun j => j; jdec := fun j => Ok j; jlen := fun j => 1024 * map_len j |}.
  reflexivity.
Defined.

Definition fresh_journal : OpJournal (gmap string Value) := open_op_journal io_ok 100 None None.

Definition begun : OpJournal (gmap string Value) :=
  snd (begin_idempotent io_ok 100 (Some "k") "op_1" fresh_journal).

(** A foreign failure report, an acknowledgement, an eviction a century later and a
    restart. *)
Definition stray_ops : list journal_op :=
  [OFail io_ok 110 "k" "op_2" 1 "other"; OAck io_ok ["op_1"]; OEvict io_ok 3000000000;
   ORestart io_ok 3000000000].

Lemma at_most_once_witness :
  begin_idempotent io_ok 100 (Some "k") "op_1" fresh_journal = (Ok tt, begun) /\
  Forall (not_closed "k" "op_1") stray_ops /\
  oj_degraded (jrun stray_ops begun) = None /\
  exists msg, fst (lookup_idempotent io_ok 200 (Some "k") (jrun stray_ops begun))
              = Err (Remote CONFLICT msg).
Proof.
  assert (Hb : begin_idempotent io_ok 100 (Some "k") "op_1" fresh_journal = (Ok tt, begun))
    by (by vm_compute).
  assert (Ho : Forall (not_closed "k" "op_1") stray_ops)
    by (repeat constructor; cbn; by intros [_ ?]).
  assert (Hd : oj_degraded (jrun stray_ops begun) = None) by (by vm_compute).
  split_and!; [done | done | done |].
  destruct (at_most_once "k" "op_1" io_ok 100 fresh_journal begun stray_ops Hb Ho) as [_ H].
  destruct (H Hd io_ok 200) as [msg Hm]. exists msg. by rewrite Hm.
Defined.

Definition sample_body : Value :=
  json_object [("approval_required", JBool false); ("operation_id", JString "op_1");
               ("result", JString "large output"); ("decision", JString "allow")].

Definition stored_journal : OpJournal (gmap string Value) :=
  snd (store_idempotent io_ok 120 (Some "k") sample_body begun).

Definition window_ops : list journal_op :=
  [OEvict io_ok 1000; OAck io_ok ["op_9"]; ORestart io_ok 2000;
   OBegin {| io_read := Ok tt; io_remove := Ok tt; io_write := Err "disk full";
             io_remove_after := true |} 2100 "k2" "op_3"].

Lemma receipt_replays_witness :
  op_journal_entry_state sample_body = Completed /\
  store_idempotent io_ok 120 (Some "k") sample_body begun = (Ok tt, stored_journal) /\
  Forall (in_window "k" (Some "op_1") 120) window_ops /\
  oj_degraded (jrun window_ops stored_journal) = None /\
  fst (lookup_idempotent io_ok 5000 (Some "k") (jrun window_ops stored_journal))
    = Ok (Some (receipt_of 120 sample_body)).
Proof.
  assert (Hc : op_journal_entry_state sample_body = Completed) by (by vm_compute).
  assert (Hs : store_idempotent io_ok 120 (Some "k") sample_body begun = (Ok tt, stored_journal))
    by (by vm_compute).
  assert (Ho : Forall (in_window "k" (Some "op_1") 120) window_ops).
  { repeat constructor; cbn; try (unfold OP_JOURNAL_COMPLETED_TTL_SECS; lia).
    intros id H. injection H as <-. by apply (bool_decide_unpack _); vm_compute. }
  assert (Hd : oj_degraded (jrun window_ops stored_journal) = None) by (by vm_compute).
  split_and!; [done | done | done | done |].
  destruct (receipt_replays "k" 120 sample_body io_ok begun stored_journal window_ops Hc)
    as (_ & H & _); [unfold i64_max; lia | done | done |].
  rewrite (H Hd io_ok 5000); [done |]. unfold OP_JOURNAL_COMPLETED_TTL_SECS. lia.
Defined.
