(* ===== verification/Gate.v ===== *)
(** * The admission gate ([crates/ownmeshd/src/runtime.rs])

    [admit_gated] decides what happens to a request: replay of a stored outcome,
    refusal, a pending approval, or execution under a reserved idempotency key;
    [finalize_operation_completion] records the outcome of an execution.  The gate is a
    client of the policy ([Policy.v], [Grants.v]) and of the operation journal
    ([OpJournal.v]).  The clock, the random ids and the outcomes of the writes of one
    call are an argument, and so is the result of executing the request; the payload
    of a request that no branch inspects is a type parameter.  Of the completion chain
    only the operation layer that [admit_gated] builds is modelled. *)

From stdpp Require Import base list strings gmap.
From Stdlib Require Import ZArith Lia.
From S2P Require Import Prelude RustStr Json Ipc Principal Policy Grants OpJournal.

Open Scope Z_scope.

Definition LOCAL_PRINCIPAL : string := "prin_local".

#[export] Instance PolicyVerdict_eta : Eta PolicyVerdict := fun v =>
  {| v_decision := v_decision v; v_matched_rule_id := v_matched_rule_id v; v_reason := v_reason v |}.

#[export] Instance BoundedToolGrant_eta : Eta BoundedToolGrant := fun g =>
  {| bg_grant_type := bg_grant_type g; bg_id := bg_id g; bg_principal_id := bg_principal_id g;
     bg_device_id := bg_device_id g; bg_tools := bg_tools g; bg_workspace_id := bg_workspace_id g;
     bg_expires_unix := bg_expires_unix g; bg_max_uses := bg_max_uses g; bg_uses := bg_uses g;
     bg_minted_at_unix := bg_minted_at_unix g |}.

#[export] Instance OperationFacts_eta : Eta OperationFacts := fun f =>
  {| f_capability := f_capability f; f_kind := f_kind f; f_path := f_path f;
     f_program := f_program f; f_elevated := f_elevated f;
     f_workspace_relative := f_workspace_relative f; f_tags := f_tags f;
     f_executable_identity := f_executable_identity f;
     f_invocation_identity := f_invocation_identity f; f_workspace_id := f_workspace_id f;
     f_tool := f_tool f |}.

Definition decision_str (d : Decision) : string :=
  match d with Allow => "allow" | Ask => "ask" | Deny => "deny" end.

Definition principal_journal_key (principal idempotency_key : string) : string :=
  canonicalize_principal_key principal +:+ String (byte_of 31) idempotency_key.

(** ** Requests *)

(** [PendingRequest]; of [ExecParams] the field [policy_kind] is kept. *)
Inductive PendingRequest (Params : Type) : Type :=
| Exec (policy_kind : option string) (params : Params)
| FsList (params : Params)
| FsStat (params : Params)
| FsRead (params : Params)
| FsWrite (params : Params)
| FsDelete (params : Params)
| LogsQuery (params : Params)
| GitStatus (params : Params)
| GitDiff (params : Params)
| SystemDiagnose (params : Params)
| AdminPolicyPreset (params : Params)
| AdminPolicyRuleAdd (params : Params)
| AdminPolicyRuleRemove (params : Params)
| AdminDaemonUnlock (params : Params)
| AdminTokenRevoke (params : Params)
| AdminApprovalBridge (params : Params)
| AdminGrantsMint (params : Params).
Arguments Exec {Params} policy_kind params.
Arguments FsList {Params} params.
Arguments FsStat {Params} params.
Arguments FsRead {Params} params.
Arguments FsWrite {Params} params.
Arguments FsDelete {Params} params.
Arguments LogsQuery {Params} params.
Arguments GitStatus {Params} params.
Arguments GitDiff {Params} params.
Arguments SystemDiagnose {Params} params.
Arguments AdminPolicyPreset {Params} params.
Arguments AdminPolicyRuleAdd {Params} params.
Arguments AdminPolicyRuleRemove {Params} params.
Arguments AdminDaemonUnlock {Params} params.
Arguments AdminTokenRevoke {Params} params.
Arguments AdminApprovalBridge {Params} params.
Arguments AdminGrantsMint {Params} params.

Section gate.
Context {Bytes : Type} `{!JournalCodec Bytes} {Params : Type}.

Definition pending_request_tool (request : PendingRequest Params) : option string :=
  match request with
  | Exec policy_kind _ =>
      let kind := unwrap_or policy_kind "" in
      if eq_ignore_ascii_case kind "raw_shell" || eq_ignore_ascii_case kind "raw"
      then Some "command_shell" else Some "command_run"
  | FsList _ => Some "fs_list"
  | FsStat _ => Some "fs_stat"
  | FsRead _ => Some "fs_read"
  | FsWrite _ => Some "fs_write"
  | FsDelete _ => Some "fs_delete"
  | LogsQuery _ => Some "logs_query"
  | GitStatus _ => Some "git_status"
  | GitDiff _ => Some "git_diff"
  | SystemDiagnose _ | AdminPolicyPreset _ | AdminPolicyRuleAdd _ | AdminPolicyRuleRemove _
  | AdminDaemonUnlock _ | AdminTokenRevoke _ | AdminApprovalBridge _ | AdminGrantsMint _ => None
  end.

Definition pending_request_is_journal_read_only (request : PendingRequest Params) : bool :=
  match request with
  | FsList _ | FsStat _ | FsRead _ | LogsQuery _ | GitStatus _ | GitDiff _ | SystemDiagnose _ => true
  | _ => false
  end.

(** ** State *)

Record ApprovalRecord : Type := {
  ap_id : string;
  ap_operation_id : string;
  ap_capability : string;
  ap_state : string;
  ap_reason : string;
  ap_created_at_unix : Z;
  ap_decided_at_unix : option Z;
  ap_expires_at_unix : option Z;
  ap_target_payload_hash : option string;
  ap_matched_rule_id : option string;
  ap_requester_principal : string;
  ap_facts : option OperationFacts;
  ap_request : PendingRequest Params;
  ap_result : option Value;
  ap_decided_by_principal : option string
}.

(** An audit row; its random id is left out. *)
Record AuditEntry : Type := {
  au_event_type : string;
  au_created_at_unix : Z;
  au_capability : option string;
  au_operation_id : option string;
  au_decision : option string;
  au_detail : string
}.

(** The fields of [DaemonRuntime] the gate reads or writes. *)
Record GateState : Type := {
  gs_policy : PolicyDocument;
  gs_grants : list StoredGrant;
  gs_journal : OpJournal Bytes;
  gs_approvals : gmap string ApprovalRecord;
  gs_audit : list AuditEntry;
  gs_delegate_remote_mcp : bool;
  gs_active_remote_operation_id : option string;
  gs_active_remote_payload_hash : option string;
  gs_active_remote_expires_at_unix : option Z;
  gs_active_remote_device_id : option string
}.

#[export] Instance GateState_eta : Eta GateState := fun g =>
  {| gs_policy := gs_policy g; gs_grants := gs_grants g; gs_journal := gs_journal g;
     gs_approvals := gs_approvals g; gs_audit := gs_audit g;
     gs_delegate_remote_mcp := gs_delegate_remote_mcp g;
     gs_active_remote_operation_id := gs_active_remote_operation_id g;
     gs_active_remote_payload_hash := gs_active_remote_payload_hash g;
     gs_active_remote_expires_at_unix := gs_active_remote_expires_at_unix g;
     gs_active_remote_device_id := gs_active_remote_device_id g |}.

(** Clock, random ids and write outcomes of one call. *)
Record CallEnv : Type := {
  ce_now : Z;
  ce_op_id : string;
  ce_approval_id : string;
  ce_lookup_io : JournalIo;
  ce_write_io : JournalIo;
  ce_grants_write : result unit string;
  ce_approvals_write : result unit string
}.

Record OperationCompletion : Type := {
  oc_journal_key : option string;
  oc_operation_id : string;
  oc_capability : string;
  oc_reason : string
}.

Record AllowedWork : Type := {
  aw_request : PendingRequest Params;
  aw_completions : list OperationCompletion
}.

Inductive GateOutcome : Type :=
| Reply (value : Value)
| Run (work : AllowedWork).

Definition append_audit (now : Z) (event_type : string) (capability operation_id decision : option string)
    (detail : string) (g : GateState) : GateState :=
  g <| gs_audit := gs_audit g ++
    [{| au_event_type := event_type; au_created_at_unix := now; au_capability := capability;
        au_operation_id := operation_id; au_decision := decision; au_detail := detail |}] |>.

(** ** Policy *)

Definition runtime_evaluate (now : Z) (facts : OperationFacts) (principal_id : string) (g : GateState)
  : PolicyVerdict :=
  let principal := if blank principal_id then LOCAL_PRINCIPAL else principal_id in
  evaluate_with_grants (gs_policy g) facts (gs_grants g) now principal (gs_active_remote_device_id g).

Definition is_bounded_with_id (grant_id : string) (grant : StoredGrant) : bool :=
  match as_bounded_tool grant with Some b => String.eqb (bg_id b) grant_id | None => false end.

(** [iter().position(...)]. *)
Fixpoint position {A} (p : A -> bool) (l : list A) : option nat :=
  match l with
  | [] => None
  | x :: rest => if p x then Some O else option_map S (position p rest)
  end.

Definition count_use (grant : StoredGrant) : StoredGrant :=
  match grant with
  | SGBoundedTool b => SGBoundedTool (b <| bg_uses := Z.min (bg_uses b + 1) u32_max |>)
  | _ => grant
  end.

Definition consume_bounded_grant_use (grants_write : result unit string) (verdict : PolicyVerdict)
    (g : GateState) : result unit IpcError * GateState :=
  if negb (bool_decide (v_decision verdict = Allow)) then (Ok tt, g)
  else match v_matched_rule_id verdict with
       | None => (Ok tt, g)
       | Some grant_id =>
           match position (is_bounded_with_id grant_id) (gs_grants g) with
           | None => (Ok tt, g)
           | Some index =>
               let needs_count :=
                 match gs_grants g !! index with
                 | Some (SGBoundedTool b) => match bg_max_uses b with Some _ => true | None => false end
                 | _ => false
                 end in
               if negb needs_count then (Ok tt, g)
               else match grants_write with
                    | Err e => (Err (Remote INTERNAL ("failed to persist grants: " +:+ e)), g)
                    | Ok _ => (Ok tt, g <| gs_grants := alter count_use index (gs_grants g) |>)
                    end
           end
       end.

Definition delegated_remote (now : Z) (g : GateState) : bool :=
  gs_delegate_remote_mcp g
  && match gs_active_remote_operation_id g with Some _ => true | None => false end
  && match gs_active_remote_payload_hash g with Some _ => true | None => false end
  && match gs_active_remote_expires_at_unix g with Some expiry => now <=? expiry | None => false end.

(** The verdict [admit_gated] acts on: a policy ask is an allow for a delegated remote
    operation. *)
Definition gate_verdict (now : Z) (facts : OperationFacts) (principal : string) (g : GateState)
  : PolicyVerdict :=
  let verdict := runtime_evaluate now facts principal g in
  if delegated_remote now g && bool_decide (v_decision verdict = Ask)
  then verdict <| v_decision := Allow |>
         <| v_reason := v_reason verdict +:+ "; remote MCP delegation configured" |>
  else verdict.

(** The remote operation's id, or a fresh one. *)
Definition gate_operation_id (env : CallEnv) (g : GateState) : string :=
  match opt_filter (fun s => negb (is_empty s)) (option_map trim (gs_active_remote_operation_id g)) with
  | Some id => id
  | None => ce_op_id env
  end.

(** ** Admission *)

(** What a stored outcome replays as. *)
Definition replay (prev : Value) : result GateOutcome IpcError :=
  if match get_str prev "status" with Some s => String.eqb s "failed" | None => false end then
    let error := unwrap_or (get prev "error") (json_object []) in
    Err (Remote (unwrap_or (get_i64 error "code") INTERNAL)
           (unwrap_or (get_str error "message") "operation previously failed"))
  else Ok (Reply (insert_member "replayed" (JBool true) prev)).

Definition opt_string (o : option string) : Value :=
  match o with Some s => JString s | None => Null end.

(** The [Ask] branch. *)
Definition enqueue_approval (env : CallEnv) (facts : OperationFacts) (principal : string)
    (verdict : PolicyVerdict) (operation_id : string) (request : PendingRequest Params) (g : GateState)
  : result GateOutcome IpcError * GateState :=
  match oj_degraded (gs_journal g) with
  | Some reason => (Err (journal_degraded_error reason), g)
  | None =>
      let approval_id := ce_approval_id env in
      let rec :=
        {| ap_id := approval_id; ap_operation_id := operation_id;
           ap_capability := f_capability facts; ap_state := "pending";
           ap_reason := v_reason verdict; ap_created_at_unix := ce_now env;
           ap_decided_at_unix := None;
           ap_expires_at_unix := gs_active_remote_expires_at_unix g;
           ap_target_payload_hash := gs_active_remote_payload_hash g;
           ap_matched_rule_id := v_matched_rule_id verdict;
           ap_requester_principal := principal; ap_facts := Some facts; ap_request := request;
           ap_result := None; ap_decided_by_principal := None |} in
      match ce_approvals_write env with
      | Err e => (Err (Remote INTERNAL ("failed to persist approvals: " +:+ e)), g)
      | Ok _ =>
          let g := g <| gs_approvals := <[approval_id := rec]> (gs_approvals g) |> in
          (Ok (Reply (json_object
             [("approval_required", JBool true); ("operation_id", JString operation_id);
              ("approval_id", JString approval_id); ("reason", JString (v_reason verdict));
              ("matched_rule_id", opt_string (v_matched_rule_id verdict));
              ("replayed", JBool false)])),
           append_audit (ce_now env) "approval.enqueued" (Some (f_capability facts))
             (Some operation_id) (Some "ask") ("approval " +:+ approval_id) g)
      end
  end.

(** The [Allow] branch. *)
Definition reserve_and_run (env : CallEnv) (facts : OperationFacts) (journal_key : option string)
    (verdict : PolicyVerdict) (operation_id : string) (request : PendingRequest Params) (g : GateState)
  : result GateOutcome IpcError * GateState :=
  let work key :=
    Run {| aw_request := request;
           aw_completions := [{| oc_journal_key := key; oc_operation_id := operation_id;
                                 oc_capability := f_capability facts;
                                 oc_reason := v_reason verdict |}] |} in
  match oj_degraded (gs_journal g) with
  | Some reason =>
      if pending_request_is_journal_read_only request then (Ok (work None), g)
      else (Err (journal_degraded_error reason), g)
  | None =>
      let '(r, j) := begin_idempotent (ce_write_io env) (ce_now env) journal_key operation_id (gs_journal g) in
      (let? _ := r in Ok (work journal_key), g <| gs_journal := j |>)
  end.

Definition admit_gated (env : CallEnv) (facts : OperationFacts) (idempotency_key : option string)
    (request : PendingRequest Params) (client_principal : string) (g : GateState)
  : result GateOutcome IpcError * GateState :=
  let requester_principal := canonicalize_principal_key client_principal in
  let journal_key := option_map (principal_journal_key requester_principal) idempotency_key in
  let '(looked, j) := lookup_idempotent (ce_lookup_io env) (ce_now env) journal_key (gs_journal g) in
  let g := g <| gs_journal := j |> in
  match looked with
  | Err e => (Err e, g)
  | Ok (Some prev) => (replay prev, g)
  | Ok None =>
      let facts := facts <| f_tool := pending_request_tool request |> in
      let verdict := gate_verdict (ce_now env) facts requester_principal g in
      match consume_bounded_grant_use (ce_grants_write env) verdict g with
      | (Err e, g) => (Err e, g)
      | (Ok _, g) =>
          let operation_id := gate_operation_id env g in
          let g := append_audit (ce_now env) "policy.evaluate" (Some (f_capability facts))
                     (Some operation_id) (Some (decision_str (v_decision verdict))) (v_reason verdict) g in
          match v_decision verdict with
          | Deny =>
              (Err (Remote POLICY_DENIED ("policy denied: " +:+ v_reason verdict)),
               append_audit (ce_now env) "operation.denied" (Some (f_capability facts))
                 (Some operation_id) (Some "deny") (v_reason verdict) g)
          | Ask => enqueue_approval env facts requester_principal verdict operation_id request g
          | Allow => reserve_and_run env facts journal_key verdict operation_id request g
          end
      end
  end.

(** ** Completion *)

Definition validate_completion_marker (journal_key : option string) (operation_id : string)
    (g : GateState) : result unit IpcError :=
  match journal_key with
  | None => Ok tt
  | Some key =>
      match oj_entries (gs_journal g) !! key with
      | Some entry =>
          guard_err (negb (own_marker operation_id entry))
            (Remote CONFLICT ("idempotency key for " +:+ operation_id
               +:+ " changed before result finalization; outcome is uncertain and must not be retried"))
      | None =>
          Err (Remote CONFLICT ("idempotency marker for " +:+ operation_id
               +:+ " is missing at finalization; outcome is uncertain and must not be retried"))
      end
  end.

Definition completion_body (completion : OperationCompletion) (result : Value) : Value :=
  json_object [("approval_required", JBool false);
               ("operation_id", JString (oc_operation_id completion));
               ("result", result); ("replayed", JBool false); ("decision", JString "allow");
               ("reason", JString (oc_reason completion))].

Definition finalize_operation_completion (env : CallEnv) (completion : OperationCompletion)
    (executed : result Value IpcError) (g : GateState) : result Value IpcError * GateState :=
  match validate_completion_marker (oc_journal_key completion) (oc_operation_id completion) g with
  | Err e => (Err e, g)
  | Ok _ =>
      match executed with
      | Err error =>
          let '(code, message) :=
            match error with Remote code message => (code, message) | _ => (INTERNAL, ipc_to_string error) end in
          let j := snd (fail_idempotent (ce_write_io env) (ce_now env) (oc_journal_key completion)
                          (oc_operation_id completion) code message (gs_journal g)) in
          (Err error,
           append_audit (ce_now env) "operation.failed" (Some (oc_capability completion))
             (Some (oc_operation_id completion)) (Some "allow")
             "execution returned a terminal error; journal marker reconciled"
             (g <| gs_journal := j |>))
      | Ok result =>
          let body := completion_body completion result in
          let '(r, j) := store_idempotent (ce_write_io env) (ce_now env) (oc_journal_key completion)
                           body (gs_journal g) in
          let g := g <| gs_journal := j |> in
          match r with
          | Err e => (Err e, g)
          | Ok _ =>
              (Ok body,
               append_audit (ce_now env) "operation.completed" (Some (oc_capability completion))
                 (Some (oc_operation_id completion)) (Some "allow") "executed" g)
          end
      end
  end.

(** [finalize_allowed] on a chain of operation completions. *)
Fixpoint finalize_allowed (env : CallEnv) (completions : list OperationCompletion)
    (outcome : result Value IpcError) (g : GateState) : result Value IpcError * GateState :=
  match completions with
  | [] => (outcome, g)
  | completion :: rest =>
      let '(outcome, g) := finalize_operation_completion env completion outcome g in
      finalize_allowed env rest outcome g
  end.

(** [gate_and_run]; [execute] is what executing the request returns. *)
Definition gate_and_run (env env' : CallEnv) (execute : PendingRequest Params -> result Value IpcError)
    (facts : OperationFacts) (idempotency_key : option string) (request : PendingRequest Params)
    (client_principal : string) (g : GateState) : result Value IpcError * GateState :=
  match admit_gated env facts idempotency_key request client_principal g with
  | (Err e, g) => (Err e, g)
  | (Ok (Reply value), g) => (Ok value, g)
  | (Ok (Run work), g) => finalize_allowed env' (aw_completions work) (execute (aw_request work)) g
  end.
End gate.
Arguments GateState Bytes Params : clear implicits.
