(* ===== verification/GateRun.v ===== *)
(** * Runs of the admission gate

    What the gate guarantees over arbitrary interleavings of admissions, completions,
    journal maintenance, restarts and configuration changes: nothing runs that the
    policy does not allow, a bounded grant pays for each run it lifts, an idempotency
    key runs at most once while its outcome is open, and a recorded outcome replays. *)

From stdpp Require Import base list strings gmap.
From Stdlib Require Import ZArith Lia.
From S2P Require Import Prelude RustStr Json Ipc Principal Policy Grants OpJournal OpJournalRun Gate.

Open Scope Z_scope.

Section gate_run.
Context {Bytes : Type} `{!JournalCodec Bytes} {Params : Type}.
Implicit Type g : GateState Bytes Params.

(** ** Steps *)

Inductive gate_op : Type :=
| GAdmit (env : CallEnv) (facts : OperationFacts) (idempotency_key : option string)
    (request : PendingRequest Params) (client_principal : string)
| GFinish (env : CallEnv) (completion : OperationCompletion) (executed : result Value IpcError)
| GEvict (io : JournalIo) (now : Z)
| GAck (io : JournalIo) (operation_ids : list string)
| GRestart (io : JournalIo) (now : Z)
| GConfigure (policy : PolicyDocument) (grants : list StoredGrant)
    (approvals : gmap string (@ApprovalRecord Params)) (delegate : bool)
    (operation_id payload_hash : option string) (expires : option Z) (device : option string).

Definition gexec (op : gate_op) g : GateState Bytes Params :=
  match op with
  | GAdmit env facts ik request client => snd (admit_gated env facts ik request client g)
  | GFinish env completion executed => snd (finalize_operation_completion env completion executed g)
  | GEvict io now => g <| gs_journal := jstep (OEvict io now) (gs_journal g) |>
  | GAck io ids => g <| gs_journal := jstep (OAck io ids) (gs_journal g) |>
  | GRestart io now => g <| gs_journal := jstep (ORestart io now) (gs_journal g) |>
  | GConfigure policy grants approvals delegate oid hash expires device =>
      {| gs_policy := policy; gs_grants := grants; gs_journal := gs_journal g;
         gs_approvals := approvals; gs_audit := gs_audit g; gs_delegate_remote_mcp := delegate;
         gs_active_remote_operation_id := oid; gs_active_remote_payload_hash := hash;
         gs_active_remote_expires_at_unix := expires; gs_active_remote_device_id := device |}
  end.

Definition grun (ops : list gate_op) g : GateState Bytes Params := foldl (fun g op => gexec op g) g ops.

(** ** What a step does to the journal *)

Lemma consume_journal w v g : gs_journal (snd (consume_bounded_grant_use w v g)) = gs_journal g.
Proof.
  unfold consume_bounded_grant_use. destruct (negb _); [done |].
  destruct (v_matched_rule_id v); [| done]. destruct (position _ _); [| done].
  destruct (negb _); [done |]. by destruct w.
Qed.

Lemma enqueue_journal env facts p v oid req g :
  gs_journal (snd (enqueue_approval env facts p v oid req g)) = gs_journal g.
Proof.
  unfold enqueue_approval. destruct (oj_degraded _); [done |]. by destruct (ce_approvals_write env).
Qed.

Lemma reserve_journal env facts key v oid req g :
  gs_journal (snd (reserve_and_run env facts key v oid req g)) = gs_journal g \/
  gs_journal (snd (reserve_and_run env facts key v oid req g))
    = snd (begin_idempotent (ce_write_io env) (ce_now env) key oid (gs_journal g)).
Proof.
  unfold reserve_and_run. destruct (oj_degraded _); [destruct (pending_request_is_journal_read_only req); by left |].
  right. by destruct (begin_idempotent _ _ _ _ _).
Qed.

(** An admission looks the key up and may reserve it, nothing else. *)
Lemma admit_journal env facts ik req client g :
  let key := option_map (principal_journal_key (canonicalize_principal_key client)) ik in
  let j1 := snd (lookup_idempotent (ce_lookup_io env) (ce_now env) key (gs_journal g)) in
  let g' := snd (admit_gated env facts ik req client g) in
  gs_journal g' = j1 \/
  exists oid, gs_journal g' = snd (begin_idempotent (ce_write_io env) (ce_now env) key oid j1).
Proof.
  cbv zeta. unfold admit_gated.
  destruct (lookup_idempotent _ _ _ _) as [[[prev|]|e] j1]; cbn [snd]; [by left | | by left].
  set (v := gate_verdict _ _ _ _). set (g1 := g <| gs_journal := j1 |>).
  pose proof (consume_journal (ce_grants_write env) v g1) as Hc.
  destruct (consume_bounded_grant_use _ _ _) as [[[]|e] g2]; cbn [snd] in *; [| by left].
  destruct (v_decision v).
  - match goal with |- context [reserve_and_run ?a ?b ?c ?d ?e ?f ?h] =>
      destruct (reserve_journal a b c d e f h) as [-> | ->] end; cbn; rewrite Hc; eauto.
  - left. by rewrite enqueue_journal.
  - by left.
Qed.

(** A completion writes only over its own in-progress marker. *)
Lemma finish_journal env c ex g :
  let j' := gs_journal (snd (finalize_operation_completion env c ex g)) in
  j' = gs_journal g \/
  exists key entry, oc_journal_key c = Some key /\
    oj_entries (gs_journal g) !! key = Some entry /\ own_marker (oc_operation_id c) entry = true /\
    ((exists code msg, j' = snd (fail_idempotent (ce_write_io env) (ce_now env) (Some key)
                                  (oc_operation_id c) code msg (gs_journal g))) \/
     (exists r, j' = snd (store_idempotent (ce_write_io env) (ce_now env) (Some key)
                            (completion_body c r) (gs_journal g)))).
Proof.
  cbv zeta. unfold finalize_operation_completion, validate_completion_marker.
  destruct (oc_journal_key c) as [key|] eqn:Ek.
  - destruct (oj_entries (gs_journal g) !! key) as [entry|] eqn:Ee; [| by left].
    destruct (own_marker (oc_operation_id c) entry) eqn:Eo; cbn [negb guard_err]; [| by left].
    right. exists key, entry. split_and!; [done | done | done |].
    destruct ex as [r|err].
    + right. exists r. by destruct (store_idempotent _ _ _ _ _) as [[] ?].
    + left. destruct err; cbn; eauto.
  - left. destruct ex as [r|err]; [done | by destruct err; cbn; destruct (gs_journal g)].
Qed.

(** ** Carrying a property of one key through a run *)

Section held.
Context (P : Value -> Prop) (k : string).
Hypothesis P_durable : forall v, P v -> P (durable_entry v).

Definition gkeeps (op : gate_op) : Prop :=
  match op with
  | GAdmit env _ _ _ _ =>
      forall v, P v -> is_op_journal_uncertain v || negb (stamp_expired (ce_now env) v) = true
  | GFinish _ c _ => forall v, P v -> own_marker (oc_operation_id c) v = false
  | GEvict io now => keeps P k (OEvict io now)
  | GAck io ids => keeps P k (OAck io ids)
  | GRestart io now => keeps P k (ORestart io now)
  | GConfigure _ _ _ _ _ _ _ _ => True
  end.

Lemma admit_held env facts ik req client g :
  (forall v, P v -> is_op_journal_uncertain v || negb (stamp_expired (ce_now env) v) = true) ->
  held P k (gs_journal g) -> held P k (gs_journal (snd (admit_gated env facts ik req client g))).
Proof.
  intros Hf Hh. pose proof (admit_journal env facts ik req client g) as H. cbv zeta in H.
  destruct ik as [ik|]; cbn [option_map] in H.
  - set (key := principal_journal_key _ ik) in H.
    assert (H1 : held P k (snd (lookup_idempotent (ce_lookup_io env) (ce_now env) (Some key) (gs_journal g))))
      by (by apply lookup_held).
    destruct H as [-> | [oid ->]]; [done | by apply begin_held].
  - destruct H as [-> | [oid ->]]; done.
Qed.

Lemma finish_held env c ex g :
  (forall v, P v -> own_marker (oc_operation_id c) v = false) ->
  held P k (gs_journal g) -> held P k (gs_journal (snd (finalize_operation_completion env c ex g))).
Proof.
  intros Hown Hh.
  destruct (finish_journal env c ex g) as [-> | (key & e & _ & He & Hm & H)]; [done |].
  destruct H as [(code & msg & ->) | (r & ->)]; [by apply fail_held |].
  destruct (oj_degraded (gs_journal g)) as [reason|] eqn:Ed; [by eapply store_degraded_held |].
  apply store_held; [done | | done]. intros ->.
  destruct Hh as [Hmem _]. destruct (Hmem Ed) as (v & Hv & Hp).
  assert (e = v) as -> by congruence. by rewrite Hown in Hm.
Qed.

Lemma gexec_held op g : gkeeps op -> held P k (gs_journal g) -> held P k (gs_journal (gexec op g)).
Proof.
  destruct op; cbn [gkeeps gexec]; intros Hk Hh.
  - by apply admit_held.
  - by apply finish_held.
  - by apply (step_held P k P_durable (OEvict io now)).
  - by apply (step_held P k P_durable (OAck io operation_ids)).
  - by apply (step_held P k P_durable (ORestart io now)).
  - done.
Qed.

Lemma grun_held ops g :
  Forall gkeeps ops -> held P k (gs_journal g) -> held P k (gs_journal (grun ops g)).
Proof.
  intros Hf. revert g. induction Hf as [|op ops Hk _ IH]; intros g Hh; [done |].
  cbn. by apply IH, gexec_held.
Qed.
End held.

(** ** Inversion of an admission that runs *)

Lemma replay_not_run prev (w : @AllowedWork Params) : replay prev <> Ok (Run w).
Proof.
  unfold replay. destruct (get_str prev "status") as [s|]; [destruct (String.eqb s "failed") |]; done.
Qed.

Lemma admit_run_inv env facts ik req client g w g' :
  admit_gated env facts ik req client g = (Ok (Run w), g') ->
  let principal := canonicalize_principal_key client in
  let key := option_map (principal_journal_key principal) ik in
  let facts' := facts <| f_tool := pending_request_tool req |> in
  exists j1 g2,
    lookup_idempotent (ce_lookup_io env) (ce_now env) key (gs_journal g) = (Ok None, j1) /\
    v_decision (gate_verdict (ce_now env) facts' principal g) = Allow /\
    consume_bounded_grant_use (ce_grants_write env) (gate_verdict (ce_now env) facts' principal g)
      (g <| gs_journal := j1 |>) = (Ok tt, g2) /\
    gs_grants g' = gs_grants g2 /\ gs_approvals g' = gs_approvals g /\
    aw_request w = req /\
    exists c, aw_completions w = [c] /\
      ((oj_degraded j1 = None /\ oc_journal_key c = key /\
        begin_idempotent (ce_write_io env) (ce_now env) key (oc_operation_id c) j1 = (Ok tt, gs_journal g')) \/
       (oj_degraded j1 <> None /\ pending_request_is_journal_read_only req = true /\
        oc_journal_key c = None /\ gs_journal g' = j1)).
Proof.
  unfold admit_gated. cbv zeta.
  destruct (lookup_idempotent _ _ _ _) as [[[prev|]|e] j1] eqn:El; [| | done].
  { intros H. injection H as H _. by apply replay_not_run in H. }
  change (gate_verdict (ce_now env) ?f ?p (g <| gs_journal := j1 |>)) with (gate_verdict (ce_now env) f p g).
  set (v := gate_verdict _ _ _ g). set (g1 := g <| gs_journal := j1 |>).
  pose proof (consume_journal (ce_grants_write env) v g1) as Hc.
  assert (Ha : gs_approvals (snd (consume_bounded_grant_use (ce_grants_write env) v g1)) = gs_approvals g).
  { unfold consume_bounded_grant_use. destruct (negb _); [done |].
    destruct (v_matched_rule_id v); [| done]. destruct (position _ _); [| done].
    destruct (negb _); [done |]. by destruct (ce_grants_write env). }
  destruct (consume_bounded_grant_use _ _ _) as [[[]|e] g2] eqn:Ec; cbn [snd] in *; [| done].
  destruct (v_decision v) eqn:Ev; intros H.
  2: { exfalso. revert H. unfold enqueue_approval. destruct (oj_degraded _); [done |].
       by destruct (ce_approvals_write env). }
  2: done.
  unfold reserve_and_run in H. cbn in H. rewrite Hc in H. unfold g1 in H. cbn in H.
  destruct (oj_degraded j1) eqn:Ed.
  - destruct (pending_request_is_journal_read_only req) eqn:Er; [| done]. injection H as <- <-.
    exists j1, g2. split_and!; try done. eexists. split; [reflexivity |]. right. split_and!; [by rewrite Ed | done | done | exact Hc].
  - destruct (begin_idempotent _ _ _ _ _) as [[[]|e] j2] eqn:Eb; cbn in H; [| done]. injection H as <- <-.
    exists j1, g2. split_and!; try done. eexists. split; [reflexivity |]. left. by split_and!.
Qed.

(** ** Nothing runs that the policy does not allow *)

(** The principal the policy sees. *)
Definition policy_principal (client : string) : string :=
  let p := canonicalize_principal_key client in if blank p then LOCAL_PRINCIPAL else p.

(** The facts the policy sees: the tool is the request's own. *)
Definition policy_facts (facts : OperationFacts) (req : PendingRequest Params) : OperationFacts :=
  facts <| f_tool := pending_request_tool req |>.

Lemma gate_verdict_allow now facts client g :
  v_decision (gate_verdict now facts (canonicalize_principal_key client) g) = Allow ->
  v_decision (runtime_evaluate now facts (canonicalize_principal_key client) g) = Allow \/
  (delegated_remote now g = true /\
   v_decision (runtime_evaluate now facts (canonicalize_principal_key client) g) = Ask).
Proof.
  unfold gate_verdict. destruct (delegated_remote now g && _) eqn:E; [| by left].
  intros _. apply andb_prop in E as [? E]. bool_prop. by right.
Qed.

(** C1: the gate hands a request to execution only when the policy document does not deny it
    and allows it, or a stored grant that matches the caller, the device and the request's
    own tool lifts the ask, or the ask is delegated to an unexpired remote operation; it is
    the admitted request that runs, nothing is queued for approval, and with a journal that
    failed to load only read-only requests run.  (An ask that a human approves later is
    executed by the approval handler and not by [admit_gated].) *)
Theorem gate_runs_only_allowed env facts ik req client g w g' :
  admit_gated env facts ik req client g = (Ok (Run w), g') ->
  let d := v_decision (evaluate (gs_policy g) (policy_facts facts req)) in
  d <> Deny /\
  (d = Allow \/
   (exists t, SGTemporary t ∈ gs_grants g /\
      temporary_grant_matches t (policy_facts facts req) (policy_principal client) (ce_now env) = true) \/
   (exists b, SGBoundedTool b ∈ gs_grants g /\
      bounded_tool_grant_matches b (policy_facts facts req) (policy_principal client) (ce_now env)
        (gs_active_remote_device_id g) = true) \/
   delegated_remote (ce_now env) g = true) /\
  aw_request w = req /\ gs_approvals g' = gs_approvals g /\
  (oj_degraded (gs_journal g') <> None -> pending_request_is_journal_read_only req = true).
Proof.
  intros H. apply admit_run_inv in H as (j1 & g2 & Hl & Hv & _ & _ & Ha & Hr & c & _ & Hj).
  fold (policy_facts facts req) in Hv.
  assert (Hdeg : oj_degraded (gs_journal g') <> None -> pending_request_is_journal_read_only req = true).
  { intros Hd. destruct Hj as [(Hd1 & _ & Hb) | (_ & ? & _)]; [| done].
    destruct (option_map _ ik) as [key|]; cbn in Hb; [| injection Hb as Hb; congruence].
    by apply begin_ok_not_degraded in Hb. }
  apply gate_verdict_allow in Hv. unfold runtime_evaluate in Hv.
  fold (policy_principal client) in Hv. cbv zeta.
  pose proof (evaluate_with_grants_outcome (gs_policy g) (policy_facts facts req) (gs_grants g)
    (ce_now env) (policy_principal client) (gs_active_remote_device_id g)) as Ho.
  destruct Ho as [| t Hnd Hin Hm | b Hask Hin Hm].
  - destruct Hv as [Hv | [Hdl Hv]]; rewrite Hv; split_and!; try done; [by left | by right; right; right].
  - split_and!; [done | | done | done | done]. right. left. by exists t.
  - rewrite Hask. split_and!; [done | | done | done | done]. right. right. left. by exists b.
Qed.

(** ** A bounded grant pays for each run *)

Definition bounded_ids (grants : list StoredGrant) : list string :=
  omap (fun s => bg_id <$> as_bounded_tool s) grants.

(** The bounded grant that lifts a request, if one does. *)
Definition lifting_grant (env : CallEnv) (facts : OperationFacts) (req : PendingRequest Params)
    (client : string) g : option BoundedToolGrant :=
  if bool_decide (v_decision (evaluate (gs_policy g) (policy_facts facts req)) = Ask) then
    match first_temporary (gs_grants g) (policy_facts facts req) (policy_principal client) (ce_now env) with
    | Some _ => None
    | None => first_bounded (gs_grants g) (policy_facts facts req) (policy_principal client)
                (ce_now env) (gs_active_remote_device_id g)
    end
  else None.

Lemma bounded_ids_elem b grants : SGBoundedTool b ∈ grants -> bg_id b ∈ bounded_ids grants.
Proof. intros H. apply list_elem_of_omap. by exists (SGBoundedTool b). Qed.

Lemma position_of_grant b grants :
  NoDup (bounded_ids grants) -> SGBoundedTool b ∈ grants ->
  exists i, position (is_bounded_with_id (bg_id b)) grants = Some i /\
            grants !! i = Some (SGBoundedTool b).
Proof.
  induction grants as [|s grants IH]; intros Hnd Hin; [by apply elem_of_nil in Hin |].
  cbn [position]. destruct (is_bounded_with_id (bg_id b) s) eqn:E.
  - exists O. split; [done |]. destruct s as [b'|t]; [| done]. cbn in E. apply String.eqb_eq in E.
    apply elem_of_cons in Hin as [Heq | Hin]; [by rewrite Heq |].
    apply bounded_ids_elem in Hin. cbn in Hnd. apply NoDup_cons in Hnd as [Hn _]. destruct Hn. by rewrite E.
  - apply elem_of_cons in Hin as [<- | Hin]; [cbn in E; by rewrite String.eqb_refl in E |].
    destruct IH as (i & -> & Hi); [| done | by exists (S i)].
    destruct s; cbn in Hnd; [by apply NoDup_cons in Hnd as [_ ?] | done].
Qed.

(** C4: when a counted bounded grant lifts a request that runs, the grant had a use left,
    exactly one use is added to that grant, and no other grant changes; so a grant
    never lifts more requests than it has uses. *)
Theorem bounded_use_counted env facts ik req client g w g' b m :
  NoDup (bounded_ids (gs_grants g)) ->
  admit_gated env facts ik req client g = (Ok (Run w), g') ->
  lifting_grant env facts req client g = Some b -> bg_max_uses b = Some m ->
  bg_uses b < m /\
  exists i, gs_grants g !! i = Some (SGBoundedTool b) /\
    gs_grants g' = <[i := SGBoundedTool (b <| bg_uses := bg_uses b + 1 |>)]> (gs_grants g).
Proof.
  intros Hnd H Hl Hm. apply admit_run_inv in H as (j1 & g2 & _ & _ & Hc & Hg & _).
  rewrite Hg. clear Hg. fold (policy_facts facts req) in Hc. unfold lifting_grant in Hl.
  case_bool_decide as Hask; [| done].
  destruct (first_temporary _ _ _ _) as [t|] eqn:Et; [done |].
  pose proof (first_bounded_Some _ _ _ _ _ _ Hl) as [Hin Hmatch].
  apply bounded_match_inv in Hmatch as (Hval & _ & _ & _ & Hu & _).
  apply bounded_validate_ok in Hval as (_ & _ & Hmax).
  destruct (Hmax m Hm) as [Hm1 _]. specialize (Hu m Hm).
  assert (Hv : gate_verdict (ce_now env) (policy_facts facts req) (canonicalize_principal_key client) g
               = grant_verdict "bounded tool grant " (bg_id b)).
  { unfold gate_verdict, runtime_evaluate, evaluate_with_grants. fold (policy_principal client).
    rewrite Hask, Et, Hl. cbn. by rewrite andb_false_r. }
  rewrite Hv in Hc. clear Hv.
  destruct (position_of_grant b (gs_grants g) Hnd Hin) as (i & Hp & Hi).
  split; [done |]. exists i. split; [done |].
  unfold consume_bounded_grant_use in Hc. cbn -[position] in Hc. rewrite Hp, Hi, Hm in Hc. cbn in Hc.
  destruct (ce_grants_write env); [| done]. injection Hc as <-. cbn.
  apply list_eq. intros i'. destruct (decide (i' = i)) as [-> | Hne].
  - rewrite list_lookup_alter_eq, Hi, list_lookup_insert_eq by (by apply lookup_lt_Some in Hi).
    cbn [fmap option_fmap option_map count_use].
    rewrite Z.min_l by (unfold u32_max, MAX_BOUNDED_TOOL_GRANT_USES in *; lia). done.
  - by rewrite list_lookup_alter_ne, list_lookup_insert_ne.
Qed.

(** ** Exactly-once admission *)

(** The step is not the completion of operation [oid]. *)
Definition not_finish (oid : string) (op : gate_op) : Prop :=
  match op with GFinish _ c _ => oc_operation_id c <> oid | _ => True end.

Lemma not_finish_gkeeps k oid op : not_finish oid op -> gkeeps (fence oid) k op.
Proof.
  destruct op; cbn; try done.
  - by intros _ v [-> _].
  - intros Hne v [_ Hid]. unfold own_marker. rewrite Hid, andb_comm.
    by destruct (String.eqb_spec oid (oc_operation_id completion)).
  - by intros _ v [-> _].
  - intros _ v [-> _]. by left.
  - intros _ v. apply fence_loaded.
Qed.

(** C2: after the gate admitted a request to run under an idempotency key and journalled it,
    no sequence of admissions, completions of other operations, journal maintenance,
    restarts and configuration changes lets the gate admit another run of the same caller
    and key, until the operation itself completes; exempt are read-only requests while the
    journal has failed to load, which run without being journalled. *)
Theorem gate_at_most_once env facts ik req client g w g1 c ops :
  admit_gated env facts (Some ik) req client g = (Ok (Run w), g1) ->
  aw_completions w = [c] -> oc_journal_key c <> None ->
  Forall (not_finish (oc_operation_id c)) ops ->
  forall env' facts' req' client' w',
    canonicalize_principal_key client' = canonicalize_principal_key client ->
    fst (admit_gated env' facts' (Some ik) req' client' (grun ops g1)) = Ok (Run w') ->
    oj_degraded (gs_journal (grun ops g1)) <> None /\
    pending_request_is_journal_read_only req' = true.
Proof.
  intros H Hw Hk Hops env' facts' req' client' w' Hcl Hrun.
  apply admit_run_inv in H as (j1 & g2 & _ & _ & _ & _ & _ & _ & c' & Hw' & Hj).
  assert (c' = c) as -> by congruence.
  destruct Hj as [(_ & _ & Hb) | (_ & _ & ? & _)]; [| done]. cbn [option_map] in Hb.
  set (key := principal_journal_key _ _) in Hb.
  assert (Hh : held (fence (oc_operation_id c)) key (gs_journal (grun ops g1))).
  { apply grun_held; [apply fence_durable | | by eapply begin_ok_held].
    eapply Forall_impl; [exact Hops |]. apply not_finish_gkeeps. }
  destruct (admit_gated env' _ _ _ _ _) as [r g3] eqn:Ea. cbn in Hrun. subst r.
  apply admit_run_inv in Ea as (j2 & g4 & Hl & _ & _ & _ & _ & _ & c2 & _ & Hj).
  rewrite Hcl in Hl, Hj. cbn [option_map] in Hl, Hj. fold key in Hl, Hj.
  assert (Hh2 : held (fence (oc_operation_id c)) key j2).
  { pose proof (lookup_held (fence (oc_operation_id c)) key (fence_durable _) (ce_lookup_io env') (ce_now env') key
      (gs_journal (grun ops g1))) as H. rewrite Hl in H. apply H; [by intros _ v [-> _] | done]. }
  destruct Hj as [(_ & _ & Hb2) | (_ & Hro & _)].
  { destruct (begin_blocked _ key (ce_write_io env') (ce_now env') (oc_operation_id c2) j2 Hh2) as [e He].
    by rewrite Hb2 in He. }
  split; [| done]. intros Hd. destruct Hh as [Hm _]. destruct (Hm Hd) as (v & Hv & Hu & _).
  unfold lookup_idempotent in Hl. by rewrite Hv, Hu in Hl.
Qed.

(** ** Replay through the gate *)

(** The step leaves the receipt of operation [oid], completed at [t], alone. *)
Definition gate_in_window (oid : string) (t : Z) (op : gate_op) : Prop :=
  match op with
  | GAdmit env _ _ _ _ => ce_now env < t + OP_JOURNAL_COMPLETED_TTL_SECS
  | GEvict _ now => now < t + OP_JOURNAL_COMPLETED_TTL_SECS
  | GAck _ ids => oid ∉ ids
  | GFinish _ _ _ | GRestart _ _ | GConfigure _ _ _ _ _ _ _ _ => True
  end.

Lemma completion_body_completed c r :
  oc_operation_id c <> "" -> op_journal_entry_state (completion_body c r) = Completed.
Proof.
  intros Hne. unfold op_journal_entry_state, legacy_completed_body, has_exact_once_operation_id, has_str, get_str.
  change (is_object (completion_body c r)) with true.
  change (get (completion_body c r) OP_JOURNAL_STATE_FIELD) with (@None Value).
  change (get (completion_body c r) "durable_receipt") with (@None Value).
  change (get (completion_body c r) "operation_id") with (Some (JString (oc_operation_id c))).
  change (get (completion_body c r) "decision") with (Some (JString "allow")).
  cbn. by destruct (oc_operation_id c).
Qed.

Lemma completion_body_id c r : get_str (completion_body c r) "operation_id" = Some (oc_operation_id c).
Proof. reflexivity. Qed.

Lemma gate_in_window_gkeeps k t c r op :
  oc_operation_id c <> "" -> 0 < t <= i64_max ->
  gate_in_window (oc_operation_id c) t op ->
  gkeeps (eq (receipt_of t (completion_body c r))) k op.
Proof.
  intros Hne Ht Hw. pose proof (completion_body_completed c r Hne) as Hc.
  pose proof (fun op' => in_window_keeps k t _ op' Hc Ht) as Hkeep.
  destruct op; cbn [gate_in_window gkeeps] in *; try done.
  - exact (Hkeep (OEvict io_ok (ce_now env)) Hw).
  - exact (Hkeep (OFail io_ok 0 k (oc_operation_id completion) 0 "") I eq_refl).
  - by apply (Hkeep (OEvict io now)).
  - apply (Hkeep (OAck io operation_ids)). intros id Hid. rewrite completion_body_id in Hid. congruence.
  - by apply (Hkeep (ORestart io now)).
Qed.

(** C3: once an execution's result is recorded in the journal, every request of the same
    caller with the same idempotency key that comes within the thirty days for which
    receipts are kept, before the control plane acknowledged the operation, and to a
    journal that loaded, is answered with the durable receipt of that result (compacted, if
    the result was large) marked as replayed, under the original operation id; it neither
    runs, nor asks, nor changes any state. *)
Theorem gate_replays env c r client ik g g1 body ops env' facts' req' :
  finalize_operation_completion env c (Ok r) g = (Ok body, g1) ->
  oc_journal_key c = Some (principal_journal_key (canonicalize_principal_key client) ik) ->
  oc_operation_id c <> "" -> 0 < ce_now env <= i64_max ->
  Forall (gate_in_window (oc_operation_id c) (ce_now env)) ops ->
  oj_degraded (gs_journal (grun ops g1)) = None ->
  ce_now env' < ce_now env + OP_JOURNAL_COMPLETED_TTL_SECS ->
  let reply := insert_member "replayed" (JBool true) (receipt_of (ce_now env) (completion_body c r)) in
  admit_gated env' facts' (Some ik) req' client (grun ops g1) = (Ok (Reply reply), grun ops g1) /\
  get reply "operation_id" = Some (JString (oc_operation_id c)) /\
  get reply "status" = Some (JString "completed") /\
  get reply "replayed" = Some (JBool true).
Proof.
  intros Hf Hk Hne Ht Hops Hdg Hnow. set (g2 := grun ops g1) in *.
  set (key := principal_journal_key _ ik) in *. set (v := completion_body c r).
  pose proof (completion_body_completed c r Hne) as Hc. fold v in Hc.
  assert (Hh : held (eq (receipt_of (ce_now env) v)) key (gs_journal g2)).
  { apply grun_held; [by intros ? <-; rewrite receipt_of_durable | |].
    { eapply Forall_impl; [exact Hops |]. intros op. by apply gate_in_window_gkeeps. }
    unfold finalize_operation_completion in Hf. destruct (validate_completion_marker _ _ g); [| done].
    rewrite Hk in Hf. fold v in Hf. destruct (store_idempotent _ _ _ _ _) as [[[]|] j1] eqn:Es; [| done].
    injection Hf as _ <-. cbn. by eapply store_ok_held. }
  destruct Hh as [Hm _]. destruct (Hm Hdg) as (w & Hw & Heq).
  assert (Hst : get (receipt_of (ce_now env) v) "status" = Some (JString "completed")).
  { unfold receipt_of. rewrite get_compact_status. reflexivity. }
  split_and!.
  - unfold admit_gated. cbn [option_map]. fold key. unfold lookup_idempotent. rewrite Hw, <- Heq.
    rewrite (proj2 (is_op_journal_uncertain_false _) (receipt_of_completed (ce_now env) v Hc)).
    rewrite receipt_of_fresh, andb_false_r by done. unfold replay, get_str. rewrite Hst.
    by destruct g2.
  - rewrite get_insert_member_ne by done. by rewrite receipt_of_operation_id.
  - by rewrite get_insert_member_ne.
  - by rewrite get_insert_member_eq.
Qed.
End gate_run.

(** ** Witnesses *)

(** A daemon whose policy asks before file writes, with one bounded grant that has a
    use left, and a remote device context. *)
Definition ask_writes : PolicyDocument :=
  {| d_preset := Recommended;
     d_rules := [{| r_id := "ask-write"; r_decision := Ask; r_priority := 10;
                    r_capability := "filesystem.write"; r_when_elevated := None; r_when_kind := None;
                    r_path_prefix := None; r_program_equals := None; r_when_tag := None;
                    r_description := None |}];
     d_note := None |}.

Definition sample_gate : GateState (gmap string Value) unit :=
  {| gs_policy := ask_writes; gs_grants := [SGBoundedTool sample_bounded];
     gs_journal := fresh_journal; gs_approvals := ∅; gs_audit := [];
     gs_delegate_remote_mcp := false; gs_active_remote_operation_id := None;
     gs_active_remote_payload_hash := None; gs_active_remote_expires_at_unix := None;
     gs_active_remote_device_id := Some "dev_1" |}.

Definition sample_env (now : Z) : CallEnv :=
  {| ce_now := now; ce_op_id := "op_7"; ce_approval_id := "apr_7"; ce_lookup_io := io_ok;
     ce_write_io := io_ok; ce_grants_write := Ok tt; ce_approvals_write := Ok tt |}.

Definition sample_key : string := principal_journal_key (canonicalize_principal_key "prin_a") "idem-1".

Definition sample_completion : OperationCompletion :=
  {| oc_journal_key := Some sample_key; oc_operation_id := "op_7";
     oc_capability := "filesystem.write"; oc_reason := "bounded tool grant grant_b" |}.

Definition sample_work : @AllowedWork unit :=
  {| aw_request := FsWrite tt; aw_completions := [sample_completion] |}.

Definition sample_admitted : GateState (gmap string Value) unit :=
  snd (admit_gated (sample_env 50) sample_facts (Some "idem-1") (FsWrite tt) "prin_a" sample_gate).

Lemma sample_admits :
  admit_gated (sample_env 50) sample_facts (Some "idem-1") (FsWrite tt) "prin_a" sample_gate
  = (Ok (Run sample_work), sample_admitted).
Proof. vm_cast_no_check (eq_refl (Ok (E := IpcError) (Run sample_work), sample_admitted)). Qed.

Lemma gate_runs_only_allowed_witness :
  v_decision (evaluate ask_writes (policy_facts (Params := unit) sample_facts (FsWrite tt))) <> Deny.
Proof.
  by destruct (gate_runs_only_allowed _ _ _ _ _ _ _ _ sample_admits) as [H _].
Defined.

Lemma bounded_use_counted_witness :
  bg_uses sample_bounded < 3 /\ gs_grants sample_admitted
  = [SGBoundedTool (sample_bounded <| bg_uses := 3 |>)].
Proof.
  destruct (bounded_use_counted _ _ _ _ _ sample_gate _ _ sample_bounded 3 (NoDup_singleton "grant_b")
    sample_admits) as [H _]; [by vm_compute | done |].
  split; [exact H | by vm_compute].
Defined.

(** A second attempt, a foreign completion, a restart and a change of policy. *)
Definition sample_gate_ops : list (@gate_op unit) :=
  [GAdmit (sample_env 60) sample_facts (Some "idem-1") (FsWrite tt) "prin_a";
   GFinish (sample_env 61) {| oc_journal_key := Some sample_key; oc_operation_id := "op_8";
                              oc_capability := ""; oc_reason := "" |} (Ok Null);
   GRestart io_ok 70;
   GConfigure {| d_preset := Recommended; d_rules := []; d_note := None |} [] ∅ false None None None None].

Lemma gate_at_most_once_witness :
  Forall (not_finish "op_7") sample_gate_ops /\
  forall w', fst (admit_gated (sample_env 80) sample_facts (Some "idem-1") (FsWrite tt) " PRIN_A "
                    (grun sample_gate_ops sample_admitted)) <> Ok (Run w').
Proof.
  assert (Hops : Forall (not_finish "op_7") sample_gate_ops) by (by repeat constructor).
  split; [exact Hops |]. intros w' Hrun.
  destruct (gate_at_most_once _ _ _ _ _ _ _ _ sample_completion sample_gate_ops sample_admits eq_refl
    ltac:(done) Hops (sample_env 80) sample_facts (FsWrite tt) " PRIN_A " w') as [_ H];
    [by vm_compute | exact Hrun | discriminate H].
Defined.

Definition sample_done : GateState (gmap string Value) unit :=
  snd (finalize_operation_completion (sample_env 55) sample_completion (Ok (JString "wrote 3 bytes"))
         sample_admitted).

Lemma sample_finishes :
  finalize_operation_completion (sample_env 55) sample_completion (Ok (JString "wrote 3 bytes")) sample_admitted
  = (Ok (completion_body sample_completion (JString "wrote 3 bytes")), sample_done).
Proof.
  vm_cast_no_check (eq_refl (Ok (E := IpcError) (completion_body sample_completion (JString "wrote 3 bytes")),
    sample_done)).
Qed.

Lemma sample_not_degraded : oj_degraded (gs_journal (grun sample_gate_ops sample_done)) = None.
Proof. vm_cast_no_check (eq_refl (@None string)). Qed.

Lemma gate_replays_witness :
  oj_degraded (gs_journal (grun sample_gate_ops sample_done)) = None /\
  exists reply, fst (admit_gated (sample_env 90) sample_facts (Some "idem-1") (FsWrite tt) "prin_a"
                       (grun sample_gate_ops sample_done)) = Ok (Reply reply) /\
    get reply "operation_id" = Some (JString "op_7").
Proof.
  split; [exact sample_not_degraded |].
  destruct (gate_replays (sample_env 55) sample_completion (JString "wrote 3 bytes") "prin_a" "idem-1"
    sample_admitted sample_done (completion_body sample_completion (JString "wrote 3 bytes"))
    sample_gate_ops (sample_env 90) sample_facts (FsWrite tt)) as (Hr & Hid & _).
  - exact sample_finishes.
  - reflexivity.
  - done.
  - cbn. unfold i64_max. lia.
  - repeat constructor; cbn; unfold OP_JOURNAL_COMPLETED_TTL_SECS; lia.
  - exact sample_not_degraded.
  - cbn. unfold OP_JOURNAL_COMPLETED_TTL_SECS. lia.
  - eexists. split; [rewrite Hr; reflexivity | exact Hid].
Defined.
