(* ===== verification/Transfer.v ===== *)
(** * Transfer plans and chunks ([crates/ownmesh-transfer/src/lib.rs])

    The immutable plan of a file transfer, its canonical encoding and digest, the
    binary chunk frames, and the small owner-only text records (leases, source
    reservations).  SHA-256, hexadecimal coding and UUID syntax belong to other crates:
    they are the class [Digests], with the documented facts the code relies on.
    Bytes are byte strings; a [u64] is a [Z] in its range. *)

From stdpp Require Import base list strings.
From Stdlib Require Import ZArith Lia Ascii.
From S2P Require Import Prelude RustStr RustBytes RustPath.

Open Scope Z_scope.

Definition MAX_CHUNK_BYTES : Z := 64 * 1024.
Definition SHA256_HEX_LEN : Z := 64.
Definition JOURNAL_SCHEMA : Z := 1.

Inductive TransferError : Type :=
| LegacySurfaceDisabled
| InvalidBinding (field : string)
| InvalidPlan (reason : string)
| SourceChanged
| CustodyUnavailable
| PlatformUnsupported
| QuotaExceeded
| ChunkTooLarge
| MalformedChunk
| ChunkHashMismatch
| Replay
| Gap
| Overflow
| HashMismatch
| DestinationExists
| DestinationMissing
| DestinationHashMismatch (expected actual : string)
| Terminal
| LeaseBusy
| CorruptJournal
| JournalQuotaExceeded
| StaleFence
| Io (e : string)
| Sink (e : string).

#[export] Instance TransferError_eq_dec : EqDecision TransferError.
Proof. solve_decision. Defined.

(** The [Display] texts. *)
Definition transfer_to_string (e : TransferError) : string :=
  match e with
  | LegacySurfaceDisabled => "legacy transfer surface is disabled"
  | InvalidBinding s => "invalid transfer binding: " +:+ s
  | InvalidPlan s => "invalid transfer plan: " +:+ s
  | SourceChanged => "source changed while transfer was being prepared or read"
  | CustodyUnavailable => "source or destination custody is unavailable on this platform"
  | PlatformUnsupported => "restricted transfer publication is unsupported on this platform"
  | QuotaExceeded => "source exceeds the configured transfer quota"
  | ChunkTooLarge => "chunk exceeds the 64 KiB limit"
  | MalformedChunk => "malformed chunk"
  | ChunkHashMismatch => "chunk hash mismatch"
  | Replay => "chunk sequence replayed"
  | Gap => "chunk sequence or offset has a gap"
  | Overflow => "checked arithmetic overflow"
  | HashMismatch => "final content hash mismatch"
  | DestinationExists => "destination already exists"
  | DestinationMissing => "destination is missing; overwrite_expected_sha256 requires an existing file"
  | DestinationHashMismatch expected actual =>
      "destination hash mismatch: expected " +:+ expected +:+ ", observed " +:+ actual
  | Terminal => "transfer is in a terminal state"
  | LeaseBusy => "transfer lease is held by another owner"
  | CorruptJournal => "journal is corrupt or exceeds its byte budget"
  | JournalQuotaExceeded => "journal quota exceeded"
  | StaleFence => "journal lease or fence is stale"
  | Io s => "io: " +:+ s
  | Sink s => "sink: " +:+ s
  end.

Definition lower_hex (c : ascii) : bool := is_ascii_hexdigit c && negb (is_ascii_uppercase c).

(** [sha2], [hex] and [uuid]: a digest is 32 bytes, hexadecimal text is lowercase, twice
    as long and decodes back, and a hyphenated UUID has no line break. *)
Class Digests : Type := {
  sha256 : string -> string;
  hex_encode : string -> string;
  hex_decode : string -> option string;
  uuid_parse_hyphenated : string -> option string;
  sha256_len b : str_len (sha256 b) = 32;
  hex_encode_len b : str_len (hex_encode b) = 2 * str_len b;
  hex_encode_lower b : str_all lower_hex (hex_encode b) = true;
  hex_decode_encode b : hex_decode (hex_encode b) = Some b;
  hex_encode_decode s :
    str_all lower_hex s = true -> Z.even (str_len s) = true ->
    exists b, hex_decode s = Some b /\ hex_encode b = s;
  uuid_one_line s h : uuid_parse_hyphenated s = Some h -> no_char (byte_of 10) h
}.

Lemma is_empty_len s : is_empty s = (str_len s =? 0).
Proof. destruct s as [|c s]; [done |]. rewrite str_len_cons. pose proof (str_len_nonneg s). symmetry. apply Z.eqb_neq. lia. Qed.

Lemma str_all_and p q s : str_all (fun c => p c && q c) s = str_all p s && str_all q s.
Proof. induction s as [|c s IH]; cbn; [done |]. rewrite IH. by destruct (p c), (q c), (str_all p s). Qed.

Lemma str_all_impl (p q : ascii -> bool) s :
  (forall c, p c = true -> q c = true) -> str_all p s = true -> str_all q s = true.
Proof.
  intros I. induction s as [|c s IH]; cbn [str_all]; [done |]. intros H. bool_prop.
  by rewrite I, IH.
Qed.

Section transfer.
Context {DG : Digests}.

(** ** Text records *)

Definition canonical_uuid (value : string) : bool :=
  match uuid_parse_hyphenated value with
  | Some hyphenated => String.eqb hyphenated value
  | None => false
  end.

Definition newline : ascii := byte_of 10.
Definition line (s : string) : string := s +:+ String newline "".

(** [lease_record]; [nonce] is the fresh UUID. *)
Definition lease_record (nonce plan_id : string) (expires_at_unix : Z) : string :=
  line plan_id +:+ line (u64_to_string expires_at_unix) +:+ line nonce.

(** [split_terminator]: a trailing empty piece is dropped. *)
Definition split_terminator (c : ascii) (s : string) : list string :=
  match rev (split_char c s) with
  | EmptyString :: r => rev r
  | _ => split_char c s
  end.

(** [parse_lease_expiry] on text; bytes that are not UTF-8 are refused before. *)
Definition parse_lease_expiry (text plan_id : string) : option Z :=
  match split_terminator newline text with
  | record_plan :: expiry_text :: rest =>
      match parse_unsigned u64_max expiry_text, rest with
      | Some expiry, nonce :: more =>
          if negb (String.eqb record_plan plan_id) || negb (canonical_uuid nonce)
             || match more with [] => false | _ => true end then None
          else if String.eqb text (line record_plan +:+ line (u64_to_string expiry) +:+ line nonce)
               then Some expiry else None
      | _, _ => None
      end
  | _ => None
  end.

Record SourceReservation : Type := { sr_expires_at_unix : Z; sr_bytes : Z }.

Definition parse_source_reservation (text plan_id : string) : option SourceReservation :=
  match split_terminator newline text with
  | record_plan :: expiry_text :: bytes_text :: rest =>
      match parse_unsigned u64_max expiry_text, parse_unsigned u64_max bytes_text, rest with
      | Some expires_at_unix, Some bytes, nonce :: more =>
          if negb (String.eqb record_plan plan_id) || negb (canonical_uuid nonce)
             || match more with [] => false | _ => true end then None
          else if String.eqb text (line record_plan +:+ line (u64_to_string expires_at_unix)
                                   +:+ line (u64_to_string bytes) +:+ line nonce)
               then Some {| sr_expires_at_unix := expires_at_unix; sr_bytes := bytes |} else None
      | _, _, _ => None
      end
  | _ => None
  end.

(** ** Validation *)

Definition valid_id (value field : string) : result unit TransferError :=
  guard_err (is_empty value || (256 <? str_len value) || str_any is_ascii_control value)
    (InvalidBinding field).

Definition validate_hash (value field : string) : result unit TransferError :=
  guard_err (negb (str_len value =? SHA256_HEX_LEN) || negb (str_all is_ascii_hexdigit value)
             || str_any is_ascii_uppercase value)
    (InvalidPlan field).

Definition validate_relative_path (value field : string) : result unit TransferError :=
  guard_err (is_empty value || (4096 <? str_len value) || contains_char (byte_of 0) value)
    (InvalidBinding field) ;?
  guard_err (is_absolute value
             || existsb (fun c => match c with ParentDir | RootDir => true | _ => false end)
                  (components value))
    (InvalidBinding field).

Definition hash_bytes (bytes : string) : string := hex_encode (sha256 bytes).

(** [hash_reader] over what the successive [read] calls return, up to end of file. *)
Fixpoint hash_reads (max_bytes total : Z) (seen : string) (reads : list (result string string))
  : result (Z * string) TransferError :=
  match reads with
  | [] => Ok (total, hex_encode (sha256 seen))
  | Err e :: _ => Err (Io e)
  | Ok bytes :: rest =>
      if is_empty bytes then Ok (total, hex_encode (sha256 seen))
      else let? total := ok_or (u64_checked_add total (str_len bytes)) Overflow in
           if max_bytes <? total then Err QuotaExceeded
           else hash_reads max_bytes total (seen +:+ bytes) rest
  end.

Definition hash_reader (reads : list (result string string)) (max_bytes : Z)
  : result (Z * string) TransferError := hash_reads max_bytes 0 "" reads.

(** How a regular file reads through a buffer of [MAX_CHUNK_BYTES]. *)
Fixpoint file_reads (fuel : nat) (content : string) : list (result string string) :=
  match fuel with
  | O => []
  | S fuel =>
      if is_empty content then []
      else Ok (take MAX_CHUNK_BYTES content) :: file_reads fuel (drop MAX_CHUNK_BYTES content)
  end.

Definition hash_file (content : string) (max_bytes : Z) : result (Z * string) TransferError :=
  hash_reader (file_reads (String.length content) content) max_bytes.

(** ** Binding, grant, plan *)

Record TransferBinding : Type := {
  tb_tenant_id : string;
  tb_source_principal_id : string;
  tb_destination_principal_id : string;
  tb_source_device_id : string;
  tb_destination_device_id : string;
  tb_source_workspace_id : string;
  tb_destination_workspace_id : string;
  tb_source_relative_path : string;
  tb_destination_relative_path : string
}.

Fixpoint valid_ids (l : list (string * string)) : result unit TransferError :=
  match l with
  | [] => Ok tt
  | (value, name) :: rest => valid_id value name ;? valid_ids rest
  end.

Definition binding_validate (b : TransferBinding) : result unit TransferError :=
  valid_ids [(tb_tenant_id b, "tenant_id"); (tb_source_principal_id b, "source_principal_id");
             (tb_destination_principal_id b, "destination_principal_id");
             (tb_source_device_id b, "source_device_id");
             (tb_destination_device_id b, "destination_device_id");
             (tb_source_workspace_id b, "source_workspace_id");
             (tb_destination_workspace_id b, "destination_workspace_id")] ;?
  guard_err (String.eqb (tb_source_device_id b) (tb_destination_device_id b)
             && String.eqb (tb_source_workspace_id b) (tb_destination_workspace_id b)
             && String.eqb (tb_source_relative_path b) (tb_destination_relative_path b))
    (InvalidBinding "source and destination are identical") ;?
  validate_relative_path (tb_source_relative_path b) "source_relative_path" ;?
  validate_relative_path (tb_destination_relative_path b) "destination_relative_path".

Record TransferGrant : Type := {
  xg_grant_id : string;
  xg_operation_id : string;
  xg_payload_sha256 : string;
  xg_expires_at_unix : Z
}.

Definition grant_validate (g : TransferGrant) : result unit TransferError :=
  valid_id (xg_grant_id g) "grant_id" ;?
  valid_id (xg_operation_id g) "operation_id" ;?
  validate_hash (xg_payload_sha256 g) "grant payload_sha256" ;?
  guard_err (xg_expires_at_unix g =? 0) (InvalidBinding "grant expiry").

Definition grant_validate_at (g : TransferGrant) (now_unix : Z) : result unit TransferError :=
  grant_validate g ;?
  guard_err (xg_expires_at_unix g <=? now_unix) (InvalidPlan "expired transfer grant").

(** [PlanLimits::default]. *)
Definition default_max_bytes : Z := 5 * 1024 * 1024 * 1024.

Record TransferPlan : Type := {
  tp_id : string;
  tp_binding : TransferBinding;
  tp_grant : TransferGrant;
  tp_size_bytes : Z;
  tp_sha256 : string;
  tp_plan_sha256 : string;
  tp_overwrite_expected_sha256 : option string
}.

#[export] Instance TransferPlan_eta : Eta TransferPlan := fun p =>
  {| tp_id := tp_id p; tp_binding := tp_binding p; tp_grant := tp_grant p;
     tp_size_bytes := tp_size_bytes p; tp_sha256 := tp_sha256 p;
     tp_plan_sha256 := tp_plan_sha256 p;
     tp_overwrite_expected_sha256 := tp_overwrite_expected_sha256 p |}.

(** One field of the canonical text: its length, a colon, the field, a bar. *)
Definition netstring (value : string) : string :=
  u64_to_string (str_len value) +:+ String ":" (value +:+ String "|" "").

Definition canonical_fields (b : TransferBinding) (g : TransferGrant) (size_bytes : Z) (sha : string)
  : list string :=
  [tb_tenant_id b; tb_source_principal_id b; tb_destination_principal_id b;
   tb_source_device_id b; tb_destination_device_id b; tb_source_workspace_id b;
   tb_destination_workspace_id b; tb_source_relative_path b; tb_destination_relative_path b;
   xg_grant_id g; xg_operation_id g; xg_payload_sha256 g; u64_to_string size_bytes; sha].

Definition canonical (b : TransferBinding) (g : TransferGrant) (size_bytes : Z) (sha : string) : string :=
  foldr (fun value rest => netstring value +:+ rest) (u64_to_string (xg_expires_at_unix g))
    (canonical_fields b g size_bytes sha).

Definition plan_id_of (plan_sha256 : string) : string := "xfer_" +:+ take 32 plan_sha256.

Definition from_verified (b : TransferBinding) (g : TransferGrant) (size_bytes : Z) (sha : string)
  : result TransferPlan TransferError :=
  binding_validate b ;?
  grant_validate g ;?
  validate_hash sha "content sha256" ;?
  let plan_sha256 := hash_bytes (canonical b g size_bytes sha) in
  Ok {| tp_id := plan_id_of plan_sha256; tp_binding := b; tp_grant := g;
        tp_size_bytes := size_bytes; tp_sha256 := sha; tp_plan_sha256 := plan_sha256;
        tp_overwrite_expected_sha256 := None |}.

(** [for_workspace_source]; [metadata_len] is the length reported after hashing. *)
Definition for_workspace_source (reads : list (result string string)) (metadata_len : result Z string)
    (b : TransferBinding) (g : TransferGrant) (max_bytes now_unix : Z) : result TransferPlan TransferError :=
  binding_validate b ;?
  grant_validate g ;?
  guard_err ((xg_expires_at_unix g <=? now_unix) || (max_bytes =? 0))
    (InvalidPlan "expired grant or zero quota") ;?
  let? hashed := hash_reader reads max_bytes in
  let? len := map_err Io metadata_len in
  guard_err (negb (len =? fst hashed)) SourceChanged ;?
  from_verified b g (fst hashed) (snd hashed).

Definition plan_validate (p : TransferPlan) : result unit TransferError :=
  let? expected := from_verified (tp_binding p) (tp_grant p) (tp_size_bytes p) (tp_sha256 p) in
  guard_err (negb (String.eqb (tp_id p) (tp_id expected))
             || negb (String.eqb (tp_plan_sha256 p) (tp_plan_sha256 expected)))
    (InvalidPlan "plan binding digest") ;?
  match tp_overwrite_expected_sha256 p with
  | Some hash => validate_hash hash "overwrite_expected_sha256"
  | None => Ok tt
  end.

Definition plan_validate_at (p : TransferPlan) (now_unix : Z) : result unit TransferError :=
  plan_validate p ;? grant_validate_at (tp_grant p) now_unix.

Definition with_overwrite_expected_sha256 (p : TransferPlan) (hash : option string)
  : result TransferPlan TransferError :=
  match hash with Some value => validate_hash value "overwrite_expected_sha256" | None => Ok tt end ;?
  Ok (p <| tp_overwrite_expected_sha256 := hash |>).

Definition source_reservation_record (nonce : string) (p : TransferPlan) : string :=
  line (tp_id p) +:+ line (u64_to_string (xg_expires_at_unix (tp_grant p)))
  +:+ line (u64_to_string (tp_size_bytes p)) +:+ line nonce.

(** ** Chunks *)

Record TransferChunk : Type := {
  ch_sequence : Z;
  ch_offset : Z;
  ch_bytes : string;
  ch_sha256 : string
}.

Definition chunk_validate (c : TransferChunk) : result unit TransferError :=
  guard_err (is_empty (ch_bytes c) || (MAX_CHUNK_BYTES <? str_len (ch_bytes c))) ChunkTooLarge ;?
  validate_hash (ch_sha256 c) "chunk sha256" ;?
  guard_err (negb (String.eqb (ch_sha256 c) (hash_bytes (ch_bytes c)))) ChunkHashMismatch ;?
  (let? _ := ok_or (u64_checked_add (ch_offset c) (str_len (ch_bytes c))) Overflow in Ok tt).

Definition chunk_new (sequence offset : Z) (bytes : string) : result TransferChunk TransferError :=
  guard_err (is_empty bytes || (MAX_CHUNK_BYTES <? str_len bytes)) ChunkTooLarge ;?
  let chunk := {| ch_sequence := sequence; ch_offset := offset; ch_bytes := bytes;
                  ch_sha256 := hash_bytes bytes |} in
  chunk_validate chunk ;?
  Ok chunk.

Definition chunk_encode (c : TransferChunk) : result string TransferError :=
  chunk_validate c ;?
  guard_err (u32_max <? str_len (ch_bytes c)) ChunkTooLarge ;?
  let? digest := ok_or (hex_decode (ch_sha256 c)) MalformedChunk in
  Ok (to_be_bytes 8 (ch_sequence c) +:+ to_be_bytes 8 (ch_offset c)
      +:+ to_be_bytes 4 (str_len (ch_bytes c)) +:+ digest +:+ ch_bytes c).

Definition chunk_decode (frame : string) : result TransferChunk TransferError :=
  guard_err (str_len frame <? 52) MalformedChunk ;?
  let sequence := from_be_bytes (slice 0 8 frame) in
  let offset := from_be_bytes (slice 8 16 frame) in
  let length := from_be_bytes (slice 16 20 frame) in
  guard_err ((length =? 0) || (MAX_CHUNK_BYTES <? length) || negb (str_len frame =? 52 + length))
    MalformedChunk ;?
  let chunk := {| ch_sequence := sequence; ch_offset := offset; ch_bytes := drop 52 frame;
                  ch_sha256 := hex_encode (slice 20 52 frame) |} in
  chunk_validate chunk ;?
  Ok chunk.

(** ** Chunk frames *)

Lemma validate_hash_ok v field :
  validate_hash v field = Ok tt <-> str_len v = 64 /\ str_all lower_hex v = true.
Proof.
  unfold validate_hash, SHA256_HEX_LEN, str_any, lower_hex. rewrite str_all_and.
  destruct (Z.eqb_spec (str_len v) 64), (str_all is_ascii_hexdigit v),
    (str_all (fun c => negb (is_ascii_uppercase c)) v); cbn; split; naive_solver.
Qed.

Lemma hash_bytes_valid bytes field : validate_hash (hash_bytes bytes) field = Ok tt.
Proof.
  apply validate_hash_ok. unfold hash_bytes.
  by rewrite hex_encode_len, sha256_len, hex_encode_lower.
Qed.

(** What a valid chunk is. *)
Lemma chunk_validate_ok c :
  chunk_validate c = Ok tt <->
  0 < str_len (ch_bytes c) <= MAX_CHUNK_BYTES /\ ch_sha256 c = hash_bytes (ch_bytes c)
  /\ ch_offset c + str_len (ch_bytes c) <= u64_max.
Proof.
  unfold chunk_validate. split.
  - intros H. res_inv. bool_prop.
    match goal with E : String.eqb _ _ = true |- _ => apply String.eqb_eq in E end.
    match goal with E : u64_checked_add _ _ = Some _ |- _ => apply u64_checked_add_Some in E end.
    destruct (ch_bytes c); [done |]. rewrite str_len_cons in *.
    pose proof (str_len_nonneg s). split; [lia |]. split; [done | lia].
  - intros (Hlen & Hh & Ho). rewrite Hh, hash_bytes_valid, String.eqb_refl.
    rewrite is_empty_len, (proj2 (Z.eqb_neq _ _)) by lia.
    rewrite (proj2 (Z.ltb_ge _ _)) by lia. cbn. unfold u64_checked_add.
    by rewrite (proj2 (Z.leb_le _ _)) by lia.
Qed.

Lemma hex_decode_hash b : hex_decode (hash_bytes b) = Some (sha256 b).
Proof. apply hex_decode_encode. Qed.

(** The frame of a valid chunk, field by field. *)
Lemma chunk_encode_ok c f :
  chunk_encode c = Ok f <->
  chunk_validate c = Ok tt /\
  f = to_be_bytes 8 (ch_sequence c) +:+ to_be_bytes 8 (ch_offset c)
      +:+ to_be_bytes 4 (str_len (ch_bytes c)) +:+ sha256 (ch_bytes c) +:+ ch_bytes c.
Proof.
  unfold chunk_encode. destruct (chunk_validate c) as [[]|] eqn:V; [|split; naive_solver].
  apply chunk_validate_ok in V as (Hl & Hh & _). cbn [rbind].
  rewrite (proj2 (Z.ltb_ge _ _)) by (unfold MAX_CHUNK_BYTES in Hl; zify_bounds; lia).
  cbn [rbind guard_err]. rewrite Hh, hex_decode_hash. cbn [rbind ok_or]. split; naive_solver.
Qed.

(** Cutting a field out of a frame. *)
Lemma slice_mid a b c i j :
  str_len a = i -> str_len b = j - i -> slice i j (a +:+ b +:+ c) = b.
Proof. intros <- H. unfold slice. rewrite drop_app, <- H. apply take_app. Qed.

Lemma slice_join a b s : 0 <= a <= b -> slice a b s +:+ drop b s = drop a s.
Proof.
  intros H. unfold slice. replace b with (a + (b - a)) at 2 by lia.
  rewrite <- drop_drop by lia. apply split_at_join.
Qed.

Lemma slice_len a b s : 0 <= a <= b -> b <= str_len s -> str_len (slice a b s) = b - a.
Proof. intros H Hb. unfold slice. rewrite take_len, drop_len by lia. lia. Qed.

(** The parsed fields put a frame back together. *)
Lemma frame_fields f :
  52 <= str_len f ->
  f = slice 0 8 f +:+ slice 8 16 f +:+ slice 16 20 f +:+ slice 20 52 f +:+ drop 52 f.
Proof.
  intros H. rewrite !slice_join by lia. by rewrite drop_zero.
Qed.

Lemma be_slice f a b n :
  0 <= a <= b -> b <= str_len f -> b - a = Z.of_nat n ->
  to_be_bytes n (from_be_bytes (slice a b f)) = slice a b f.
Proof.
  intros H Hb Hn. pose proof (slice_len a b f H Hb) as L.
  replace n with (String.length (slice a b f)) by (unfold str_len in L; lia).
  apply to_from_be_bytes.
Qed.

Lemma chunk_decode_encode f c : chunk_decode f = Ok c -> chunk_encode c = Ok f.
Proof.
  unfold chunk_decode. intros H. res_inv. bool_prop. apply chunk_encode_ok.
  match goal with V : chunk_validate _ = Ok ?u |- _ => destruct u; pose proof V as V' end.
  split; [done |]. apply chunk_validate_ok in V' as (Hl & Hh & _). cbn [ch_bytes ch_sha256 ch_sequence ch_offset] in *.
  assert (slice 20 52 f = sha256 (drop 52 f)) as <-.
  { pose proof (hex_decode_encode (slice 20 52 f)) as D. rewrite Hh, hex_decode_hash in D.
    by injection D as <-. }
  assert (str_len (drop 52 f) = from_be_bytes (slice 16 20 f)) as -> by (rewrite drop_len; lia).
  rewrite !be_slice by lia. by apply frame_fields.
Qed.

Lemma be_u64 z : 0 <= z <= u64_max -> from_be_bytes (to_be_bytes 8 z) = z.
Proof.
  intros H. apply from_to_be_bytes.
  change (256 ^ Z.of_nat 8) with 18446744073709551616. zify_bounds. lia.
Qed.

Lemma be_u32 z : 0 <= z <= u32_max -> from_be_bytes (to_be_bytes 4 z) = z.
Proof.
  intros H. apply from_to_be_bytes. change (256 ^ Z.of_nat 4) with 4294967296. zify_bounds. lia.
Qed.

Lemma chunk_encode_decode c f :
  0 <= ch_sequence c <= u64_max -> 0 <= ch_offset c ->
  chunk_encode c = Ok f -> chunk_decode f = Ok c.
Proof.
  intros Hseq Hoff H. apply chunk_encode_ok in H as (V & ->).
  pose proof V as V'. apply chunk_validate_ok in V' as (Hl & Hh & Ho).
  unfold MAX_CHUNK_BYTES in Hl. zify_bounds. unfold chunk_decode.
  set (p := to_be_bytes 8 (ch_sequence c)). set (q := to_be_bytes 8 (ch_offset c)).
  set (r := to_be_bytes 4 (str_len (ch_bytes c))).
  assert (str_len p = 8) as Lp by apply to_be_bytes_len.
  assert (str_len q = 8) as Lq by apply to_be_bytes_len.
  assert (str_len r = 4) as Lr by apply to_be_bytes_len.
  pose proof (sha256_len (ch_bytes c)) as Ld.
  set (f := p +:+ q +:+ r +:+ sha256 (ch_bytes c) +:+ ch_bytes c).
  assert (str_len f = 52 + str_len (ch_bytes c)) as Lf by (unfold f; rewrite !str_len_app; lia).
  assert (slice 0 8 f = p) as -> by (apply (slice_mid ""); [reflexivity | lia]).
  assert (slice 8 16 f = q) as -> by (apply slice_mid; lia).
  assert (slice 16 20 f = r) as ->.
  { unfold f. rewrite str_app_assoc. apply slice_mid; rewrite ?str_len_app; lia. }
  assert (slice 20 52 f = sha256 (ch_bytes c)) as ->.
  { unfold f. rewrite 2!str_app_assoc. apply slice_mid; rewrite ?str_len_app; lia. }
  assert (drop 52 f = ch_bytes c) as ->.
  { unfold f. rewrite 3!str_app_assoc. 
    replace 52 with (str_len (((p +:+ q) +:+ r) +:+ sha256 (ch_bytes c))) by (rewrite !str_len_app; lia).
    apply drop_app. }
  unfold p, q, r. rewrite (be_u64 (ch_sequence c)), (be_u64 (ch_offset c)), be_u32 by (zify_bounds; lia).
  rewrite Lf, (proj2 (Z.ltb_ge _ _)), (proj2 (Z.eqb_neq _ 0)), (proj2 (Z.ltb_ge _ _)), Z.eqb_refl
    by (unfold MAX_CHUNK_BYTES; lia).
  cbn [guard_err rbind orb negb].
  fold (hash_bytes (ch_bytes c)). rewrite <- Hh. destruct c. cbn in *. rewrite V. reflexivity.
Qed.

(** ** The canonical text *)

Lemma netstring_inj a b p q :
  str_len a <= u64_max -> str_len b <= u64_max ->
  netstring a +:+ p = netstring b +:+ q -> a = b /\ p = q.
Proof.
  intros Ha Hb H. pose proof (str_len_nonneg a). pose proof (str_len_nonneg b).
  unfold netstring in H. rewrite <- !str_app_assoc in H. cbn [String.append] in H.
  apply digits_until in H as [Hl H]; 
    [|done|by apply u64_to_string_digits|by apply u64_to_string_digits].
  apply u64_to_string_inj in Hl; [|lia|lia].
  rewrite <- !str_app_assoc in H. apply str_app_inj_len in H as [-> H].
  - split; [done |]. by injection H.
  - unfold str_len in Hl. lia.
Qed.

Lemma netstrings_inj l l' p q :
  length l = length l' ->
  Forall (fun v => str_len v <= u64_max) l -> Forall (fun v => str_len v <= u64_max) l' ->
  foldr (fun v rest => netstring v +:+ rest) p l = foldr (fun v rest => netstring v +:+ rest) q l' ->
  l = l' /\ p = q.
Proof.
  revert l'. induction l as [|x l IH]; intros [|y l'] L Hl Hl' H; try discriminate; [done |].
  inversion Hl; inversion Hl'; subst. cbn in H. apply netstring_inj in H as [-> H]; [|done|done].
  apply IH in H as [-> ->]; [done | by injection L | done | done].
Qed.

Definition small (v : string) : Prop := str_len v <= 4096.

Lemma valid_id_small v f : valid_id v f = Ok tt -> small v.
Proof. unfold valid_id, small. intros H. res_inv. bool_prop. lia. Qed.

Lemma validate_hash_small v f : validate_hash v f = Ok tt -> small v.
Proof. intros H%validate_hash_ok. unfold small. lia. Qed.

Lemma validate_relative_path_small v f : validate_relative_path v f = Ok tt -> small v.
Proof. unfold validate_relative_path, small. intros H. res_inv. bool_prop. lia. Qed.

Lemma digits_len fuel n acc : str_len (digits fuel n acc) <= Z.of_nat fuel + str_len acc.
Proof.
  revert n acc. induction fuel as [|f IH]; intros n acc; cbn [digits]; [lia |].
  repeat case_match; rewrite ?str_len_cons; try lia.
  all: etrans; [apply IH |]; rewrite str_len_cons; lia.
Qed.

Lemma u64_to_string_small n : small (u64_to_string n).
Proof. unfold small, u64_to_string. etrans; [apply digits_len |]. done. Qed.

Lemma canonical_fields_small b g n h p :
  from_verified b g n h = Ok p -> Forall small (canonical_fields b g n h).
Proof.
  unfold from_verified, binding_validate, grant_validate. cbn [valid_ids]. intros H. res_inv.
  repeat match goal with u : unit |- _ => destruct u end.
  repeat constructor;
    eauto using valid_id_small, validate_hash_small, validate_relative_path_small, u64_to_string_small.
Qed.

(** The bound part of a plan: everything its digest covers. *)
Definition bound_facts (p : TransferPlan) : TransferBinding * TransferGrant * Z * string :=
  (tp_binding p, tp_grant p, tp_size_bytes p, tp_sha256 p).

Definition canonical_of (p : TransferPlan) : string :=
  canonical (tp_binding p) (tp_grant p) (tp_size_bytes p) (tp_sha256 p).

Definition u64_plan (p : TransferPlan) : Prop :=
  0 <= tp_size_bytes p <= u64_max /\ 0 <= xg_expires_at_unix (tp_grant p) <= u64_max.

Lemma plan_validate_ok p :
  plan_validate p = Ok tt ->
  Forall small (canonical_fields (tp_binding p) (tp_grant p) (tp_size_bytes p) (tp_sha256 p))
  /\ tp_plan_sha256 p = hash_bytes (canonical_of p)
  /\ tp_id p = plan_id_of (tp_plan_sha256 p).
Proof.
  unfold plan_validate. destruct (from_verified _ _ _ _) as [x|] eqn:V; cbn [rbind]; [|discriminate].
  intros H. pose proof (canonical_fields_small _ _ _ _ _ V) as S. split; [exact S |].
  unfold from_verified in V. res_inv; bool_prop; cbn in *;
    repeat match goal with E : String.eqb _ _ = true |- _ => apply String.eqb_eq in E end;
    by split; [| congruence].
Qed.

Lemma canonical_injective p q :
  plan_validate p = Ok tt -> plan_validate q = Ok tt -> u64_plan p -> u64_plan q ->
  canonical_of p = canonical_of q -> bound_facts p = bound_facts q.
Proof.
  intros Vp%plan_validate_ok Vq%plan_validate_ok [Sp Ep] [Sq Eq] H.
  destruct Vp as [Fp _], Vq as [Fq _].
  assert (forall v, small v -> str_len v <= u64_max) as W by (unfold small; zify_bounds; lia).
  apply netstrings_inj in H as [H He]; [|done|eapply Forall_impl; eauto|eapply Forall_impl; eauto].
  apply u64_to_string_inj in He; [|done|done].
  unfold bound_facts. destruct p as [? [] [] ????], q as [? [] [] ????]. cbn in *.
  injection H as -> -> -> -> -> -> -> -> -> -> -> -> Hs ->.
  apply u64_to_string_inj in Hs as ->; [|done|done]. by rewrite He.
Qed.

(** ** Text records *)

Fixpoint text_lines (l : list string) : string :=
  match l with [] => "" | x :: rest => line x +:+ text_lines rest end.

Lemma split_char_lines l :
  Forall (no_char newline) l -> split_char newline (text_lines l) = l ++ [""].
Proof.
  induction 1 as [|x l Hx _ IH]; [done |]. cbn [text_lines].
  unfold line. rewrite <- str_app_assoc. cbn [String.append].
  rewrite split_char_app by done. by rewrite IH.
Qed.

Lemma split_terminator_lines l :
  Forall (no_char newline) l -> split_terminator newline (text_lines l) = l.
Proof.
  intros H. unfold split_terminator. rewrite split_char_lines by done.
  rewrite rev_app_distr. cbn. apply rev_involutive.
Qed.

Lemma canonical_uuid_line n : canonical_uuid n = true -> no_char newline n.
Proof.
  unfold canonical_uuid. destruct (uuid_parse_hyphenated n) eqn:E; [|done].
  intros ->%String.eqb_eq. by apply uuid_one_line in E.
Qed.

Lemma u64_to_string_line n : 0 <= n -> no_char newline (u64_to_string n).
Proof.
  intros H. eapply str_all_impl; [|by apply u64_to_string_digits]. intros c Hc.
  destruct (Ascii.eqb_spec c newline) as [->|]; [discriminate Hc | done].
Qed.

Lemma parse_lease_record nonce id e :
  canonical_uuid nonce = true -> no_char newline id -> 0 <= e <= u64_max ->
  parse_lease_expiry (lease_record nonce id e) id = Some e.
Proof.
  intros Hn Hid He. unfold parse_lease_expiry, lease_record.
  replace (line id +:+ line (u64_to_string e) +:+ line nonce) with (text_lines [id; u64_to_string e; nonce])
    by (cbn; by rewrite !str_app_nil_r).
  rewrite split_terminator_lines
    by (repeat constructor; auto using canonical_uuid_line; apply u64_to_string_line; lia).
  rewrite parse_unsigned_to_string, String.eqb_refl, Hn by (zify_bounds; lia). cbn [negb orb].
  cbn. by rewrite str_app_nil_r, String.eqb_refl.
Qed.

Lemma parse_lease_exact text id e :
  parse_lease_expiry text id = Some e ->
  exists nonce, canonical_uuid nonce = true /\ text = lease_record nonce id e.
Proof.
  unfold parse_lease_expiry. intros H. repeat case_match; try discriminate.
  all: injection H as ->; bool_prop; try discriminate.
  all: repeat match goal with E : String.eqb _ _ = true |- _ => apply String.eqb_eq in E end.
  all: subst; eauto.
Qed.

Lemma parse_reservation_record nonce p :
  canonical_uuid nonce = true -> no_char newline (tp_id p) -> u64_plan p ->
  parse_source_reservation (source_reservation_record nonce p) (tp_id p) =
  Some {| sr_expires_at_unix := xg_expires_at_unix (tp_grant p); sr_bytes := tp_size_bytes p |}.
Proof.
  intros Hn Hid [Hs He]. unfold parse_source_reservation, source_reservation_record.
  set (e := xg_expires_at_unix (tp_grant p)) in *. set (n := tp_size_bytes p) in *.
  replace (line (tp_id p) +:+ line (u64_to_string e) +:+ line (u64_to_string n) +:+ line nonce)
    with (text_lines [tp_id p; u64_to_string e; u64_to_string n; nonce])
    by (cbn; by rewrite !str_app_nil_r).
  rewrite split_terminator_lines
    by (repeat constructor; auto using canonical_uuid_line; apply u64_to_string_line; lia).
  rewrite !parse_unsigned_to_string, String.eqb_refl, Hn by (zify_bounds; lia). cbn [negb orb].
  cbn. by rewrite str_app_nil_r, String.eqb_refl.
Qed.

Lemma parse_reservation_exact text id r :
  parse_source_reservation text id = Some r ->
  exists nonce, canonical_uuid nonce = true /\
    text = line id +:+ line (u64_to_string (sr_expires_at_unix r))
           +:+ line (u64_to_string (sr_bytes r)) +:+ line nonce.
Proof.
  unfold parse_source_reservation. intros H. repeat case_match; try discriminate.
  all: injection H as <-; bool_prop; try discriminate.
  all: repeat match goal with E : String.eqb _ _ = true |- _ => apply String.eqb_eq in E end.
  all: subst; eauto.
Qed.

(** ** Streaming the digest *)

Lemma hash_reads_file fuel content seen max :
  (String.length content <= fuel)%nat ->
  str_len seen <= max -> str_len seen + str_len content <= u64_max ->
  hash_reads max (str_len seen) seen (file_reads fuel content) =
  if str_len seen + str_len content <=? max
  then Ok (str_len seen + str_len content, hash_bytes (seen +:+ content))
  else Err QuotaExceeded.
Proof.
  revert content seen. induction fuel as [|fuel IH]; intros content seen Hf Hm Hu.
  - assert (content = "") as -> by (destruct content; [done | cbn in Hf; lia]).
    rewrite str_app_nil_r. change (str_len "") with 0. rewrite Z.add_0_r.
    by rewrite (proj2 (Z.leb_le _ _)) by lia.
  - cbn [file_reads]. rewrite is_empty_len. destruct (Z.eqb_spec (str_len content) 0) as [E|E].
    { apply str_len_zero in E as ->. rewrite str_app_nil_r. change (str_len "") with 0.
      rewrite Z.add_0_r. by rewrite (proj2 (Z.leb_le _ _)) by lia. }
    pose proof (str_len_nonneg content). set (n := MAX_CHUNK_BYTES). assert (0 < n) as Hn by done.
    pose proof (take_len n content ltac:(lia)) as Lt. pose proof (drop_len n content ltac:(lia)) as Ld.
    cbn [hash_reads]. rewrite is_empty_len, (proj2 (Z.eqb_neq _ _)) by lia.
    unfold u64_checked_add. rewrite (proj2 (Z.leb_le _ u64_max)) by lia. cbn [ok_or rbind].
    rewrite <- str_len_app. destruct (Z.ltb_spec max (str_len (seen +:+ take n content))) as [L|L].
    + rewrite str_len_app in L. by rewrite (proj2 (Z.leb_gt _ _)) by lia.
    + rewrite IH; [|unfold str_len in *; lia|done|rewrite str_len_app; lia].
      rewrite str_len_app, <- str_app_assoc, split_at_join.
      replace (_ + _ + _) with (str_len seen + str_len content) by lia. done.
Qed.

(** Hashing a file through the fixed buffer is hashing its content. *)
Lemma hash_file_spec content max :
  0 <= max -> str_len content <= u64_max ->
  hash_file content max =
  if str_len content <=? max then Ok (str_len content, hash_bytes content) else Err QuotaExceeded.
Proof. intros H Hu. apply (hash_reads_file _ content "" max); [done | done | done]. Qed.

(** C29: a chunk and its frame determine each other: a chunk with [u64] cursors encodes to a
    frame exactly when that frame decodes to the chunk, so nothing a sender encodes is
    refused or read differently and no other frame is accepted for it. *)
Theorem chunk_codec c f :
  0 <= ch_sequence c <= u64_max -> 0 <= ch_offset c ->
  chunk_encode c = Ok f <-> chunk_decode f = Ok c.
Proof. intros Hs Ho. split; [by apply chunk_encode_decode | apply chunk_decode_encode]. Qed.

(** The plan digest binds the whole plan.  Two plans that validate and carry the same
    [plan_sha256] agree on every binding, grant, size and content-hash field, unless
    their two canonical texts are themselves a SHA-256 collision. *)
Theorem plan_digest_binds p q :
  plan_validate p = Ok tt -> plan_validate q = Ok tt -> u64_plan p -> u64_plan q ->
  tp_plan_sha256 p = tp_plan_sha256 q ->
  (bound_facts p = bound_facts q /\ tp_id p = tp_id q)
  \/ (canonical_of p <> canonical_of q /\ sha256 (canonical_of p) = sha256 (canonical_of q)).
Proof.
  intros Vp Vq Up Uq H. destruct (decide (canonical_of p = canonical_of q)) as [E|E].
  - left. split; [by apply canonical_injective |].
    apply plan_validate_ok in Vp as (_ & _ & ->), Vq as (_ & _ & ->). by rewrite H.
  - right. split; [done |].
    apply plan_validate_ok in Vp as (_ & Hp & _), Vq as (_ & Hq & _).
    rewrite Hp, Hq in H. pose proof (hex_decode_hash (canonical_of p)) as D.
    rewrite H, hex_decode_hash in D. by injection D as ->.
Qed.
End transfer.

(** ** A concrete instance

    Real hexadecimal; the digest keeps the first 32 bytes, which is enough to run the
    definitions on concrete inputs. *)

Definition hex_digit (n : Z) : ascii := byte_of (if n <? 10 then 48 + n else 87 + n).

Definition hex_value (c : ascii) : option Z :=
  let n := code c in
  if in_range 48 57 n then Some (n - 48)
  else if in_range 97 102 n then Some (n - 87)
  else if in_range 65 70 n then Some (n - 55) else None.

Fixpoint plain_hex (s : string) : string :=
  match s with
  | EmptyString => ""
  | String c r => String (hex_digit (code c / 16)) (String (hex_digit (code c mod 16)) (plain_hex r))
  end.

Fixpoint plain_unhex (s : string) : option string :=
  match s with
  | EmptyString => Some ""
  | String _ EmptyString => None
  | String h (String l r) =>
      match hex_value h, hex_value l, plain_unhex r with
      | Some a, Some b, Some t => Some (String (byte_of (16 * a + b)) t)
      | _, _, _ => None
      end
  end.

Definition uuid_char (c : ascii) : bool := lower_hex c || Ascii.eqb c "-".

Definition plain_uuid (s : string) : option string :=
  if (str_len s =? 36) && str_all uuid_char s then Some s else None.

Lemma forall_byte (P : ascii -> bool) :
  forallb (fun n => P (ascii_of_nat n)) (seq 0 256) = true -> forall c, P c = true.
Proof.
  intros H c. rewrite forallb_forall in H. rewrite <- (ascii_nat_embedding c). apply H.
  apply in_seq. pose proof (nat_ascii_bounded c). lia.
Qed.

Lemma hex_byte c :
  hex_value (hex_digit (code c / 16)) = Some (code c / 16)
  /\ hex_value (hex_digit (code c mod 16)) = Some (code c mod 16)
  /\ lower_hex (hex_digit (code c / 16)) = true /\ lower_hex (hex_digit (code c mod 16)) = true.
Proof.
  apply (bool_decide_eq_true_1 _). revert c. apply forall_byte. vm_compute. reflexivity.
Qed.

Definition hex_back (c : ascii) : bool :=
  negb (lower_hex c) || match hex_value c with
                        | Some n => in_range 0 15 n && Ascii.eqb (hex_digit n) c
                        | None => false
                        end.

Lemma lower_hex_value c :
  lower_hex c = true -> exists n, hex_value c = Some n /\ 0 <= n < 16 /\ hex_digit n = c.
Proof.
  intros L. assert (hex_back c = true) as B by (revert c L; intros c _; revert c; apply forall_byte; vm_compute; reflexivity).
  unfold hex_back in B. rewrite L in B. cbn in B. destruct (hex_value c) as [n|]; [|done].
  unfold in_range in B. bool_prop. apply Ascii.eqb_eq in H0. exists n. split; [done |]. split; [lia | done].
Qed.

Lemma plain_hex_len s : str_len (plain_hex s) = 2 * str_len s.
Proof. induction s; [done |]. cbn [plain_hex]. rewrite !str_len_cons. lia. Qed.

Lemma plain_hex_lower s : str_all lower_hex (plain_hex s) = true.
Proof. induction s as [|c s IH]; [done |]. cbn [plain_hex str_all]. by destruct (hex_byte c) as (_ & _ & -> & ->). Qed.

Lemma plain_unhex_hex s : plain_unhex (plain_hex s) = Some s.
Proof.
  induction s as [|c s IH]; [done |]. cbn [plain_hex plain_unhex].
  destruct (hex_byte c) as (-> & -> & _). rewrite IH, <- Z.div_mod by done. by rewrite byte_of_code.
Qed.

Lemma plain_hex_unhex n s :
  (String.length s <= n)%nat -> str_all lower_hex s = true -> Z.even (str_len s) = true ->
  exists b, plain_unhex s = Some b /\ plain_hex b = s.
Proof.
  revert s. induction n as [|n IH]; intros [|h [|l s]] Hn L Ev; cbn in Hn; try lia; try done; [by exists ""|by exists ""|].
  cbn [str_all] in L. bool_prop.
  destruct (lower_hex_value h) as (a & Ea & Ha & <-); [done |].
  destruct (lower_hex_value l) as (b & Eb & Hb & <-); [done |].
  destruct (IH s) as (t & Et & Ht); [lia | done | |].
  { rewrite !str_len_cons in Ev. by replace (1 + (1 + str_len s)) with (2 * 1 + str_len s) in Ev by lia;
      rewrite Z.even_add_mul_2 in Ev || rewrite Z.add_comm, Z.even_add_mul_2 in Ev. }
  cbn [plain_unhex]. rewrite Ea, Eb, Et. eexists; split; [done |]. cbn [plain_hex].
  rewrite code_byte_of by lia.
  rewrite <- (Z.div_unique (16 * a + b) 16 a b), <- (Z.mod_unique (16 * a + b) 16 a b) by lia.
  by rewrite Ht.
Qed.

Lemma plain_uuid_line s h : plain_uuid s = Some h -> no_char (byte_of 10) h.
Proof.
  unfold plain_uuid. case_match; [|done]. intros [= <-]. bool_prop.
  eapply str_all_impl; [|eassumption]. intros c Hc.
  destruct (Ascii.eqb_spec c (byte_of 10)) as [->|]; [discriminate Hc | done].
Qed.

Definition plain_sha256 (b : string) : string := take 32 (b +:+ to_be_bytes 32 0).

Lemma plain_sha256_len b : str_len (plain_sha256 b) = 32.
Proof.
  unfold plain_sha256. rewrite take_len, str_len_app by lia.
  pose proof (to_be_bytes_len 32 0). pose proof (str_len_nonneg b). lia.
Qed.

#[export] Instance plain_digests : Digests := {|
  sha256 := plain_sha256;
  hex_encode := plain_hex;
  hex_decode := plain_unhex;
  uuid_parse_hyphenated := plain_uuid;
  sha256_len := plain_sha256_len;
  hex_encode_len := plain_hex_len;
  hex_encode_lower := plain_hex_lower;
  hex_decode_encode := plain_unhex_hex;
  hex_encode_decode s := plain_hex_unhex (String.length s) s (le_n _);
  uuid_one_line := plain_uuid_line
|}.

(** A frame of five bytes. *)
Definition sample_chunk : TransferChunk :=
  {| ch_sequence := 3; ch_offset := 196608; ch_bytes := "hello"; ch_sha256 := hash_bytes "hello" |}.

Definition sample_frame : string :=
  match chunk_encode sample_chunk with Ok f => f | Err _ => "" end.

Lemma chunk_codec_witness :
  chunk_encode sample_chunk = Ok sample_frame /\ chunk_decode sample_frame = Ok sample_chunk.
Proof.
  assert (chunk_encode sample_chunk = Ok sample_frame) as H by (vm_compute; reflexivity).
  split; [exact H |].
  apply (chunk_codec sample_chunk sample_frame); [split| |exact H]; vm_compute; discriminate.
Defined.

Definition sample_binding : TransferBinding :=
  {| tb_tenant_id := "tenant"; tb_source_principal_id := "alice"; tb_destination_principal_id := "alice";
     tb_source_device_id := "dev1"; tb_destination_device_id := "dev2";
     tb_source_workspace_id := "ws1"; tb_destination_workspace_id := "ws2";
     tb_source_relative_path := "a/b.txt"; tb_destination_relative_path := "b.txt" |}.

Definition sample_grant : TransferGrant :=
  {| xg_grant_id := "g1"; xg_operation_id := "op1"; xg_payload_sha256 := hash_bytes "payload";
     xg_expires_at_unix := 2000 |}.

Definition sample_plan : TransferPlan :=
  let c := canonical sample_binding sample_grant 5 (hash_bytes "hello") in
  {| tp_id := plan_id_of (hash_bytes c); tp_binding := sample_binding; tp_grant := sample_grant;
     tp_size_bytes := 5; tp_sha256 := hash_bytes "hello"; tp_plan_sha256 := hash_bytes c;
     tp_overwrite_expected_sha256 := None |}.

Definition sample_replacing_plan : TransferPlan :=
  sample_plan <| tp_overwrite_expected_sha256 := Some (hash_bytes "old") |>.

Lemma plan_digest_binds_witness :
  plan_validate sample_plan = Ok tt /\ plan_validate sample_replacing_plan = Ok tt /\
  ((bound_facts sample_plan = bound_facts sample_replacing_plan
    /\ tp_id sample_plan = tp_id sample_replacing_plan)
   \/ (canonical_of sample_plan <> canonical_of sample_replacing_plan
       /\ sha256 (canonical_of sample_plan) = sha256 (canonical_of sample_replacing_plan))).
Proof.
  assert (plan_validate sample_plan = Ok tt) as H by (vm_compute; reflexivity).
  assert (plan_validate sample_replacing_plan = Ok tt) as H' by (vm_compute; reflexivity).
  split; [exact H |]. split; [exact H' |].
  apply (plan_digest_binds sample_plan sample_replacing_plan H H'); [| |reflexivity];
    (split; split; vm_compute; discriminate).
Defined.
