(* ===== verification/TransferFlow.v ===== *)
(** * Moving a file ([crates/ownmesh-transfer/src/lib.rs])

    The sender that reads a planned source in bounded chunks, the journalled receiver,
    the interface of the sink it writes to ([ChunkSink]) and the private part file that
    implements it.  A rolling SHA-256 is the bytes fed to it so far; a file handle is its
    content with a read position, and may be changed by others between two calls.  Each
    operation takes the clock it reads. *)

From stdpp Require Import base list strings.
From Stdlib Require Import ZArith Lia Ascii.
From S2P Require Import Prelude RustStr RustBytes RustPath Transfer.

Open Scope Z_scope.

(** ** Files *)

(** A retained handle; [rf_fault] is an I/O error every read of it reports. *)
Record RetainedFile : Type := {
  rf_content : string;
  rf_position : Z;
  rf_regular : bool;
  rf_fault : option string
}.

#[export] Instance RetainedFile_eta : Eta RetainedFile := fun f =>
  {| rf_content := rf_content f; rf_position := rf_position f;
     rf_regular := rf_regular f; rf_fault := rf_fault f |}.

Definition validate_retained_file (f : RetainedFile) : result unit TransferError :=
  match rf_fault f with
  | Some e => Err (Io e)
  | None => guard_err (negb (rf_regular f)) CustodyUnavailable
  end.

Definition unread (f : RetainedFile) : string := drop (rf_position f) (rf_content f).

Definition reads_of (f : RetainedFile) : list (result string string) :=
  match rf_fault f with
  | Some e => [Err e]
  | None => file_reads (String.length (unread f)) (unread f)
  end.

Inductive ReadError : Type := UnexpectedEof | OtherError (e : string).

(** [Read::read_exact] of [want] bytes. *)
Definition read_exact (want : Z) (f : RetainedFile) : result string ReadError * RetainedFile :=
  match rf_fault f with
  | Some e => (Err (OtherError e), f)
  | None =>
      if str_len (unread f) <? want
      then (Err UnexpectedEof, f <| rf_position := str_len (rf_content f) |>)
      else (Ok (take want (unread f)), f <| rf_position := rf_position f + want |>)
  end.

Definition io_error (e : ReadError) : TransferError :=
  match e with
  | UnexpectedEof => Io "failed to fill whole buffer"
  | OtherError e => Io e
  end.

Section flow.
Context {DG : Digests}.

(** ** Sender *)

Record TransferSender : Type := {
  ts_plan : TransferPlan;
  ts_file : RetainedFile;
  ts_sequence : Z;
  ts_offset : Z;
  ts_remaining : Z;
  ts_hasher : string;
  ts_done : bool
}.

#[export] Instance TransferSender_eta : Eta TransferSender := fun s =>
  {| ts_plan := ts_plan s; ts_file := ts_file s; ts_sequence := ts_sequence s;
     ts_offset := ts_offset s; ts_remaining := ts_remaining s; ts_hasher := ts_hasher s;
     ts_done := ts_done s |}.

(** The [while] loop that hashes the already sent prefix; every round reads at least one
    byte, so the length of the prefix is enough fuel. *)
Fixpoint hash_prefix (fuel : nat) (remaining_prefix : Z) (hasher : string) (f : RetainedFile)
  : result (string * RetainedFile) TransferError :=
  if remaining_prefix =? 0 then Ok (hasher, f)
  else match fuel with
       | O => Err Overflow
       | S fuel =>
           let want := Z.min remaining_prefix MAX_CHUNK_BYTES in
           match read_exact want f with
           | (Err e, _) => Err (io_error e)
           | (Ok bytes, f) =>
               let? remaining_prefix := ok_or (u64_checked_sub remaining_prefix want) Overflow in
               hash_prefix fuel remaining_prefix (hasher +:+ bytes) f
           end
       end.

Definition from_retained_file (now : Z) (plan : TransferPlan) (f : RetainedFile) (sequence offset : Z)
  : result TransferSender TransferError :=
  plan_validate_at plan now ;?
  validate_retained_file f ;?
  guard_err (tp_size_bytes plan <? offset) Overflow ;?
  let? hashed := hash_reader (reads_of f) (tp_size_bytes plan) in
  guard_err (negb (fst hashed =? tp_size_bytes plan) || negb (String.eqb (snd hashed) (tp_sha256 plan)))
    SourceChanged ;?
  let f := f <| rf_position := 0 |> in
  let? prefix := hash_prefix (Z.to_nat offset) offset "" f in
  let? remaining := ok_or (u64_checked_sub (tp_size_bytes plan) offset) Overflow in
  Ok {| ts_plan := plan; ts_file := snd prefix; ts_sequence := sequence; ts_offset := offset;
        ts_remaining := remaining; ts_hasher := fst prefix; ts_done := false |}.

Definition finalized (hasher : string) : string := hex_encode (sha256 hasher).

Definition next_chunk (now : Z) (s : TransferSender)
  : result (option TransferChunk) TransferError * TransferSender :=
  match plan_validate_at (ts_plan s) now with
  | Err e => (Err e, s)
  | Ok _ =>
      if ts_done s then (Ok None, s)
      else if ts_remaining s =? 0 then
        let s := s <| ts_done := true |> in
        if negb (String.eqb (finalized (ts_hasher s)) (tp_sha256 (ts_plan s)))
        then (Err SourceChanged, s) else (Ok None, s)
      else
        let expected := Z.min (ts_remaining s) MAX_CHUNK_BYTES in
        match read_exact expected (ts_file s) with
        | (Err UnexpectedEof, f) => (Err SourceChanged, s <| ts_file := f |>)
        | (Err e, f) => (Err (io_error e), s <| ts_file := f |>)
        | (Ok bytes, f) =>
            let s := s <| ts_file := f |> <| ts_hasher := ts_hasher s +:+ bytes |> in
            match u64_checked_sub (ts_remaining s) expected with
            | None => (Err Overflow, s)
            | Some next_remaining =>
                match chunk_new (ts_sequence s) (ts_offset s) bytes with
                | Err e => (Err e, s)
                | Ok chunk =>
                    match u64_checked_add (ts_sequence s) 1 with
                    | None => (Err Overflow, s)
                    | Some sequence =>
                        let s := s <| ts_sequence := sequence |> in
                        match u64_checked_add (ts_offset s) expected with
                        | None => (Err Overflow, s)
                        | Some offset =>
                            let s := s <| ts_offset := offset |> <| ts_remaining := next_remaining |> in
                            if (ts_remaining s =? 0)
                               && negb (String.eqb (finalized (ts_hasher s)) (tp_sha256 (ts_plan s)))
                            then (Err SourceChanged, s)
                            else (Ok (Some chunk), s)
                        end
                    end
                end
            end
        end
  end.

(** ** Journal *)

Inductive JournalState : Type :=
| Pending | Receiving | Cancelled | Failed | Completed | Published.

#[export] Instance JournalState_eq_dec : EqDecision JournalState.
Proof. solve_decision. Defined.

Definition terminal (st : JournalState) : bool :=
  match st with Cancelled | Failed | Completed | Published => true | _ => false end.

Record TransferJournal : Type := {
  tj_schema : Z;
  tj_plan_id : string;
  tj_plan_sha256 : string;
  tj_owner_id : string;
  tj_epoch : Z;
  tj_fence : Z;
  tj_state : JournalState;
  tj_contiguous_ack : option Z;
  tj_bytes_received : Z;
  tj_expires_at_unix : Z;
  tj_published_size : option Z;
  tj_published_sha256 : option string
}.

#[export] Instance TransferJournal_eta : Eta TransferJournal := fun j =>
  {| tj_schema := tj_schema j; tj_plan_id := tj_plan_id j; tj_plan_sha256 := tj_plan_sha256 j;
     tj_owner_id := tj_owner_id j; tj_epoch := tj_epoch j; tj_fence := tj_fence j;
     tj_state := tj_state j; tj_contiguous_ack := tj_contiguous_ack j;
     tj_bytes_received := tj_bytes_received j; tj_expires_at_unix := tj_expires_at_unix j;
     tj_published_size := tj_published_size j; tj_published_sha256 := tj_published_sha256 j |}.

Definition journal_fresh (plan : TransferPlan) (owner_id : string) (epoch fence expires_at_unix : Z)
  : result TransferJournal TransferError :=
  valid_id owner_id "journal owner" ;?
  guard_err ((epoch =? 0) || (fence =? 0)) StaleFence ;?
  Ok {| tj_schema := JOURNAL_SCHEMA; tj_plan_id := tp_id plan; tj_plan_sha256 := tp_plan_sha256 plan;
        tj_owner_id := owner_id; tj_epoch := epoch; tj_fence := fence; tj_state := Pending;
        tj_contiguous_ack := None; tj_bytes_received := 0; tj_expires_at_unix := expires_at_unix;
        tj_published_size := None; tj_published_sha256 := None |}.

Definition validate_for (j : TransferJournal) (plan : TransferPlan) : result unit TransferError :=
  guard_err (negb (tj_schema j =? JOURNAL_SCHEMA) || negb (String.eqb (tj_plan_id j) (tp_id plan))
             || negb (String.eqb (tj_plan_sha256 j) (tp_plan_sha256 plan))
             || (tj_epoch j =? 0) || (tj_fence j =? 0)) CorruptJournal ;?
  match tj_state j with
  | Published =>
      guard_err (negb (bool_decide (tj_published_size j = Some (tp_size_bytes plan))
                       && bool_decide (tj_published_sha256 j = Some (tp_sha256 plan)))) CorruptJournal
  | _ => guard_err (bool_decide (tj_published_size j <> None)
                    || bool_decide (tj_published_sha256 j <> None)) CorruptJournal
  end.

Definition mark_published (j : TransferJournal) (plan : TransferPlan)
  : result unit TransferError * TransferJournal :=
  if negb (bool_decide (tj_state j = Completed)) || negb (tj_bytes_received j =? tp_size_bytes plan)
  then (Err Terminal, j)
  else
    let j := j <| tj_state := Published |> <| tj_published_size := Some (tp_size_bytes plan) |>
               <| tj_published_sha256 := Some (tp_sha256 plan) |> in
    (validate_for j plan, j).

(** [u64::is_multiple_of] by a non-zero constant. *)
Definition validate_room_cursor (plan : TransferPlan) (next_sequence next_offset : Z)
  : result unit TransferError :=
  guard_err (tp_size_bytes plan <? next_offset) Gap ;?
  guard_err ((next_offset <? tp_size_bytes plan) && negb (next_offset mod MAX_CHUNK_BYTES =? 0)) Gap ;?
  let? expected_sequence :=
    (if next_offset =? 0 then Ok 0
     else let? up := ok_or (u64_checked_add next_offset (MAX_CHUNK_BYTES - 1)) Overflow in
          Ok (up / MAX_CHUNK_BYTES)) in
  guard_err (negb (next_sequence =? expected_sequence)) Gap.

(** ** Receiver *)

(** The [ChunkSink] trait. *)
Class ChunkSink (S : Type) : Type := {
  write_chunk : Z -> string -> S -> result unit string * S;
  finalize : S -> result unit string * S;
  cancel_sink : S -> result unit string * S
}.

Record TransferReceiver : Type := {
  tr_plan : TransferPlan;
  tr_journal : TransferJournal;
  tr_next_sequence : Z;
  tr_next_offset : Z;
  tr_hasher : string;
  tr_in_flight : bool
}.

#[export] Instance TransferReceiver_eta : Eta TransferReceiver := fun r =>
  {| tr_plan := tr_plan r; tr_journal := tr_journal r; tr_next_sequence := tr_next_sequence r;
     tr_next_offset := tr_next_offset r; tr_hasher := tr_hasher r; tr_in_flight := tr_in_flight r |}.

Definition receiver_new (now : Z) (plan : TransferPlan) (owner_id : string) (epoch fence expires_at_unix : Z)
  : result TransferReceiver TransferError :=
  plan_validate_at plan now ;?
  let? journal := journal_fresh plan owner_id epoch fence expires_at_unix in
  Ok {| tr_plan := plan; tr_journal := journal; tr_next_sequence := 0; tr_next_offset := 0;
        tr_hasher := ""; tr_in_flight := false |}.

Definition next_after (ack : option Z) : result Z TransferError :=
  match ack with
  | Some ack => ok_or (u64_checked_add ack 1) Overflow
  | None => Ok 0
  end.

Definition resume_from_reader (now : Z) (plan : TransferPlan) (journal : TransferJournal)
    (reads : list (result string string)) : result TransferReceiver TransferError :=
  plan_validate_at plan now ;?
  validate_for journal plan ;?
  guard_err (terminal (tj_state journal)) Terminal ;?
  let? hashed := hash_reader reads (tp_size_bytes plan) in
  guard_err (negb (fst hashed =? tj_bytes_received journal)) CorruptJournal ;?
  guard_err (negb (fst hashed =? 0)) (InvalidPlan "resume requires a seekable custody reader") ;?
  let? next_sequence := next_after (tj_contiguous_ack journal) in
  Ok {| tr_plan := plan; tr_journal := journal; tr_next_sequence := next_sequence;
        tr_next_offset := tj_bytes_received journal; tr_hasher := ""; tr_in_flight := false |}.

(** The read loop of [resume_from_part]. *)
Fixpoint read_all (reads : list (result string string)) (hasher : string) : result string TransferError :=
  match reads with
  | [] => Ok hasher
  | Err e :: _ => Err (Io e)
  | Ok bytes :: rest => if is_empty bytes then Ok hasher else read_all rest (hasher +:+ bytes)
  end.

(** [part] is the handle [open_owner_only_file_read] returned, at its start. *)
Definition resume_from_part (now : Z) (plan : TransferPlan) (journal : TransferJournal)
    (part : option RetainedFile) : result TransferReceiver TransferError :=
  plan_validate_at plan now ;?
  let? file := ok_or part CustodyUnavailable in
  match rf_fault file with Some e => Err (Io e) | None => Ok tt end ;?
  guard_err (negb (str_len (rf_content file) =? tj_bytes_received journal)) CorruptJournal ;?
  let? hasher := read_all (reads_of file) "" in
  validate_for journal plan ;?
  guard_err (terminal (tj_state journal)) Terminal ;?
  let? next_sequence := next_after (tj_contiguous_ack journal) in
  Ok {| tr_plan := plan; tr_journal := journal; tr_next_sequence := next_sequence;
        tr_next_offset := tj_bytes_received journal; tr_hasher := hasher; tr_in_flight := false |}.

Definition set_state (st : JournalState) (r : TransferReceiver) : TransferReceiver :=
  r <| tr_journal := (tr_journal r) <| tj_state := st |> |>.

Section receiver.
Context {S : Type} `{!ChunkSink S}.

(** A sink failure: the sink is cancelled, the journal marked failed. *)
Definition fail_sink (e : TransferError) (r : TransferReceiver) (k : S)
  : result unit TransferError * TransferReceiver * S :=
  let '(_, k) := cancel_sink k in (Err e, set_state Failed r, k).

(** The guards of [receive], up to the end offset. *)
Definition admit_chunk (now : Z) (r : TransferReceiver) (c : TransferChunk) : result Z TransferError :=
  plan_validate_at (tr_plan r) now ;?
  guard_err (terminal (tj_state (tr_journal r)) || tr_in_flight r) Terminal ;?
  chunk_validate c ;?
  guard_err ((ch_sequence c <? tr_next_sequence r) || (ch_offset c <? tr_next_offset r)) Replay ;?
  guard_err (negb (ch_sequence c =? tr_next_sequence r) || negb (ch_offset c =? tr_next_offset r)) Gap ;?
  let? end_ := ok_or (u64_checked_add (ch_offset c) (str_len (ch_bytes c))) Overflow in
  guard_err (tp_size_bytes (tr_plan r) <? end_) Overflow ;?
  Ok end_.

Definition receive (now : Z) (r : TransferReceiver) (k : S) (c : TransferChunk)
  : result unit TransferError * TransferReceiver * S :=
  match admit_chunk now r c with
  | Err e => (Err e, r, k)
  | Ok end_ =>
      let r := r <| tr_in_flight := true |> in
      match write_chunk (ch_offset c) (ch_bytes c) k with
      | (Err e, k) => fail_sink (Sink e) (r <| tr_in_flight := false |>) k
      | (Ok _, k) =>
          let r := r <| tr_hasher := tr_hasher r +:+ ch_bytes c |> in
          match u64_checked_add (tr_next_sequence r) 1 with
          | None => (Err Overflow, r, k)
          | Some next_sequence =>
              let r := r <| tr_next_sequence := next_sequence |> <| tr_next_offset := end_ |>
                         <| tr_journal := (tr_journal r) <| tj_contiguous_ack := Some (ch_sequence c) |>
                              <| tj_bytes_received := end_ |> <| tj_state := Receiving |> |>
                         <| tr_in_flight := false |> in
              if end_ =? tp_size_bytes (tr_plan r) then
                if negb (String.eqb (finalized (tr_hasher r)) (tp_sha256 (tr_plan r)))
                then fail_sink HashMismatch r k
                else match finalize k with
                     | (Err e, k) => fail_sink (Sink e) r k
                     | (Ok _, k) => (Ok tt, set_state Completed r, k)
                     end
              else (Ok tt, r, k)
          end
      end
  end.

Definition complete_empty (now : Z) (r : TransferReceiver) (k : S)
  : result unit TransferError * TransferReceiver * S :=
  match plan_validate_at (tr_plan r) now with
  | Err e => (Err e, r, k)
  | Ok _ =>
      if negb (tp_size_bytes (tr_plan r) =? 0) || terminal (tj_state (tr_journal r))
         || negb (tj_bytes_received (tr_journal r) =? 0)
      then (Err (InvalidPlan "empty completion binding"), r, k)
      else if negb (String.eqb (finalized (tr_hasher r)) (tp_sha256 (tr_plan r)))
      then (Err HashMismatch, set_state Failed r, k)
      else match finalize k with
           | (Err e, k) => fail_sink (Sink e) r k
           | (Ok _, k) => (Ok tt, set_state Completed r, k)
           end
  end.

Definition cancel (now : Z) (r : TransferReceiver) (k : S)
  : result unit TransferError * TransferReceiver * S :=
  match plan_validate_at (tr_plan r) now with
  | Err e => (Err e, r, k)
  | Ok _ =>
      if terminal (tj_state (tr_journal r)) then (Err Terminal, r, k)
      else match cancel_sink k with
           | (Err e, k) => (Err (Sink e), r, k)
           | (Ok _, k) => (Ok tt, set_state Cancelled r, k)
           end
  end.
End receiver.

(** ** The private part file *)

(** The last two fields are what the clock and the next system calls will answer: a
    fault is an error text and the number of bytes a failing write had already appended. *)
Record PartFileSink : Type := {
  pf_path : string;
  pf_file : option string;
  pf_expected_offset : Z;
  pf_expected_size : Z;
  pf_expected_sha256 : string;
  pf_expires_at_unix : Z;
  pf_closed : bool;
  pf_verified : bool;
  pf_now : Z;
  pf_faults : list (option (string * Z))
}.

#[export] Instance PartFileSink_eta : Eta PartFileSink := fun k =>
  {| pf_path := pf_path k; pf_file := pf_file k; pf_expected_offset := pf_expected_offset k;
     pf_expected_size := pf_expected_size k; pf_expected_sha256 := pf_expected_sha256 k;
     pf_expires_at_unix := pf_expires_at_unix k; pf_closed := pf_closed k;
     pf_verified := pf_verified k; pf_now := pf_now k; pf_faults := pf_faults k |}.

(** One system call. *)
Definition syscall (k : PartFileSink) : option (string * Z) * PartFileSink :=
  match pf_faults k with
  | [] => (None, k)
  | f :: rest => (f, k <| pf_faults := rest |>)
  end.

Definition part_write_chunk (offset : Z) (bytes : string) (k : PartFileSink)
  : result unit string * PartFileSink :=
  if pf_closed k || negb (offset =? pf_expected_offset k) || (MAX_CHUNK_BYTES <? str_len bytes)
  then (Err "invalid part write", k)
  else match pf_file k with
       | None => (Err "closed part", k)
       | Some content =>
           match syscall k with
           | (Some (e, written), k) => (Err e, k <| pf_file := Some (content +:+ take written bytes) |>)
           | (None, k) =>
               match syscall (k <| pf_file := Some (content +:+ bytes) |>) with
               | (Some (e, _), k) => (Err e, k)
               | (None, k) =>
                   match u64_checked_add (pf_expected_offset k) (str_len bytes) with
                   | None => (Err "overflow", k)
                   | Some next => (Ok tt, k <| pf_expected_offset := next |>)
                   end
               end
           end
       end.

Definition part_finalize (k : PartFileSink) : result unit string * PartFileSink :=
  if pf_expires_at_unix k <=? pf_now k then (Err "expired transfer grant", k)
  else if negb (pf_expected_offset k =? pf_expected_size k) then (Err "incomplete part", k)
  else match pf_file k with
       | None => (Err "closed part", k)
       | Some content =>
           match syscall k with
           | (Some (e, _), k) => (Err e, k)
           | (None, k) =>
               match syscall k with
               | (Some (e, _), k) => (Err e, k)
               | (None, k) =>
                   let '(fault, k) := syscall k in
                   let reads := match fault with
                                | Some (e, _) => [Err e]
                                | None => file_reads (String.length content) content
                                end in
                   match hash_reader reads (pf_expected_size k) with
                   | Err e => (Err (transfer_to_string e), k)
                   | Ok (bytes, sha) =>
                       if negb (bytes =? pf_expected_size k) || negb (String.eqb sha (pf_expected_sha256 k))
                       then (Err "part hash mismatch", k)
                       else (Ok tt, k <| pf_verified := true |>)
                   end
               end
           end
       end.

(** The handle is taken (and so closed) whatever the following calls answer. *)
Definition part_cancel (k : PartFileSink) : result unit string * PartFileSink :=
  let k := k <| pf_closed := true |> in
  match pf_file k with
  | None => (Err "closed part", k)
  | Some _ =>
      match syscall (k <| pf_file := None |>) with
      | (Some (e, _), k) => (Err e, k)
      | (None, k) =>
          match syscall k with
          | (Some (e, _), k) => (Err e, k)
          | (None, k) => (Ok tt, k)
          end
      end
  end.

#[export] Instance part_file_sink : ChunkSink PartFileSink := {|
  write_chunk := part_write_chunk;
  finalize := part_finalize;
  cancel_sink := part_cancel
|}.

(** [meta] and [meta'] are the two [metadata] calls on the handle: whether it is a plain
    regular file, and an I/O error of the second. *)
Definition validate_cached_position (k : PartFileSink) (expected_offset : Z)
    (meta : result bool string) (meta' : option string) : result unit TransferError :=
  guard_err (pf_closed k || negb (pf_expected_offset k =? expected_offset)) CorruptJournal ;?
  let? content := ok_or (pf_file k) CustodyUnavailable in
  let? regular := map_err Io meta in
  guard_err (negb regular) CustodyUnavailable ;?
  match meta' with Some e => Err (Io e) | None => Ok tt end ;?
  guard_err (negb (str_len content =? expected_offset)) CorruptJournal.

Definition verify_complete (k : PartFileSink) : result unit TransferError * PartFileSink :=
  let '(r, k) := part_finalize k in (map_err Sink r, k).
End flow.
