(* ===== verification/TransferRun.v ===== *)
(** * Transfers: what the receiver and the sender guarantee

    Theorems about [TransferFlow]: the receiver against any sink that keeps the
    [SinkSpec] contract, the sender while its source may change under it, and the two
    composed until the file has arrived. *)

From stdpp Require Import base list strings.
From Stdlib Require Import ZArith Lia Ascii.
From S2P Require Import Prelude RustStr RustBytes RustPath Transfer TransferFlow.

Open Scope Z_scope.

(** What a receiver relies on: an accepted write appends, an accepted [finalize] keeps
    the bytes, and a cancelled sink is closed ([None]) whatever [cancel] answers. *)
Class SinkSpec (S : Type) {SK : ChunkSink S} : Type := {
  sink_bytes : S -> option string;
  write_appends off b k k' :
    write_chunk off b k = (Ok tt, k') ->
    exists t, sink_bytes k = Some t /\ sink_bytes k' = Some (t +:+ b);
  finalize_keeps k k' :
    finalize k = (Ok tt, k') -> exists t, sink_bytes k = Some t /\ sink_bytes k' = Some t;
  cancel_closes k : sink_bytes (snd (cancel_sink k)) = None
}.

Section part.
Context {DG : Digests}.

Lemma syscall_file k o k' : syscall k = (o, k') -> pf_file k' = pf_file k.
Proof. unfold syscall. case_match; intros [= <- <-]; done. Qed.

Ltac part_cases :=
  repeat match goal with
  | H : syscall _ = (_, _) |- _ => apply syscall_file in H; cbn [update pf_file] in H
  | H : (Ok _, _) = (Ok _, _) |- _ => injection H as ?; subst
  | _ => progress (cbn [update pf_file] in *)
  | H : context [match ?x with _ => _ end] |- _ => let E := fresh "E" in destruct x eqn:E; try discriminate H
  end.

Lemma part_write_appends off b k k' :
  part_write_chunk off b k = (Ok tt, k') ->
  exists t, pf_file k = Some t /\ pf_file k' = Some (t +:+ b).
Proof.
  unfold part_write_chunk. intros H. part_cases. eexists; split; [reflexivity | congruence].
Qed.

Lemma part_finalize_keeps k k' :
  part_finalize k = (Ok tt, k') -> exists t, pf_file k = Some t /\ pf_file k' = Some t.
Proof.
  unfold part_finalize. intros H. part_cases. eexists; split; [reflexivity | congruence].
Qed.

Lemma part_cancel_closes k : pf_file (snd (part_cancel k)) = None.
Proof.
  destruct (part_cancel k) as [r k'] eqn:H. revert H. cbn [snd].
  unfold part_cancel. intros H. part_cases; injection H as ?; subst; cbn in *; congruence.
Qed.

#[export] Instance part_sink_spec : SinkSpec PartFileSink := {|
  sink_bytes := pf_file;
  write_appends := part_write_appends;
  finalize_keeps := part_finalize_keeps;
  cancel_closes := part_cancel_closes
|}.
End part.

Section receiver.
Context {DG : Digests} {S : Type} {SK : ChunkSink S} {SP : SinkSpec S}.

(** The operations a receiver is driven by, each with the clock it reads. *)
Inductive ReceiverOp : Type :=
| OpReceive (now : Z) (c : TransferChunk)
| OpCompleteEmpty (now : Z)
| OpCancel (now : Z).

Definition receiver_step (o : ReceiverOp) (r : TransferReceiver) (k : S)
  : result unit TransferError * TransferReceiver * S :=
  match o with
  | OpReceive now c => receive now r k c
  | OpCompleteEmpty now => complete_empty now r k
  | OpCancel now => cancel now r k
  end.

(** The payload an operation adds when it succeeds. *)
Definition payload (o : ReceiverOp) (res : result unit TransferError) : string :=
  match o, res with OpReceive _ c, Ok _ => ch_bytes c | _, _ => "" end.

(** A run, with the payloads of the accepted chunks put together. *)
Fixpoint receiver_run (os : list ReceiverOp) (r : TransferReceiver) (k : S)
  : string * TransferReceiver * S :=
  match os with
  | [] => ("", r, k)
  | o :: os =>
      let '(res, r, k) := receiver_step o r k in
      let '(got, r', k') := receiver_run os r k in
      (payload o res +:+ got, r', k')
  end.

(** While a transfer is open the rolling hash, the journal and the sink all hold the
    received bytes [got] (the sink may have been closed by a cancel that failed); once
    completed, they are the planned file. *)
Record received (r : TransferReceiver) (k : S) (got : string) : Prop := {
  rc_open :
    terminal (tj_state (tr_journal r)) = false -> tr_in_flight r = false ->
    tr_hasher r = got /\ tr_next_offset r = str_len got
    /\ tj_bytes_received (tr_journal r) = str_len got
    /\ next_after (tj_contiguous_ack (tr_journal r)) = Ok (tr_next_sequence r)
    /\ (sink_bytes k = Some got \/ sink_bytes k = None);
  rc_stuck : tr_in_flight r = true -> 0 < tp_size_bytes (tr_plan r);
  rc_completed :
    tj_state (tr_journal r) = Completed ->
    sink_bytes k = Some got /\ str_len got = tp_size_bytes (tr_plan r)
    /\ hash_bytes got = tp_sha256 (tr_plan r)
}.

Lemma admit_chunk_ok now r c e :
  admit_chunk now r c = Ok e ->
  terminal (tj_state (tr_journal r)) = false /\ tr_in_flight r = false
  /\ chunk_validate c = Ok tt /\ ch_sequence c = tr_next_sequence r /\ ch_offset c = tr_next_offset r
  /\ e = ch_offset c + str_len (ch_bytes c) /\ e <= tp_size_bytes (tr_plan r).
Proof.
  unfold admit_chunk. intros H. res_inv. bool_prop.
  match goal with E : u64_checked_add _ _ = Some _ |- _ => apply u64_checked_add_Some in E as [-> _] end.
  repeat match goal with u : unit |- _ => destruct u end. by repeat split.
Qed.

(** A closed receiver keeps nothing to prove but completion. *)
Lemma received_closed r k got :
  terminal (tj_state (tr_journal r)) = true -> tj_state (tr_journal r) <> Completed ->
  tr_in_flight r = false -> received r k got.
Proof. intros Ht Hc Hf. split; [congruence | congruence | done]. Qed.

Lemma fail_sink_received e r k res r' k' got :
  fail_sink e r k = (res, r', k') -> tr_in_flight r = false ->
  res = Err e /\ received r' k' got.
Proof.
  unfold fail_sink. destruct (cancel_sink k). intros [= <- <- <-] Hf. split; [done |].
  by apply received_closed.
Qed.

Lemma finalized_hash h sha : negb (String.eqb (finalized h) sha) = false -> hash_bytes h = sha.
Proof. intros H. bool_prop. by apply String.eqb_eq in H. Qed.

Lemma receive_received now r k c res r' k' got :
  received r k got -> receive now r k c = (res, r', k') ->
  received r' k' (got +:+ payload (OpReceive now c) res).
Proof.
  intros R. unfold receive. destruct (admit_chunk now r c) as [e|e] eqn:A;
    [|intros [= <- <- <-]; cbn; by rewrite str_app_nil_r].
  apply admit_chunk_ok in A as (Ht & Hf & Hc & Hs & Ho & He & Hle).
  destruct (rc_open _ _ _ R Ht Hf) as (Hh & Hn & Hb & Ha & Hk).
  apply chunk_validate_ok in Hc as (Hlen & _). pose proof (str_len_nonneg got).
  destruct (write_chunk _ _ k) as [[[]|we] k1] eqn:W.
  2:{ intros F. by eapply fail_sink_received in F as [-> F]. }
  apply write_appends in W as (t & Kt & Kt'). assert (t = got) as -> by naive_solver.
  cbn [payload]. destruct (u64_checked_add _ 1) as [n|] eqn:Q.
  2:{ intros [= <- <- <-]. cbn. rewrite str_app_nil_r. split; cbn; [done | lia |].
      intros C. rewrite C in Ht. discriminate. }
  cbn. rewrite Hh. assert (str_len (got +:+ ch_bytes c) = e) as Lg by (rewrite str_len_app; lia).
  assert (next_after (Some (ch_sequence c)) = Ok n) as Nn.
  { cbn. rewrite Hs. cbn in Q. by rewrite Q. }
  destruct (Z.eqb_spec e (tp_size_bytes (tr_plan r))) as [E|E].
  - destruct (negb _) eqn:M; [intros F; by eapply fail_sink_received in F as [-> F] |].
    apply finalized_hash in M. destruct (finalize k1) as [[[]|fe] k2] eqn:Fz.
    2:{ intros F; by eapply fail_sink_received in F as [-> F]. }
    intros [= <- <- <-]. apply finalize_keeps in Fz as (t & T1 & T2).
    split; cbn; [done | done |]. intros _. repeat split; [congruence | lia | done].
  - intros [= <- <- <-]. split; cbn; [|done|done]. intros _ _. naive_solver lia.
Qed.

Lemma complete_empty_received now r k res r' k' got :
  received r k got -> complete_empty now r k = (res, r', k') -> received r' k' got.
Proof.
  intros R. unfold complete_empty. destruct (plan_validate_at _ _); [|by intros [= <- <- <-]].
  destruct (negb (_ =? 0) || _ || _) eqn:G; [by intros [= <- <- <-] |]. bool_prop.
  destruct (tr_in_flight r) eqn:Hf; [apply (rc_stuck _ _ _ R) in Hf; lia |].
  destruct (rc_open _ _ _ R) as (Hh & Hn & Hb & Ha & Hk); [done | done |].
  destruct (negb _) eqn:M; [intros [= <- <- <-]; by apply received_closed |].
  apply finalized_hash in M. destruct (finalize k) as [[[]|fe] k2] eqn:Fz.
  2:{ intros F; by eapply fail_sink_received in F as [-> F]. }
  intros [= <- <- <-]. apply finalize_keeps in Fz as (u & T1 & T2).
  split; cbn; [done | congruence |]. intros _. naive_solver lia.
Qed.

Lemma cancel_received now r k res r' k' got :
  received r k got -> cancel now r k = (res, r', k') -> received r' k' got.
Proof.
  intros R. unfold cancel. destruct (plan_validate_at _ _); [|by intros [= <- <- <-]].
  destruct (terminal _) eqn:Ht; [by intros [= <- <- <-] |].
  pose proof (cancel_closes k) as C. destruct (cancel_sink k) as [[]k1]; cbn in C;
    intros [= <- <- <-].
  - split; cbn; [done | apply R | done].
  - split; [|apply R|intros E; rewrite E in Ht; discriminate].
    intros _ Hf. destruct (rc_open _ _ _ R Ht Hf). naive_solver.
Qed.

Lemma receiver_step_received o r k res r' k' got :
  received r k got -> receiver_step o r k = (res, r', k') ->
  received r' k' (got +:+ payload o res).
Proof.
  destruct o; cbn [receiver_step payload]; rewrite ?str_app_nil_r;
    [apply receive_received | apply complete_empty_received | apply cancel_received].
Qed.

Lemma receiver_run_received os r k got more r' k' :
  received r k got -> receiver_run os r k = (more, r', k') -> received r' k' (got +:+ more).
Proof.
  revert r k got more. induction os as [|o os IH]; intros r k got more R; cbn.
  - intros [= <- <- <-]. by rewrite str_app_nil_r.
  - destruct (receiver_step o r k) as [[res r1] k1] eqn:St.
    destruct (receiver_run os r1 k1) as [[m2 r2] k2] eqn:Rn. intros [= <- <- <-].
    rewrite str_app_assoc. eapply IH; [|exact Rn]. eapply receiver_step_received; eauto.
Qed.

Ltac flow_cases H :=
  repeat match type of H with
  | (_, _, _) = (_, _, _) => injection H as ? ? ?; subst
  | context [match ?x with _ => _ end] => let E := fresh "E" in destruct x eqn:E
  end.

(** The plan is fixed. *)
Lemma receiver_step_plan o r k res r' k' :
  receiver_step o r k = (res, r', k') -> tr_plan r' = tr_plan r.
Proof.
  destruct o; cbn [receiver_step]; unfold receive, complete_empty, cancel, fail_sink;
    intros H; flow_cases H; done.
Qed.

Lemma receiver_run_plan os r k more r' k' :
  receiver_run os r k = (more, r', k') -> tr_plan r' = tr_plan r.
Proof.
  revert r k more. induction os as [|o os IH]; intros r k more; cbn; [by intros [= <- <- <-] |].
  destruct (receiver_step o r k) as [[res r1] k1] eqn:St.
  destruct (receiver_run os r1 k1) as [[m2 r2] k2] eqn:Rn. intros [= <- <- <-].
  apply IH in Rn as ->. by eapply receiver_step_plan.
Qed.

(** How a receiver is opened: anew over an empty sink, or over the part file of an
    earlier generation whose bytes are in the sink again. *)
Inductive opened (now : Z) (plan : TransferPlan) : TransferReceiver -> string -> Prop :=
| opened_new owner epoch fence expires r :
    receiver_new now plan owner epoch fence expires = Ok r -> opened now plan r ""
| opened_part journal part r :
    rf_position part = 0 ->
    resume_from_part now plan journal (Some part) = Ok r -> opened now plan r (rf_content part).

Lemma read_all_file fuel content seen :
  (String.length content <= fuel)%nat -> read_all (file_reads fuel content) seen = Ok (seen +:+ content).
Proof.
  revert content seen. induction fuel as [|fuel IH]; intros content seen Hf.
  - assert (content = "") as -> by (destruct content; [done | cbn in Hf; lia]). by rewrite str_app_nil_r.
  - cbn [file_reads]. rewrite is_empty_len. destruct (Z.eqb_spec (str_len content) 0) as [E|E].
    { apply str_len_zero in E as ->. by rewrite str_app_nil_r. }
    pose proof (str_len_nonneg content). set (n := MAX_CHUNK_BYTES). assert (0 < n) as Hn by done.
    pose proof (take_len n content ltac:(lia)) as Lt. pose proof (drop_len n content ltac:(lia)) as Ld.
    cbn [read_all]. rewrite is_empty_len, (proj2 (Z.eqb_neq _ _)) by lia.
    rewrite IH by (unfold str_len in *; lia). by rewrite <- str_app_assoc, split_at_join.
Qed.

Lemma opened_received now plan r part k :
  opened now plan r part -> sink_bytes k = Some part ->
  tr_plan r = plan /\ terminal (tj_state (tr_journal r)) = false /\ received r k part.
Proof.
  intros [owner epoch fence expires r' H|journal f r' Hp H] Hk.
  - unfold receiver_new, journal_fresh in H. res_inv. split; [done |]. split; [done |].
    split; cbn; [|done|done]. intros _ _. naive_solver.
  - unfold resume_from_part in H. destruct (plan_validate_at plan now) as [[]|]; [|discriminate].
    cbn [rbind ok_or] in H. destruct (rf_fault f) eqn:Ff; [discriminate |]. cbn [rbind] in H.
    unfold reads_of, unread in H. rewrite Ff, Hp, drop_zero, read_all_file in H by done.
    res_inv. bool_prop. split; [done |]. split; [done |].
    split; cbn; [|done|intros C; by rewrite C in *]. intros _ _. naive_solver.
Qed.

(** C15: a receiver never confuses what it has.  Whatever chunks, cancellations and empty
    completions it is driven with, at whatever times and over whatever sink keeps the
    [SinkSpec] contract: while the transfer is open and the sequence counter has not run
    out, the running hash is over exactly the bytes resumed and accepted, the next offset
    and the journal's byte count are their length, the next sequence number follows the
    acknowledged one, and they are the bytes of the sink, unless a failed cancel closed
    it; and a journal that says [Completed] means the sink holds exactly those bytes,
    they have the planned length and their SHA-256 is the planned one. *)
Theorem receiver_exact now plan r part k os more r' k' :
  opened now plan r part -> sink_bytes k = Some part ->
  receiver_run os r k = (more, r', k') ->
  (terminal (tj_state (tr_journal r')) = false -> tr_in_flight r' = false ->
   tr_hasher r' = part +:+ more
   /\ tr_next_offset r' = str_len (part +:+ more)
   /\ tj_bytes_received (tr_journal r') = str_len (part +:+ more)
   /\ next_after (tj_contiguous_ack (tr_journal r')) = Ok (tr_next_sequence r')
   /\ (sink_bytes k' = Some (part +:+ more) \/ sink_bytes k' = None))
  /\ (tj_state (tr_journal r') = Completed ->
      sink_bytes k' = Some (part +:+ more) /\ str_len (part +:+ more) = tp_size_bytes plan
      /\ hash_bytes (part +:+ more) = tp_sha256 plan).
Proof.
  intros O Hk Hr. destruct (opened_received _ _ _ _ _ O Hk) as (<- & _ & R).
  rewrite <- (receiver_run_plan _ _ _ _ _ _ Hr).
  pose proof (receiver_run_received _ _ _ _ _ _ _ R Hr) as R'. split.
  - apply (rc_open _ _ _ R').
  - apply R'.
Qed.
End receiver.

(** ** The sender *)

Section sender.
Context {DG : Digests}.

(** What happens before each call: the time it reads and what others did to the file. *)
Definition Environment : Type := list (Z * (RetainedFile -> RetainedFile)).

(** Calls of [next_chunk] until one fails, the end is reported or the calls run out; the
    flag says that the end was reported. *)
Fixpoint send (env : Environment) (s : TransferSender)
  : result (list TransferChunk * bool) TransferError * TransferSender :=
  match env with
  | [] => (Ok ([], false), s)
  | (now, change) :: env =>
      match next_chunk now (s <| ts_file := change (ts_file s) |>) with
      | (Err e, s) => (Err e, s)
      | (Ok None, s) => (Ok ([], true), s)
      | (Ok (Some c), s) =>
          match send env s with
          | (Ok (cs, ended), s) => (Ok (c :: cs, ended), s)
          | (Err e, s) => (Err e, s)
          end
      end
  end.

Fixpoint chunk_bytes (cs : list TransferChunk) : string :=
  match cs with [] => "" | c :: cs => ch_bytes c +:+ chunk_bytes cs end.

(** Valid chunks at consecutive cursors. *)
Fixpoint contiguous (sequence offset : Z) (cs : list TransferChunk) : Prop :=
  match cs with
  | [] => True
  | c :: cs =>
      ch_sequence c = sequence /\ ch_offset c = offset /\ chunk_validate c = Ok tt
      /\ contiguous (sequence + 1) (offset + str_len (ch_bytes c)) cs
  end.

Lemma read_exact_ok want f b f' :
  0 <= want -> read_exact want f = (Ok b, f') ->
  b = take want (unread f) /\ str_len b = want /\ f' = f <| rf_position := rf_position f + want |>
  /\ rf_fault f = None.
Proof.
  unfold read_exact. intros Hw. repeat case_match; try discriminate. intros [= <- <-]. bool_prop.
  split_and!; try done. rewrite take_len by done. lia.
Qed.

Lemma chunk_new_ok sequence offset bytes c :
  chunk_new sequence offset bytes = Ok c ->
  ch_sequence c = sequence /\ ch_offset c = offset /\ ch_bytes c = bytes /\ chunk_validate c = Ok tt.
Proof.
  unfold chunk_new. intros H. res_inv. repeat match goal with u : unit |- _ => destruct u end. done.
Qed.

(** A chunk comes out at the sender's cursor, which then moves past it. *)
Lemma next_chunk_some now s c s' :
  0 <= ts_remaining s -> next_chunk now s = (Ok (Some c), s') ->
  ch_sequence c = ts_sequence s /\ ch_offset c = ts_offset s /\ chunk_validate c = Ok tt
  /\ str_len (ch_bytes c) = Z.min (ts_remaining s) MAX_CHUNK_BYTES
  /\ ts_plan s' = ts_plan s /\ ts_sequence s' = ts_sequence s + 1
  /\ ts_offset s' = ts_offset s + str_len (ch_bytes c)
  /\ ts_remaining s' = ts_remaining s - str_len (ch_bytes c)
  /\ ts_hasher s' = ts_hasher s +:+ ch_bytes c /\ ts_done s' = false.
Proof.
  intros Hr. unfold next_chunk. intros H. repeat case_match; try discriminate.
  injection H as <- <-. cbn in *.
  match goal with E : read_exact _ _ = _ |- _ => apply read_exact_ok in E as (_ & L & _) end;
    [|unfold MAX_CHUNK_BYTES; lia].
  match goal with E : chunk_new _ _ _ = _ |- _ => apply chunk_new_ok in E as (E1 & E2 & E3 & E4) end.
  repeat match goal with
  | E : u64_checked_add _ _ = Some _ |- _ => apply u64_checked_add_Some in E as [-> _]
  | E : u64_checked_sub _ _ = Some _ |- _ => apply u64_checked_sub_Some in E as [-> _]
  end.
  rewrite E3, L. done.
Qed.

Lemma str_len_nil : str_len "" = 0.
Proof. done. Qed.

Lemma next_chunk_end now s s' :
  ts_done s = false -> next_chunk now s = (Ok None, s') ->
  ts_remaining s = 0 /\ hash_bytes (ts_hasher s) = tp_sha256 (ts_plan s) /\ s' = s <| ts_done := true |>.
Proof.
  intros Hd. unfold next_chunk. rewrite Hd. intros H. repeat case_match; try discriminate.
  injection H as <-. bool_prop. cbn in *.
  split_and!; try done. by apply String.eqb_eq.
Qed.

(** What a run of the sender that met no error has done. *)
Record sent (s : TransferSender) (cs : list TransferChunk) (ended : bool) (s' : TransferSender) : Prop := {
  sn_plan : ts_plan s' = ts_plan s;
  sn_contiguous : contiguous (ts_sequence s) (ts_offset s) cs;
  sn_hasher : ts_hasher s' = ts_hasher s +:+ chunk_bytes cs;
  sn_offset : ts_offset s' = ts_offset s + str_len (chunk_bytes cs);
  sn_remaining : ts_remaining s' = ts_remaining s - str_len (chunk_bytes cs);
  sn_bound : str_len (chunk_bytes cs) <= ts_remaining s;
  sn_end : ended = true -> ts_remaining s' = 0 /\ hash_bytes (ts_hasher s') = tp_sha256 (ts_plan s)
}.

Lemma send_sent env s cs ended s' :
  0 <= ts_remaining s -> ts_done s = false ->
  send env s = (Ok (cs, ended), s') -> sent s cs ended s'.
Proof.
  revert s cs ended s'. induction env as [|[now change] env IH]; intros s cs ended s' Hr Hd; cbn.
  - intros [= <- <- <-]. split; cbn; rewrite ?str_app_nil_r, ?str_len_nil; done || lia.
  - destruct (next_chunk now _) as [[[c|]|] s1] eqn:N; [| |discriminate].
    + apply next_chunk_some in N as (Q1 & Q2 & V & L & P & Q & O & R & Hh & D); [|done]. cbn in *.
      assert (0 <= MAX_CHUNK_BYTES) by done.
      destruct (send env s1) as [[[cs1 e1]|] s2] eqn:Se; [|discriminate]. intros [= <- <- <-].
      apply IH in Se; [|lia|done]. destruct Se as [S1 S2 S3 S4 S5 S6 S7]. cbn.
      rewrite Q, O in S2. split; cbn; rewrite ?str_len_app; try congruence || lia || done.
      * rewrite S3, Hh. by rewrite str_app_assoc.
      * rewrite <- P. done.
    + apply next_chunk_end in N as (R & Hh & ->); [|done]. intros [= <- <- <-]. cbn in *.
      split; cbn; rewrite ?str_app_nil_r, ?str_len_nil; done || lia.
Qed.

Lemma hash_prefix_ok fuel rem h f h' f' :
  0 <= rem -> 0 <= rf_position f -> hash_prefix fuel rem h f = Ok (h', f') ->
  h' = h +:+ take rem (unread f) /\ rem <= str_len (unread f).
Proof.
  revert rem h f. induction fuel as [|fuel IH]; intros rem h f Hr Hp; cbn [hash_prefix];
    destruct (Z.eqb_spec rem 0) as [->|Hne]; try discriminate.
  1,2: intros [= <- <-]; rewrite take_zero, str_app_nil_r; auto using str_len_nonneg.
  assert (0 < MAX_CHUNK_BYTES) by done. set (w := Z.min rem MAX_CHUNK_BYTES).
  destruct (read_exact w f) as [[b|] f1] eqn:R; [|discriminate].
  apply read_exact_ok in R as (-> & L & -> & _); [|lia].
  unfold u64_checked_sub. rewrite (proj2 (Z.leb_le _ _)) by lia. cbn [ok_or rbind].
  intros T. apply IH in T; [|lia|cbn; lia].
  unfold unread in *. cbn in T. destruct T as [-> T]. rewrite <- drop_drop in T by lia.
  rewrite take_len in L by lia. rewrite drop_len in T by lia. split; [|lia].
  rewrite <- drop_drop by lia. rewrite <- str_app_assoc. f_equal.
  replace rem with (w + (rem - w)) at 2 by lia. by rewrite take_add by lia.
Qed.

Lemma from_retained_file_ok now plan f sequence offset s :
  0 <= offset -> from_retained_file now plan f sequence offset = Ok s ->
  ts_plan s = plan /\ ts_sequence s = sequence /\ ts_offset s = offset
  /\ ts_remaining s = tp_size_bytes plan - offset /\ 0 <= ts_remaining s /\ ts_done s = false
  /\ ts_hasher s = take offset (rf_content f) /\ str_len (ts_hasher s) = offset.
Proof.
  intros Ho. unfold from_retained_file. intros H. res_inv. cbn.
  match goal with p : string * RetainedFile |- _ => destruct p as [h' f'] end.
  match goal with E : u64_checked_sub _ _ = _ |- _ => apply u64_checked_sub_Some in E as [-> Hle] end.
  match goal with E : hash_prefix _ _ _ _ = _ |- _ => apply hash_prefix_ok in E as [Hp Hl] end;
    [|done|cbn; lia].
  unfold unread in *. cbn in *. rewrite drop_zero in *. subst.
  split_and!; try done || lia. rewrite take_len; lia.
Qed.

(** A sender is honest even when its source is not.  Whatever others do to the file
    between two calls, if the sender reports the end of the stream, the chunks it handed
    out are valid, start at the resumption cursor and follow each other without gap, and
    together with the resumed prefix they have the planned length and SHA-256. *)
Theorem sender_honest now plan f sequence offset s env cs s' :
  0 <= offset -> from_retained_file now plan f sequence offset = Ok s ->
  send env s = (Ok (cs, true), s') ->
  contiguous sequence offset cs
  /\ str_len (take offset (rf_content f) +:+ chunk_bytes cs) = tp_size_bytes plan
  /\ hash_bytes (take offset (rf_content f) +:+ chunk_bytes cs) = tp_sha256 plan.
Proof.
  intros Ho Hf Hs. apply from_retained_file_ok in Hf as (P & Q & O & R & R0 & D & Hh & L); [|done].
  apply send_sent in Hs; [|done|done]. destruct Hs as [S1 S2 S3 S4 S5 S6 S7].
  destruct (S7 eq_refl) as [E1 E2]. rewrite S3, Hh in E2. rewrite Hh in L.
  subst. rewrite str_len_app. split_and!; [done | lia | congruence].
Qed.

(** The cursors a relay accepts: whole chunks, but for the end of the file. *)
Lemma room_cursor_ok plan sequence offset :
  0 <= offset -> offset + MAX_CHUNK_BYTES <= u64_max ->
  validate_room_cursor plan sequence offset = Ok tt <->
  offset <= tp_size_bytes plan
  /\ (offset < tp_size_bytes plan -> offset mod MAX_CHUNK_BYTES = 0)
  /\ sequence = (offset + MAX_CHUNK_BYTES - 1) / MAX_CHUNK_BYTES.
Proof.
  intros H0 Hu. unfold validate_room_cursor, u64_checked_add.
  rewrite (proj2 (Z.leb_le (offset + _) _)) by lia. cbn [ok_or rbind]. rewrite Z.add_sub_assoc.
  set (n := (offset + MAX_CHUNK_BYTES - 1) / MAX_CHUNK_BYTES).
  assert ((if offset =? 0 then Ok 0 else Ok n) = @Ok Z TransferError n) as ->
    by (destruct (Z.eqb_spec offset 0); [subst; done | done]).
  clearbody n. cbn [rbind].
  destruct (Z.ltb_spec (tp_size_bytes plan) offset), (Z.ltb_spec offset (tp_size_bytes plan)),
    (Z.eqb_spec (offset mod MAX_CHUNK_BYTES) 0), (Z.eqb_spec sequence n);
    cbn [guard_err rbind andb negb]; split; intros; destruct_and?; split_and?; intros;
    first [done | lia | congruence | auto with lia].
Qed.

Lemma next_chunk_cursor now s c s' :
  0 <= ts_offset s -> ts_remaining s = tp_size_bytes (ts_plan s) - ts_offset s ->
  0 <= ts_remaining s -> tp_size_bytes (ts_plan s) + MAX_CHUNK_BYTES <= u64_max ->
  validate_room_cursor (ts_plan s) (ts_sequence s) (ts_offset s) = Ok tt ->
  next_chunk now s = (Ok (Some c), s') ->
  validate_room_cursor (ts_plan s) (ts_sequence s') (ts_offset s') = Ok tt.
Proof.
  intros H0 Hr H1 Hu V N. apply next_chunk_some in N as (_ & _ & CV & L & _ & -> & -> & _); [|done].
  apply chunk_validate_ok in CV as (L' & _).
  apply room_cursor_ok in V as (_ & Hm & ->); [|lia|lia].
  apply room_cursor_ok; [lia | lia |]. change MAX_CHUNK_BYTES with 65536 in *.
  split_and!; Z.div_mod_to_equations; lia.
Qed.

(** The cursor a sender shows the relay is always one the relay can check without any
    history: from a valid resumption cursor, every run that meets no error ends at a
    cursor [validate_room_cursor] accepts. *)
Theorem sender_cursor_checkable now plan f sequence offset s env cs ended s' :
  0 <= offset -> tp_size_bytes plan + MAX_CHUNK_BYTES <= u64_max ->
  validate_room_cursor plan sequence offset = Ok tt ->
  from_retained_file now plan f sequence offset = Ok s ->
  send env s = (Ok (cs, ended), s') ->
  validate_room_cursor plan (ts_sequence s') (ts_offset s') = Ok tt.
Proof.
  intros Ho Hu V Hf. apply from_retained_file_ok in Hf as (<- & Q & O & R & R0 & D & _); [|done].
  rewrite <- Q, <- O in V. rewrite <- O in Ho, R. clear Q O. revert s Ho Hu V R R0 D cs.
  induction env as [|[t change] env IH]; intros s Ho Hu V R R0 D cs; cbn; [by intros [= _ _ <-] |].
  destruct (next_chunk t _) as [[[c|]|] s1] eqn:N; [| |discriminate].
  - pose proof N as N'. apply next_chunk_cursor in N'; [|done..].
    apply next_chunk_some in N as (_ & _ & CV & L & P & Q & O & R' & _ & D'); [|done]. cbn in *.
    apply chunk_validate_ok in CV as (L' & _).
    destruct (send env s1) as [[[cs1 e1]|] s2] eqn:Se; [|discriminate]. intros [= _ -> <-].
    rewrite <- P in *. eapply IH; eauto; lia.
  - apply next_chunk_end in N as (_ & _ & ->); [|done]. by intros [= _ _ <-].
Qed.
End sender.

(** ** Concrete runs *)

Definition sample_receiver : TransferReceiver :=
  match receiver_new 1000 sample_plan "owner" 1 1 2000 with
  | Ok r => r
  | Err _ => {| tr_plan := sample_plan;
                tr_journal := {| tj_schema := 0; tj_plan_id := ""; tj_plan_sha256 := ""; tj_owner_id := "";
                                 tj_epoch := 0; tj_fence := 0; tj_state := Failed;
                                 tj_contiguous_ack := None; tj_bytes_received := 0;
                                 tj_expires_at_unix := 0; tj_published_size := None;
                                 tj_published_sha256 := None |};
                tr_next_sequence := 0; tr_next_offset := 0; tr_hasher := ""; tr_in_flight := false |}
  end.

Definition sample_part : PartFileSink :=
  {| pf_path := "xfer.part"; pf_file := Some ""; pf_expected_offset := 0; pf_expected_size := 5;
     pf_expected_sha256 := hash_bytes "hello"; pf_expires_at_unix := 2000; pf_closed := false;
     pf_verified := false; pf_now := 1000; pf_faults := [] |}.

Definition hello_chunk : TransferChunk :=
  {| ch_sequence := 0; ch_offset := 0; ch_bytes := "hello"; ch_sha256 := hash_bytes "hello" |}.

Definition sample_ops : list ReceiverOp :=
  [OpReceive 1000 sample_chunk; OpReceive 1001 hello_chunk; OpReceive 1002 hello_chunk].

Lemma sample_opened : opened 1000 sample_plan sample_receiver "".
Proof. apply (opened_new _ _ "owner" 1 1 2000). vm_compute. reflexivity. Qed.

Lemma receiver_exact_witness :
  exists r' k', receiver_run sample_ops sample_receiver sample_part = ("hello", r', k')
    /\ tj_state (tr_journal r') = Completed /\ sink_bytes k' = Some "hello"
    /\ hash_bytes "hello" = tp_sha256 sample_plan.
Proof.
  destruct (receiver_run sample_ops sample_receiver sample_part) as [[more r'] k'] eqn:R.
  assert (more = "hello" /\ tj_state (tr_journal r') = Completed) as [-> C]
    by (revert R; vm_compute; intros [= <- <- _]; split; reflexivity).
  exists r', k'. split; [reflexivity |]. split; [exact C |].
  assert (sink_bytes sample_part = Some "") as K by reflexivity.
  destruct (receiver_exact 1000 sample_plan sample_receiver "" sample_part sample_ops "hello" r' k'
              sample_opened K R) as [_ H].
  destruct (H C) as (H1 & _ & H2). split; [exact H1 | exact H2].
Defined.

Definition sample_source : RetainedFile :=
  {| rf_content := "hello"; rf_position := 0; rf_regular := true; rf_fault := None |}.

Definition sample_sender : TransferSender :=
  match from_retained_file 1000 sample_plan sample_source 0 0 with
  | Ok s => s
  | Err _ => {| ts_plan := sample_plan; ts_file := sample_source; ts_sequence := 0; ts_offset := 0;
                ts_remaining := 0; ts_hasher := ""; ts_done := true |}
  end.

Definition sample_env : Environment := [(1000, fun f => f); (1001, fun f => f)].

Lemma sender_honest_witness :
  exists s', send sample_env sample_sender = (Ok ([hello_chunk], true), s')
    /\ hash_bytes (take 0 "hello" +:+ chunk_bytes [hello_chunk]) = tp_sha256 sample_plan.
Proof.
  destruct (send sample_env sample_sender) as [res s'] eqn:R.
  assert (res = Ok ([hello_chunk], true)) as -> by (revert R; vm_compute; intros [= <- _]; reflexivity).
  exists s'. split; [reflexivity |].
  apply (sender_honest 1000 sample_plan sample_source 0 0 sample_sender sample_env [hello_chunk] s');
    [lia | vm_compute; reflexivity | exact R].
Defined.

Lemma sender_cursor_checkable_witness :
  exists s', send sample_env sample_sender = (Ok ([hello_chunk], true), s')
    /\ validate_room_cursor sample_plan (ts_sequence s') (ts_offset s') = Ok tt.
Proof.
  destruct (send sample_env sample_sender) as [res s'] eqn:R.
  assert (res = Ok ([hello_chunk], true)) as -> by (revert R; vm_compute; intros [= <- _]; reflexivity).
  exists s'. split; [reflexivity |].
  apply (sender_cursor_checkable 1000 sample_plan sample_source 0 0 sample_sender sample_env
           [hello_chunk] true s'); [lia | vm_compute; discriminate | | | exact R]; vm_compute; reflexivity.
Defined.
