(* ===== verification/TransferLive.v ===== *)
(** * Transfers: the file arrives

    The sender of [TransferFlow] composed with the receiver over a part file, every chunk
    travelling as an encoded frame.  When the source stays as planned, the clock stays
    before the grant's expiry and no system call fails, the transfer completes. *)

From stdpp Require Import base list strings.
From Stdlib Require Import ZArith Lia Ascii.
From S2P Require Import Prelude RustStr RustBytes RustPath Transfer TransferFlow TransferRun.

Open Scope Z_scope.

Section live.
Context {DG : Digests}.

(** One frame through the wire. *)
Definition deliver (now : Z) (r : TransferReceiver) (k : PartFileSink) (c : TransferChunk)
  : result unit TransferError * TransferReceiver * PartFileSink :=
  match chunk_encode c with
  | Err e => (Err e, r, k)
  | Ok frame =>
      match chunk_decode frame with
      | Err e => (Err e, r, k)
      | Ok c => receive now r k c
      end
  end.

(** Pull chunks and deliver them until the sender reports the end; an empty file is
    completed without a chunk.  [clock] gives the time of the n-th round from the end. *)
Fixpoint pump (clock : nat -> Z) (fuel : nat) (s : TransferSender) (r : TransferReceiver) (k : PartFileSink)
  : result unit TransferError * TransferReceiver * PartFileSink :=
  match fuel with
  | O => (Err Terminal, r, k)
  | S fuel =>
      match next_chunk (clock fuel) s with
      | (Err e, _) => (Err e, r, k)
      | (Ok None, _) =>
          if terminal (tj_state (tr_journal r)) then (Ok tt, r, k) else complete_empty (clock fuel) r k
      | (Ok (Some c), s) =>
          match deliver (clock fuel) r k c with
          | (Err e, r, k) => (Err e, r, k)
          | (Ok _, r, k) => pump clock fuel s r k
          end
      end
  end.

Context (plan : TransferPlan) (content : string).
Context (plan_ok : plan_validate plan = Ok tt).
Context (size_ok : tp_size_bytes plan = str_len content).
Context (size_u64 : str_len content + MAX_CHUNK_BYTES <= u64_max).
Context (hash_ok : tp_sha256 plan = hash_bytes content).

Lemma in_time now : now < xg_expires_at_unix (tp_grant plan) -> plan_validate_at plan now = Ok tt.
Proof.
  intros H. unfold plan_validate_at, grant_validate_at. rewrite plan_ok. cbn [rbind].
  assert (grant_validate (tp_grant plan) = Ok tt) as ->.
  { unfold plan_validate, from_verified in plan_ok.
    destruct (binding_validate _); [|discriminate]. cbn [rbind] in plan_ok.
    by destruct (grant_validate _) as [[]|]. }
  cbn [rbind]. by rewrite (proj2 (Z.leb_gt _ _)) by lia.
Qed.

(** The sender at offset [o] of the unchanged source. *)
Definition sender_at (o q : Z) (s : TransferSender) : Prop :=
  s = {| ts_plan := plan;
         ts_file := {| rf_content := content; rf_position := o; rf_regular := true; rf_fault := None |};
         ts_sequence := q; ts_offset := o; ts_remaining := str_len content - o;
         ts_hasher := take o content; ts_done := false |}.

Definition piece (o : Z) : string := take (Z.min (str_len content - o) MAX_CHUNK_BYTES) (drop o content).

Definition piece_chunk (q o : Z) : TransferChunk :=
  {| ch_sequence := q; ch_offset := o; ch_bytes := piece o; ch_sha256 := hash_bytes (piece o) |}.

Lemma piece_len o :
  0 <= o < str_len content -> str_len (piece o) = Z.min (str_len content - o) MAX_CHUNK_BYTES.
Proof. intros H. unfold piece, MAX_CHUNK_BYTES. rewrite take_len, drop_len by lia. lia. Qed.

Lemma take_piece o :
  0 <= o < str_len content -> take o content +:+ piece o = take (o + str_len (piece o)) content.
Proof.
  intros H. rewrite piece_len by done. unfold piece. rewrite take_add; [done | lia |].
  unfold MAX_CHUNK_BYTES. lia.
Qed.

Lemma piece_valid q o : 0 <= o < str_len content -> chunk_validate (piece_chunk q o) = Ok tt.
Proof.
  intros H. apply chunk_validate_ok. cbn. rewrite piece_len by done. unfold MAX_CHUNK_BYTES in *.
  split_and!; try done; lia.
Qed.

Lemma chunk_new_valid q o b :
  chunk_validate {| ch_sequence := q; ch_offset := o; ch_bytes := b; ch_sha256 := hash_bytes b |} = Ok tt ->
  chunk_new q o b = Ok {| ch_sequence := q; ch_offset := o; ch_bytes := b; ch_sha256 := hash_bytes b |}.
Proof.
  intros V. unfold chunk_new. pose proof V as V'. apply chunk_validate_ok in V' as (L & _). cbn in L.
  rewrite is_empty_len, (proj2 (Z.eqb_neq _ _)), (proj2 (Z.ltb_ge _ _)) by lia. cbn [orb guard_err rbind].
  by rewrite V.
Qed.

Lemma next_chunk_piece now s o q :
  now < xg_expires_at_unix (tp_grant plan) -> sender_at o q s ->
  0 <= o < str_len content -> 0 <= q <= o ->
  exists s', next_chunk now s = (Ok (Some (piece_chunk q o)), s')
             /\ sender_at (o + str_len (piece o)) (q + 1) s'.
Proof.
  intros Hn -> Ho Hq. unfold next_chunk. cbn [ts_plan]. rewrite in_time by done.
  cbn [ts_done ts_remaining]. rewrite (proj2 (Z.eqb_neq _ _)) by lia.
  pose proof (piece_len o Ho) as L. unfold MAX_CHUNK_BYTES in size_u64.
  unfold read_exact, unread. cbn [rf_fault rf_position rf_content ts_file].
  rewrite drop_len by lia.
  rewrite (proj2 (Z.ltb_ge _ _)) by lia. fold (piece o).
  cbn -[Z.add Z.sub Z.min MAX_CHUNK_BYTES chunk_new finalized piece take].
  unfold u64_checked_sub. rewrite (proj2 (Z.leb_le _ _)) by (unfold MAX_CHUNK_BYTES; lia).
  rewrite (chunk_new_valid q o (piece o)) by (by apply (piece_valid q)).
  unfold u64_checked_add. rewrite <- L, !(proj2 (Z.leb_le _ u64_max)) by lia.
  rewrite take_piece by done. set (o' := o + str_len (piece o)).
  assert ((str_len content - o - str_len (piece o) =? 0)
          && negb (String.eqb (finalized (take o' content)) (tp_sha256 plan)) = false) as ->.
  { destruct (Z.eqb_spec (str_len content - o - str_len (piece o)) 0) as [E|]; [|done].
    rewrite take_all by lia. by rewrite hash_ok, String.eqb_refl. }
  eexists; split; [done |]. unfold sender_at. cbn -[Z.add Z.sub]. unfold o'. by rewrite Z.sub_add_distr.
Qed.

(** A receiver and its part file holding the first [o] bytes. *)
Record receiver_at (o q : Z) (r : TransferReceiver) (k : PartFileSink) : Prop := {
  ra_plan : tr_plan r = plan;
  ra_open : terminal (tj_state (tr_journal r)) = false;
  ra_idle : tr_in_flight r = false;
  ra_sequence : tr_next_sequence r = q;
  ra_offset : tr_next_offset r = o;
  ra_bytes : tj_bytes_received (tr_journal r) = o;
  ra_hasher : tr_hasher r = take o content;
  ra_file : pf_file k = Some (take o content);
  ra_closed : pf_closed k = false;
  ra_expected : pf_expected_offset k = o;
  ra_size : pf_expected_size k = str_len content;
  ra_sha256 : pf_expected_sha256 k = hash_bytes content;
  ra_live : pf_now k < pf_expires_at_unix k;
  ra_faults : pf_faults k = []
}.

(** A finished transfer: the journal is completed and the verified part is the file. *)
Definition arrived (r : TransferReceiver) (k : PartFileSink) : Prop :=
  tj_state (tr_journal r) = Completed /\ pf_file k = Some content /\ pf_verified k = true.

Lemma syscall_none k : pf_faults k = [] -> syscall k = (None, k).
Proof. unfold syscall. by intros ->. Qed.

Lemma finalize_arrived k :
  pf_file k = Some content -> pf_expected_offset k = str_len content ->
  pf_expected_size k = str_len content -> pf_expected_sha256 k = hash_bytes content ->
  pf_now k < pf_expires_at_unix k -> pf_faults k = [] ->
  part_finalize k = (Ok tt, k <| pf_verified := true |>).
Proof.
  intros Hf Ho Hs Hh Hl Hq. unfold part_finalize.
  rewrite (proj2 (Z.leb_gt _ _)) by lia. rewrite Ho, Hs, Z.eqb_refl, Hf. cbn [negb].
  repeat (rewrite syscall_none by done; cbv beta iota).
  pose proof (str_len_nonneg content).
  assert (hash_reader (file_reads (String.length content) content) (str_len content)
          = Ok (str_len content, hash_bytes content)) as Hr.
  { fold (hash_file content (str_len content)).
    rewrite hash_file_spec by (unfold MAX_CHUNK_BYTES in *; lia). by rewrite Z.leb_refl. }
  rewrite Hs, Hr, Hh, Z.eqb_refl, String.eqb_refl. done.
Qed.

Lemma chunk_encode_total c : chunk_validate c = Ok tt -> exists f, chunk_encode c = Ok f.
Proof. intros V. eexists. by apply chunk_encode_ok. Qed.

Lemma admit_piece now r k o q :
  now < xg_expires_at_unix (tp_grant plan) -> receiver_at o q r k -> 0 <= o < str_len content ->
  admit_chunk now r (piece_chunk q o) = Ok (o + str_len (piece o)).
Proof.
  intros Hn R Ho. destruct R as [Rp Ro Ri Rs Rf _ _ _ _ _ _ _ _ _].
  pose proof (piece_len o Ho) as L. unfold MAX_CHUNK_BYTES in *.
  unfold admit_chunk. rewrite Rp, (in_time now Hn), Ro, Ri, (piece_valid q o Ho), Rs, Rf, size_ok.
  cbn [rbind guard_err orb negb ch_sequence ch_offset ch_bytes piece_chunk].
  rewrite !Z.ltb_irrefl, !Z.eqb_refl. cbn [rbind guard_err orb negb].
  unfold u64_checked_add. rewrite (proj2 (Z.leb_le _ u64_max)) by lia. cbn [rbind ok_or].
  by rewrite (proj2 (Z.ltb_ge _ _)) by lia.
Qed.

Lemma write_piece k o q r :
  receiver_at o q r k -> 0 <= o < str_len content ->
  part_write_chunk o (piece o) k =
  (Ok tt, k <| pf_file := Some (take (o + str_len (piece o)) content) |>
            <| pf_expected_offset := o + str_len (piece o) |>).
Proof.
  intros R Ho. destruct R as [_ _ _ _ _ _ _ Kf Kc Ke _ _ _ Kq].
  pose proof (piece_len o Ho) as L. unfold MAX_CHUNK_BYTES in *. unfold part_write_chunk.
  rewrite Kc, Ke, Z.eqb_refl, (proj2 (Z.ltb_ge _ _)), Kf by (unfold MAX_CHUNK_BYTES; lia).
  cbn [orb negb]. rewrite (syscall_none k) by done. cbv beta iota. rewrite syscall_none by done.
  cbv beta iota. rewrite take_piece by done. cbn [update PartFileSink_eta pf_expected_offset].
  unfold u64_checked_add. rewrite Ke, (proj2 (Z.leb_le _ u64_max)) by lia. done.
Qed.

Lemma deliver_piece now r k o q :
  now < xg_expires_at_unix (tp_grant plan) -> receiver_at o q r k ->
  0 <= o < str_len content -> 0 <= q <= o ->
  exists r' k', deliver now r k (piece_chunk q o) = (Ok tt, r', k')
    /\ (o + str_len (piece o) < str_len content /\ receiver_at (o + str_len (piece o)) (q + 1) r' k'
        \/ o + str_len (piece o) = str_len content /\ arrived r' k').
Proof.
  intros Hn R Ho Hq. pose proof (piece_valid q o Ho) as V. pose proof (piece_len o Ho) as L.
  pose proof (admit_piece now r k o q Hn R Ho) as A. pose proof (write_piece k o q r R Ho) as W.
  unfold MAX_CHUNK_BYTES in *. unfold deliver.
  destruct (chunk_encode_total _ V) as [f En]. rewrite En.
  apply chunk_encode_decode in En; [|cbn; lia|cbn; lia]. rewrite En.
  unfold receive. rewrite A. cbn [write_chunk part_file_sink ch_offset ch_bytes piece_chunk].
  rewrite W. destruct R as [Rp Ro Ri Rs Rf Rb Rh Kf Kc Ke Ks Kh Kl Kq].
  cbn -[Z.add piece part_finalize u64_checked_add finalized take].
  rewrite Rs, Rp, Rh, size_ok, take_piece by done. unfold u64_checked_add at 1.
  rewrite (proj2 (Z.leb_le _ u64_max)) by lia. set (o' := o + str_len (piece o)) in *.
  destruct (Z.eqb_spec o' (str_len content)) as [E|E].
  - rewrite take_all by lia. change (finalized content) with (hash_bytes content).
    rewrite hash_ok, String.eqb_refl. cbn [negb].
    rewrite finalize_arrived by (cbn; rewrite ?take_all; done || lia).
    eexists _, _. split; [done |]. by right.
  - eexists _, _. split; [done |]. left. split; [lia |]. by split.
Qed.

Context (clock : nat -> Z) (clock_ok : forall n, clock n < xg_expires_at_unix (tp_grant plan)).

Lemma next_chunk_finished now s q :
  now < xg_expires_at_unix (tp_grant plan) -> sender_at (str_len content) q s ->
  exists s', next_chunk now s = (Ok None, s').
Proof.
  intros Hn ->. unfold next_chunk. cbn [ts_plan]. rewrite in_time by done.
  cbn [ts_done ts_remaining]. rewrite Z.sub_diag. cbn -[finalized take].
  rewrite take_all by lia. change (finalized content) with (hash_bytes content).
  rewrite hash_ok, String.eqb_refl. cbn. eauto.
Qed.

Lemma pump_arrives fuel o q s r k :
  sender_at o q s -> receiver_at o q r k -> 0 <= o < str_len content -> 0 <= q <= o ->
  str_len content - o <= MAX_CHUNK_BYTES * (Z.of_nat fuel - 1) ->
  exists r' k', pump clock fuel s r k = (Ok tt, r', k') /\ arrived r' k'.
Proof.
  change (MAX_CHUNK_BYTES * (Z.of_nat fuel - 1)) with (65536 * (Z.of_nat fuel - 1)).
  revert o q s r k. induction fuel as [|fuel IH]; intros o q s r k Hs Hr Ho Hq Hf; [lia |].
  cbn [pump]. destruct (next_chunk_piece (clock fuel) s o q) as (s' & -> & Hs'); [done..|].
  destruct (deliver_piece (clock fuel) r k o q) as (r' & k' & -> & H); [done..|].
  pose proof (piece_len o Ho) as L. change MAX_CHUNK_BYTES with 65536 in L.
  destruct H as [[Hlt Hr']|[Heq Ha]].
  - eapply IH; [done | done | lia | lia | lia].
  - rewrite Heq in Hs'. destruct fuel as [|fuel]; [lia |]. cbn [pump].
    destruct (next_chunk_finished (clock fuel) s' (q + 1)) as (s2 & ->); [done..|].
    destruct Ha as [Ha Ha']. rewrite Ha. cbn [terminal]. by eexists _, _.
Qed.

Lemma pump_empty fuel q s r k :
  content = "" -> sender_at 0 q s -> receiver_at 0 q r k -> (0 < fuel)%nat ->
  exists r' k', pump clock fuel s r k = (Ok tt, r', k') /\ arrived r' k'.
Proof.
  intros Hc Hs R Hf. destruct fuel as [|fuel]; [lia |]. cbn [pump].
  assert (str_len content = 0) as Lc by (by rewrite Hc).
  destruct (next_chunk_finished (clock fuel) s q) as (s2 & ->); [done | by rewrite Lc |].
  destruct R as [Rp Ro Ri Rs Rf Rb Rh Kf Kc Ke Ks Kh Kl Kq]. rewrite Ro.
  rewrite take_all in Rh, Kf by lia. unfold complete_empty.
  rewrite Rp, in_time, size_ok, Lc, Ro, Rb, Rh by done. cbn [negb orb Z.eqb].
  change (finalized content) with (hash_bytes content). rewrite hash_ok, String.eqb_refl.
  cbn [negb finalize part_file_sink]. rewrite finalize_arrived by (done || lia).
  by eexists _, _.
Qed.

Lemma hash_prefix_total fuel rem h f :
  rf_fault f = None -> 0 <= rf_position f -> 0 <= rem <= str_len (unread f) -> rem <= Z.of_nat fuel ->
  hash_prefix fuel rem h f =
  Ok (h +:+ take rem (unread f), f <| rf_position := rf_position f + rem |>).
Proof.
  revert rem h f. induction fuel as [|fuel IH]; intros rem h f Hf Hp Hr Hl; cbn [hash_prefix].
  all: destruct (Z.eqb_spec rem 0) as [->|Hne];
    [rewrite take_zero, str_app_nil_r, Z.add_0_r; by destruct f | try lia].
  assert (0 < MAX_CHUNK_BYTES) by done. set (w := Z.min rem MAX_CHUNK_BYTES).
  unfold read_exact. rewrite Hf, (proj2 (Z.ltb_ge _ _)) by lia.
  unfold u64_checked_sub. rewrite (proj2 (Z.leb_le _ _)) by lia. cbn [ok_or rbind].
  unfold unread in *. rewrite drop_len in Hr by lia.
  rewrite IH; cbn -[drop take]; [|done|lia|rewrite <- drop_drop, !drop_len by lia; lia|lia].
  rewrite <- (drop_drop (rf_position f) w), <- str_app_assoc, <- take_add by lia.
  replace (rf_position f + w + (rem - w)) with (rf_position f + rem) by lia.
  by replace (w + (rem - w)) with rem by lia.
Qed.

Definition source : RetainedFile :=
  {| rf_content := content; rf_position := 0; rf_regular := true; rf_fault := None |}.

Lemma source_opens now q o :
  now < xg_expires_at_unix (tp_grant plan) -> 0 <= o <= str_len content ->
  exists s, from_retained_file now plan source q o = Ok s /\ sender_at o q s.
Proof.
  intros Hn Ho. unfold from_retained_file. rewrite in_time by done.
  change (validate_retained_file source) with (@Ok unit TransferError tt).
  change (reads_of source) with (file_reads (String.length (drop 0 content)) (drop 0 content)).
  rewrite drop_zero, size_ok. cbn [rbind]. rewrite (proj2 (Z.ltb_ge _ _)) by lia.
  cbn [rbind guard_err]. fold (hash_file content (str_len content)).
  rewrite hash_file_spec by (unfold MAX_CHUNK_BYTES in *; lia).
  rewrite Z.leb_refl, hash_ok. cbn [rbind guard_err fst snd].
  rewrite Z.eqb_refl, String.eqb_refl. cbn [rbind guard_err negb orb].
  rewrite hash_prefix_total; unfold unread; cbn -[drop take Z.sub];
    [|done|lia|rewrite drop_zero; lia|lia].
  unfold u64_checked_sub. rewrite (proj2 (Z.leb_le _ _)) by lia. cbn -[drop take Z.sub].
  eexists; split; [done |]. unfold sender_at. by rewrite drop_zero.
Qed.

(** The part file the receiver of a transfer is given. *)
Record part_ready (k : PartFileSink) (part : string) : Prop := {
  pr_file : pf_file k = Some part;
  pr_open : pf_closed k = false;
  pr_offset : pf_expected_offset k = str_len part;
  pr_size : pf_expected_size k = tp_size_bytes plan;
  pr_sha256 : pf_expected_sha256 k = tp_sha256 plan;
  pr_live : pf_now k < pf_expires_at_unix k;
  pr_faults : pf_faults k = []
}.

Lemma opened_at now r k o :
  opened now plan r (take o content) -> part_ready k (take o content) ->
  0 <= o <= str_len content -> receiver_at o (tr_next_sequence r) r k.
Proof.
  intros O [] Ho. assert (str_len (take o content) = o) as L by (rewrite take_len; lia).
  destruct (opened_received now plan r (take o content) k O) as (Hp & Ht & R); [done |].
  assert (tr_in_flight r = false) as Hi.
  { destruct O as [? ? ? ? ? H|? ? ? ? H]; unfold receiver_new, resume_from_part in H; by res_inv. }
  destruct (rc_open _ _ _ R Ht Hi) as (Hh & Hn & Hb & _).
  split; try done || congruence.
Qed.
End live.

(** A transfer finishes.  Take a plan for [content], a receiver opened anew or resumed
    from the part file of the first [o] bytes, and the sender reopened on the unchanged
    source at the receiver's cursor.  If the clock stays before the grant's expiry and no
    system call fails, pumping one frame per round for enough rounds to carry the rest
    (64 KiB each, one more to see the end) ends without error, with a completed journal
    and the verified part file equal to the source; an empty source is completed too. *)
Theorem transfer_completes {DG : Digests} plan content clock now fuel o r k :
  plan_validate plan = Ok tt -> tp_size_bytes plan = str_len content ->
  str_len content + MAX_CHUNK_BYTES <= u64_max -> tp_sha256 plan = hash_bytes content ->
  (forall n, clock n < xg_expires_at_unix (tp_grant plan)) ->
  now < xg_expires_at_unix (tp_grant plan) ->
  0 <= o < str_len content \/ (o = 0 /\ content = "") ->
  opened now plan r (take o content) -> 0 <= tr_next_sequence r <= o ->
  part_ready plan k (take o content) ->
  str_len content - o <= MAX_CHUNK_BYTES * (Z.of_nat fuel - 1) ->
  exists s r' k',
    from_retained_file now plan (source content) (tr_next_sequence r) o = Ok s
    /\ pump clock fuel s r k = (Ok tt, r', k') /\ arrived content r' k'.
Proof.
  intros Vp Hs Hu Hh Hc Hn Ho O Hq K Hf.
  assert (0 <= o <= str_len content) as Ho' by (destruct Ho as [|[-> ->]]; [lia | done]).
  destruct (source_opens plan content Vp Hs Hu Hh now (tr_next_sequence r) o Hn Ho') as (s & E & Hat).
  pose proof (opened_at plan content Hs Hh now r k o O K Ho') as R.
  destruct Ho as [Ho|[-> Hemp]].
  - destruct (pump_arrives plan content Vp Hs Hu Hh clock Hc fuel o _ s r k Hat R Ho Hq Hf)
      as (r' & k' & P & A). eauto 10.
  - destruct (pump_empty plan content Vp Hs Hu Hh clock Hc fuel _ s r k Hemp Hat R)
      as (r' & k' & P & A); [|eauto 10].
    change MAX_CHUNK_BYTES with 65536 in Hf. rewrite Hemp, str_len_nil in Hf. lia.
Qed.

Lemma transfer_completes_witness :
  exists s r' k',
    from_retained_file 1000 sample_plan (source "hello") (tr_next_sequence sample_receiver) 0 = Ok s
    /\ pump (fun _ => 1500) 2 s sample_receiver sample_part = (Ok tt, r', k') /\ arrived "hello" r' k'.
Proof.
  apply (transfer_completes sample_plan "hello" (fun _ => 1500) 1000 2 0 sample_receiver sample_part).
  - vm_compute. reflexivity.
  - reflexivity.
  - vm_compute. discriminate.
  - reflexivity.
  - intros _. vm_compute. reflexivity.
  - vm_compute. reflexivity.
  - left. vm_compute. split; [discriminate | reflexivity].
  - exact sample_opened.
  - vm_compute. split; discriminate.
  - split; vm_compute; reflexivity.
  - vm_compute. discriminate.
Defined.
