(* ===== verification/TransferDisk.v ===== *)
(** * The transfer store on disk ([crates/ownmesh-transfer/src/lib.rs])

    The private state directory of transfers: one flat map from file names to nodes.
    The owner-only file primitives ([crates/ownmesh-ipc/src/registry.rs]) are modelled by
    what they do to one name, and may fail: each takes the next outcome of a stream,
    either before it changed anything ([Early]) or after ([Late]).  Operations are
    programs of a state and error monad over the directory, in the order of the code. *)

From stdpp Require Import base list strings gmap.
From Stdlib Require Import ZArith Lia Ascii.
From S2P Require Import Prelude RustStr RustBytes RustPath Transfer TransferFlow.

Open Scope Z_scope.

(** ** Directory and monad *)

(** A node is a regular file or something else (a directory, a link). *)
Inductive Node : Type := Regular (bytes : string) | Special.

#[export] Instance Node_eq_dec : EqDecision Node.
Proof. solve_decision. Defined.

Inductive Fault : Type := NoFault | Early | Late.

Record JournalLimits : Type := {
  jm_max_journals : Z;
  jm_max_bytes : Z;
  jm_max_snapshots : Z;
  jm_max_snapshot_bytes : Z;
  jm_max_plans : Z;
  jm_max_plan_bytes : Z
}.

Definition default_journal_limits : JournalLimits :=
  {| jm_max_journals := 1024; jm_max_bytes := 16 * 1024; jm_max_snapshots := 64;
     jm_max_snapshot_bytes := 10 * 1024 * 1024 * 1024; jm_max_plans := 256;
     jm_max_plan_bytes := 1024 * 1024 |}.

(** The directory, the outcomes of the next file operations and the clock. *)
Record Disk : Type := {
  dk_files : gmap string Node;
  dk_faults : list Fault;
  dk_now : Z
}.

#[export] Instance Disk_eta : Eta Disk := fun d =>
  {| dk_files := dk_files d; dk_faults := dk_faults d; dk_now := dk_now d |}.

Definition M (A : Type) : Type := Disk -> result A TransferError * Disk.

#[export] Instance M_ret : MRet M := fun A a d => (Ok a, d).
#[export] Instance M_bind : MBind M := fun A B k m d =>
  match m d with
  | (Ok a, d) => k a d
  | (Err e, d) => (Err e, d)
  end.

Definition raise {A} (e : TransferError) : M A := fun d => (Err e, d).
Definition lift {A} (r : result A TransferError) : M A := fun d => (r, d).
Definition ensure (bad : bool) (e : TransferError) : M unit := lift (guard_err bad e).
Definition now_unix : M Z := fun d => (Ok (dk_now d), d).

(** A value or a default when the program fails; its effects stay. *)
Definition attempt {A} (m : M A) : M (result A TransferError) := fun d =>
  let '(r, d) := m d in (Ok r, d).

Fixpoint for_each {A} (f : A -> M unit) (l : list A) : M unit :=
  match l with
  | [] => mret tt
  | x :: l => f x ;; for_each f l
  end.

Fixpoint fold_m {A B} (f : B -> A -> M B) (acc : B) (l : list A) : M B :=
  match l with
  | [] => mret acc
  | x :: l => acc ← f acc x; fold_m f acc l
  end.

(** ** File primitives *)

Definition next_outcome : M Fault := fun d =>
  match dk_faults d with
  | [] => (Ok NoFault, d)
  | f :: rest => (Ok f, d <| dk_faults := rest |>)
  end.

Definition lookup_file (name : string) : M (option Node) := fun d => (Ok (dk_files d !! name), d).
Definition put_file (name : string) (n : Node) : M unit := fun d =>
  (Ok tt, d <| dk_files := <[name := n]> (dk_files d) |>).
Definition delete_file (name : string) : M unit := fun d =>
  (Ok tt, d <| dk_files := delete name (dk_files d) |>).

(** [Path::exists]. *)
Definition exists_ (name : string) : M bool :=
  n ← lookup_file name; mret (match n with Some _ => true | None => false end).

(** [owner_only_file_present]. *)
Definition owner_only_file_present (name : string) : M bool :=
  o ← next_outcome;
  n ← lookup_file name;
  match o, n with
  | NoFault, Some (Regular _) => mret true
  | NoFault, Some Special => raise CustodyUnavailable
  | NoFault, None => mret false
  | _, _ => raise (Io "symlink_metadata")
  end.

(** The owner-only primitives, with the error their caller maps a failure to. *)
Definition read_owner_only_file_bounded (name : string) (max_bytes : Z) (e : TransferError) : M string :=
  o ← next_outcome;
  n ← lookup_file name;
  match o, n with
  | NoFault, Some (Regular bytes) =>
      if (max_bytes =? 0) || (max_bytes <? str_len bytes) then raise e else mret bytes
  | _, _ => raise e
  end.

Definition open_owner_only_file_read (name : string) (e : TransferError) : M string :=
  o ← next_outcome;
  n ← lookup_file name;
  match o, n with
  | NoFault, Some (Regular bytes) => mret bytes
  | _, _ => raise e
  end.

Definition create_owner_only_file_new (name bytes : string) (e : TransferError) : M unit :=
  o ← next_outcome;
  n ← lookup_file name;
  match o, n with
  | Early, _ | _, Some _ => raise e
  | NoFault, None => put_file name (Regular bytes)
  | Late, None => put_file name (Regular bytes) ;; raise e
  end.

Definition remove_owner_only_file (name : string) (e : TransferError) : M unit :=
  o ← next_outcome;
  n ← lookup_file name;
  match o, n with
  | NoFault, Some (Regular _) => delete_file name
  | _, _ => raise e
  end.

(** [atomic_write_owner_only]: a late failure has already replaced the file. *)
Definition atomic_write_owner_only (name bytes : string) (e : TransferError) : M unit :=
  o ← next_outcome;
  n ← lookup_file name;
  match o, n with
  | Early, _ | _, Some Special => raise e
  | NoFault, _ => put_file name (Regular bytes)
  | Late, _ => put_file name (Regular bytes) ;; raise e
  end.

(** [remove_owner_only_file_retry]: 200 attempts. *)
Fixpoint retry {A} (n : nat) (m : M A) (e : TransferError) : M A :=
  match n with
  | O => raise e
  | S n => r ← attempt m; match r with Ok a => mret a | Err _ => retry n m e end
  end.

Definition remove_owner_only_file_retry (name : string) : M unit :=
  retry 200 (remove_owner_only_file name CustodyUnavailable) CustodyUnavailable.

Definition open_owner_only_file_read_retry (name : string) : M string :=
  retry 200 (open_owner_only_file_read name CustodyUnavailable) CustodyUnavailable.

(** [fs::read_dir], in some order. *)
Definition read_dir : M (list (string * Node)) := fun d =>
  match dk_faults d with
  | NoFault :: rest => (Ok (map_to_list (dk_files d)), d <| dk_faults := rest |>)
  | [] => (Ok (map_to_list (dk_files d)), d)
  | _ :: rest => (Err (Io "read_dir"), d <| dk_faults := rest |>)
  end.

Definition create_lock (present : bool) : M unit :=
  if present then mret tt
  else _ ← attempt (create_owner_only_file_new ".store.lock" "" CustodyUnavailable); mret tt.

(** [lock_store]: the lock file is created when missing, opened and locked. *)
Definition lock_store : M unit :=
  present ← exists_ ".store.lock";
  create_lock present ;;
  open_owner_only_file_read ".store.lock" CustodyUnavailable ;;
  o ← next_outcome;
  match o with NoFault => mret tt | _ => raise LeaseBusy end.

(** ** Names *)

(** [JournalStore::path], relative to the root. *)
Definition path (plan_id suffix : string) : result string TransferError :=
  guard_err (negb (starts_with plan_id "xfer_") || negb (str_len plan_id =? 37)
             || negb (str_all is_ascii_hexdigit (drop 5 plan_id))) (InvalidPlan "plan id") ;?
  Ok ("." +:+ plan_id +:+ suffix).

Definition part_path (plan_id : string) (epoch : Z) : result string TransferError :=
  guard_err (epoch =? 0) StaleFence ;?
  path plan_id ("." +:+ u64_to_string epoch +:+ ".part").

(** The plan id of a name [.<id><suffix>]. *)
Definition id_of_name (suffix name : string) : option string :=
  match strip_prefix "." name with
  | Some rest => strip_suffix suffix rest
  | None => None
  end.

Definition part_epoch (plan_id name : string) : option Z :=
  match strip_prefix ("." +:+ plan_id +:+ ".") name with
  | Some rest => match strip_suffix ".part" rest with
                 | Some digits => parse_unsigned u64_max digits
                 | None => None
                 end
  | None => None
  end.

Definition by_epoch (a b : Z * string) : comparison := Z.compare (fst a) (fst b).

(** One directory entry of [generation_parts]. *)
Definition add_part (plan_id : string) (parts : list (Z * string)) (entry : string * Node)
  : M (list (Z * string)) :=
  let '(name, node) := entry in
  match part_epoch plan_id name with
  | None => mret parts
  | Some epoch =>
      ensure (epoch =? 0) CustodyUnavailable ;;
      expected ← lift (part_path plan_id epoch);
      ensure (negb (String.eqb expected name)) CustodyUnavailable ;;
      match node with
      | Special => raise CustodyUnavailable
      | Regular _ => mret (parts ++ [(epoch, name)])
      end
  end.

Definition generation_parts (plan_id : string) : M (list (Z * string)) :=
  entries ← read_dir;
  parts ← fold_m (add_part plan_id) [] entries;
  mret (sort_by by_epoch parts).
