(* ===== verification/TransferStore.v ===== *)
(** * The journal store of transfers ([crates/ownmesh-transfer/src/lib.rs])

    Leases, fenced journals, generation-bound part files, plan records, source snapshots
    and their cleanup receipts, as programs over the directory of [TransferDisk].  JSON
    is the class [TransferCodec]: what [serde_json] writes for a record is read back as
    that record. *)

From stdpp Require Import base list strings gmap.
From Stdlib Require Import ZArith Lia Ascii.
From S2P Require Import Prelude RustStr RustBytes RustPath Transfer TransferFlow TransferDisk.

Open Scope Z_scope.

(** ** Cleanup receipts *)

Definition SOURCE_CLEANUP_SCHEMA : Z := 1.
Definition MAX_SOURCE_CLEANUP_TTL_SECS : Z := 24 * 60 * 60.

Record SourceCleanupBinding : Type := {
  cb_plan_id : string;
  cb_tenant_id : string;
  cb_principal_id : string;
  cb_device_id : string;
  cb_epoch : Z;
  cb_fence : Z
}.

Definition lower_hex_digit (c : ascii) : bool := is_ascii_digit c || in_range 97 102 (code c).

Definition cleanup_binding_validate (b : SourceCleanupBinding) : result unit TransferError :=
  guard_err (negb (starts_with (cb_plan_id b) "xfer_") || negb (str_len (cb_plan_id b) =? 37)
             || negb (str_all lower_hex_digit (drop 5 (cb_plan_id b)))
             || (cb_epoch b =? 0) || (cb_fence b =? 0))
    (InvalidBinding "source cleanup binding") ;?
  valid_id (cb_tenant_id b) "source cleanup tenant" ;?
  valid_id (cb_principal_id b) "source cleanup principal" ;?
  valid_id (cb_device_id b) "source cleanup device".

Inductive SourceCleanupPhase : Type := Intent | CleanupCompleted.

#[export] Instance SourceCleanupPhase_eq_dec : EqDecision SourceCleanupPhase.
Proof. solve_decision. Defined.

Record SourceCleanupReceipt : Type := {
  cr_schema : Z;
  cr_phase : SourceCleanupPhase;
  cr_plan_id : string;
  cr_plan_sha256 : string;
  cr_source_sha256 : string;
  cr_source_size : Z;
  cr_tenant_id : string;
  cr_principal_id : string;
  cr_device_id : string;
  cr_epoch : Z;
  cr_fence : Z;
  cr_expires_at_unix : Z
}.

#[export] Instance SourceCleanupReceipt_eta : Eta SourceCleanupReceipt := fun r =>
  {| cr_schema := cr_schema r; cr_phase := cr_phase r; cr_plan_id := cr_plan_id r;
     cr_plan_sha256 := cr_plan_sha256 r; cr_source_sha256 := cr_source_sha256 r;
     cr_source_size := cr_source_size r; cr_tenant_id := cr_tenant_id r;
     cr_principal_id := cr_principal_id r; cr_device_id := cr_device_id r;
     cr_epoch := cr_epoch r; cr_fence := cr_fence r; cr_expires_at_unix := cr_expires_at_unix r |}.

Definition receipt_binding (r : SourceCleanupReceipt) : SourceCleanupBinding :=
  {| cb_plan_id := cr_plan_id r; cb_tenant_id := cr_tenant_id r; cb_principal_id := cr_principal_id r;
     cb_device_id := cr_device_id r; cb_epoch := cr_epoch r; cb_fence := cr_fence r |}.

Definition cleanup_receipt_validate (r : SourceCleanupReceipt) : result unit TransferError :=
  cleanup_binding_validate (receipt_binding r) ;?
  guard_err (negb (cr_schema r =? SOURCE_CLEANUP_SCHEMA) || (cr_expires_at_unix r =? 0)
             || (default_max_bytes <? cr_source_size r)) CorruptJournal ;?
  validate_hash (cr_plan_sha256 r) "source cleanup plan sha256" ;?
  validate_hash (cr_source_sha256 r) "source cleanup source sha256" ;?
  guard_err (negb (String.eqb (cr_plan_id r) (plan_id_of (cr_plan_sha256 r)))) CorruptJournal.

Definition exact_binding (r : SourceCleanupReceipt) (b : SourceCleanupBinding) : bool :=
  String.eqb (cr_plan_id r) (cb_plan_id b) && String.eqb (cr_tenant_id r) (cb_tenant_id b)
  && String.eqb (cr_principal_id r) (cb_principal_id b) && String.eqb (cr_device_id r) (cb_device_id b)
  && (cr_epoch r =? cb_epoch b) && (cr_fence r =? cb_fence b).

(** ** Serialization *)

Class TransferCodec : Type := {
  journal_to_vec : TransferJournal -> string;
  journal_from_slice : string -> option TransferJournal;
  journal_codec j : journal_from_slice (journal_to_vec j) = Some j;
  plan_to_vec : TransferPlan -> string;
  plan_from_slice : string -> option TransferPlan;
  plan_codec p : plan_from_slice (plan_to_vec p) = Some p;
  receipt_to_vec : SourceCleanupReceipt -> string;
  receipt_from_slice : string -> option SourceCleanupReceipt;
  receipt_codec r : receipt_from_slice (receipt_to_vec r) = Some r
}.

Section store.
Context {DG : Digests} {TC : TransferCodec}.

(** [JournalStore]; the root is the directory itself. *)
Variable limits : JournalLimits.

(** ** Usage *)

Definition usize_max : Z := u64_max.

Definition snapshot_usage : M (Z * Z) :=
  entries ← read_dir;
  fold_m (fun '(count, bytes) '(name, node) =>
    if negb (starts_with name ".xfer_") then mret (count, bytes)
    else
      match node with
      | Special => raise CustodyUnavailable
      | Regular content =>
          accounted ←
            match id_of_name ".source.reserve" name, id_of_name ".source" name with
            | Some plan_id, _ =>
                expected ← lift (path plan_id ".source.reserve");
                if negb (String.eqb expected name) then mret None
                else
                  record ← read_owner_only_file_bounded name 512 CustodyUnavailable;
                  r ← lift (ok_or (parse_source_reservation record plan_id) CustodyUnavailable);
                  mret (Some (sr_bytes r))
            | None, Some plan_id =>
                expected ← lift (path plan_id ".source");
                if negb (String.eqb expected name) then mret None
                else
                  reserve ← lift (path plan_id ".source.reserve");
                  reserved ← exists_ reserve;
                  mret (if reserved : bool then None else Some (str_len content))
            | None, None => mret None
            end;
          match accounted with
          | None => mret (count, bytes)
          | Some accounted_bytes =>
              count ← lift (ok_or (u64_checked_add count 1) Overflow);
              bytes ← lift (ok_or (u64_checked_add bytes accounted_bytes) Overflow);
              mret (count, bytes)
          end
      end) (0, 0) entries.

Definition ensure_snapshot_capacity (additional_bytes : Z) : M unit :=
  '(count, bytes) ← snapshot_usage;
  if jm_max_snapshots limits <=? count then raise JournalQuotaExceeded
  else
    total ← lift (ok_or (u64_checked_add bytes additional_bytes) Overflow);
    ensure (jm_max_snapshot_bytes limits <? total) JournalQuotaExceeded.

Definition plan_usage : M (Z * Z) :=
  entries ← read_dir;
  fold_m (fun '(count, bytes) '(name, node) =>
    match id_of_name ".plan.json" name with
    | None => mret (count, bytes)
    | Some plan_id =>
        expected ← lift (path plan_id ".plan.json");
        if negb (String.eqb expected name) then mret (count, bytes)
        else
          match node with
          | Special => raise CustodyUnavailable
          | Regular content =>
              count ← lift (ok_or (u64_checked_add count 1) Overflow);
              bytes ← lift (ok_or (u64_checked_add bytes (str_len content)) Overflow);
              mret (count, bytes)
          end
    end) (0, 0) entries.

(** ** Journals *)

Definition load (plan : TransferPlan) : M (option TransferJournal) :=
  now ← now_unix;
  lift (plan_validate_at plan now) ;;
  name ← lift (path (tp_id plan) ".json");
  present ← exists_ name;
  if negb present then mret None
  else
    bytes ← read_owner_only_file_bounded name (jm_max_bytes limits) CorruptJournal;
    journal ← lift (ok_or (journal_from_slice bytes) CorruptJournal);
    lift (validate_for journal plan) ;;
    mret (Some journal).

Definition load_for_fence (plan : TransferPlan) (epoch fence : Z) : M TransferJournal :=
  j ← load plan;
  journal ← lift (ok_or j Terminal);
  ensure (negb (tj_epoch journal =? epoch) || negb (tj_fence journal =? fence)) StaleFence ;;
  mret journal.

Record JournalLease : Type := {
  jl_plan_id : string;
  jl_path : string;
  jl_body : string
}.

(** [acquire_inner]; [nonce] is the fresh UUID of the lease record. *)
Definition acquire_inner (nonce : string) (plan : TransferPlan) (now expires_at_unix : Z)
    (requested_fence : option (Z * Z)) : M JournalLease :=
  lock_store ;;
  lift (plan_validate_at plan now) ;;
  ensure (expires_at_unix <=? now) Terminal ;;
  name ← lift (path (tp_id plan) ".lock");
  let body := lease_record nonce (tp_id plan) expires_at_unix in
  let lease := {| jl_plan_id := tp_id plan; jl_path := name; jl_body := body |} in
  created ← attempt (create_owner_only_file_new name body LeaseBusy);
  match created with
  | Ok _ => mret lease
  | Err _ =>
      existing ← read_owner_only_file_bounded name 512 LeaseBusy;
      let expired := match parse_lease_expiry existing (tp_id plan) with
                     | Some expiry => expiry <=? now
                     | None => false
                     end in
      fenced_reclaim ←
        match requested_fence with
        | None => mret false
        | Some (epoch, fence) =>
            loaded ← attempt (load plan);
            mret (match loaded with
                  | Ok (Some journal) => (tj_epoch journal <? epoch) && (tj_fence journal <? fence)
                  | Ok None => (1 <? epoch) && (1 <? fence)
                  | Err _ => false
                  end)
        end;
      ensure (negb expired && negb fenced_reclaim) LeaseBusy ;;
      remove_owner_only_file name LeaseBusy ;;
      create_owner_only_file_new name body LeaseBusy ;;
      mret lease
  end.

Definition acquire (nonce : string) (plan : TransferPlan) (now expires_at_unix : Z) : M JournalLease :=
  acquire_inner nonce plan now expires_at_unix None.

Definition acquire_for_fence (nonce : string) (plan : TransferPlan) (now expires_at_unix epoch fence : Z)
  : M JournalLease :=
  ensure ((epoch =? 0) || (fence =? 0)) StaleFence ;;
  acquire_inner nonce plan now expires_at_unix (Some (epoch, fence)).

(** [Drop for JournalLease]: only its own record is removed, errors are ignored. *)
Definition release (lease : JournalLease) : M unit :=
  r ← attempt (open_owner_only_file_read ".store.lock" LeaseBusy);
  match r with
  | Err _ => mret tt
  | Ok _ =>
      o ← next_outcome;
      match o with
      | NoFault =>
          current ← attempt (read_owner_only_file_bounded (jl_path lease) 512 LeaseBusy);
          match current with
          | Ok current =>
              if String.eqb current (jl_body lease)
              then _ ← attempt (remove_owner_only_file (jl_path lease) LeaseBusy); mret tt
              else mret tt
          | Err _ => mret tt
          end
      | _ => mret tt
      end
  end.

Definition save_unlocked (lease : JournalLease) (journal : TransferJournal) : M unit :=
  ensure (negb (String.eqb (jl_plan_id lease) (tj_plan_id journal))) StaleFence ;;
  current ← read_owner_only_file_bounded (jl_path lease) 512 StaleFence;
  ensure (negb (String.eqb current (jl_body lease))) StaleFence ;;
  let bytes := journal_to_vec journal in
  ensure (jm_max_bytes limits <? str_len bytes) JournalQuotaExceeded ;;
  name ← lift (path (tj_plan_id journal) ".json");
  atomic_write_owner_only name bytes CustodyUnavailable.

Definition save (lease : JournalLease) (journal : TransferJournal) : M unit :=
  lock_store ;; save_unlocked lease journal.

Definition journal_name (name : string) : bool :=
  ends_with name ".json" && negb (ends_with name ".plan.json")
  && negb (ends_with name ".source-cleanup.json").

(** Rolling an existing journal to the relay's cursor. *)
Definition at_room_cursor (plan : TransferPlan) (existing : TransferJournal) (next_sequence next_offset : Z)
  : result TransferJournal TransferError :=
  let? local_next_sequence := next_after (tj_contiguous_ack existing) in
  validate_room_cursor plan local_next_sequence (tj_bytes_received existing) ;?
  validate_room_cursor plan next_sequence next_offset ;?
  guard_err ((local_next_sequence <? next_sequence) || (tj_bytes_received existing <? next_offset)) Gap ;?
  Ok (existing <| tj_contiguous_ack := u64_checked_sub next_sequence 1 |>
               <| tj_bytes_received := next_offset |>
               <| tj_state := if next_offset =? tp_size_bytes plan then Completed else Receiving |>).

Definition claim_existing (plan : TransferPlan) (existing : TransferJournal) (owner_id : string)
    (epoch fence now expires_at_unix : Z) (room_cursor : option (Z * Z)) : result TransferJournal TransferError :=
  guard_err (match tj_state existing with
             | Cancelled | Failed | Published => true
             | Completed => match room_cursor with None => true | Some _ => false end
             | _ => false
             end || (tj_expires_at_unix existing <=? now) || (epoch <=? tj_epoch existing)
             || (fence <=? tj_fence existing)) StaleFence ;?
  let existing := existing <| tj_owner_id := owner_id |> <| tj_epoch := epoch |> <| tj_fence := fence |>
                           <| tj_expires_at_unix := expires_at_unix |> in
  match room_cursor with
  | Some (next_sequence, next_offset) => at_room_cursor plan existing next_sequence next_offset
  | None => Ok existing
  end.

Definition claim_fresh (plan : TransferPlan) (owner_id : string) (epoch fence expires_at_unix : Z)
    (room_cursor : option (Z * Z)) : result TransferJournal TransferError :=
  let? fresh := journal_fresh plan owner_id epoch fence expires_at_unix in
  match room_cursor with
  | Some (next_sequence, next_offset) =>
      validate_room_cursor plan next_sequence next_offset ;?
      guard_err (negb (next_sequence =? 0) || negb (next_offset =? 0)) Gap ;?
      Ok (fresh <| tj_state := if tp_size_bytes plan =? 0 then Completed else Receiving |>)
  | None => Ok fresh
  end.

(** The body of [claim_inner], under the store lock. *)
Definition claim_unlocked (lease : JournalLease) (plan : TransferPlan) (owner_id : string)
    (epoch fence now expires_at_unix : Z) (room_cursor : option (Z * Z)) : M TransferJournal :=
  lift (plan_validate_at plan now) ;;
  ensure (negb (String.eqb (jl_plan_id lease) (tp_id plan)) || (expires_at_unix <=? now)) StaleFence ;;
  existing ← load plan;
  journal ←
    match existing with
    | Some existing =>
        lift (claim_existing plan existing owner_id epoch fence now expires_at_unix room_cursor)
    | None =>
        entries ← read_dir;
        ensure (jm_max_journals limits <=? zlen (List.filter (fun e => journal_name (fst e)) entries))
          JournalQuotaExceeded ;;
        lift (claim_fresh plan owner_id epoch fence expires_at_unix room_cursor)
    end;
  save_unlocked lease journal ;;
  mret journal.

Definition claim_inner (lease : JournalLease) (plan : TransferPlan) (owner_id : string)
    (epoch fence now expires_at_unix : Z) (room_cursor : option (Z * Z)) : M TransferJournal :=
  lock_store ;;
  claim_unlocked lease plan owner_id epoch fence now expires_at_unix room_cursor.

Definition claim (lease : JournalLease) (plan : TransferPlan) (owner_id : string)
    (epoch fence now expires_at_unix : Z) : M TransferJournal :=
  claim_inner lease plan owner_id epoch fence now expires_at_unix None.

Definition claim_at_room_cursor (lease : JournalLease) (plan : TransferPlan) (owner_id : string)
    (epoch fence now expires_at_unix next_sequence next_offset : Z) : M TransferJournal :=
  claim_inner lease plan owner_id epoch fence now expires_at_unix (Some (next_sequence, next_offset)).
End store.
