(* ===== verification/TransferParts.v ===== *)
(** * Generation parts and publication ([crates/ownmesh-transfer/src/lib.rs])

    [PartFileSink::create], which moves the durable prefix of a transfer into a fresh file
    of the new generation, and the publication of a completed part into the destination
    workspace, whose two publishing operations are the class [DestinationWorkspace]. *)

From stdpp Require Import base list strings gmap.
From Stdlib Require Import ZArith Lia Ascii.
From S2P Require Import Prelude RustStr RustBytes RustPath Transfer TransferFlow TransferDisk TransferStore.

Open Scope Z_scope.

(** [ownmesh_fs::FsError], with the data the callers look at. *)
Inductive FsError : Type :=
| FsIo (already_exists : bool)
| EscapesWorkspace
| GitWorktreeOutsideWorkspace
| NotFound
| FsHashMismatch (expected actual : string)
| InvalidPath (message : string)
| NotAFile
| NotADirectory
| SymlinkOrReparse
| CrossBoundaryHardlink
| CrossMount
| EntryLimit
| TooLarge
| Patch (message : string).

Definition map_publish_fs_error (e : FsError) : TransferError :=
  match e with
  | FsIo true => DestinationExists
  | NotFound => DestinationMissing
  | FsHashMismatch expected actual => DestinationHashMismatch expected actual
  | InvalidPath message =>
      if String.eqb message "restricted retained transfer publish is unsupported on this platform"
      then PlatformUnsupported else CustodyUnavailable
  | _ => CustodyUnavailable
  end.

(** The publishing half of [ownmesh_fs::WorkspaceRoot]: relative path, verified content
    and, for a replacement, the expected old and the new hash. *)
Class DestinationWorkspace (W : Type) : Type := {
  publish_no_replace : string -> string -> W -> result unit FsError * W;
  publish_replace_if_hash : string -> string -> string -> string -> W -> result unit FsError * W
}.

Section parts.
Context {DG : Digests} {TC : TransferCodec}.
Variable limits : JournalLimits.

(** ** A new generation *)

Definition part_len (name : string) : M Z :=
  o ← next_outcome;
  n ← lookup_file name;
  match o, n with
  | NoFault, Some (Regular content) => mret (str_len content)
  | NoFault, Some Special => mret 0
  | _, _ => raise (Io "metadata")
  end.

(** The bytes the existing parts of a plan hold. *)
Definition retired_usage (size_bytes : Z) (existing : list (Z * string)) : M Z :=
  fold_m (fun total '(_, candidate) =>
    len ← part_len candidate;
    ensure (size_bytes <? len) JournalQuotaExceeded ;;
    lift (ok_or (u64_checked_add total len) Overflow)) 0 existing.

(** [existing.iter().rev().find(epoch' < epoch)]. *)
Definition predecessor_of (epoch : Z) (existing : list (Z * string)) : option (Z * string) :=
  List.find (fun e => fst e <? epoch) (rev existing).

(** The [staged] closure: copy the durable prefix of the predecessor. *)
Definition stage_part (name : string) (predecessor : option (Z * string)) (resume_at : Z) : M unit :=
  content ← open_owner_only_file_read name CustodyUnavailable;
  match predecessor with
  | None => mret tt
  | Some (_, predecessor) =>
      prior ← open_owner_only_file_read_retry predecessor;
      ensure (str_len prior <? resume_at) CorruptJournal ;;
      o ← next_outcome;
      match o with
      | NoFault => put_file name (Regular (content +:+ take resume_at prior))
      | Early => raise (Io "copy")
      | Late => put_file name (Regular (content +:+ take resume_at prior)) ;; raise (Io "copy")
      end
  end ;;
  o ← next_outcome;
  match o with NoFault => mret tt | _ => raise (Io "sync_all") end.

(** Removing the parts of earlier generations; a failure takes the new part back. *)
Fixpoint retire_parts (name : string) (existing : list (Z * string)) : M unit :=
  match existing with
  | [] => mret tt
  | (_, retired) :: rest =>
      r ← attempt (remove_owner_only_file_retry retired);
      match r with
      | Ok _ => retire_parts name rest
      | Err _ => _ ← attempt (remove_owner_only_file_retry name); raise LeaseBusy
      end
  end.

Definition new_generation (name : string) (epoch resume_at : Z) (existing : list (Z * string)) : M unit :=
  predecessor ←
    lift (if 0 <? resume_at
          then let? p := ok_or (predecessor_of epoch existing) CorruptJournal in Ok (Some p)
          else Ok None);
  create_owner_only_file_new name "" LeaseBusy ;;
  staged ← attempt (stage_part name predecessor resume_at);
  match staged with
  | Err error => _ ← attempt (remove_owner_only_file_retry name); raise error
  | Ok _ => retire_parts name existing
  end.

(** [PartFileSink::create]; the sink answers its own later calls from [faults]. *)
Definition create_part (faults : list (option (string * Z))) (plan : TransferPlan) (epoch resume_at : Z)
  : M PartFileSink :=
  now ← now_unix;
  lift (plan_validate_at plan now) ;;
  ensure (tp_size_bytes plan <? resume_at) CorruptJournal ;;
  name ← lift (part_path (tp_id plan) epoch);
  existing ← generation_parts (tp_id plan);
  ensure (1 <? zlen existing) JournalQuotaExceeded ;;
  retired_bytes ← retired_usage (tp_size_bytes plan) existing;
  ensure (tp_size_bytes plan <? retired_bytes) JournalQuotaExceeded ;;
  both ← lift (ok_or (u64_checked_add retired_bytes resume_at) Overflow);
  ensure (Z.min (2 * tp_size_bytes plan) u64_max <? both) JournalQuotaExceeded ;;
  (if existsb (fun e => String.eqb (snd e) name) existing then mret tt
   else new_generation name epoch resume_at existing) ;;
  content ← open_owner_only_file_read name CustodyUnavailable;
  ensure (negb (str_len content =? resume_at)) CorruptJournal ;;
  mret {| pf_path := name; pf_file := Some content; pf_expected_offset := resume_at;
          pf_expected_size := tp_size_bytes plan; pf_expected_sha256 := tp_sha256 plan;
          pf_expires_at_unix := xg_expires_at_unix (tp_grant plan); pf_closed := false;
          pf_verified := false; pf_now := now; pf_faults := faults |}.

(** ** Publication *)

Definition open_verified_completed_part (plan : TransferPlan) : M string :=
  now ← now_unix;
  lift (plan_validate_at plan now) ;;
  j ← load limits plan;
  journal ← lift (ok_or j Terminal);
  ensure (negb (bool_decide (tj_state journal = Completed))
          || negb (tj_bytes_received journal =? tp_size_bytes plan)) Terminal ;;
  part ← lift (part_path (tp_id plan) (tj_epoch journal));
  content ← open_owner_only_file_read part CustodyUnavailable;
  hashed ← lift (hash_file content (tp_size_bytes plan));
  ensure (negb (fst hashed =? tp_size_bytes plan) || negb (String.eqb (snd hashed) (tp_sha256 plan)))
    HashMismatch ;;
  mret content.

Section publish.
Context {W : Type} {DW : DestinationWorkspace W}.

(** [publish_completed]: the outcome, the workspace and the directory afterwards. *)
Definition publish_completed (plan : TransferPlan) (w : W) (d : Disk) : result unit TransferError * W * Disk :=
  match open_verified_completed_part plan d with
  | (Err e, d) => (Err e, w, d)
  | (Ok content, d) =>
      let dest := tb_destination_relative_path (tp_binding plan) in
      let '(r, w) :=
        match tp_overwrite_expected_sha256 plan with
        | Some expected => publish_replace_if_hash dest content expected (tp_sha256 plan) w
        | None => publish_no_replace dest content w
        end in
      (map_err map_publish_fs_error r, w, d)
  end.
End publish.

Definition cleanup_published_generation_parts (plan : TransferPlan) : M Z :=
  now ← now_unix;
  lift (plan_validate_at plan now) ;;
  lock_store ;;
  j ← load limits plan;
  journal ← lift (ok_or j Terminal);
  ensure (negb (bool_decide (tj_state journal = Published))
          || negb (tj_bytes_received journal =? tp_size_bytes plan)) Terminal ;;
  part ← lift (part_path (tp_id plan) (tj_epoch journal));
  present ← owner_only_file_present part;
  if negb present then mret 0
  else
    remove_owner_only_file_retry part ;;
    still ← owner_only_file_present part;
    ensure still CustodyUnavailable ;;
    mret 1.

(** The handle must be positioned at its start, as the callers pass it. *)
Definition verify_published_destination_handle (plan : TransferPlan) (f : RetainedFile)
  : M RetainedFile :=
  now ← now_unix;
  lift (plan_validate_at plan now) ;;
  lift (match rf_fault f with Some e => Err (Io e) | None => Ok tt end) ;;
  ensure (negb (rf_regular f) || negb (str_len (rf_content f) =? tp_size_bytes plan)) DestinationExists ;;
  hashed ← lift (hash_reader (reads_of f) (tp_size_bytes plan));
  ensure (negb (fst hashed =? tp_size_bytes plan) || negb (String.eqb (snd hashed) (tp_sha256 plan)))
    DestinationExists ;;
  mret (f <| rf_position := 0 |>).
End parts.
