(* ===== verification/TransferSource.v ===== *)
(** * Plan records, source snapshots and cleanup ([crates/ownmesh-transfer/src/lib.rs])

    The plan records of the store, the private snapshot a source is sent from, the
    durable two-phase cleanup of a finished source, and the sweep of expired state. *)

From stdpp Require Import base list strings gmap.
From Stdlib Require Import ZArith Lia Ascii.
From S2P Require Import Prelude RustStr RustBytes RustPath Transfer TransferFlow TransferDisk TransferStore.

Open Scope Z_scope.

Section source.
Context {DG : Digests} {TC : TransferCodec}.
Variable limits : JournalLimits.

(** ** Sweeping expired state *)

(** One journal of the first pass: its name and, when expired, its plan id. *)
Definition check_journal (now : Z) (name : string) : M (option string) :=
  bytes ← read_owner_only_file_bounded name (jm_max_bytes limits) CorruptJournal;
  journal ← lift (ok_or (journal_from_slice bytes) CorruptJournal);
  ensure (negb (tj_schema journal =? JOURNAL_SCHEMA)) CorruptJournal ;;
  expected ← lift (path (tj_plan_id journal) ".json");
  ensure (negb (String.eqb expected name) || (tj_epoch journal =? 0) || (tj_fence journal =? 0))
    CorruptJournal ;;
  mret (if tj_expires_at_unix journal <=? now then Some (tj_plan_id journal) else None).

Definition remove_if_present (name : string) : M unit :=
  present ← exists_ name;
  if present : bool then remove_owner_only_file name CustodyUnavailable else mret tt.

(** Everything of an expired journal; the journal goes after its parts and snapshot. *)
Definition remove_expired_journal (journal_path plan_id : string) : M unit :=
  parts ← generation_parts plan_id;
  for_each (fun '(_, part) => remove_owner_only_file part CustodyUnavailable) parts ;;
  source ← lift (path plan_id ".source");
  n ← lookup_file source;
  match n with
  | Some Special => raise CustodyUnavailable
  | Some (Regular _) => remove_owner_only_file source CustodyUnavailable
  | None => mret tt
  end ;;
  reservation ← lift (path plan_id ".source.reserve");
  remove_if_present reservation ;;
  remove_owner_only_file journal_path CustodyUnavailable ;;
  plan ← lift (path plan_id ".plan.json");
  remove_if_present plan.

Definition sweep_journals (now : Z) : M Z :=
  entries ← read_dir;
  let names := List.filter journal_name (map fst entries) in
  ensure (jm_max_journals limits <? zlen names) JournalQuotaExceeded ;;
  expired ← fold_m (fun expired name =>
               r ← check_journal now name;
               mret (match r with Some plan_id => expired ++ [(name, plan_id)] | None => expired end))
             [] names;
  for_each (fun '(name, plan_id) => remove_expired_journal name plan_id) expired ;;
  mret (zlen expired).

(** Plan records: expired ones go with their snapshot, the others are live. *)
Definition sweep_plans (now : Z) : M (Z * list string) :=
  entries ← read_dir;
  fold_m (fun '(removed, live) '(name, _) =>
    match id_of_name ".plan.json" name with
    | None => mret (removed, live)
    | Some plan_id =>
        expected ← lift (path plan_id ".plan.json");
        if negb (String.eqb expected name) then mret (removed, live)
        else
          bytes ← read_owner_only_file_bounded name (jm_max_bytes limits) CorruptJournal;
          plan ← lift (ok_or (plan_from_slice bytes) CorruptJournal);
          ensure (negb (String.eqb (tp_id plan) plan_id)) CorruptJournal ;;
          if xg_expires_at_unix (tp_grant plan) <=? now then
            source ← lift (path plan_id ".source");
            remove_if_present source ;;
            reservation ← lift (path plan_id ".source.reserve");
            remove_if_present reservation ;;
            remove_owner_only_file name CustodyUnavailable ;;
            mret (removed + 1, live)
          else mret (removed, plan_id :: live)
    end) (0, []) entries.

(** Snapshots whose plan is gone and that nobody is staging. *)
Definition sweep_sources (live : list string) : M Z :=
  entries ← read_dir;
  fold_m (fun removed '(name, _) =>
    match id_of_name ".source" name with
    | None => mret removed
    | Some plan_id =>
        expected ← lift (path plan_id ".source");
        if negb (String.eqb expected name) || bool_decide (plan_id ∈ live) then mret removed
        else
          reserve ← lift (path plan_id ".source.reserve");
          reserved ← exists_ reserve;
          if reserved : bool then mret removed
          else remove_owner_only_file name CustodyUnavailable ;; mret (removed + 1)
    end) 0 entries.

Definition sweep_reservations (now : Z) : M Z :=
  entries ← read_dir;
  fold_m (fun removed '(name, _) =>
    match id_of_name ".source.reserve" name with
    | None => mret removed
    | Some plan_id =>
        expected ← lift (path plan_id ".source.reserve");
        if negb (String.eqb expected name) then mret removed
        else
          bytes ← read_owner_only_file_bounded name 512 CustodyUnavailable;
          reservation ← lift (ok_or (parse_source_reservation bytes plan_id) CustodyUnavailable);
          if sr_expires_at_unix reservation <=? now
          then remove_owner_only_file name CustodyUnavailable ;; mret (removed + 1)
          else mret removed
    end) 0 entries.

(** What a loaded receipt must satisfy. *)
Definition receipt_admissible (plan_id : string) (now : Z) (receipt : SourceCleanupReceipt)
  : result unit TransferError :=
  cleanup_receipt_validate receipt ;?
  guard_err (negb (String.eqb (cr_plan_id receipt) plan_id)) CorruptJournal ;?
  let? deadline := ok_or (u64_checked_add now MAX_SOURCE_CLEANUP_TTL_SECS) Overflow in
  guard_err (deadline <? cr_expires_at_unix receipt) CorruptJournal.

Definition load_source_cleanup_unlocked (plan_id : string) (now : Z) : M (option SourceCleanupReceipt) :=
  name ← lift (path plan_id ".source-cleanup.json");
  present ← owner_only_file_present name;
  if negb present then mret None
  else
    bytes ← read_owner_only_file_bounded name (jm_max_bytes limits) CorruptJournal;
    receipt ← lift (ok_or (receipt_from_slice bytes) CorruptJournal);
    lift (receipt_admissible plan_id now receipt) ;;
    mret (Some receipt).

Definition source_cleanup_usage_unlocked (now : Z) : M (Z * Z) :=
  entries ← read_dir;
  fold_m (fun '(count, bytes) '(name, _) =>
    match id_of_name ".source-cleanup.json" name with
    | None => mret (count, bytes)
    | Some plan_id =>
        expected ← lift (path plan_id ".source-cleanup.json");
        ensure (negb (String.eqb expected name)) CorruptJournal ;;
        raw ← read_owner_only_file_bounded name (jm_max_bytes limits) CorruptJournal;
        receipt ← lift (ok_or (receipt_from_slice raw) CorruptJournal);
        lift (receipt_admissible plan_id now receipt) ;;
        count ← lift (ok_or (u64_checked_add count 1) Overflow);
        bytes ← lift (ok_or (u64_checked_add bytes (str_len raw)) Overflow);
        mret (count, bytes)
    end) (0, 0) entries.

(** Whether any source-side record of a plan is left. *)
Definition any_present (names : list string) : M bool :=
  fold_m (fun found name => if found : bool then mret true else owner_only_file_present name) false names.

Definition sweep_receipts (now : Z) : M Z :=
  entries ← read_dir;
  fold_m (fun removed '(name, _) =>
    match id_of_name ".source-cleanup.json" name with
    | None => mret removed
    | Some plan_id =>
        r ← load_source_cleanup_unlocked plan_id now;
        receipt ← lift (ok_or r CorruptJournal);
        if cr_expires_at_unix receipt <=? now then
          plan ← lift (path plan_id ".plan.json");
          snapshot ← lift (path plan_id ".source");
          reservation ← lift (path plan_id ".source.reserve");
          left ← any_present [plan; snapshot; reservation];
          ensure left CustodyUnavailable ;;
          remove_owner_only_file name CustodyUnavailable ;;
          mret (removed + 1)
        else mret removed
    end) 0 entries.

Definition cleanup_expired_unlocked (now : Z) : M Z :=
  journals ← sweep_journals now;
  '(plans, live) ← sweep_plans now;
  sources ← sweep_sources live;
  reservations ← sweep_reservations now;
  '(cleanup_count, cleanup_bytes) ← source_cleanup_usage_unlocked now;
  ensure ((jm_max_plans limits <? cleanup_count) || (jm_max_plan_bytes limits <? cleanup_bytes))
    JournalQuotaExceeded ;;
  receipts ← sweep_receipts now;
  mret (journals + plans + sources + reservations + receipts).

Definition cleanup_expired (now : Z) : M Z :=
  lock_store ;; cleanup_expired_unlocked now.

(** [JournalStore::open] on an existing private directory. *)
Definition open_store : M unit :=
  ensure ((jm_max_journals limits =? 0) || (jm_max_bytes limits <? 512) || (jm_max_snapshots limits =? 0)
          || (jm_max_snapshot_bytes limits =? 0) || (jm_max_plans limits =? 0)
          || (jm_max_plan_bytes limits <? 512)) JournalQuotaExceeded ;;
  now ← now_unix;
  cleanup_expired now ;;
  mret tt.

(** ** Plan records *)

Definition save_plan_unlocked (plan : TransferPlan) (now : Z) : M unit :=
  lift (plan_validate_at plan now) ;;
  receipt ← lift (path (tp_id plan) ".source-cleanup.json");
  finished ← owner_only_file_present receipt;
  ensure finished Terminal ;;
  let bytes := plan_to_vec plan in
  ensure (jm_max_bytes limits <? str_len bytes) JournalQuotaExceeded ;;
  name ← lift (path (tp_id plan) ".plan.json");
  present ← exists_ name;
  existing_len ← (if present : bool
                  then old ← read_owner_only_file_bounded name (jm_max_bytes limits) CustodyUnavailable;
                       mret (str_len old)
                  else mret 0);
  '(count, total_bytes) ← plan_usage;
  ensure ((existing_len =? 0) && (jm_max_plans limits <=? count)) JournalQuotaExceeded ;;
  used ← lift (ok_or (u64_checked_sub total_bytes existing_len) Overflow);
  total ← lift (ok_or (u64_checked_add used (str_len bytes)) Overflow);
  ensure (jm_max_plan_bytes limits <? total) JournalQuotaExceeded ;;
  atomic_write_owner_only name bytes CustodyUnavailable.

Definition save_plan (plan : TransferPlan) : M unit :=
  lock_store ;;
  now ← now_unix;
  lift (plan_validate_at plan now) ;;
  cleanup_expired_unlocked now ;;
  save_plan_unlocked plan now.

Definition load_plan (plan_id : string) (now : Z) : M (option TransferPlan) :=
  name ← lift (path plan_id ".plan.json");
  present ← exists_ name;
  if negb present then mret None
  else
    bytes ← read_owner_only_file_bounded name (jm_max_bytes limits) CorruptJournal;
    plan ← lift (ok_or (plan_from_slice bytes) CorruptJournal);
    lift (plan_validate_at plan now) ;;
    ensure (negb (String.eqb (tp_id plan) plan_id)) CorruptJournal ;;
    mret (Some plan).

Definition by_id (a b : TransferPlan) : comparison := String.compare (tp_id a) (tp_id b).

Definition list_plans (now : Z) : M (list TransferPlan) :=
  entries ← read_dir;
  let names := List.filter (fun n => ends_with n ".plan.json") (map fst entries) in
  ensure (jm_max_journals limits <? zlen names) JournalQuotaExceeded ;;
  plans ← fold_m (fun plans name =>
             bytes ← read_owner_only_file_bounded name (jm_max_bytes limits) CorruptJournal;
             plan ← lift (ok_or (plan_from_slice bytes) CorruptJournal);
             lift (plan_validate_at plan now) ;;
             expected ← lift (path (tp_id plan) ".plan.json");
             ensure (negb (String.eqb expected name)) CorruptJournal ;;
             mret (plans ++ [plan])) [] names;
  mret (sort_by by_id plans).

(** ** Source snapshots *)

(** The copy loop of a first staging, from what the source reads return; the content
    written so far is in the snapshot. *)
Fixpoint copy_source (size_bytes : Z) (snapshot : string) (reads : list (result string string))
    (total : Z) (written : string) : M (Z * string) :=
  match reads with
  | [] => mret (total, written)
  | Err e :: _ => raise (Io e)
  | Ok bytes :: rest =>
      if is_empty bytes then mret (total, written)
      else
        total ← lift (ok_or (u64_checked_add total (str_len bytes)) Overflow);
        ensure (size_bytes <? total) SourceChanged ;;
        o ← next_outcome;
        match o with
        | NoFault =>
            put_file snapshot (Regular (written +:+ bytes)) ;;
            copy_source size_bytes snapshot rest total (written +:+ bytes)
        | _ => raise (Io "write")
        end
  end.

Definition stage_source (plan : TransferPlan) (snapshot : string) (input : RetainedFile) : M unit :=
  retry 200 (open_owner_only_file_read snapshot CustodyUnavailable) CustodyUnavailable ;;
  copied ← copy_source (tp_size_bytes plan) snapshot (reads_of input) 0 "";
  o ← next_outcome;
  match o with NoFault => mret tt | _ => raise (Io "sync_all") end ;;
  ensure (negb (fst copied =? tp_size_bytes plan)
          || negb (String.eqb (finalized (snd copied)) (tp_sha256 plan))) SourceChanged.

(** Opening the snapshot as the file of a sender. *)
Definition sender_from_snapshot (plan : TransferPlan) (snapshot : string) (sequence offset : Z)
  : M TransferSender :=
  content ← open_owner_only_file_read snapshot CustodyUnavailable;
  now ← now_unix;
  lift (from_retained_file now plan
          {| rf_content := content; rf_position := 0; rf_regular := true; rf_fault := None |}
          sequence offset).

(** Drop the snapshot and reservation of a failed staging, ignoring errors. *)
Definition unstage (snapshot reservation : string) : M unit :=
  _ ← attempt (remove_owner_only_file_retry snapshot);
  _ ← attempt (remove_owner_only_file_retry reservation);
  mret tt.

(** The admission transaction: a sender over a complete snapshot, or a reservation. *)
Definition admit_source (nonce : string) (plan : TransferPlan) (snapshot reservation : string)
    (sequence offset : Z) : M (option TransferSender) :=
  lock_store ;;
  now ← now_unix;
  cleanup_expired_unlocked now ;;
  save_plan_unlocked plan now ;;
  reserved ← exists_ reservation;
  (if reserved : bool then
     record ← read_owner_only_file_bounded reservation 512 CustodyUnavailable;
     active ← lift (ok_or (parse_source_reservation record (tp_id plan)) CustodyUnavailable);
     ensure (now <? sr_expires_at_unix active) LeaseBusy ;;
     remove_owner_only_file_retry reservation
   else mret tt) ;;
  staged ← exists_ snapshot;
  sender ← (if staged : bool then
              r ← attempt (sender_from_snapshot plan snapshot sequence offset);
              match r with
              | Ok sender => mret (Some sender)
              | Err _ => remove_owner_only_file snapshot CustodyUnavailable ;; mret None
              end
            else mret None);
  match sender with
  | Some sender => mret (Some sender)
  | None =>
      ensure_snapshot_capacity limits (tp_size_bytes plan) ;;
      create_owner_only_file_new reservation (source_reservation_record nonce plan) LeaseBusy ;;
      created ← attempt (create_owner_only_file_new snapshot "" CustodyUnavailable);
      match created with
      | Ok _ => mret None
      | Err _ => _ ← attempt (remove_owner_only_file_retry reservation); raise CustodyUnavailable
      end
  end.

(** [open_source_sender_at_lazy]; [open_source] is what the opener answers when called. *)
Definition open_source_sender_at_lazy (nonce : string) (plan : TransferPlan) (sequence offset : Z)
    (open_source : result RetainedFile TransferError) : M TransferSender :=
  now ← now_unix;
  lift (plan_validate_at plan now) ;;
  snapshot ← lift (path (tp_id plan) ".source");
  reservation ← lift (path (tp_id plan) ".source.reserve");
  admitted ← admit_source nonce plan snapshot reservation sequence offset;
  match admitted with
  | Some sender => mret sender
  | None =>
      match open_source with
      | Err error => unstage snapshot reservation ;; raise error
      | Ok input =>
          copied ← attempt (stage_source plan snapshot input);
          match copied with
          | Err error => unstage snapshot reservation ;; raise error
          | Ok _ =>
              lock_store ;;
              now ← now_unix;
              match plan_validate_at plan now with
              | Err error => unstage snapshot reservation ;; raise error
              | Ok _ =>
                  remove_owner_only_file_retry reservation ;;
                  content ← open_owner_only_file_read_retry snapshot;
                  now ← now_unix;
                  lift (from_retained_file now plan
                          {| rf_content := content; rf_position := 0; rf_regular := true; rf_fault := None |}
                          sequence offset)
              end
          end
      end
  end.

(** [open_source_sender_at]: the source is already open. *)
Definition open_source_sender_at (nonce : string) (plan : TransferPlan) (f : RetainedFile)
    (sequence offset : Z) : M TransferSender :=
  open_source_sender_at_lazy nonce plan sequence offset (Ok f).

Definition remove_source_snapshot_unlocked (plan : TransferPlan) : M unit :=
  snapshot ← lift (path (tp_id plan) ".source");
  remove_if_present snapshot ;;
  reservation ← lift (path (tp_id plan) ".source.reserve");
  remove_if_present reservation.

Definition remove_source_snapshot (plan : TransferPlan) : M unit :=
  lock_store ;; remove_source_snapshot_unlocked plan.

Definition remove_source_terminal_state (plan : TransferPlan) : M unit :=
  lock_store ;;
  remove_source_snapshot_unlocked plan ;;
  name ← lift (path (tp_id plan) ".plan.json");
  remove_if_present name.

(** ** Two-phase source cleanup *)

Definition cleanup_intent (plan : TransferPlan) (b : SourceCleanupBinding) : SourceCleanupReceipt :=
  {| cr_schema := SOURCE_CLEANUP_SCHEMA; cr_phase := Intent; cr_plan_id := tp_id plan;
     cr_plan_sha256 := tp_plan_sha256 plan; cr_source_sha256 := tp_sha256 plan;
     cr_source_size := tp_size_bytes plan; cr_tenant_id := cb_tenant_id b;
     cr_principal_id := cb_principal_id b; cr_device_id := cb_device_id b; cr_epoch := cb_epoch b;
     cr_fence := cb_fence b; cr_expires_at_unix := xg_expires_at_unix (tp_grant plan) |}.

Definition begin_source_cleanup (plan : TransferPlan) (b : SourceCleanupBinding) (now : Z) : M unit :=
  lift (cleanup_binding_validate b) ;;
  lift (plan_validate_at plan now) ;;
  deadline ← lift (ok_or (u64_checked_add now MAX_SOURCE_CLEANUP_TTL_SECS) Overflow);
  ensure (deadline <? xg_expires_at_unix (tp_grant plan))
    (InvalidPlan "source cleanup receipt lifetime exceeds bound") ;;
  ensure (negb (String.eqb (cb_plan_id b) (tp_id plan))
          || negb (String.eqb (cb_tenant_id b) (tb_tenant_id (tp_binding plan)))
          || negb (String.eqb (cb_principal_id b) (tb_source_principal_id (tp_binding plan)))
          || negb (String.eqb (cb_device_id b) (tb_source_device_id (tp_binding plan)))) StaleFence ;;
  lock_store ;;
  cleanup_expired_unlocked now ;;
  existing ← load_source_cleanup_unlocked (tp_id plan) now;
  match existing with
  | Some existing =>
      ensure (negb (exact_binding existing b && String.eqb (cr_plan_sha256 existing) (tp_plan_sha256 plan)
                    && String.eqb (cr_source_sha256 existing) (tp_sha256 plan)
                    && (cr_source_size existing =? tp_size_bytes plan))) StaleFence
  | None =>
      let raw := receipt_to_vec (cleanup_intent plan b) in
      ensure (jm_max_bytes limits <? str_len raw) JournalQuotaExceeded ;;
      '(count, bytes) ← source_cleanup_usage_unlocked now;
      ensure (jm_max_plans limits <=? count) JournalQuotaExceeded ;;
      total ← lift (ok_or (u64_checked_add bytes (str_len raw)) Overflow);
      ensure (jm_max_plan_bytes limits <? total) JournalQuotaExceeded ;;
      name ← lift (path (tp_id plan) ".source-cleanup.json");
      atomic_write_owner_only name raw CustodyUnavailable
  end.

(** The plan record agrees with the receipt. *)
Definition receipt_matches_plan (r : SourceCleanupReceipt) (plan : TransferPlan) : bool :=
  String.eqb (tp_id plan) (cr_plan_id r) && String.eqb (tp_plan_sha256 plan) (cr_plan_sha256 r)
  && String.eqb (tp_sha256 plan) (cr_source_sha256 r) && (tp_size_bytes plan =? cr_source_size r)
  && String.eqb (tb_tenant_id (tp_binding plan)) (cr_tenant_id r)
  && String.eqb (tb_source_principal_id (tp_binding plan)) (cr_principal_id r)
  && String.eqb (tb_source_device_id (tp_binding plan)) (cr_device_id r).

Definition check_cleanup_plan (r : SourceCleanupReceipt) (name : string) (now : Z) : M unit :=
  present ← owner_only_file_present name;
  if negb present then mret tt
  else
    raw ← read_owner_only_file_bounded name (jm_max_bytes limits) CorruptJournal;
    plan ← lift (ok_or (plan_from_slice raw) CorruptJournal);
    lift (plan_validate_at plan now) ;;
    ensure (negb (receipt_matches_plan r plan)) CorruptJournal.

Definition check_cleanup_snapshot (r : SourceCleanupReceipt) (name : string) : M unit :=
  present ← owner_only_file_present name;
  if negb present then mret tt
  else
    content ← open_owner_only_file_read name CustodyUnavailable;
    ensure (negb (str_len content =? cr_source_size r)) CorruptJournal ;;
    hashed ← lift (hash_file content (cr_source_size r));
    ensure (negb (fst hashed =? cr_source_size r) || negb (String.eqb (snd hashed) (cr_source_sha256 r)))
      CorruptJournal.

Definition check_cleanup_reservation (r : SourceCleanupReceipt) (plan_id name : string) : M unit :=
  present ← owner_only_file_present name;
  if negb present then mret tt
  else
    raw ← read_owner_only_file_bounded name 512 CustodyUnavailable;
    reservation ← lift (ok_or (parse_source_reservation raw plan_id) CustodyUnavailable);
    ensure (negb (sr_expires_at_unix reservation =? cr_expires_at_unix r)
            || negb (sr_bytes reservation =? cr_source_size r)) CorruptJournal.

Definition remove_record (name : string) : M unit :=
  present ← owner_only_file_present name;
  if present : bool then remove_owner_only_file_retry name else mret tt.

(** [complete_source_cleanup]; [Some true] is a replay of a completed cleanup. *)
Definition complete_source_cleanup (b : SourceCleanupBinding) (now : Z) : M (option bool) :=
  lift (cleanup_binding_validate b) ;;
  lock_store ;;
  loaded ← load_source_cleanup_unlocked (cb_plan_id b) now;
  match loaded with
  | None => mret None
  | Some receipt =>
      ensure (negb (exact_binding receipt b)) StaleFence ;;
      ensure (cr_expires_at_unix receipt <=? now) (InvalidPlan "expired source cleanup receipt") ;;
      plan_path ← lift (path (cb_plan_id b) ".plan.json");
      snapshot_path ← lift (path (cb_plan_id b) ".source");
      reservation_path ← lift (path (cb_plan_id b) ".source.reserve");
      if bool_decide (cr_phase receipt = CleanupCompleted) then
        left ← any_present [plan_path; snapshot_path; reservation_path];
        ensure left CorruptJournal ;;
        mret (Some true)
      else
        check_cleanup_plan receipt plan_path now ;;
        check_cleanup_snapshot receipt snapshot_path ;;
        check_cleanup_reservation receipt (cb_plan_id b) reservation_path ;;
        for_each remove_record [snapshot_path; reservation_path; plan_path] ;;
        left ← any_present [plan_path; snapshot_path; reservation_path];
        ensure left CustodyUnavailable ;;
        name ← lift (path (cb_plan_id b) ".source-cleanup.json");
        atomic_write_owner_only name (receipt_to_vec (receipt <| cr_phase := CleanupCompleted |>))
          CustodyUnavailable ;;
        mret (Some false)
  end.
End source.
