(* ===== verification/TransferFrame.v ===== *)
(** * Reasoning about programs over the transfer directory

    [frames P m] says that the program [m] changes no file outside [P], whatever fails on
    the way.  The rules follow the structure of programs and are hints of the [frame]
    database, so that a program's frame is found by proof search. *)

From stdpp Require Import base list strings gmap.
From Stdlib Require Import ZArith Lia Ascii.
From S2P Require Import Prelude RustStr RustBytes RustPath Transfer TransferFlow TransferDisk TransferStore TransferParts TransferSource.

Open Scope Z_scope.

Create HintDb frame.

Definition frames {A} (P : string -> Prop) (m : M A) : Prop :=
  forall d r d', m d = (r, d') ->
  (forall n, ~ P n -> dk_files d' !! n = dk_files d !! n) /\ dk_now d' = dk_now d.

Lemma bind_inv {A B} (m : M A) (k : A -> M B) d r d' :
  (m ≫= k) d = (r, d') ->
  (exists a d1, m d = (Ok a, d1) /\ k a d1 = (r, d')) \/ (exists e, m d = (Err e, d') /\ r = Err e).
Proof.
  unfold mbind, M_bind. destruct (m d) as [[a|e] d1]; intros H; [left; eauto | right].
  injection H as <- <-. eauto.
Qed.

Lemma bind_ok {A B} (m : M A) (k : A -> M B) d b d' :
  (m ≫= k) d = (Ok b, d') -> exists a d1, m d = (Ok a, d1) /\ k a d1 = (Ok b, d').
Proof. intros H. apply bind_inv in H as [H|(e & _ & H)]; [done | discriminate]. Qed.

(** Names are built from the plan id. *)
Lemma path_ok id suffix name :
  path id suffix = Ok name -> name = "." +:+ id +:+ suffix /\ starts_with id "xfer_" = true.
Proof. unfold path. intros H. res_inv. bool_prop. done. Qed.

Lemma part_path_ok id epoch name :
  part_path id epoch = Ok name ->
  name = "." +:+ id +:+ "." +:+ u64_to_string epoch +:+ ".part" /\ starts_with id "xfer_" = true.
Proof. unfold part_path. intros H. res_inv. by apply path_ok. Qed.

Section frames.
Context (P : string -> Prop).

Lemma frames_ret {A} (a : A) : frames P (mret a).
Proof. intros d r d' [= <- <-]. done. Qed.

Lemma frames_raise {A} e : frames P (raise (A := A) e).
Proof. intros d r d' [= <- <-]. done. Qed.

Lemma frames_lift {A} (x : result A TransferError) : frames P (lift x).
Proof. intros d r d' [= <- <-]. done. Qed.

Lemma frames_ensure b e : frames P (ensure b e).
Proof. apply frames_lift. Qed.

Lemma frames_now : frames P now_unix.
Proof. intros d r d' [= <- <-]. done. Qed.

Lemma frames_bind {A B} (m : M A) (k : A -> M B) :
  frames P m -> (forall a, frames P (k a)) -> frames P (m ≫= k).
Proof.
  intros Hm Hk d r d' H. apply bind_inv in H as [(a & d1 & E & H)|(e & E & _)]; [|by eapply Hm].
  destruct (Hm _ _ _ E) as [F1 T1], (Hk a _ _ _ H) as [F2 T2].
  split; [|congruence]. intros n Hn. by rewrite F2, F1.
Qed.

Lemma frames_bind_lift {A B} (x : result A TransferError) (k : A -> M B) :
  (forall a, x = Ok a -> frames P (k a)) -> frames P (lift x ≫= k).
Proof.
  intros Hk d r d' H. destruct x as [a|e]; [exact (Hk a eq_refl d r d' H) |]. by injection H as <- <-.
Qed.

Lemma frames_attempt {A} (m : M A) : frames P m -> frames P (attempt m).
Proof.
  intros Hm d r d' H. unfold attempt in H. destruct (m d) as [x d1] eqn:E. injection H as <- <-.
  by eapply Hm.
Qed.

Lemma frames_outcome : frames P next_outcome.
Proof. intros d r d' H. unfold next_outcome in H. destruct (dk_faults d); injection H as <- <-; done. Qed.

Lemma frames_lookup n : frames P (lookup_file n).
Proof. intros d r d' [= <- <-]. done. Qed.

Lemma frames_put n x : P n -> frames P (put_file n x).
Proof.
  intros Hn d r d' [= <- <-]. split; [|done]. cbn. intros m Hm.
  apply lookup_insert_ne. intros ->. done.
Qed.

Lemma frames_delete n : P n -> frames P (delete_file n).
Proof.
  intros Hn d r d' [= <- <-]. split; [|done]. cbn. intros m Hm.
  apply lookup_delete_ne. intros ->. done.
Qed.

Lemma frames_read_dir : frames P read_dir.
Proof. intros d r d' H. unfold read_dir in H. repeat case_match; injection H as <- <-; done. Qed.

Lemma frames_fold {A B} (f : B -> A -> M B) acc l :
  (forall acc x, frames P (f acc x)) -> frames P (fold_m f acc l).
Proof.
  intros Hf. revert acc. induction l as [|x l IH]; intros acc; cbn; [apply frames_ret |].
  by apply frames_bind.
Qed.

Lemma frames_for_each {A} (f : A -> M unit) l :
  (forall x, x ∈ l -> frames P (f x)) -> frames P (for_each f l).
Proof.
  intros Hf. induction l as [|x l IH]; cbn; [apply frames_ret |].
  apply frames_bind; [apply Hf; by left |]. intros _. apply IH. intros y Hy. apply Hf. by right.
Qed.

Lemma frames_retry {A} n (m : M A) e : frames P m -> frames P (retry n m e).
Proof.
  intros Hm. induction n as [|n IH]; cbn; [apply frames_raise |].
  apply frames_bind; [by apply frames_attempt |]. intros []; [apply frames_ret | apply IH].
Qed.
End frames.

#[export] Hint Resolve frames_ret frames_raise frames_lift frames_ensure frames_now frames_attempt
  frames_outcome frames_lookup frames_put frames_delete frames_read_dir frames_retry : frame.

(** Walk through a program: binds, folds and case distinctions. *)
Ltac frame_step :=
  match goal with
  | |- frames _ (lift ?x ≫= _) =>
      let E := fresh "E" in
      apply frames_bind_lift; intros ? E;
      try (apply path_ok in E as [-> _]); try (apply part_path_ok in E as [-> _])
  | |- frames _ (_ ≫= _) => apply frames_bind; [|intros ?]
  | |- frames _ (fold_m _ _ _) => apply frames_fold; intros
  | |- frames _ (for_each _ _) => apply frames_for_each; intros
  | |- frames _ (match ?x with _ => _ end) => destruct x
  | |- frames _ ((match ?x with _ => _ end) _) => destruct x; cbv beta
  | |- frames _ (let '(_, _) := ?x in _) => destruct x
  | |- _ => solve [auto with frame]
  end.
Ltac frame := repeat frame_step.

Section primitives.
Context (P : string -> Prop).

Lemma frames_exists n : frames P (exists_ n).
Proof. unfold exists_. frame. Qed.

Lemma frames_present n : frames P (owner_only_file_present n).
Proof. unfold owner_only_file_present. frame. Qed.

Lemma frames_read n b e : frames P (read_owner_only_file_bounded n b e).
Proof. unfold read_owner_only_file_bounded. frame. Qed.

Lemma frames_open_read n e : frames P (open_owner_only_file_read n e).
Proof. unfold open_owner_only_file_read. frame. Qed.

Lemma frames_create n b e : P n -> frames P (create_owner_only_file_new n b e).
Proof. intros. unfold create_owner_only_file_new. frame. Qed.

Lemma frames_remove n e : P n -> frames P (remove_owner_only_file n e).
Proof. intros. unfold remove_owner_only_file. frame. Qed.

Lemma frames_write n b e : P n -> frames P (atomic_write_owner_only n b e).
Proof. intros. unfold atomic_write_owner_only. frame. Qed.
End primitives.
#[export] Hint Resolve frames_exists frames_present frames_read frames_open_read frames_create
  frames_remove frames_write : frame.

Lemma frames_remove_retry P n : P n -> frames P (remove_owner_only_file_retry n).
Proof. intros. unfold remove_owner_only_file_retry. auto with frame. Qed.

Lemma frames_open_retry P n : frames P (open_owner_only_file_read_retry n).
Proof. unfold open_owner_only_file_read_retry. auto with frame. Qed.

Lemma frames_lock_store (P : string -> Prop) : P ".store.lock" -> frames P lock_store.
Proof. intros. unfold lock_store, create_lock. frame. Qed.
#[export] Hint Resolve frames_remove_retry frames_open_retry frames_lock_store : frame.

(** ** Successful runs *)

Lemma lift_ok {A} (x : result A TransferError) a d d' : lift x d = (Ok a, d') -> x = Ok a /\ d' = d.
Proof. by intros [= -> <-]. Qed.

Lemma ensure_ok b e u d d' : ensure b e d = (Ok u, d') -> b = false /\ d' = d.
Proof. unfold ensure. intros H. apply lift_ok in H as [H ->]. by destruct b. Qed.

Lemma ret_ok {A} (a b : A) d d' : (mret a : M A) d = (Ok b, d') -> b = a /\ d' = d.
Proof. by intros [= <- <-]. Qed.

Lemma attempt_inv {A} (m : M A) d r d' : attempt m d = (Ok r, d') -> m d = (r, d').
Proof. unfold attempt. destruct (m d). by intros [= <- <-]. Qed.

Lemma now_ok z d d' : now_unix d = (Ok z, d') -> z = dk_now d /\ d' = d.
Proof. by intros [= <- <-]. Qed.

(** Take a successful program apart. *)
Ltac m_step :=
  match goal with
  | H : (_ ≫= _) _ = (Ok _, _) |- _ =>
      let a := fresh "a" in let d := fresh "d" in let E := fresh "E" in
      apply bind_ok in H as (a & d & E & H)
  | H : lift _ _ = (Ok _, _) |- _ => apply lift_ok in H as [H ->]
  | H : ensure _ _ _ = (Ok _, _) |- _ => apply ensure_ok in H as [H ->]
  | H : mret _ _ = (Ok _, _) |- _ =>
      apply ret_ok in H as [H ->];
      first [discriminate H | match type of H with ?b = _ => subst b end | apply (inj Some) in H; subst | idtac]
  | H : attempt _ _ = (Ok _, _) |- _ => apply attempt_inv in H
  | H : now_unix _ = (Ok _, _) |- _ => apply now_ok in H as [-> ->]
  | H : raise _ _ = (Ok _, _) |- _ => discriminate H
  end.
Ltac m_inv := repeat m_step.

(** The primitives by cases on their outcome. *)
Ltac prim_cases d :=
  unfold mbind, M_bind, mret, M_ret, next_outcome, lookup_file, put_file, delete_file, raise;
  destruct (dk_faults d) as [|[] ?];
  cbn; intros H; repeat case_match; try discriminate; injection H as ? ?; subst; cbn.

Lemma read_ok n b e c d d' :
  read_owner_only_file_bounded n b e d = (Ok c, d') ->
  dk_files d !! n = Some (Regular c) /\ str_len c <= b /\ dk_files d' = dk_files d.
Proof. unfold read_owner_only_file_bounded. prim_cases d; bool_prop; auto with lia. Qed.

Lemma open_read_ok n e c d d' :
  open_owner_only_file_read n e d = (Ok c, d') ->
  dk_files d !! n = Some (Regular c) /\ dk_files d' = dk_files d.
Proof. unfold open_owner_only_file_read. prim_cases d; auto. Qed.

Lemma create_ok n b e u d d' :
  create_owner_only_file_new n b e d = (Ok u, d') ->
  dk_files d !! n = None /\ dk_files d' = <[n := Regular b]> (dk_files d).
Proof. unfold create_owner_only_file_new. prim_cases d; auto. Qed.

Lemma remove_ok n e u d d' :
  remove_owner_only_file n e d = (Ok u, d') -> dk_files d' = delete n (dk_files d).
Proof. unfold remove_owner_only_file. prim_cases d; auto. Qed.

Lemma present_ok n b d d' :
  owner_only_file_present n d = (Ok b, d') ->
  dk_files d' = dk_files d /\ (b = true <-> exists c, dk_files d !! n = Some (Regular c))
  /\ (b = false <-> dk_files d !! n = None).
Proof. unfold owner_only_file_present. prim_cases d; split_and!; naive_solver. Qed.

Lemma write_cases n b e d r d' :
  atomic_write_owner_only n b e d = (r, d') ->
  (r = Err e /\ dk_files d' = dk_files d) \/ dk_files d' = <[n := Regular b]> (dk_files d).
Proof. unfold atomic_write_owner_only. prim_cases d; auto. Qed.

Lemma write_ok n b e u d d' :
  atomic_write_owner_only n b e d = (Ok u, d') -> dk_files d' = <[n := Regular b]> (dk_files d).
Proof. intros H. by apply write_cases in H as [[? _]|]. Qed.

Lemma create_cases n b e d r d' :
  create_owner_only_file_new n b e d = (r, d') ->
  dk_files d' = dk_files d \/ dk_files d' = <[n := Regular b]> (dk_files d).
Proof. unfold create_owner_only_file_new. prim_cases d; auto. Qed.

Lemma remove_cases n e d r d' :
  remove_owner_only_file n e d = (r, d') ->
  dk_files d' = dk_files d \/ dk_files d' = delete n (dk_files d).
Proof. unfold remove_owner_only_file. prim_cases d; auto. Qed.

(** ** Properties of the directory a program keeps *)

Definition keeps {A} (Q : gmap string Node -> Prop) (m : M A) : Prop :=
  forall d r d', Q (dk_files d) -> m d = (r, d') -> Q (dk_files d').

Lemma keeps_frame {A} (P : string -> Prop) (Q : gmap string Node -> Prop) (m : M A) :
  frames P m -> (forall f f', (forall n, ~ P n -> f' !! n = f !! n) -> Q f -> Q f') -> keeps Q m.
Proof. intros F I d r d' Hq H. eapply I; [|exact Hq]. apply (F _ _ _ H). Qed.

Lemma keeps_reads {A} Q (m : M A) : frames (fun _ => False) m -> keeps Q m.
Proof.
  intros F. eapply keeps_frame; [exact F |]. intros f f' E. replace f' with f; [done |].
  apply map_eq. intros n. symmetry. apply E. tauto.
Qed.

Lemma keeps_bind {A B} Q (m : M A) (k : A -> M B) : keeps Q m -> (forall a, keeps Q (k a)) -> keeps Q (m ≫= k).
Proof.
  intros Hm Hk d r d' Hq H. apply bind_inv in H as [(a & d1 & E & H)|(e & E & _)]; [|by eapply Hm].
  eapply Hk; [|exact H]. by eapply Hm.
Qed.

Lemma keeps_bind_lift {A B} Q (x : result A TransferError) (k : A -> M B) :
  (forall a, x = Ok a -> keeps Q (k a)) -> keeps Q (lift x ≫= k).
Proof.
  intros Hk d r d' Hq H. destruct x as [a|e]; [exact (Hk a eq_refl d r d' Hq H) |].
  by injection H as _ <-.
Qed.

Lemma keeps_attempt {A} Q (m : M A) : keeps Q m -> keeps Q (attempt m).
Proof.
  intros Hm d r d' Hq H. unfold attempt in H. destruct (m d) as [x d1] eqn:E. injection H as <- <-.
  by eapply Hm.
Qed.

Lemma keeps_create (Q : gmap string Node -> Prop) n b e :
  (forall f, Q f -> Q (<[n := Regular b]> f)) -> keeps Q (create_owner_only_file_new n b e).
Proof. intros I d r d' Hq H. apply create_cases in H as [->| ->]; auto. Qed.

Lemma keeps_remove (Q : gmap string Node -> Prop) n e :
  (forall f, Q f -> Q (delete n f)) -> keeps Q (remove_owner_only_file n e).
Proof. intros I d r d' Hq H. apply remove_cases in H as [->| ->]; auto. Qed.
#[export] Hint Resolve keeps_create keeps_remove keeps_attempt : frame.

Ltac keep_step :=
  match goal with
  | |- keeps _ (lift ?x ≫= _) =>
      let E := fresh "E" in apply keeps_bind_lift; intros ? E; try (apply path_ok in E as [-> _])
  | |- keeps _ (_ ≫= _) => apply keeps_bind; [|intros ?]
  | |- keeps _ _ => solve [auto with frame | apply keeps_reads; frame]
  | |- keeps _ (match ?x with _ => _ end) => destruct x
  end.
Ltac keep := repeat keep_step.

(** ** Retries *)

Lemma remove_err n e x d d' : remove_owner_only_file n e d = (Err x, d') -> dk_files d' = dk_files d.
Proof. unfold remove_owner_only_file. prim_cases d; auto. Qed.

Lemma retry_ok {A} n (m : M A) e a d d' :
  (forall x d d', m d = (Err x, d') -> dk_files d' = dk_files d) ->
  retry n m e d = (Ok a, d') -> exists d1, dk_files d1 = dk_files d /\ m d1 = (Ok a, d').
Proof.
  intros Hm. revert d. induction n as [|n IH]; intros d H; cbn in H; [discriminate |].
  m_inv. destruct a0 as [x|x]; m_inv; [by exists d |].
  apply IH in H as (d1 & F & H). exists d1. split; [|done]. rewrite F. by eapply Hm.
Qed.

Lemma remove_retry_ok n u d d' :
  remove_owner_only_file_retry n d = (Ok u, d') -> dk_files d' = delete n (dk_files d).
Proof.
  intros H. apply retry_ok in H as (d1 & <- & H); [by apply remove_ok in H | intros; by eapply remove_err].
Qed.

Lemma open_retry_ok n c d d' :
  open_owner_only_file_read_retry n d = (Ok c, d') ->
  dk_files d !! n = Some (Regular c) /\ dk_files d' = dk_files d.
Proof.
  intros H. apply retry_ok in H as (d1 & <- & H); [by apply open_read_ok in H |].
  intros x d2 d3 E. apply (frames_open_read (fun _ => False)) in E as [E _].
  apply map_eq. intros i. apply E. tauto.
Qed.

Lemma outcome_ok f d d' : next_outcome d = (Ok f, d') -> dk_files d' = dk_files d.
Proof. unfold next_outcome. destruct (dk_faults d); intros [= <- <-]; done. Qed.

Lemma put_ok n x u d d' : put_file n x d = (Ok u, d') -> dk_files d' = <[n := x]> (dk_files d).
Proof. by intros [= <- <-]. Qed.

Lemma read_dir_ok l d d' :
  read_dir d = (Ok l, d') -> dk_files d' = dk_files d /\ l = map_to_list (dk_files d).
Proof. unfold read_dir. repeat case_match; intros [= <- <-]; done. Qed.

(** ** Runs that meet no failure *)

Definition set_files (d : Disk) (f : gmap string Node) : Disk := d <| dk_files := f |>.

Lemma bind_run {A B} (m : M A) (k : A -> M B) d a d1 : m d = (Ok a, d1) -> (m ≫= k) d = k a d1.
Proof. unfold mbind, M_bind. by intros ->. Qed.

Section calm.
Context (d : Disk) (calm : dk_faults d = []).

Lemma outcome_run : next_outcome d = (Ok NoFault, d).
Proof. unfold next_outcome. by rewrite calm. Qed.

Ltac calm_prim := rewrite (bind_run _ _ _ _ _ outcome_run); unfold lookup_file, mbind, M_bind.

Lemma present_run n :
  owner_only_file_present n d =
  (match dk_files d !! n with
   | Some (Regular _) => Ok true
   | Some Special => Err CustodyUnavailable
   | None => Ok false
   end, d).
Proof. unfold owner_only_file_present. calm_prim. by destruct (dk_files d !! n) as [[]|]. Qed.

Lemma read_run n max e c :
  dk_files d !! n = Some (Regular c) -> max <> 0 -> str_len c <= max ->
  read_owner_only_file_bounded n max e d = (Ok c, d).
Proof.
  intros L Hm Hl. unfold read_owner_only_file_bounded. calm_prim. rewrite L.
  by rewrite (proj2 (Z.eqb_neq _ _)), (proj2 (Z.ltb_ge _ _)) by lia.
Qed.

Lemma open_read_run n e c :
  dk_files d !! n = Some (Regular c) -> open_owner_only_file_read n e d = (Ok c, d).
Proof. intros L. unfold open_owner_only_file_read. calm_prim. by rewrite L. Qed.

Lemma create_run n c e :
  dk_files d !! n = None ->
  create_owner_only_file_new n c e d = (Ok tt, set_files d (<[n := Regular c]> (dk_files d))).
Proof. intros L. unfold create_owner_only_file_new. calm_prim. by rewrite L. Qed.

Lemma remove_run n e c :
  dk_files d !! n = Some (Regular c) ->
  remove_owner_only_file n e d = (Ok tt, set_files d (delete n (dk_files d))).
Proof. intros L. unfold remove_owner_only_file. calm_prim. by rewrite L. Qed.

Lemma remove_retry_run n c :
  dk_files d !! n = Some (Regular c) ->
  remove_owner_only_file_retry n d = (Ok tt, set_files d (delete n (dk_files d))).
Proof.
  intros L. unfold remove_owner_only_file_retry. cbn [retry].
  erewrite bind_run by (unfold attempt; by rewrite (remove_run n _ c L)). done.
Qed.

Lemma write_run n c e :
  dk_files d !! n <> Some Special ->
  atomic_write_owner_only n c e d = (Ok tt, set_files d (<[n := Regular c]> (dk_files d))).
Proof.
  intros L. unfold atomic_write_owner_only. calm_prim. by destruct (dk_files d !! n) as [[]|].
Qed.

(** The lock is taken; it may have been created. *)
Lemma lock_store_run :
  dk_files d !! ".store.lock" <> Some Special ->
  exists f, lock_store d = (Ok tt, set_files d f)
    /\ (forall n, n <> ".store.lock" -> f !! n = dk_files d !! n)
    /\ exists c, f !! ".store.lock" = Some (Regular c).
Proof.
  intros L. unfold lock_store, exists_, create_lock.
  rewrite (bind_run _ _ d (match dk_files d !! ".store.lock" with Some _ => true | None => false end) d);
    [|done].
  destruct (dk_files d !! ".store.lock") as [[c|]|] eqn:E; [|done|].
  - exists (dk_files d). split; [|eauto]. rewrite (bind_run _ _ d tt d) by done.
    rewrite (bind_run _ _ _ _ _ (open_read_run _ _ c E)), (bind_run _ _ _ _ _ outcome_run). by destruct d.
  - exists (<[".store.lock" := Regular ""]> (dk_files d)). split; [|split; [|exists ""; by rewrite lookup_insert_eq]].
    + erewrite bind_run by (erewrite bind_run by (unfold attempt; by rewrite (create_run _ "" _ E)); done).
      unfold open_owner_only_file_read, next_outcome, lookup_file, mbind, M_bind, set_files. cbn.
      rewrite calm. cbn. rewrite lookup_insert_eq. cbn. by rewrite calm.
    + intros n Hn. by rewrite lookup_insert_ne.
Qed.
End calm.
