(* ===== verification/TransferPlain.v ===== *)
(** * A concrete codec for transfer records

    An instance of [TransferCodec] to run the store on concrete inputs: records become
    trees of numbers and strings, which are countable, and their code is written in
    binary digits. *)

From stdpp Require Import base list strings countable.
From Stdlib Require Import ZArith Ascii.
From S2P Require Import Prelude RustStr RustBytes Transfer TransferFlow TransferDisk TransferStore.

Open Scope Z_scope.

Definition tree : Type := gen_tree (Z + string).
Definition num (z : Z) : tree := GenLeaf (inl z).
Definition txt (s : string) : tree := GenLeaf (inr s).
Definition opt {A} (f : A -> tree) (o : option A) : tree :=
  match o with Some a => GenNode 1 [f a] | None => GenNode 0 [] end.

Definition to_num (t : tree) : option Z := match t with GenLeaf (inl z) => Some z | _ => None end.
Definition to_txt (t : tree) : option string := match t with GenLeaf (inr s) => Some s | _ => None end.
Definition to_opt {A} (f : tree -> option A) (t : tree) : option (option A) :=
  match t with
  | GenNode 0 [] => Some None
  | GenNode 1 [t] => Some <$> f t
  | _ => None
  end.

Fixpoint bits (p : positive) : string :=
  match p with
  | xH => ""
  | xO p => String "0" (bits p)
  | xI p => String "1" (bits p)
  end.

Fixpoint unbits (s : string) : option positive :=
  match s with
  | EmptyString => Some xH
  | String c s => (if Ascii.eqb c "1" then xI else xO) <$> unbits s
  end.

Lemma unbits_bits p : unbits (bits p) = Some p.
Proof. induction p as [p IH|p IH|]; cbn; [by rewrite IH | by rewrite IH | done]. Qed.

Definition write_tree (t : tree) : string := bits (encode t).
Definition read_tree (s : string) : option tree := p ← unbits s; decode p.

Lemma read_write_tree t : read_tree (write_tree t) = Some t.
Proof. unfold read_tree, write_tree. rewrite unbits_bits. cbn. apply decode_encode. Qed.

(** ** Journals *)

Definition state_num (s : JournalState) : Z :=
  match s with Pending => 0 | Receiving => 1 | Cancelled => 2 | Failed => 3 | Completed => 4 | Published => 5 end.
Definition num_state (z : Z) : JournalState :=
  match z with 0 => Pending | 1 => Receiving | 2 => Cancelled | 3 => Failed | 4 => Completed | _ => Published end.

Definition journal_tree (j : TransferJournal) : tree :=
  GenNode 0 [num (tj_schema j); txt (tj_plan_id j); txt (tj_plan_sha256 j); txt (tj_owner_id j);
             num (tj_epoch j); num (tj_fence j); num (state_num (tj_state j));
             opt num (tj_contiguous_ack j); num (tj_bytes_received j); num (tj_expires_at_unix j);
             opt num (tj_published_size j); opt txt (tj_published_sha256 j)].

Definition tree_journal (t : tree) : option TransferJournal :=
  match t with
  | GenNode 0 [a; b; c; d; e; f; g; h; i; k; l; m] =>
      a ← to_num a; b ← to_txt b; c ← to_txt c; d ← to_txt d; e ← to_num e; f ← to_num f;
      g ← to_num g; h ← to_opt to_num h; i ← to_num i; k ← to_num k; l ← to_opt to_num l;
      m ← to_opt to_txt m;
      Some {| tj_schema := a; tj_plan_id := b; tj_plan_sha256 := c; tj_owner_id := d; tj_epoch := e;
              tj_fence := f; tj_state := num_state g; tj_contiguous_ack := h; tj_bytes_received := i;
              tj_expires_at_unix := k; tj_published_size := l; tj_published_sha256 := m |}
  | _ => None
  end.

Lemma tree_journal_tree j : tree_journal (journal_tree j) = Some j.
Proof. destruct j as [a b c d e f [] [] i k [] []]; reflexivity. Qed.

(** ** Plans *)

Definition plan_tree (p : TransferPlan) : tree :=
  let b := tp_binding p in
  let g := tp_grant p in
  GenNode 0 [txt (tp_id p); txt (tb_tenant_id b); txt (tb_source_principal_id b);
             txt (tb_destination_principal_id b); txt (tb_source_device_id b);
             txt (tb_destination_device_id b); txt (tb_source_workspace_id b);
             txt (tb_destination_workspace_id b); txt (tb_source_relative_path b);
             txt (tb_destination_relative_path b); txt (xg_grant_id g); txt (xg_operation_id g);
             txt (xg_payload_sha256 g); num (xg_expires_at_unix g); num (tp_size_bytes p);
             txt (tp_sha256 p); txt (tp_plan_sha256 p); opt txt (tp_overwrite_expected_sha256 p)].

Definition tree_plan (t : tree) : option TransferPlan :=
  match t with
  | GenNode 0 [i; b1; b2; b3; b4; b5; b6; b7; b8; b9; g1; g2; g3; g4; s; h; ph; o] =>
      i ← to_txt i; b1 ← to_txt b1; b2 ← to_txt b2; b3 ← to_txt b3; b4 ← to_txt b4; b5 ← to_txt b5;
      b6 ← to_txt b6; b7 ← to_txt b7; b8 ← to_txt b8; b9 ← to_txt b9; g1 ← to_txt g1; g2 ← to_txt g2;
      g3 ← to_txt g3; g4 ← to_num g4; s ← to_num s; h ← to_txt h; ph ← to_txt ph; o ← to_opt to_txt o;
      Some {| tp_id := i;
              tp_binding := {| tb_tenant_id := b1; tb_source_principal_id := b2;
                               tb_destination_principal_id := b3; tb_source_device_id := b4;
                               tb_destination_device_id := b5; tb_source_workspace_id := b6;
                               tb_destination_workspace_id := b7; tb_source_relative_path := b8;
                               tb_destination_relative_path := b9 |};
              tp_grant := {| xg_grant_id := g1; xg_operation_id := g2; xg_payload_sha256 := g3;
                             xg_expires_at_unix := g4 |};
              tp_size_bytes := s; tp_sha256 := h; tp_plan_sha256 := ph;
              tp_overwrite_expected_sha256 := o |}
  | _ => None
  end.

Lemma tree_plan_tree p : tree_plan (plan_tree p) = Some p.
Proof. destruct p as [i [] [] s h ph []]; reflexivity. Qed.

(** ** Cleanup receipts *)

Definition receipt_tree (r : SourceCleanupReceipt) : tree :=
  GenNode 0 [num (cr_schema r); num (match cr_phase r with Intent => 0 | CleanupCompleted => 1 end); txt (cr_plan_id r);
             txt (cr_plan_sha256 r); txt (cr_source_sha256 r); num (cr_source_size r);
             txt (cr_tenant_id r); txt (cr_principal_id r); txt (cr_device_id r); num (cr_epoch r);
             num (cr_fence r); num (cr_expires_at_unix r)].

Definition tree_receipt (t : tree) : option SourceCleanupReceipt :=
  match t with
  | GenNode 0 [a; b; c; d; e; f; g; h; i; k; l; m] =>
      a ← to_num a; b ← to_num b; c ← to_txt c; d ← to_txt d; e ← to_txt e; f ← to_num f;
      g ← to_txt g; h ← to_txt h; i ← to_txt i; k ← to_num k; l ← to_num l; m ← to_num m;
      Some {| cr_schema := a; cr_phase := if b =? 0 then Intent else CleanupCompleted; cr_plan_id := c;
              cr_plan_sha256 := d; cr_source_sha256 := e; cr_source_size := f; cr_tenant_id := g;
              cr_principal_id := h; cr_device_id := i; cr_epoch := k; cr_fence := l;
              cr_expires_at_unix := m |}
  | _ => None
  end.

Lemma tree_receipt_tree r : tree_receipt (receipt_tree r) = Some r.
Proof. destruct r as [a [] c d e f g h i k l m]; reflexivity. Qed.

Lemma tree_codec {A} (f : A -> tree) (g : tree -> option A) (law : forall a, g (f a) = Some a) a :
  (read_tree (write_tree (f a)) ≫= g) = Some a.
Proof. rewrite read_write_tree. apply law. Qed.

#[export] Instance plain_transfer_codec : TransferCodec := {|
  journal_to_vec j := write_tree (journal_tree j);
  journal_from_slice s := read_tree s ≫= tree_journal;
  journal_codec := tree_codec journal_tree tree_journal tree_journal_tree;
  plan_to_vec p := write_tree (plan_tree p);
  plan_from_slice s := read_tree s ≫= tree_plan;
  plan_codec := tree_codec plan_tree tree_plan tree_plan_tree;
  receipt_to_vec r := write_tree (receipt_tree r);
  receipt_from_slice s := read_tree s ≫= tree_receipt;
  receipt_codec := tree_codec receipt_tree tree_receipt tree_receipt_tree
|}.
