(* ===== verification/Items.v ===== *)
(** * Concrete texts and digests

    A codec for lists of numbers and strings, from which the instances of the JSON codecs
    are built that witnesses run on, and a checksum in the place of SHA-256. *)

From stdpp Require Import base list strings.
From Stdlib Require Import ZArith Lia Ascii.
From S2P Require Import Prelude RustStr RustBytes Transfer TransferPlain.

Open Scope Z_scope.

(** Lists of numbers and strings, each quoted. *)
Definition item : Type := Z + string.

Fixpoint quote (s rest : string) : string :=
  match s with EmptyString => String ";" rest | String c r => String "," (String c (quote r rest)) end.

Fixpoint unquote (s : string) : option (string * string) :=
  match s with
  | String d (String c r as t) =>
      if Ascii.eqb d ";" then Some ("", t) else p ← unquote r; Some (String c (fst p), snd p)
  | String d EmptyString => if Ascii.eqb d ";" then Some ("", "") else None
  | EmptyString => None
  end.

Lemma unquote_quote s rest : unquote (quote s rest) = Some (s, rest).
Proof. induction s as [|c s IH]; cbn; [by destruct rest | by rewrite IH]. Qed.

Definition number_text (z : Z) : string :=
  match z with Z0 => "" | Zpos p => String "+" (bits p) | Zneg p => String "-" (bits p) end.

Definition text_number (s : string) : option Z :=
  match s with
  | EmptyString => Some 0
  | String c r => (if Ascii.eqb c "+" then Zpos else Zneg) <$> unbits r
  end.

Lemma text_number_text z : text_number (number_text z) = Some z.
Proof. destruct z; cbn; [done | by rewrite unbits_bits..]. Qed.

Fixpoint write_items (l : list item) : string :=
  match l with
  | [] => ""
  | inl z :: l => String "n" (quote (number_text z) (write_items l))
  | inr s :: l => String "s" (quote s (write_items l))
  end.

Fixpoint read_items (fuel : nat) (s : string) : option (list item) :=
  match fuel, s with
  | _, EmptyString => Some []
  | O, _ => None
  | S fuel, String d r =>
      p ← unquote r; l ← read_items fuel (snd p);
      if Ascii.eqb d "n" then z ← text_number (fst p); Some (inl z :: l) else Some (inr (fst p) :: l)
  end.

Lemma read_write_items fuel l : (length l <= fuel)%nat -> read_items fuel (write_items l) = Some l.
Proof.
  revert fuel. induction l as [|[z|s] l IH]; intros [|fuel] H; cbn in *; try done; try lia.
  - rewrite unquote_quote. cbn. rewrite IH by lia. cbn. by rewrite text_number_text.
  - rewrite unquote_quote. cbn. by rewrite IH by lia.
Qed.

Lemma quote_length s rest : String.length (quote s rest) = (2 * String.length s + 1 + String.length rest)%nat.
Proof. induction s as [|c s IH]; cbn; lia. Qed.

Lemma write_items_length l : (length l <= String.length (write_items l))%nat.
Proof.
  induction l as [|[z|s] l IH]; [done | |]; cbn; rewrite quote_length; lia.
Qed.

Definition text_items (s : string) : option (list item) := read_items (String.length s) s.

Lemma text_items_write l : text_items (write_items l) = Some l.
Proof. apply read_write_items, write_items_length. Qed.

(** A checksum of the whole text stands for the digest. *)
Fixpoint rolling (h : Z) (s : string) : Z :=
  match s with EmptyString => h | String c r => rolling (Z.land (h * 257 + code c) 65535) r end.

Definition rolling_sha256 (b : string) : string := to_be_bytes 32 (rolling 7 b).

Lemma rolling_sha256_len b : str_len (rolling_sha256 b) = 32.
Proof. apply (to_be_bytes_len 32). Qed.

#[export] Instance rolling_digests : Digests := {|
  sha256 := rolling_sha256;
  hex_encode := plain_hex;
  hex_decode := plain_unhex;
  uuid_parse_hyphenated := plain_uuid;
  sha256_len := rolling_sha256_len;
  hex_encode_len := plain_hex_len;
  hex_encode_lower := plain_hex_lower;
  hex_decode_encode := plain_unhex_hex;
  hex_encode_decode s := plain_hex_unhex (String.length s) s (le_n _);
  uuid_one_line := plain_uuid_line
|}.
