(* ===== verification/TransferFence.v ===== *)
(** * Fencing of transfer journals

    Any number of processes acquire leases on one plan, claim a generation or load the
    durable one, save progress and die, in any interleaving and with any failing file
    operation.  The theorem: the durable journal of the plan only ever moves to newer
    generations, and a process whose generation is not the durable one cannot write.  The
    example at the end is the order of the handler of a cancellation, which loads first
    and acquires afterwards: it writes an older generation back. *)

From stdpp Require Import base list strings gmap relations.
From Stdlib Require Import ZArith Lia Ascii.
From S2P Require Import Prelude RustStr RustBytes RustPath Transfer TransferFlow TransferDisk TransferStore TransferParts TransferSource TransferFrame TransferPlain.

Open Scope Z_scope.

Definition nothing (_ : string) : Prop := False.

Lemma frames_nothing {A} (m : M A) d r d' :
  frames nothing m -> m d = (r, d') -> dk_files d' = dk_files d.
Proof. intros F H. apply map_eq. intros n. apply (F _ _ _ H). intros []. Qed.

Lemma frames_weaken {A} (P Q : string -> Prop) (m : M A) :
  (forall n, P n -> Q n) -> frames P m -> frames Q m.
Proof.
  intros I F d r d' H. destruct (F _ _ _ H) as [F1 F2]. split; [|done]. intros n Hn. apply F1.
  contradict Hn. by apply I.
Qed.

(** The first step of a program: it fails and leaves the files, or it succeeds. *)
Ltac m_split H :=
  let a := fresh "a" in let d := fresh "d" in let E := fresh "E" in let e := fresh "e" in
  apply bind_inv in H as [(a & d & E & H)|(e & E & ->)];
  [| apply frames_nothing in E; [|solve [frame]]].

Section fence.
Context {DG : Digests} {TC : TransferCodec}.
Variable limits : JournalLimits.
Variable plan : TransferPlan.

Lemma frames_load P p : frames P (load limits p).
Proof. unfold load. frame. Qed.

(** The two files of the plan the fencing is about. *)
Definition lock_name : string := "." +:+ tp_id plan +:+ ".lock".
Definition json_name : string := "." +:+ tp_id plan +:+ ".json".

Definition lease_files (n : string) : Prop := n = lock_name \/ n = ".store.lock".

Lemma frames_acquire nonce now expires f : frames lease_files (acquire_inner limits nonce plan now expires f).
Proof.
  assert (lease_files ("." +:+ tp_id plan +:+ ".lock")) by (by left).
  assert (lease_files ".store.lock") by (by right).
  pose proof (frames_load lease_files plan). unfold acquire_inner. frame.
Qed.

Lemma frames_claim_err {A} (m : M A) (Q : string -> Prop) d r d' n :
  frames Q m -> m d = (r, d') -> ~ Q n -> dk_files d' !! n = dk_files d !! n.
Proof. intros F H. apply (F _ _ _ H). Qed.

Lemma acquire_ok nonce now expires f d lease d' :
  acquire_inner limits nonce plan now expires f d = (Ok lease, d') ->
  jl_plan_id lease = tp_id plan /\ jl_path lease = lock_name
  /\ jl_body lease = lease_record nonce (tp_id plan) expires
  /\ dk_files d' !! lock_name = Some (Regular (jl_body lease)).
Proof.
  unfold acquire_inner. intros H. m_inv.
  match goal with E : path _ _ = Ok _ |- _ => apply path_ok in E as [-> _] end. fold lock_name in *.
  match goal with x : result unit TransferError |- _ => destruct x as [[]|] end; m_inv;
    match goal with E : create_owner_only_file_new _ _ _ _ = (Ok _, _) |- _ => apply create_ok in E as [_ F] end;
    cbn; rewrite F; by rewrite lookup_insert_eq.
Qed.

(** The lock file after any attempt: as it was, gone, or the new record. *)
Lemma acquire_lock nonce now expires f d r d' :
  acquire_inner limits nonce plan now expires f d = (r, d') -> plan_validate plan = Ok tt ->
  dk_files d' !! lock_name = dk_files d !! lock_name \/ dk_files d' !! lock_name = None
  \/ dk_files d' !! lock_name = Some (Regular (lease_record nonce (tp_id plan) expires)).
Proof.
  intros H V. set (Q := fun g : gmap string Node =>
    g !! lock_name = dk_files d !! lock_name \/ g !! lock_name = None
    \/ g !! lock_name = Some (Regular (lease_record nonce (tp_id plan) expires))).
  assert (forall f, Q f -> Q (<["." +:+ tp_id plan +:+ ".lock" := Regular (lease_record nonce (tp_id plan) expires)]> f))
    by (intros g _; right; right; apply lookup_insert_eq).
  assert (forall f, Q f -> Q (delete ("." +:+ tp_id plan +:+ ".lock") f))
    by (intros g _; right; left; apply lookup_delete_eq).
  assert (keeps Q lock_store).
  { eapply keeps_frame; [by apply (frames_lock_store (fun n => n = ".store.lock")) |].
    intros g g' E. unfold Q. rewrite E; [done |].
    apply plan_validate_ok in V as (_ & _ & V). unfold lock_name. by rewrite V. }
  pose proof (frames_load (fun _ => False) plan).
  assert (keeps Q (acquire_inner limits nonce plan now expires f)) as K by (unfold acquire_inner; keep).
  apply (K d r d'); [by left | done].
Qed.

(** The journal on disk. *)
Definition durable (d : Disk) : option TransferJournal :=
  match dk_files d !! json_name with
  | Some (Regular bytes) => journal_from_slice bytes
  | _ => None
  end.

Lemma durable_same d d' : dk_files d' !! json_name = dk_files d !! json_name -> durable d' = durable d.
Proof. unfold durable. by intros ->. Qed.

Lemma durable_written j d' :
  dk_files d' !! json_name = Some (Regular (journal_to_vec j)) -> durable d' = Some j.
Proof. unfold durable. intros ->. apply journal_codec. Qed.

Lemma load_ok d o d' :
  load limits plan d = (Ok o, d') ->
  dk_files d' = dk_files d /\ durable d = o
  /\ match o with Some j => tj_plan_id j = tp_id plan | None => dk_files d !! json_name = None end.
Proof.
  intros H. pose proof (frames_nothing _ _ _ _ (frames_load nothing plan) H) as F.
  split; [done |]. unfold load, exists_ in H. m_inv.
  match goal with E : path _ _ = Ok _ |- _ => apply path_ok in E as [-> _] end. fold json_name in *.
  match goal with E : lookup_file _ _ = _ |- _ => injection E as <- <- end. unfold durable.
  destruct (dk_files d !! json_name) eqn:L; cbn [negb] in H; m_inv; [|done].
  match goal with E : read_owner_only_file_bounded _ _ _ _ = _ |- _ => apply read_ok in E as (L' & _ & _) end.
  rewrite L in L'. injection L' as ->.
  match goal with E : ok_or _ _ = Ok _ |- _ => apply ok_or_ok in E as -> end.
  split; [done |].
  match goal with E : validate_for _ _ = Ok _ |- _ => unfold validate_for in E end.
  res_inv; bool_prop; by apply String.eqb_eq.
Qed.

Lemma save_cases lease j d r d' :
  tj_plan_id j = tp_id plan -> save_unlocked limits lease j d = (r, d') ->
  (dk_files d' = dk_files d /\ exists e, r = Err e)
  \/ (dk_files d !! jl_path lease = Some (Regular (jl_body lease))
      /\ dk_files d' = <[json_name := Regular (journal_to_vec j)]> (dk_files d)).
Proof.
  intros Hj H. unfold save_unlocked in H.
  m_split H; [apply ensure_ok in E as [_ ->]|eauto].
  m_split H; [apply read_ok in E as (L & _ & F); rewrite <- F in *|eauto].
  m_split H; [apply ensure_ok in E as [Eq ->]|eauto]. bool_prop. apply String.eqb_eq in Eq as ->.
  m_split H; [apply ensure_ok in E as [_ ->]|eauto].
  m_split H; [apply lift_ok in E as [E ->]|eauto].
  rewrite Hj in E. apply path_ok in E as [-> _].
  apply write_cases in H as [[-> H]|H]; [eauto | by right].
Qed.

Hypothesis plan_ok : plan_validate plan = Ok tt.

Lemma not_store_lock suffix : "." +:+ tp_id plan +:+ suffix <> ".store.lock".
Proof. apply plan_validate_ok in plan_ok as (_ & _ & ->). by unfold plan_id_of. Qed.

Lemma lock_json : lock_name <> json_name.
Proof.
  unfold lock_name, json_name. intros H. injection H as H. by apply str_app_inj_l in H.
Qed.

Lemma claim_existing_ok old owner epoch fence now expires cursor j :
  claim_existing plan old owner epoch fence now expires cursor = Ok j ->
  tj_epoch j = epoch /\ tj_fence j = fence /\ tj_plan_id j = tj_plan_id old
  /\ tj_epoch old < epoch /\ tj_fence old < fence.
Proof.
  unfold claim_existing, at_room_cursor. intros H. res_inv; bool_prop; cbn; auto.
Qed.

Lemma claim_fresh_ok owner epoch fence expires cursor j :
  claim_fresh plan owner epoch fence expires cursor = Ok j ->
  tj_epoch j = epoch /\ tj_fence j = fence /\ tj_plan_id j = tp_id plan.
Proof. unfold claim_fresh, journal_fresh. intros H. res_inv; cbn; auto. Qed.

(** What a claim leaves behind: nothing new, or the next generation of the journal,
    written under the claimant's own lease. *)
Definition claimed (lease : JournalLease) (epoch fence : Z) (d : Disk)
    (r : result TransferJournal TransferError) (d' : Disk) : Prop :=
  (dk_files d' !! json_name = dk_files d !! json_name /\ (exists e, r = Err e))
  \/ exists j, dk_files d !! lock_name = Some (Regular (jl_body lease))
      /\ durable d' = Some j /\ tj_epoch j = epoch /\ tj_fence j = fence
      /\ (r = Ok j \/ exists e, r = Err e)
      /\ (forall old, durable d = Some old -> tj_epoch old < epoch /\ tj_fence old < fence).

Lemma claim_unlocked_cases lease owner epoch fence now expires cursor d r d' :
  jl_path lease = lock_name ->
  claim_unlocked limits lease plan owner epoch fence now expires cursor d = (r, d') ->
  claimed lease epoch fence d r d'
  /\ (forall n, n <> json_name -> dk_files d' !! n = dk_files d !! n).
Proof.
  intros Hl H. unfold claim_unlocked in H.
  assert (forall e, dk_files d' = dk_files d -> claimed lease epoch fence d (Err e) d'
                    /\ (forall n, n <> json_name -> dk_files d' !! n = dk_files d !! n)) as Same.
  { intros e F. rewrite F. split; [left; rewrite F; eauto | done]. }
  m_split H; [apply lift_ok in E as [_ ->]|auto].
  m_split H; [apply ensure_ok in E as [_ ->]|auto].
  pose proof (frames_load nothing plan). m_split H; [|auto].
  apply load_ok in E as (F & D & Hid).
  rewrite <- F in Hid. m_split H; [|apply Same; congruence].
  assert (dk_files d1 = dk_files d0 /\ tj_epoch a2 = epoch /\ tj_fence a2 = fence
          /\ tj_plan_id a2 = tp_id plan
          /\ (forall old, durable d = Some old -> tj_epoch old < epoch /\ tj_fence old < fence))
    as (F' & He & Hf & Hp & Ho).
  { destruct a1 as [old|]; m_inv.
    - apply claim_existing_ok in E as (-> & -> & -> & ? & ?). split_and!; try done. naive_solver.
    - match goal with E : read_dir _ = _ |- _ => apply frames_nothing in E; [|auto with frame] end.
      apply claim_fresh_ok in E as (-> & -> & ->). split_and!; try done. congruence. }
  assert (forall res d2, save_unlocked limits lease a2 d1 = (res, d2) ->
          (dk_files d2 = dk_files d /\ exists e, res = Err e)
          \/ dk_files d !! lock_name = Some (Regular (jl_body lease))
             /\ dk_files d2 = <[json_name := Regular (journal_to_vec a2)]> (dk_files d)) as Sv.
  { intros res d2 S. apply save_cases in S; [|done]. by rewrite <- Hl, <- F, <- F'. }
  assert (forall res, dk_files d !! lock_name = Some (Regular (jl_body lease)) ->
          dk_files d' = <[json_name := Regular (journal_to_vec a2)]> (dk_files d) ->
          (res = Ok a2 \/ exists e, res = Err e) ->
          claimed lease epoch fence d res d'
          /\ (forall n, n <> json_name -> dk_files d' !! n = dk_files d !! n)) as Written.
  { intros res L W R. rewrite W. split; [right; exists a2 | intros n Hn; by apply lookup_insert_ne].
    split_and!; try done. apply durable_written. rewrite W. by rewrite lookup_insert_eq. }
  apply bind_inv in H as [(u & d2 & S & H)|(e & S & ->)].
  - injection H as <- <-. apply Sv in S as [[_ [e ?]]|[L W]]; [done |]. apply Written; auto.
  - apply Sv in S as [[W _]|[L W]]; [|apply Written; eauto].
    apply Same; congruence.
Qed.

Lemma claim_cases lease owner epoch fence now expires cursor d r d' :
  jl_path lease = lock_name ->
  claim_inner limits lease plan owner epoch fence now expires cursor d = (r, d') ->
  claimed lease epoch fence d r d'
  /\ (forall n, n <> json_name -> n <> ".store.lock" -> dk_files d' !! n = dk_files d !! n).
Proof.
  intros Hl H. unfold claim_inner in H.
  apply bind_inv in H as [(u & d1 & E & H)|(e & E & ->)];
    apply (frames_lock_store (fun n => n = ".store.lock")) in E as [F _]; try done.
  2:{ split; [left | auto]. split; [apply F, not_store_lock | eauto]. }
  apply claim_unlocked_cases in H as [C R]; [|done].
  assert (dk_files d1 !! json_name = dk_files d !! json_name) as Fj by apply F, not_store_lock.
  split; [|intros n Hn Hs; by rewrite R, F by done].
  unfold claimed in *. rewrite <- Fj, <- (durable_same d d1 Fj).
  by rewrite <- (F lock_name) by apply not_store_lock.
Qed.

Lemma save_locked_cases lease j d r d' :
  jl_path lease = lock_name -> tj_plan_id j = tp_id plan -> save limits lease j d = (r, d') ->
  (dk_files d' !! json_name = dk_files d !! json_name /\ (exists e, r = Err e)
   \/ dk_files d !! lock_name = Some (Regular (jl_body lease)) /\ durable d' = Some j)
  /\ (forall n, n <> json_name -> n <> ".store.lock" -> dk_files d' !! n = dk_files d !! n).
Proof.
  intros Hl Hj H. unfold save in H.
  apply bind_inv in H as [(u & d1 & E & H)|(e & E & ->)];
    apply (frames_lock_store (fun n => n = ".store.lock")) in E as [F _]; try done.
  2:{ split; [left | auto]. split; [apply F, not_store_lock | eauto]. }
  apply save_cases in H; [|done]. rewrite Hl in H.
  rewrite <- (F lock_name), <- (F json_name) by apply not_store_lock.
  destruct H as [[-> He]|[L W]]; [split; [left; done | auto] |]. rewrite W.
  split; [right | intros n H1 H2; rewrite lookup_insert_ne by done; auto].
  split; [done |]. apply durable_written. by rewrite W, lookup_insert_eq.
Qed.

(** ** Processes *)

(** A process that holds (or held) a lease, with the journal it claimed or loaded under it. *)
Record Holder : Type := { hd_lease : JournalLease; hd_journal : option TransferJournal }.

Record Sys : Type := {
  sy_disk : Disk;
  sy_holders : gmap nat Holder;
  sy_nonces : gset string
}.

(** One step of any process, each operation with whatever outcome it has.  Under its lease
    a process claims, as the handler that prepares a destination does, or loads the
    journal of the generation it was asked for, as the handlers of a chunk and of the
    finalization do; it saves journals of that generation.  Between steps the clock, the
    outcomes and every other file of the directory may change. *)
Inductive step : Sys -> Sys -> Prop :=
| step_env s d' :
    dk_files d' !! lock_name = dk_files (sy_disk s) !! lock_name ->
    dk_files d' !! json_name = dk_files (sy_disk s) !! json_name ->
    step s {| sy_disk := d'; sy_holders := sy_holders s; sy_nonces := sy_nonces s |}
| step_acquire s h nonce now expires f r d' :
    nonce ∉ sy_nonces s -> 0 <= expires ->
    acquire_inner limits nonce plan now expires f (sy_disk s) = (r, d') ->
    step s {| sy_disk := d';
              sy_holders := match r with
                            | Ok lease => <[h := {| hd_lease := lease; hd_journal := None |}]> (sy_holders s)
                            | Err _ => sy_holders s
                            end;
              sy_nonces := {[nonce]} ∪ sy_nonces s |}
| step_claim s h lease owner epoch fence now expires cursor r d' :
    sy_holders s !! h = Some {| hd_lease := lease; hd_journal := None |} ->
    claim_inner limits lease plan owner epoch fence now expires cursor (sy_disk s) = (r, d') ->
    step s {| sy_disk := d';
              sy_holders := match r with
                            | Ok j => <[h := {| hd_lease := lease; hd_journal := Some j |}]> (sy_holders s)
                            | Err _ => sy_holders s
                            end;
              sy_nonces := sy_nonces s |}
| step_load s h hd epoch fence r d' :
    sy_holders s !! h = Some hd -> load_for_fence limits plan epoch fence (sy_disk s) = (r, d') ->
    step s {| sy_disk := d';
              sy_holders := match r with
                            | Ok j => <[h := {| hd_lease := hd_lease hd; hd_journal := Some j |}]> (sy_holders s)
                            | Err _ => sy_holders s
                            end;
              sy_nonces := sy_nonces s |}
| step_save s h lease j0 j r d' :
    sy_holders s !! h = Some {| hd_lease := lease; hd_journal := Some j0 |} ->
    tj_plan_id j = tp_id plan -> tj_epoch j = tj_epoch j0 -> tj_fence j = tj_fence j0 ->
    save limits lease j (sy_disk s) = (r, d') ->
    step s {| sy_disk := d'; sy_holders := sy_holders s; sy_nonces := sy_nonces s |}
| step_release s h hd r d' :
    sy_holders s !! h = Some hd -> release (hd_lease hd) (sy_disk s) = (r, d') ->
    step s {| sy_disk := d'; sy_holders := delete h (sy_holders s); sy_nonces := sy_nonces s |}
| step_crash s h :
    step s {| sy_disk := sy_disk s; sy_holders := delete h (sy_holders s); sy_nonces := sy_nonces s |}.

(** The second journal is the same generation or a newer one. *)
Definition newer (a b : option TransferJournal) : Prop :=
  match a, b with
  | None, _ => True
  | Some a, Some b => tj_epoch a <= tj_epoch b /\ tj_fence a <= tj_fence b
  | Some _, None => False
  end.

Definition same_generation (a b : TransferJournal) : Prop :=
  tj_epoch a = tj_epoch b /\ tj_fence a = tj_fence b.

Definition current (s : Sys) (hd : Holder) : Prop :=
  dk_files (sy_disk s) !! lock_name = Some (Regular (jl_body (hd_lease hd))).

(** Leases are told apart by their nonces, and the process whose lease is in the lock
    file has claimed or loaded the durable generation, if it has done either. *)
Record fenced (s : Sys) : Prop := {
  fn_lease h hd : sy_holders s !! h = Some hd ->
    jl_path (hd_lease hd) = lock_name
    /\ exists nonce expires, nonce ∈ sy_nonces s /\ 0 <= expires
       /\ jl_body (hd_lease hd) = lease_record nonce (tp_id plan) expires;
  fn_distinct h h' hd hd' : sy_holders s !! h = Some hd -> sy_holders s !! h' = Some hd' ->
    jl_body (hd_lease hd) = jl_body (hd_lease hd') -> h = h';
  fn_current h hd j : sy_holders s !! h = Some hd -> hd_journal hd = Some j -> current s hd ->
    exists jd, durable (sy_disk s) = Some jd /\ same_generation jd j
}.

Lemma lease_nonce_inj nonce nonce' e e' :
  0 <= e -> 0 <= e' ->
  lease_record nonce (tp_id plan) e = lease_record nonce' (tp_id plan) e' -> nonce = nonce'.
Proof.
  intros He He' H. unfold lease_record, line in H. rewrite <- !str_app_assoc in H.
  cbn [String.append] in H. apply str_app_inj_l in H. injection H as H.
  apply digits_until in H as [_ H]; [|done|by apply u64_to_string_digits|by apply u64_to_string_digits].
  apply (f_equal (String.rev)) in H. rewrite !rev_str_app in H. cbn in H. injection H as H.
  by rewrite <- (rev_str_involutive nonce), H, rev_str_involutive.
Qed.

Lemma newer_refl a : newer a a.
Proof. destruct a; cbn; lia || done. Qed.

Lemma newer_trans a b c : newer a b -> newer b c -> newer a c.
Proof. destruct a, b, c; cbn; lia || done. Qed.

Lemma frames_release lease :
  frames (fun n => n = jl_path lease) (release lease).
Proof. unfold release. frame. Qed.

Lemma release_lock lease d r d' :
  jl_path lease = lock_name -> release lease d = (r, d') ->
  dk_files d' !! lock_name = dk_files d !! lock_name \/ dk_files d' !! lock_name = None.
Proof.
  intros Hl H. set (Q := fun g : gmap string Node =>
    g !! lock_name = dk_files d !! lock_name \/ g !! lock_name = None).
  assert (forall f, Q f -> Q (delete (jl_path lease) f))
    by (intros g _; right; rewrite Hl; apply lookup_delete_eq).
  assert (keeps Q (release lease)) as K by (unfold release; keep).
  apply (K d r d'); [by left | done].
Qed.

(** Fewer holders, the same or no lock record and the same journal keep the invariant. *)
Lemma fenced_shrink s d' hs :
  fenced s -> hs ⊆ sy_holders s ->
  dk_files d' !! lock_name = dk_files (sy_disk s) !! lock_name \/ dk_files d' !! lock_name = None ->
  dk_files d' !! json_name = dk_files (sy_disk s) !! json_name ->
  fenced {| sy_disk := d'; sy_holders := hs; sy_nonces := sy_nonces s |}.
Proof.
  intros [F1 F2 F3] Hs Hl Hj.
  assert (forall h hd, hs !! h = Some hd -> sy_holders s !! h = Some hd) as Sub
    by (intros; by eapply lookup_weaken).
  split; cbn [sy_disk sy_holders sy_nonces]; [eauto | eauto |].
  intros h hd j Hh Hd Hc. unfold current in Hc. cbn [sy_disk] in Hc.
  rewrite (durable_same _ _ Hj). apply (F3 h hd j); [auto | done |]. unfold current.
  destruct Hl as [Hl|Hl]; congruence.
Qed.

Lemma step_acquire_fenced s h nonce now expires f r d' :
  fenced s -> nonce ∉ sy_nonces s -> 0 <= expires ->
  acquire_inner limits nonce plan now expires f (sy_disk s) = (r, d') ->
  fenced {| sy_disk := d';
            sy_holders := match r with
                          | Ok lease => <[h := {| hd_lease := lease; hd_journal := None |}]> (sy_holders s)
                          | Err _ => sy_holders s
                          end;
            sy_nonces := {[nonce]} ∪ sy_nonces s |}
  /\ dk_files d' !! json_name = dk_files (sy_disk s) !! json_name.
Proof.
  intros [F1 F2 F3] Hn He A.
  assert (dk_files d' !! json_name = dk_files (sy_disk s) !! json_name) as Hj.
  { apply (frames_acquire _ _ _ _ _ _ _ A). intros [E|E]; [by apply lock_json | by apply not_store_lock in E]. }
  split; [|done].
  (* no earlier lease has the new record *)
  assert (forall h' hd, sy_holders s !! h' = Some hd ->
          jl_body (hd_lease hd) <> lease_record nonce (tp_id plan) expires) as New.
  { intros h' hd Hh Eq. destruct (F1 h' hd Hh) as (_ & n' & e' & N & E' & B). rewrite B in Eq.
    apply lease_nonce_inj in Eq as ->; done. }
  assert (forall h' hd j, sy_holders s !! h' = Some hd -> hd_journal hd = Some j ->
          dk_files d' !! lock_name = Some (Regular (jl_body (hd_lease hd))) ->
          exists jd, durable d' = Some jd /\ same_generation jd j) as Old.
  { intros h' hd j Hh Hd Hc. rewrite (durable_same _ _ Hj). apply (F3 h' hd j Hh Hd).
    unfold current. destruct (acquire_lock _ _ _ _ _ _ _ A plan_ok) as [L|[L|L]]; [congruence..|].
    rewrite L in Hc. injection Hc as Hc. by destruct (New h' hd Hh). }
  destruct r as [lease|e]; [apply acquire_ok in A as (_ & Hp & Hb & Hlk)|]; split;
    unfold current; cbn [sy_disk sy_holders sy_nonces].
  - intros h' hd. rewrite lookup_insert_Some. intros [[_ <-]|[_ Hh]]; cbn; [set_solver by lia|].
    destruct (F1 h' hd Hh) as (? & n' & e' & ? & ? & ?). set_solver.
  - intros h1 h2 hd1 hd2. rewrite !lookup_insert_Some.
    intros [[<- <-]|[? H1]] [[<- <-]|[? H2]] Eq; cbn in Eq; [done | | |by eapply F2].
    + rewrite Hb in Eq. by destruct (New h2 hd2 H2).
    + rewrite Hb in Eq. by destruct (New h1 hd1 H1).
  - intros h' hd j. rewrite lookup_insert_Some. intros [[_ <-]|[_ Hh]]; [done | eauto].
  - intros h' hd Hh. destruct (F1 h' hd Hh) as (? & n' & e' & ? & ? & ?). set_solver.
  - exact F2.
  - eauto.
Qed.

(** A write by the current holder leaves no other holder current. *)
Lemma only_current s h hd h' hd' :
  fenced s -> sy_holders s !! h = Some hd -> sy_holders s !! h' = Some hd' ->
  current s hd -> current s hd' -> h' = h.
Proof.
  intros F Hh Hh' C C'. eapply (fn_distinct s F); [done | done |]. unfold current in *. congruence.
Qed.

Lemma step_claim_fenced s h lease owner epoch fence now expires cursor r d' :
  fenced s -> sy_holders s !! h = Some {| hd_lease := lease; hd_journal := None |} ->
  claim_inner limits lease plan owner epoch fence now expires cursor (sy_disk s) = (r, d') ->
  fenced {| sy_disk := d';
            sy_holders := match r with
                          | Ok j => <[h := {| hd_lease := lease; hd_journal := Some j |}]> (sy_holders s)
                          | Err _ => sy_holders s
                          end;
            sy_nonces := sy_nonces s |}
  /\ newer (durable (sy_disk s)) (durable d').
Proof.
  intros F Hh C. destruct (fn_lease s F h _ Hh) as [Hl _]. cbn in Hl.
  apply claim_cases in C as [C R]; [|done].
  assert (dk_files d' !! lock_name = dk_files (sy_disk s) !! lock_name) as Lk
    by (apply R; [apply lock_json | apply not_store_lock]).
  destruct C as [[Hj [e ->]]|(j & L & D & He & Hf & Hr & Ho)].
  { split; [apply fenced_shrink; auto | rewrite (durable_same _ _ Hj); apply newer_refl]. }
  split.
  2:{ rewrite D. destruct (durable (sy_disk s)) as [old|] eqn:O; [|done].
      destruct (Ho old eq_refl). cbn. lia. }
  assert (forall h' hd j', sy_holders s !! h' = Some hd -> hd_journal hd = Some j' ->
          dk_files d' !! lock_name = Some (Regular (jl_body (hd_lease hd))) -> False) as Others.
  { intros h' hd j' Hh' Hd' Hc. rewrite Lk in Hc.
    assert (h' = h) as -> by (eapply only_current; eauto). rewrite Hh in Hh'. by simplify_eq. }
  destruct F as [F1 F2 F3]. destruct Hr as [->|[e ->]]; split; unfold current;
    cbn [sy_disk sy_holders sy_nonces]; try done.
  - intros h' hd. rewrite lookup_insert_Some. intros [[<- <-]|[_ Hh']]; [|eauto]. apply (F1 _ _ Hh).
  - intros h1 h2 hd1 hd2. rewrite !lookup_insert_Some.
    intros [[<- <-]|[? H1]] [[<- <-]|[? H2]]; [done | eauto | eauto | eauto].
  - intros h' hd j'. rewrite lookup_insert_Some. intros [[_ <-]|[_ Hh']] Hd Hc; cbn in Hd.
    + injection Hd as <-. by exists j.
    + by destruct (Others h' hd j').
  - intros h' hd j' Hh' Hd Hc. by destruct (Others h' hd j').
Qed.

Lemma load_for_fence_cases epoch fence d r d' :
  load_for_fence limits plan epoch fence d = (r, d') ->
  dk_files d' = dk_files d /\ (forall j, r = Ok j -> durable d = Some j).
Proof.
  intros H. assert (frames nothing (load_for_fence limits plan epoch fence)) as F
    by (pose proof (frames_load nothing plan); unfold load_for_fence; frame).
  split; [by eapply frames_nothing |]. intros j ->. unfold load_for_fence in H. m_inv.
  match goal with E : load _ _ _ = _ |- _ => apply load_ok in E as (_ & D & _) end.
  match goal with E : ok_or _ _ = Ok _ |- _ => apply ok_or_ok in E end. congruence.
Qed.

(** What is loaded is the durable generation, whoever loads it. *)
Lemma step_load_fenced s h hd epoch fence r d' :
  fenced s -> sy_holders s !! h = Some hd -> load_for_fence limits plan epoch fence (sy_disk s) = (r, d') ->
  fenced {| sy_disk := d';
            sy_holders := match r with
                          | Ok j => <[h := {| hd_lease := hd_lease hd; hd_journal := Some j |}]> (sy_holders s)
                          | Err _ => sy_holders s
                          end;
            sy_nonces := sy_nonces s |}
  /\ durable d' = durable (sy_disk s).
Proof.
  intros F Hh L. apply load_for_fence_cases in L as [E D].
  assert (durable d' = durable (sy_disk s)) as Dd by (apply durable_same; by rewrite E).
  split; [|exact Dd]. destruct r as [j|e]; [|apply fenced_shrink; [done | done | left | ]; by rewrite E].
  destruct F as [F1 F2 F3]. split; unfold current; cbn [sy_disk sy_holders sy_nonces].
  - intros h' hd'. rewrite lookup_insert_Some. intros [[<- <-]|[_ Hh']]; [|eauto]. apply (F1 _ _ Hh).
  - intros h1 h2 hd1 hd2. rewrite !lookup_insert_Some.
    intros [[<- <-]|[? H1]] [[<- <-]|[? H2]]; [done | eauto | eauto | eauto].
  - intros h' hd' j'. rewrite lookup_insert_Some, Dd, E. intros [[_ <-]|[_ Hh']] Hd Hc; [|by eapply F3].
    injection Hd as <-. exists j. split; [by apply D | done].
Qed.

Lemma step_save_fenced s h lease j0 j r d' :
  fenced s -> sy_holders s !! h = Some {| hd_lease := lease; hd_journal := Some j0 |} ->
  tj_plan_id j = tp_id plan -> tj_epoch j = tj_epoch j0 -> tj_fence j = tj_fence j0 ->
  save limits lease j (sy_disk s) = (r, d') ->
  fenced {| sy_disk := d'; sy_holders := sy_holders s; sy_nonces := sy_nonces s |}
  /\ newer (durable (sy_disk s)) (durable d').
Proof.
  intros F Hh Hp He Hf S. destruct (fn_lease s F h _ Hh) as [Hl _]. cbn in Hl.
  apply save_locked_cases in S as [C R]; [|done|done].
  assert (dk_files d' !! lock_name = dk_files (sy_disk s) !! lock_name) as Lk
    by (apply R; [apply lock_json | apply not_store_lock]).
  destruct C as [[Hj _]|[L D]].
  { split; [apply fenced_shrink; auto | rewrite (durable_same _ _ Hj); apply newer_refl]. }
  destruct (fn_current s F h _ j0 Hh eq_refl L) as (jd & Dj & G1 & G2).
  split; [|rewrite D, Dj; cbn; lia].
  split; unfold current; cbn [sy_disk sy_holders sy_nonces]; [apply F | apply F |].
  intros h' hd j' Hh' Hd Hc. rewrite Lk in Hc.
  assert (h' = h) as -> by (eapply only_current; eauto). rewrite Hh in Hh'. simplify_eq. cbn in Hd.
  injection Hd as <-. by exists j.
Qed.

Lemma step_fenced s s' :
  fenced s -> step s s' -> fenced s' /\ newer (durable (sy_disk s)) (durable (sy_disk s')).
Proof.
  intros F St. destruct St; cbn [sy_disk].
  - split; [apply fenced_shrink; auto | erewrite durable_same by done; apply newer_refl].
  - destruct (step_acquire_fenced s h nonce now expires f r d') as [F' Hj]; [done..|].
    split; [done | rewrite (durable_same _ _ Hj); apply newer_refl].
  - by eapply step_claim_fenced.
  - destruct (step_load_fenced s h hd epoch fence r d') as [F' ->]; [done..|]. split; [done | apply newer_refl].
  - by eapply step_save_fenced.
  - destruct (fn_lease s F h hd) as [Hl _]; [done |].
    match goal with E : release _ _ = _ |- _ => pose proof E as E'; apply frames_release in E' as [Fr _] end.
    assert (dk_files d' !! json_name = dk_files (sy_disk s) !! json_name) as Hj
      by (apply Fr; rewrite Hl; intros E; by destruct lock_json).
    split; [|rewrite (durable_same _ _ Hj); apply newer_refl].
    apply fenced_shrink; [done | apply delete_subseteq | by eapply release_lock | done].
  - split; [|apply newer_refl].
    apply fenced_shrink; [done | apply delete_subseteq | by left | done].
Qed.

End fence.

(** ** A concrete run

    One process claims generation 1; another takes over with generation 2; the first
    wakes up and tries to save. *)

Definition empty_disk : Disk := {| dk_files := ∅; dk_faults := []; dk_now := 1000 |}.
Definition uuid_a : string := "00000000-0000-4000-8000-00000000000a".
Definition uuid_b : string := "00000000-0000-4000-8000-00000000000b".
Definition no_lease : JournalLease := {| jl_plan_id := ""; jl_path := ""; jl_body := "" |}.

(** The outcome of a lease, when there is one. *)
Definition lease_of (r : result JournalLease TransferError * Disk) : JournalLease :=
  match r with (Ok l, _) => l | _ => no_lease end.

Definition sample_acquire1 : result JournalLease TransferError * Disk :=
  acquire_inner default_journal_limits uuid_a sample_plan 1000 1500 None empty_disk.
Definition sample_lease1 : JournalLease := lease_of sample_acquire1.
Definition sample_claim1 : result TransferJournal TransferError * Disk :=
  claim_inner default_journal_limits sample_lease1 sample_plan "alice" 1 1 1000 1500 None (snd sample_acquire1).
Definition sample_acquire2 : result JournalLease TransferError * Disk :=
  acquire_inner default_journal_limits uuid_b sample_plan 1001 1600 (Some (2, 2)) (snd sample_claim1).
Definition sample_lease2 : JournalLease := lease_of sample_acquire2.
Definition sample_claim2 : result TransferJournal TransferError * Disk :=
  claim_inner default_journal_limits sample_lease2 sample_plan "bob" 2 2 1001 1600 None (snd sample_acquire2).

Definition after_acquire (h : nat) (r : result JournalLease TransferError * Disk) (s : Sys) (nonce : string) : Sys :=
  {| sy_disk := snd r;
     sy_holders := match fst r with
                   | Ok lease => <[h := {| hd_lease := lease; hd_journal := None |}]> (sy_holders s)
                   | Err _ => sy_holders s
                   end;
     sy_nonces := {[nonce]} ∪ sy_nonces s |}.

Definition after_claim (h : nat) (lease : JournalLease) (r : result TransferJournal TransferError * Disk) (s : Sys) : Sys :=
  {| sy_disk := snd r;
     sy_holders := match fst r with
                   | Ok j => <[h := {| hd_lease := lease; hd_journal := Some j |}]> (sy_holders s)
                   | Err _ => sy_holders s
                   end;
     sy_nonces := sy_nonces s |}.

Definition sample_start : Sys := {| sy_disk := empty_disk; sy_holders := ∅; sy_nonces := ∅ |}.

Definition sample_s1 : Sys := after_acquire 1 sample_acquire1 sample_start uuid_a.
Definition sample_s2 : Sys := after_claim 1 sample_lease1 sample_claim1 sample_s1.
Definition sample_s3 : Sys := after_acquire 2 sample_acquire2 sample_s2 uuid_b.
Definition taken_over : Sys := after_claim 2 sample_lease2 sample_claim2 sample_s3.

Lemma sample_acquired1 : fst sample_acquire1 = Ok sample_lease1.
Proof. vm_compute. reflexivity. Qed.

Lemma sample_acquired2 : fst sample_acquire2 = Ok sample_lease2.
Proof. vm_compute. reflexivity. Qed.

Definition no_journal : TransferJournal :=
  {| tj_schema := 0; tj_plan_id := ""; tj_plan_sha256 := ""; tj_owner_id := ""; tj_epoch := 0;
     tj_fence := 0; tj_state := Failed; tj_contiguous_ack := None; tj_bytes_received := 0;
     tj_expires_at_unix := 0; tj_published_size := None; tj_published_sha256 := None |}.
Definition journal_of (r : result TransferJournal TransferError * Disk) : TransferJournal :=
  match r with (Ok j, _) => j | _ => no_journal end.

Lemma sample_claimed1 : fst sample_claim1 = Ok (journal_of sample_claim1).
Proof. vm_compute. reflexivity. Qed.

Lemma sample_claimed2 : fst sample_claim2 = Ok (journal_of sample_claim2).
Proof. vm_compute. reflexivity. Qed.

Lemma sample_generation : durable sample_plan (snd sample_claim2) = Some (journal_of sample_claim2)
  /\ tj_epoch (journal_of sample_claim2) = 2 /\ tj_epoch (journal_of sample_claim1) = 1.
Proof. vm_compute. split_and!; reflexivity. Qed.

Lemma sample_valid : plan_validate sample_plan = Ok tt.
Proof. vm_compute. reflexivity. Qed.


Lemma sample_plan_id : tj_plan_id (journal_of sample_claim1) = tp_id sample_plan.
Proof. vm_compute. reflexivity. Qed.

Lemma sample_superseded jd :
  durable sample_plan (snd sample_claim2) = Some jd -> tj_epoch jd <> tj_epoch (journal_of sample_claim1).
Proof.
  destruct sample_generation as (D & E2 & E1). rewrite D, E1. intros Q. apply (inj Some) in Q.
  rewrite <- Q, E2. discriminate.
Qed.

Lemma taken_over_reached : rtc (step default_journal_limits sample_plan) sample_start taken_over.
Proof.
  apply (rtc_l _ _ sample_s1).
  { apply (step_acquire default_journal_limits sample_plan sample_start 1 uuid_a 1000 1500 None
             (fst sample_acquire1) (snd sample_acquire1)); [set_solver | lia | apply surjective_pairing]. }
  apply (rtc_l _ _ sample_s2).
  { apply (step_claim default_journal_limits sample_plan sample_s1 1 sample_lease1 "alice" 1 1 1000 1500 None
             (fst sample_claim1) (snd sample_claim1)); [|apply surjective_pairing].
    unfold sample_s1, after_acquire. cbn [sy_holders]. rewrite sample_acquired1. apply lookup_insert_eq. }
  apply (rtc_l _ _ sample_s3).
  { apply (step_acquire default_journal_limits sample_plan sample_s2 2 uuid_b 1001 1600 (Some (2, 2))
             (fst sample_acquire2) (snd sample_acquire2)); [|lia|apply surjective_pairing].
    unfold sample_s2, sample_s1, after_claim, after_acquire. cbn [sy_nonces sample_start]. set_solver. }
  apply rtc_once.
  apply (step_claim default_journal_limits sample_plan sample_s3 2 sample_lease2 "bob" 2 2 1001 1600 None
           (fst sample_claim2) (snd sample_claim2)); [|apply surjective_pairing].
  unfold sample_s3, after_acquire. cbn [sy_holders]. rewrite sample_acquired2. apply lookup_insert_eq.
Qed.

Lemma taken_over_holder :
  sy_holders taken_over !! 1%nat =
  Some {| hd_lease := sample_lease1; hd_journal := Some (journal_of sample_claim1) |}.
Proof.
  unfold taken_over, sample_s3, sample_s2, after_claim, after_acquire. cbn [sy_holders].
  rewrite sample_claimed2, sample_acquired2, sample_claimed1.
  rewrite !lookup_insert_ne by done. apply lookup_insert_eq.
Qed.


(** ** The order of a cancellation

    The handler of a cancellation loads the journal, then acquires a lease, then saves.
    Between the first two another process takes over with generation 2 and releases its
    lease. *)

Definition cancel_load : result TransferJournal TransferError * Disk :=
  load_for_fence default_journal_limits sample_plan 1 1 (snd sample_claim1).
Definition overtaken : Disk := snd (release sample_lease2 (snd sample_claim2)).
Definition cancel_acquire : result JournalLease TransferError * Disk :=
  acquire default_journal_limits "00000000-0000-4000-8000-00000000000c" sample_plan 1002 1700 overtaken.
Definition cancel_save : result unit TransferError * Disk :=
  save default_journal_limits (lease_of cancel_acquire) (journal_of cancel_load) (snd cancel_acquire).

(** The save of the cancellation succeeds and the durable journal is back at generation 1. *)
Lemma cancel_writes_back :
  option_map tj_epoch (durable sample_plan overtaken) = Some 2 /\ fst cancel_save = Ok tt
  /\ option_map tj_epoch (durable sample_plan (snd cancel_save)) = Some 1.
Proof. vm_compute. auto. Qed.
