(* ===== verification/TransferResume.v ===== *)
(** * Resuming a transfer after a crash

    What [create_part] does to the directory, and the composition of a crash recovery:
    claiming the next generation at the relay's cursor, moving the durable prefix into
    the new part file, resuming the receiver from it and running to completion. *)

From stdpp Require Import base list strings gmap.
From Stdlib Require Import ZArith Lia Ascii.
From S2P Require Import Prelude RustStr RustBytes RustPath Transfer TransferFlow TransferRun TransferLive TransferDisk TransferStore TransferParts TransferSource TransferFrame TransferPlain TransferFence.

Open Scope Z_scope.

Section resume.
Context {DG : Digests} {TC : TransferCodec}.

(** ** The parts of a plan *)

Lemma add_part_ok id parts name node d l d' :
  add_part id parts (name, node) d = (Ok l, d') ->
  d' = d /\ forall e n, (e, n) ∈ l <->
    (e, n) ∈ parts \/ (n = name /\ part_epoch id n = Some e /\ exists c, node = Regular c).
Proof.
  unfold add_part. destruct (part_epoch id name) as [e0|] eqn:P; intros H; m_inv.
  - destruct node; m_inv. split; [done |]. intros e n. rewrite elem_of_app, list_elem_of_singleton.
    split; [intros [?|[= -> ->]]; eauto 10 |]. intros [?|(-> & P' & _)]; [auto |]. right. congruence.
  - split; [done |]. intros e n. split; [auto |]. intros [?|(-> & P' & _)]; [done | congruence].
Qed.

Lemma add_parts_ok id entries parts d l d' :
  fold_m (add_part id) parts entries d = (Ok l, d') ->
  d' = d /\ forall e n, (e, n) ∈ l <->
    (e, n) ∈ parts \/ (part_epoch id n = Some e /\ exists c, (n, Regular c) ∈ entries).
Proof.
  revert parts d. induction entries as [|[name node] entries IH]; intros parts d H; cbn in H; m_inv.
  - split; [done |]. intros e n. split; [auto |]. intros [?|(_ & c & Hc)]; [done |]. by apply elem_of_nil in Hc.
  - apply add_part_ok in E as [-> Ha]. apply IH in H as [-> Hl]. split; [done |]. intros e n.
    rewrite Hl, Ha. setoid_rewrite elem_of_cons. naive_solver.
Qed.

Lemma generation_parts_ok id d l d' :
  generation_parts id d = (Ok l, d') ->
  dk_files d' = dk_files d
  /\ forall e n, (e, n) ∈ l <-> (part_epoch id n = Some e /\ exists c, dk_files d !! n = Some (Regular c)).
Proof.
  unfold generation_parts. intros H. m_inv.
  match goal with E : read_dir _ = _ |- _ => apply read_dir_ok in E as [F ->] end.
  match goal with E : fold_m _ _ _ _ = _ |- _ => apply add_parts_ok in E as [-> Ha] end.
  split; [done |]. intros e n. rewrite sort_by_perm, Ha. setoid_rewrite elem_of_map_to_list.
  split; [intros [Hn|?]; [by apply elem_of_nil in Hn | done] | auto].
Qed.

(** ** A new generation *)

Lemma stage_part_ok name pred resume_at c d u d' :
  dk_files d !! name = Some (Regular c) ->
  stage_part name pred resume_at d = (Ok u, d') ->
  match pred with
  | None => dk_files d' = dk_files d
  | Some (_, p) => exists prior, dk_files d !! p = Some (Regular prior) /\ resume_at <= str_len prior
      /\ dk_files d' = <[name := Regular (c +:+ take resume_at prior)]> (dk_files d)
  end.
Proof.
  intros Hc. unfold stage_part. intros H. m_inv.
  match goal with E : open_owner_only_file_read _ _ _ = _ |- _ => apply open_read_ok in E as [L F] end.
  rewrite Hc in L. injection L as <-. rewrite <- F in *.
  repeat match goal with E : next_outcome _ = _ |- _ => apply outcome_ok in E end.
  match goal with f : Fault |- _ => destruct f; m_inv end.
  destruct pred as [[e p]|]; m_inv; [|congruence].
  match goal with E : open_owner_only_file_read_retry _ _ = _ |- _ => apply open_retry_ok in E as [L' F'] end.
  match goal with E : next_outcome _ = _ |- _ => apply outcome_ok in E as Fo end.
  match goal with f : Fault |- _ => destruct f; m_inv end.
  match goal with E : put_file _ _ _ = _ |- _ => apply put_ok in E as Fp end.
  bool_prop. exists a. split_and!; [done | done | congruence].
Qed.

Lemma retire_parts_ok name existing d u d' :
  retire_parts name existing d = (Ok u, d') ->
  forall n, dk_files d' !! n = if decide (n ∈ existing.*2) then None else dk_files d !! n.
Proof.
  revert d. induction existing as [|[e p] rest IH]; intros d H n; cbn [retire_parts] in H; m_inv.
  { by rewrite decide_False by (by intros ?%elem_of_nil). }
  destruct a as [[]|]; m_inv. apply remove_retry_ok in E. rewrite (IH _ H), E. cbn.
  destruct (decide (n ∈ rest.*2)); [by rewrite decide_True by (by right) |].
  destruct (decide (n = p)) as [->|Hne].
  - rewrite decide_True by (by left). apply lookup_delete_eq.
  - rewrite decide_False by (by intros [?|?]%elem_of_cons). by apply lookup_delete_ne.
Qed.

(** A generation with a non-empty prefix: the prefix is cut from the predecessor. *)
Lemma new_generation_ok name epoch resume_at existing d u d' :
  0 < resume_at -> new_generation name epoch resume_at existing d = (Ok u, d') ->
  exists e p prior, (e, p) ∈ existing /\ e < epoch /\ dk_files d !! name = None
    /\ dk_files d !! p = Some (Regular prior) /\ resume_at <= str_len prior
    /\ forall n, dk_files d' !! n =
         if decide (n ∈ existing.*2) then None
         else if decide (n = name) then Some (Regular (take resume_at prior)) else dk_files d !! n.
Proof.
  intros Hr. unfold new_generation. rewrite (proj2 (Z.ltb_lt _ _)) by done. intros H. m_inv.
  destruct (predecessor_of epoch existing) as [[e p]|] eqn:Hp; [|discriminate]. cbn in E. injection E as <-.
  unfold predecessor_of in Hp. apply List.find_some in Hp as [Hin He]. cbn in He. bool_prop.
  apply in_rev in Hin. apply list_elem_of_In in Hin.
  match goal with E : create_owner_only_file_new _ _ _ _ = _ |- _ => apply create_ok in E as [N F] end.
  match goal with x : result unit TransferError |- _ => destruct x as [[]|]; m_inv end.
  match goal with E : stage_part _ _ _ _ = _ |- _ =>
    apply (stage_part_ok _ _ _ "") in E as (prior & L & Hle & F2) end;
    [|rewrite F; apply lookup_insert_eq].
  exists e, p, prior.
  assert (p <> name) as Hne.
  { intros ->. rewrite F, lookup_insert_eq in L. injection L as <-. change (str_len "") with 0 in Hle. lia. }
  rewrite F, lookup_insert_ne in L by done.
  split_and!; try done. intros n. rewrite (retire_parts_ok _ _ _ _ _ H).
  destruct (decide (n ∈ existing.*2)); [done |]. rewrite F2, F.
  destruct (decide (n = name)) as [->|]; [apply lookup_insert_eq |].
  by rewrite !lookup_insert_ne.
Qed.

Lemma single_elem {A} (l : list A) (x : A) : zlen l <= 1 -> x ∈ l -> l = [x].
Proof.
  destruct l as [|y [|z l]]; rewrite ?zlen_cons.
  - intros _ H. by apply elem_of_nil in H.
  - intros _ H. apply list_elem_of_singleton in H as ->. done.
  - pose proof (zlen_nonneg l). lia.
Qed.

Lemma frames_retired P size existing : frames P (retired_usage size existing).
Proof. unfold retired_usage, part_len. frame. Qed.

(** Resuming at a non-empty prefix in a new generation: the one earlier part of the plan
    is replaced by a part of the new epoch with exactly that prefix, nothing else of the
    directory changes, and the sink stands at its end. *)
Lemma create_part_ok faults plan epoch resume_at d k d' :
  0 < resume_at -> create_part faults plan epoch resume_at d = (Ok k, d') ->
  dk_files d !! pf_path k = None ->
  exists e p prior, part_epoch (tp_id plan) p = Some e /\ e < epoch
    /\ dk_files d !! p = Some (Regular prior) /\ resume_at <= str_len prior
    /\ dk_files d' !! pf_path k = Some (Regular (take resume_at prior)) /\ dk_files d' !! p = None
    /\ (forall n, n <> pf_path k -> n <> p -> dk_files d' !! n = dk_files d !! n)
    /\ k = {| pf_path := pf_path k; pf_file := Some (take resume_at prior);
              pf_expected_offset := resume_at; pf_expected_size := tp_size_bytes plan;
              pf_expected_sha256 := tp_sha256 plan;
              pf_expires_at_unix := xg_expires_at_unix (tp_grant plan); pf_closed := false;
              pf_verified := false; pf_now := dk_now d; pf_faults := faults |}
    /\ plan_validate_at plan (dk_now d) = Ok tt.
Proof.
  intros Hr H. unfold create_part in H. m_inv. cbn [pf_path]. intros N.
  match goal with E : generation_parts _ _ = _ |- _ => apply generation_parts_ok in E as [F G] end.
  match goal with E : retired_usage _ _ _ = _ |- _ =>
    apply (frames_retired nothing) in E as [F1 _] end.
  assert (dk_files d6 = dk_files d) as F6 by (rewrite <- F; apply map_eq; intros i; apply F1; intros []).
  destruct (existsb _ _) eqn:Ex.
  { apply existsb_exists in Ex as ([e n] & Hin & En). apply list_elem_of_In, G in Hin as (_ & c & Hc).
    cbn in En. apply String.eqb_eq in En as ->. congruence. }
  match goal with E : new_generation _ _ _ _ _ = _ |- _ => apply new_generation_ok in E as
    (e & p & prior & Hin & He & _ & L & Hle & Hd); [|done] end.
  match goal with E : open_owner_only_file_read _ _ _ = _ |- _ => apply open_read_ok in E as [Lo Fo] end.
  rewrite F6 in *. bool_prop. apply (single_elem a3) in Hin as ->; [|done].
  assert (p <> a2) as Hne by congruence. rewrite Hd in Lo. cbn in Lo.
  rewrite decide_False, decide_True in Lo by (try done; intros ?%list_elem_of_singleton; congruence).
  injection Lo as <-. destruct (proj1 (G e p)) as [Pe _]; [by left |].
  exists e, p, prior. rewrite Fo. split_and!; try done.
  - rewrite Hd. cbn. rewrite decide_False, decide_True; [done | done |]. intros ?%list_elem_of_singleton. congruence.
  - rewrite Hd. cbn. rewrite decide_True; [done | by left].
  - intros n Hn Hp. rewrite Hd. cbn. rewrite !decide_False; [done | done |]. by intros ?%list_elem_of_singleton.
  - by destruct a0.
Qed.

(** ** Claiming at the relay's cursor *)

Variable limits : JournalLimits.
Variable plan : TransferPlan.

Lemma load_valid d j d' : load limits plan d = (Ok (Some j), d') -> validate_for j plan = Ok tt.
Proof.
  unfold load. intros H. m_inv. destruct (negb _); m_inv.
  match goal with E : validate_for _ _ = Ok ?u |- _ => by destruct u end.
Qed.

Lemma claim_room_ok lease owner epoch fence now expires q o d j d' old :
  claim_at_room_cursor limits lease plan owner epoch fence now expires q o d = (Ok j, d') ->
  plan_validate plan = Ok tt -> durable plan d = Some old ->
  claim_existing plan old owner epoch fence now expires (Some (q, o)) = Ok j
  /\ validate_for old plan = Ok tt /\ plan_validate_at plan now = Ok tt.
Proof.
  unfold claim_at_room_cursor, claim_inner, claim_unlocked. intros H V D. m_inv.
  match goal with E : lock_store _ = _ |- _ =>
    apply (frames_lock_store (fun n => n = ".store.lock")) in E as [F _]; [|done] end.
  match goal with E : load _ _ _ = _ |- _ => pose proof E as E'; apply load_ok in E as (F' & D' & _) end.
  rewrite (durable_same plan d) in D' by (apply F, not_store_lock, V). rewrite D in D'. subst.
  apply load_valid in E'. m_inv. by repeat match goal with u : unit |- _ => destruct u end.
Qed.

(** The journal of the new generation stands at the cursor, never ahead of what the old
    one had. *)
Lemma room_journal_ok old owner epoch fence now expires q o j :
  claim_existing plan old owner epoch fence now expires (Some (q, o)) = Ok j ->
  validate_for old plan = Ok tt -> 0 <= tj_epoch old -> 0 <= tj_fence old ->
  0 < o < tp_size_bytes plan -> tp_size_bytes plan + MAX_CHUNK_BYTES <= u64_max ->
  validate_for j plan = Ok tt /\ tj_state j = Receiving /\ tj_bytes_received j = o
  /\ next_after (tj_contiguous_ack j) = Ok q /\ 0 <= q <= o /\ o <= tj_bytes_received old.
Proof.
  intros H V He Hf Ho Hu. unfold claim_existing, at_room_cursor in H. res_inv. bool_prop. cbn in *.
  match goal with E : validate_room_cursor plan q o = Ok ?u |- _ => destruct u; apply room_cursor_ok in E; [|lia|lia] end.
  rewrite (proj2 (Z.eqb_neq o _)) by lia.
  assert (0 < q <= o) as Hq.
  { destruct E2 as (_ & _ & ->). change MAX_CHUNK_BYTES with 65536. Z.div_mod_to_equations. lia. }
  split_and!; try done || lia.
  - unfold validate_for in *. cbn. destruct (guard_err _ _) as [[]|] eqn:G in V; [|discriminate].
    cbn [rbind] in V. unfold guard_err in G. destruct (_ || _) eqn:B in G; [discriminate |]. bool_prop.
    repeat match goal with E : ?b = true |- _ => rewrite E; clear E end.
    rewrite (proj2 (Z.eqb_neq epoch 0)), (proj2 (Z.eqb_neq fence 0)) by lia.
    rewrite (proj2 (Z.eqb_eq _ _)) by done. cbn.
    destruct (tj_state old); try discriminate; done.
  - unfold u64_checked_sub. rewrite (proj2 (Z.leb_le _ _)) by lia. cbn.
    unfold u64_checked_add. rewrite (proj2 (Z.leb_le _ u64_max)) by (unfold MAX_CHUNK_BYTES in *; lia).
    cbn. f_equal. lia.
Qed.

Lemma resume_from_part_ok now j t q :
  plan_validate_at plan now = Ok tt -> validate_for j plan = Ok tt -> tj_state j = Receiving ->
  tj_bytes_received j = str_len t -> next_after (tj_contiguous_ack j) = Ok q ->
  exists r, resume_from_part now plan j (Some (source t)) = Ok r /\ tr_next_sequence r = q.
Proof.
  intros V Vj St Hb Hq. unfold resume_from_part. rewrite V.
  change (reads_of (source t)) with (file_reads (String.length (drop 0 t)) (drop 0 t)).
  cbn [rbind ok_or source rf_fault rf_content].
  rewrite Hb, Z.eqb_refl. cbn [negb guard_err rbind].
  change (reads_of (source t)) with (file_reads (String.length (drop 0 t)) (drop 0 t)).
  rewrite drop_zero, read_all_file by done.
  cbn [rbind]. rewrite Vj, St, Hq. cbn. eauto.
Qed.

(** Which parts hold what the old generation acknowledged. *)
Definition acknowledged (d : Disk) (n : Z) (content : string) : Prop :=
  forall e p prior, part_epoch (tp_id plan) p = Some e -> dk_files d !! p = Some (Regular prior) ->
  take n prior = take n content.

Lemma part_not_json (V : plan_validate plan = Ok tt) p e :
  part_epoch (tp_id plan) p = Some e -> p <> json_name plan /\ p <> ".store.lock".
Proof.
  unfold part_epoch. intros H. split; intros ->.
  - unfold json_name in H.
    replace ("." +:+ tp_id plan +:+ ".json") with (("." +:+ tp_id plan +:+ ".") +:+ "json") in H
      by (by rewrite <- !str_app_assoc).
    rewrite strip_prefix_app in H. discriminate.
  - apply plan_validate_ok in V as (_ & _ & V). rewrite V in H. discriminate.
Qed.

Lemma take_take a b s : 0 <= a <= b -> take a (take b s) = take a s.
Proof.
  intros H. destruct (Z.le_ge_cases (str_len s) a) as [L|L]; [by rewrite (take_all b) by lia |].
  replace b with (a + (b - a)) by lia. rewrite take_add by lia.
  assert (str_len (take a s) = a) as E by (rewrite take_len; lia).
  rewrite <- E at 1. apply take_app.
Qed.
End resume.

(** The handle of [open_owner_only_file_read] on a file of the disk, when opening it and
    reading it do not fail. *)
Definition open_read (d : Disk) (name : string) : option RetainedFile :=
  match dk_files d !! name with Some (Regular content) => Some (source content) | _ => None end.

(** C16: an interrupted transfer finishes where the relay says it stopped.  A receiver
    crashed in some generation; every part file left holds the bytes the durable journal
    acknowledged.  Suppose a new process has claimed the next generation at the relay's
    cursor [(q, o)], strictly inside the file and not ahead of the old journal, and has
    created its part under an unused name.  Then the receiver resumes from the file now
    on disk under that name, at exactly [(q, o)], the source reopens there, and pumping
    the remaining frames completes the transfer with the planned content, if the grant
    stays live and no system call fails from there on. *)
Theorem interrupted_transfer_completes {DG : Digests} {TC : TransferCodec} limits plan content lease
    owner epoch fence now expires q o d j d1 old k d2 clock fuel :
  plan_validate plan = Ok tt -> tp_size_bytes plan = str_len content ->
  str_len content + MAX_CHUNK_BYTES <= u64_max -> tp_sha256 plan = hash_bytes content ->
  durable plan d = Some old -> 0 <= tj_epoch old -> 0 <= tj_fence old ->
  acknowledged plan d (tj_bytes_received old) content ->
  jl_path lease = lock_name plan ->
  claim_at_room_cursor limits lease plan owner epoch fence now expires q o d = (Ok j, d1) ->
  0 < o < str_len content ->
  create_part [] plan epoch o d1 = (Ok k, d2) -> dk_files d1 !! pf_path k = None ->
  (forall n, clock n < xg_expires_at_unix (tp_grant plan)) ->
  str_len content - o <= MAX_CHUNK_BYTES * (Z.of_nat fuel - 1) ->
  exists r s r' k',
    resume_from_part now plan j (open_read d2 (pf_path k)) = Ok r /\ tr_next_sequence r = q
    /\ from_retained_file now plan (source content) q o = Ok s
    /\ pump clock fuel s r k = (Ok tt, r', k') /\ arrived content r' k'.
Proof.
  intros V Hs Hu Hh D He Hf Hack Hl C Ho Cp N Hc Hfu.
  destruct (claim_room_ok _ _ _ _ _ _ _ _ _ _ _ _ _ _ C V D) as (Ce & Vo & Vn).
  destruct (room_journal_ok _ _ _ _ _ _ _ _ _ _ Ce Vo He Hf) as (Vj & St & Hb & Hq & Hqo & Hle);
    [lia | lia |].
  apply create_part_ok in Cp as (e & p & prior & Pe & _ & L & Hlen & File & _ & _ & K & Vk); [|lia|done].
  unfold claim_at_room_cursor in C. apply claim_cases in C as [_ Fr]; [|done|done].
  destruct (part_not_json plan V _ _ Pe) as [Nj Ns]. rewrite Fr in L by done.
  assert (take o prior = take o content) as Ht.
  { rewrite <- (take_take o (tj_bytes_received old) prior), (Hack e p prior Pe L) by lia.
    apply take_take. lia. }
  rewrite Ht in K, File. unfold open_read. rewrite File. set (t := take o content) in *.
  assert (str_len t = o) as Lt by (unfold t; rewrite take_len; lia).
  destruct (resume_from_part_ok plan now j t q Vn Vj St) as (r & Hr & Hrq); [lia | done |].
  assert (opened now plan r (take o content)) as O
    by (apply (opened_part now plan j (source t) r); done).
  assert (forall z, plan_validate_at plan z = Ok tt -> z < xg_expires_at_unix (tp_grant plan)) as Live.
  { intros z Hz. unfold plan_validate_at, grant_validate_at in Hz. res_inv. bool_prop. lia. }
  destruct (transfer_completes plan content clock now fuel o r k) as (s & r' & k' & S & P & A);
    try done; [by apply Live | by left; lia | lia | rewrite K; split; cbn; auto |].
  rewrite Hrq in *. eauto 10.
Qed.

(** ** A concrete recovery

    A file of one full chunk and one more byte; the first chunk arrived, the process died,
    the second generation fetches the rest. *)

Fixpoint repeat_char (n : nat) (c : ascii) : string :=
  match n with O => "" | S n => String c (repeat_char n c) end.

Definition big : string := repeat_char (Z.to_nat 65537) "a".

Definition big_plan : TransferPlan :=
  let c := canonical sample_binding sample_grant 65537 (hash_bytes big) in
  {| tp_id := plan_id_of (hash_bytes c); tp_binding := sample_binding; tp_grant := sample_grant;
     tp_size_bytes := 65537; tp_sha256 := hash_bytes big; tp_plan_sha256 := hash_bytes c;
     tp_overwrite_expected_sha256 := None |}.

Definition old_journal : TransferJournal :=
  {| tj_schema := 1; tj_plan_id := tp_id big_plan; tj_plan_sha256 := tp_plan_sha256 big_plan;
     tj_owner_id := "alice"; tj_epoch := 1; tj_fence := 1; tj_state := Receiving;
     tj_contiguous_ack := Some 0; tj_bytes_received := 65536; tj_expires_at_unix := 1500;
     tj_published_size := None; tj_published_sha256 := None |}.

Definition big_lease : JournalLease :=
  {| jl_plan_id := tp_id big_plan; jl_path := lock_name big_plan;
     jl_body := lease_record uuid_b (tp_id big_plan) 1600 |}.

Definition old_part : string := "." +:+ tp_id big_plan +:+ ".1.part".

Definition crashed_disk : Disk :=
  {| dk_files := {[ json_name big_plan := Regular (journal_to_vec old_journal);
                    lock_name big_plan := Regular (jl_body big_lease);
                    old_part := Regular (take 65536 big) ]};
     dk_faults := []; dk_now := 1100 |}.

Definition big_claim : result TransferJournal TransferError * Disk :=
  claim_at_room_cursor default_journal_limits big_lease big_plan "bob" 2 2 1100 1600 1 65536 crashed_disk.

Definition part_of (r : result PartFileSink TransferError * Disk) : PartFileSink :=
  match r with (Ok k, _) => k | _ => sample_part end.

Definition big_part : result PartFileSink TransferError * Disk :=
  create_part [] big_plan 2 65536 (snd big_claim).

Lemma journal_of_ok r : is_ok (fst r) = true -> r = (Ok (journal_of r), snd r).
Proof. by destruct r as [[]]. Qed.

Lemma part_of_ok r : is_ok (fst r) = true -> r = (Ok (part_of r), snd r).
Proof. by destruct r as [[]]. Qed.

Lemma big_claimed : is_ok (fst big_claim) = true.
Proof. vm_compute. reflexivity. Qed.

Lemma big_created : is_ok (fst big_part) = true.
Proof. vm_compute. reflexivity. Qed.

Lemma big_acknowledged : acknowledged big_plan crashed_disk (tj_bytes_received old_journal) big.
Proof.
  intros e p prior Pe L. unfold crashed_disk in L. cbn [dk_files] in L.
  revert L. generalize big. intros c L.
  apply lookup_insert_Some in L as [[<- _]|[_ L]]; [exfalso; revert Pe; vm_compute; discriminate |].
  apply lookup_insert_Some in L as [[<- _]|[_ L]]; [exfalso; revert Pe; vm_compute; discriminate |].
  apply lookup_singleton_Some in L as [_ [= <-]]. apply take_take. cbn. lia.
Qed.

Lemma interrupted_transfer_completes_witness :
  exists r s r' k',
    resume_from_part 1100 big_plan (journal_of big_claim) (open_read (snd big_part) (pf_path (part_of big_part))) = Ok r
    /\ tr_next_sequence r = 1
    /\ from_retained_file 1100 big_plan (source big) 1 65536 = Ok s
    /\ pump (fun _ => 1200) 2 s r (part_of big_part) = (Ok tt, r', k') /\ arrived big r' k'.
Proof.
  apply (interrupted_transfer_completes default_journal_limits big_plan big big_lease "bob" 2 2 1100 1600
           1 65536 crashed_disk (journal_of big_claim) (snd big_claim) old_journal (part_of big_part)
           (snd big_part) (fun _ => 1200) 2).
  - vm_compute. reflexivity.
  - vm_compute. reflexivity.
  - vm_compute. discriminate.
  - reflexivity.
  - vm_compute. reflexivity.
  - vm_compute. discriminate.
  - vm_compute. discriminate.
  - exact big_acknowledged.
  - reflexivity.
  - apply (journal_of_ok big_claim), big_claimed.
  - split; vm_compute; reflexivity.
  - apply (part_of_ok big_part), big_created.
  - vm_compute. reflexivity.
  - intros _. vm_compute. reflexivity.
  - vm_compute. discriminate.
Defined.
