(* ===== verification/TransferPublish.v ===== *)
(** * What reaches the destination workspace

    A publication hands the workspace nothing but the verified content of a completed
    transfer. *)

From stdpp Require Import base list strings gmap.
From Stdlib Require Import ZArith Lia Ascii.
From S2P Require Import Prelude RustStr RustBytes RustPath Transfer TransferFlow TransferRun TransferDisk TransferStore TransferParts TransferSource TransferFrame TransferPlain TransferFence.

Open Scope Z_scope.

Section publish.
Context {DG : Digests} {TC : TransferCodec}.

Lemma hash_reads_ok fuel content seen max n h :
  (String.length content <= fuel)%nat ->
  hash_reads max (str_len seen) seen (file_reads fuel content) = Ok (n, h) ->
  n = str_len (seen +:+ content) /\ h = hash_bytes (seen +:+ content).
Proof.
  revert content seen. induction fuel as [|fuel IH]; intros content seen Hf.
  { assert (content = "") as -> by (destruct content; [done | cbn in Hf; lia]).
    rewrite str_app_nil_r. by intros [= <- <-]. }
  cbn [file_reads]. rewrite is_empty_len. destruct (Z.eqb_spec (str_len content) 0) as [E|E].
  { apply str_len_zero in E as ->. rewrite str_app_nil_r. by intros [= <- <-]. }
  pose proof (str_len_nonneg content). assert (0 < MAX_CHUNK_BYTES) by done.
  pose proof (take_len MAX_CHUNK_BYTES content ltac:(lia)) as Lt.
  pose proof (drop_len MAX_CHUNK_BYTES content ltac:(lia)) as Ld.
  cbn [hash_reads]. rewrite is_empty_len, (proj2 (Z.eqb_neq _ _)) by lia.
  destruct (u64_checked_add _ _) as [t|] eqn:A; [|discriminate]. apply u64_checked_add_Some in A as [-> _].
  cbn [ok_or rbind]. rewrite <- str_len_app. destruct (_ <? _); [discriminate |]. intros R.
  apply IH in R; [|unfold str_len in *; lia]. by rewrite <- str_app_assoc, split_at_join in R.
Qed.

Lemma hash_file_ok content max n h :
  hash_file content max = Ok (n, h) -> n = str_len content /\ h = hash_bytes content.
Proof. intros H. by apply (hash_reads_ok _ content "" max) in H. Qed.

Variable limits : JournalLimits.

(** A verified part: the durable journal is completed and the part of its epoch is the
    planned file. *)
Lemma verified_part plan d content d' :
  open_verified_completed_part limits plan d = (Ok content, d') ->
  dk_files d' = dk_files d /\ str_len content = tp_size_bytes plan /\ hash_bytes content = tp_sha256 plan
  /\ exists j name, durable plan d = Some j /\ tj_state j = Completed
     /\ part_path (tp_id plan) (tj_epoch j) = Ok name /\ dk_files d !! name = Some (Regular content).
Proof.
  unfold open_verified_completed_part. intros H. m_inv.
  match goal with E : load _ _ _ = _ |- _ => apply load_ok in E as (F & D & _) end.
  match goal with E : ok_or _ _ = Ok _ |- _ => apply ok_or_ok in E as -> end.
  match goal with E : open_owner_only_file_read _ _ _ = _ |- _ => apply open_read_ok in E as [L F'] end.
  match goal with E : hash_file _ _ = Ok ?p |- _ => destruct p as [n h]; apply hash_file_ok in E as [-> ->] end.
  bool_prop. cbn [fst snd] in *.
  repeat match goal with E : String.eqb _ _ = true |- _ => apply String.eqb_eq in E end.
  rewrite F in *. split_and!; [congruence | done | done |]. eauto 10.
Qed.

Context {W : Type} {DW : DestinationWorkspace W}.

(** C18: only the planned file is published.  Whatever the state of the store and whatever
    fails, a publication either leaves the workspace alone and reports an error, or calls
    exactly one publishing operation of the workspace, at the planned destination path,
    with the content of the durable completed journal's own part, whose length and
    SHA-256 are the planned ones; it replaces an existing file only under the plan's
    expected hash, and the directory of the store is untouched. *)
Theorem publish_only_verified plan (w : W) d r w' d' :
  publish_completed limits plan w d = (r, w', d') ->
  dk_files d' = dk_files d
  /\ ((w' = w /\ exists e, r = Err e)
      \/ exists content j name,
           str_len content = tp_size_bytes plan /\ hash_bytes content = tp_sha256 plan
           /\ durable plan d = Some j /\ tj_state j = Completed
           /\ part_path (tp_id plan) (tj_epoch j) = Ok name /\ dk_files d !! name = Some (Regular content)
           /\ let '(res, w1) :=
                match tp_overwrite_expected_sha256 plan with
                | Some expected =>
                    publish_replace_if_hash (tb_destination_relative_path (tp_binding plan)) content
                      expected (tp_sha256 plan) w
                | None => publish_no_replace (tb_destination_relative_path (tp_binding plan)) content w
                end in
              r = map_err map_publish_fs_error res /\ w' = w1).
Proof.
  unfold publish_completed. destruct (open_verified_completed_part limits plan d) as [[c|e] d1] eqn:O.
  - apply verified_part in O as (F & Hs & Hh & j & name & Hj).
    destruct (match tp_overwrite_expected_sha256 plan with Some _ => _ | None => _ end) as [res w1] eqn:P.
    intros [= <- <- <-]. split; [done |]. right. exists c, j, name. destruct Hj as (? & ? & ? & ?).
    split_and!; try done.
    destruct (tp_overwrite_expected_sha256 plan); by rewrite P.
  - intros [= <- <- <-]. split; [|by eauto].
    eapply (frames_nothing _ _ _ _ _ O).
    Unshelve. unfold open_verified_completed_part. pose proof (frames_load limits nothing plan). frame.
Qed.
End publish.

(** ** A concrete publication *)

#[export] Instance plain_workspace : DestinationWorkspace (gmap string string) := {|
  publish_no_replace dest content w :=
    match w !! dest with
    | Some _ => (Err (FsIo true), w)
    | None => (Ok tt, <[dest := content]> w)
    end;
  publish_replace_if_hash dest content expected new w :=
    match w !! dest with
    | None => (Err NotFound, w)
    | Some old =>
        if String.eqb (hash_bytes old) new then (Ok tt, w)
        else if String.eqb (hash_bytes old) expected then (Ok tt, <[dest := content]> w)
        else (Err (FsHashMismatch expected (hash_bytes old)), w)
    end
|}.

Definition completed_journal : TransferJournal :=
  {| tj_schema := 1; tj_plan_id := tp_id sample_plan; tj_plan_sha256 := tp_plan_sha256 sample_plan;
     tj_owner_id := "alice"; tj_epoch := 1; tj_fence := 1; tj_state := Completed;
     tj_contiguous_ack := Some 0; tj_bytes_received := 5; tj_expires_at_unix := 1500;
     tj_published_size := None; tj_published_sha256 := None |}.

Definition completed_disk : Disk :=
  {| dk_files := {[ json_name sample_plan := Regular (journal_to_vec completed_journal);
                    "." +:+ tp_id sample_plan +:+ ".1.part" := Regular "hello" ]};
     dk_faults := []; dk_now := 1100 |}.

Definition publication : result unit TransferError * gmap string string * Disk :=
  publish_completed default_journal_limits sample_plan (∅ : gmap string string) completed_disk.

Definition publication_parts (p : result unit TransferError * gmap string string * Disk)
  : p = (fst (fst p), snd (fst p), snd p) :=
  match p with (r, w, d) => eq_refl end.

Lemma publication_ok : is_ok (fst (fst publication)) = true /\ snd (fst publication) !! "b.txt" = Some "hello".
Proof. vm_compute. split; reflexivity. Qed.

Lemma publish_only_verified_witness :
  snd (fst publication) !! "b.txt" = Some "hello" /\ dk_files (snd publication) = dk_files completed_disk.
Proof.
  split; [exact (proj2 publication_ok) |].
  exact (proj1 (publish_only_verified default_journal_limits sample_plan ∅ completed_disk
                  _ _ _ (publication_parts publication))).
Defined.
