(* ===== verification/TransferCleanup.v ===== *)
(** * Cleaning up a finished source, across crashes

    [complete_source_cleanup] deletes the snapshot, the reservation and the plan record of
    a finished source under a durable receipt.  The theorem: attempts may fail at any file
    operation, as often as they like; they never leave a state from which the cleanup
    cannot go on, and the first attempt that meets no failure finishes it. *)

From stdpp Require Import base list strings gmap.
From Stdlib Require Import ZArith Lia Ascii.
From S2P Require Import Prelude RustStr RustBytes RustPath Transfer TransferFlow TransferRun TransferDisk TransferStore TransferParts TransferSource TransferFrame TransferPlain TransferFence TransferPublish.

Open Scope Z_scope.

Section cleanup.
Context {DG : Digests} {TC : TransferCodec}.
Variable limits : JournalLimits.
Variable b : SourceCleanupBinding.
Variable intent : SourceCleanupReceipt.

Definition plan_name : string := "." +:+ cb_plan_id b +:+ ".plan.json".
Definition snapshot_name : string := "." +:+ cb_plan_id b +:+ ".source".
Definition reserve_name : string := "." +:+ cb_plan_id b +:+ ".source.reserve".
Definition receipt_name : string := "." +:+ cb_plan_id b +:+ ".source-cleanup.json".

Definition completed_receipt : SourceCleanupReceipt := intent <| cr_phase := CleanupCompleted |>.

(** The records the receipt allows to delete. *)
Definition plan_matches (raw : string) : Prop :=
  str_len raw <= jm_max_bytes limits
  /\ exists plan, plan_from_slice raw = Some plan /\ plan_validate plan = Ok tt
     /\ xg_expires_at_unix (tp_grant plan) = cr_expires_at_unix intent
     /\ receipt_matches_plan intent plan = true.

Definition snapshot_matches (content : string) : Prop :=
  str_len content = cr_source_size intent /\ hash_bytes content = cr_source_sha256 intent.

Definition reserve_matches (record : string) : Prop :=
  str_len record <= 512
  /\ parse_source_reservation record (cb_plan_id b)
     = Some {| sr_expires_at_unix := cr_expires_at_unix intent; sr_bytes := cr_source_size intent |}.

(** A file is gone or what the receipt says. *)
Definition gone_or (P : string -> Prop) (n : option Node) : Prop :=
  match n with None => True | Some (Regular c) => P c | Some Special => False end.

(** The directory in the middle of a cleanup. *)
Record cleaning (f : gmap string Node) : Prop := {
  cg_lock : gone_or (fun _ => True) (f !! ".store.lock");
  cg_plan : gone_or plan_matches (f !! plan_name);
  cg_snapshot : gone_or snapshot_matches (f !! snapshot_name);
  cg_reserve : gone_or reserve_matches (f !! reserve_name);
  cg_receipt : f !! receipt_name = Some (Regular (receipt_to_vec intent))
    \/ (f !! receipt_name = Some (Regular (receipt_to_vec completed_receipt))
        /\ f !! plan_name = None /\ f !! snapshot_name = None /\ f !! reserve_name = None)
}.

(** When the cleanup may run: the receipt is for this binding and alive. *)
Record allowed (now : Z) : Prop := {
  al_binding : cleanup_binding_validate b = Ok tt;
  al_intent : cr_phase intent = Intent;
  al_valid : cleanup_receipt_validate intent = Ok tt;
  al_exact : exact_binding intent b = true;
  al_live : now < cr_expires_at_unix intent;
  al_bound : cr_expires_at_unix intent <= now + MAX_SOURCE_CLEANUP_TTL_SECS;
  al_clock : now + MAX_SOURCE_CLEANUP_TTL_SECS <= u64_max;
  al_fits : str_len (receipt_to_vec intent) <= jm_max_bytes limits;
  al_fits' : str_len (receipt_to_vec completed_receipt) <= jm_max_bytes limits;
  al_max : jm_max_bytes limits <> 0
}.

Lemma lower_hex_digit_hex c : lower_hex_digit c = true -> is_ascii_hexdigit c = true.
Proof.
  intros H. apply Is_true_true_1. revert H.
  enough (negb (lower_hex_digit c) || is_ascii_hexdigit c = true) as B
    by (intros H; rewrite H in B; by apply Is_true_true_2).
  revert c. apply forall_byte. vm_compute. reflexivity.
Qed.

Lemma binding_path suffix :
  cleanup_binding_validate b = Ok tt -> path (cb_plan_id b) suffix = Ok ("." +:+ cb_plan_id b +:+ suffix).
Proof.
  unfold cleanup_binding_validate, path. intros H. res_inv. bool_prop.
  match goal with E : str_all lower_hex_digit _ = true |- _ =>
    apply (str_all_impl _ is_ascii_hexdigit _ lower_hex_digit_hex) in E as -> end.
  repeat match goal with E : ?x = true |- _ => rewrite E end.
  rewrite (proj2 (Z.eqb_eq _ _)) by done. done.
Qed.

Lemma binding_id : cleanup_binding_validate b = Ok tt -> exists r, cb_plan_id b = "xfer_" +:+ r.
Proof.
  unfold cleanup_binding_validate. intros H. res_inv. bool_prop. by apply starts_with_spec.
Qed.

Lemma name_ne s1 s2 : s1 <> s2 -> "." +:+ cb_plan_id b +:+ s1 <> "." +:+ cb_plan_id b +:+ s2.
Proof. intros N E. injection E as E. by apply str_app_inj_l in E. Qed.

Ltac name_ne := unfold plan_name, snapshot_name, reserve_name, receipt_name; by apply name_ne.

(** Deleting one of the three records keeps a cleanup under way. *)
Lemma cleaning_delete f n :
  n = snapshot_name \/ n = reserve_name \/ n = plan_name ->
  (exists r, cb_plan_id b = "xfer_" +:+ r) ->
  f !! receipt_name = Some (Regular (receipt_to_vec intent)) -> cleaning f ->
  cleaning (delete n f) /\ delete n f !! receipt_name = Some (Regular (receipt_to_vec intent)).
Proof.
  intros Hn [x Hid] Hi [L P S R _].
  assert (n <> ".store.lock" /\ n <> receipt_name) as [N1 N2].
  { split; [unfold snapshot_name, reserve_name, plan_name in Hn; rewrite Hid in Hn; by intros ->; destruct Hn as [|[|]] |].
    destruct Hn as [->|[->| ->]]; name_ne. }
  assert (forall Q m, gone_or Q (f !! m) -> gone_or Q (delete n f !! m)) as D.
  { intros Q m H. destruct (decide (n = m)) as [->|]; [by rewrite lookup_delete_eq | by rewrite lookup_delete_ne]. }
  assert (delete n f !! receipt_name = f !! receipt_name) as Er by (by apply lookup_delete_ne).
  split; [|by rewrite Er]. split; auto. left. by rewrite Er.
Qed.

(** A finished cleanup. *)
Lemma cleaning_finish f :
  cleaning f -> (exists r, cb_plan_id b = "xfer_" +:+ r) ->
  f !! plan_name = None -> f !! snapshot_name = None -> f !! reserve_name = None ->
  cleaning (<[receipt_name := Regular (receipt_to_vec completed_receipt)]> f).
Proof.
  intros [L P S R _] [x Hid] H1 H2 H3.
  assert (receipt_name <> ".store.lock") as N by (unfold receipt_name; by rewrite Hid).
  assert (receipt_name <> plan_name /\ receipt_name <> snapshot_name /\ receipt_name <> reserve_name)
    as (N1 & N2 & N3) by (split_and!; name_ne).
  split; rewrite ?lookup_insert_ne by done; try done. right. rewrite lookup_insert_eq.
  by rewrite !lookup_insert_ne by done.
Qed.

Lemma any_present_ok names d r d' :
  any_present names d = (Ok r, d') ->
  dk_files d' = dk_files d /\ (r = false -> Forall (fun n => dk_files d !! n = None) names).
Proof.
  unfold any_present. assert (forall acc d, fold_m (fun found name =>
     if found : bool then mret true else owner_only_file_present name) acc names d = (Ok r, d') ->
     dk_files d' = dk_files d /\ (r = false -> acc = false /\ Forall (fun n => dk_files d !! n = None) names)) as G.
  { clear d. induction names as [|n names IH]; intros acc d H; cbn [fold_m] in H; m_inv.
    - split; [done |]. intros ->. by split; [|constructor].
    - destruct acc; m_inv.
      + apply IH in H as [F H]. split; [done |]. intros ->. by destruct (H eq_refl).
      + apply present_ok in E as (F1 & _ & P). apply IH in H as [F H]. split; [congruence |].
        intros Hr. destruct (H Hr) as [-> Hf]. split; [done |]. rewrite F1 in Hf.
        constructor; [by apply P | done]. }
  intros H. apply G in H as [F H]. split; [done |]. intros Hr. by apply H.
Qed.

Lemma frames_load_cleanup P id now : frames P (load_source_cleanup_unlocked limits id now).
Proof. unfold load_source_cleanup_unlocked. frame. Qed.

Lemma frames_checks P now :
  frames P (check_cleanup_plan limits intent plan_name now)
  /\ frames P (check_cleanup_snapshot intent snapshot_name)
  /\ frames P (check_cleanup_reservation intent (cb_plan_id b) reserve_name).
Proof.
  unfold check_cleanup_plan, check_cleanup_snapshot, check_cleanup_reservation. split_and!; frame.
Qed.

Lemma load_cleanup_ok id now d r d' :
  load_source_cleanup_unlocked limits id now d = (Ok (Some r), d') ->
  exists bytes, dk_files d !! ("." +:+ id +:+ ".source-cleanup.json") = Some (Regular bytes)
    /\ receipt_from_slice bytes = Some r.
Proof.
  unfold load_source_cleanup_unlocked. intros H. m_inv.
  match goal with E : path _ _ = Ok _ |- _ => apply path_ok in E as [-> _] end.
  match goal with E : owner_only_file_present _ _ = _ |- _ => apply present_ok in E as (F & _) end.
  destruct (negb _); m_inv.
  match goal with E : read_owner_only_file_bounded _ _ _ _ = _ |- _ => apply read_ok in E as (L & _) end.
  match goal with E : ok_or _ _ = Ok _ |- _ => apply ok_or_ok in E end.
  rewrite F in L. eauto.
Qed.

Lemma keeps_remove_retry (Q : gmap string Node -> Prop) n :
  (forall f, Q f -> Q (delete n f)) -> keeps Q (remove_owner_only_file_retry n).
Proof.
  intros I. unfold remove_owner_only_file_retry. generalize 200%nat. induction n0 as [|k IH]; cbn [retry].
  - apply keeps_reads. auto with frame.
  - apply keeps_bind; [by apply keeps_attempt, keeps_remove |]. intros []; [apply keeps_reads; auto with frame | done].
Qed.

Lemma cleaning_lock f f' :
  (exists r, cb_plan_id b = "xfer_" +:+ r) ->
  (forall n, n <> ".store.lock" -> f' !! n = f !! n) -> gone_or (fun _ => True) (f' !! ".store.lock") ->
  cleaning f -> cleaning f'.
Proof.
  intros [x Hx] F L [_ P S R C].
  assert (plan_name <> ".store.lock" /\ snapshot_name <> ".store.lock" /\ reserve_name <> ".store.lock"
          /\ receipt_name <> ".store.lock") as (N1 & N2 & N3 & N4)
    by (unfold plan_name, snapshot_name, reserve_name, receipt_name; by rewrite Hx).
  split; rewrite ?F by done; done.
Qed.

Lemma lock_store_cleaning d r d' :
  (exists r, cb_plan_id b = "xfer_" +:+ r) -> cleaning (dk_files d) -> lock_store d = (r, d') ->
  cleaning (dk_files d').
Proof.
  intros Hid C H. apply (cleaning_lock (dk_files d)); [done | | |done].
  - intros n Hn. by apply (frames_lock_store (fun n => n = ".store.lock")) in H as [F _]; [apply F|].
  - assert (keeps (fun g => gone_or (fun _ => True) (g !! ".store.lock")) lock_store) as K.
    { unfold lock_store, create_lock. keep. apply keeps_attempt, keeps_create. intros f _. by rewrite lookup_insert_eq. }
    eapply K; [apply C | exact H].
Qed.

(** From the checks on, with the intent still recorded. *)
Lemma cleanup_tail now d r d' :
  cleaning (dk_files d) -> dk_files d !! receipt_name = Some (Regular (receipt_to_vec intent)) ->
  (exists r, cb_plan_id b = "xfer_" +:+ r) ->
  (check_cleanup_plan limits intent plan_name now ;;
   check_cleanup_snapshot intent snapshot_name ;;
   check_cleanup_reservation intent (cb_plan_id b) reserve_name ;;
   for_each remove_record [snapshot_name; reserve_name; plan_name] ;;
   left ← any_present [plan_name; snapshot_name; reserve_name];
   ensure left CustodyUnavailable ;;
   name ← lift (Ok receipt_name);
   atomic_write_owner_only name (receipt_to_vec (intent <| cr_phase := CleanupCompleted |>)) CustodyUnavailable ;;
   mret (Some false)) d = (r, d') ->
  cleaning (dk_files d').
Proof.
  intros C L Hid H. destruct (frames_checks nothing now) as (F1 & F2 & F3).
  m_split H; [apply frames_nothing in E; [rewrite <- E in C, L; clear E|done]|by rewrite E].
  m_split H; [apply frames_nothing in E; [rewrite <- E in C, L; clear E|done]|by rewrite E].
  m_split H; [apply frames_nothing in E; [rewrite <- E in C, L; clear E|done]|by rewrite E].
  set (Q := fun f => cleaning f /\ f !! receipt_name = Some (Regular (receipt_to_vec intent))).
  assert (keeps Q (for_each remove_record [snapshot_name; reserve_name; plan_name])) as K.
  { assert (forall n, n = snapshot_name \/ n = reserve_name \/ n = plan_name -> keeps Q (remove_record n)) as Kr.
    { intros n Hn. unfold remove_record. apply keeps_bind; [apply keeps_reads; auto with frame |].
      intros []; [|apply keeps_reads; auto with frame]. apply keeps_remove_retry.
      intros f [Cf Lf]. by apply cleaning_delete. }
    cbn [for_each]. repeat (apply keeps_bind; [apply Kr; auto | intros _]). apply keeps_reads. auto with frame. }
  apply bind_inv in H as [(u & d3 & E & H)|(e & E & _)]; [|by destruct (K _ _ _ (conj C L) E)].
  destruct (K _ _ _ (conj C L) E) as [C3 L3]. clear E.
  apply bind_inv in H as [(left & d4 & E & H)|(e & E & _)].
  2:{ apply frames_nothing in E; [by rewrite E | unfold any_present; frame]. }
  apply any_present_ok in E as [F4 A]. rewrite <- F4 in C3, A.
  m_split H; [apply ensure_ok in E as [-> ->]|by rewrite E].
  m_split H; [apply lift_ok in E as [E ->]; injection E as <-|by rewrite E].
  specialize (A eq_refl). rewrite !Forall_cons in A. destruct A as (A1 & A2 & A3 & _).
  assert (forall r d'', atomic_write_owner_only receipt_name (receipt_to_vec completed_receipt)
            CustodyUnavailable d4 = (r, d'') -> cleaning (dk_files d'')) as W.
  { intros r' d'' W. apply write_cases in W as [[_ ->]| ->]; [done |]. by apply cleaning_finish. }
  apply bind_inv in H as [(v & d5 & E & H)|(e & E & _)]; [|by eapply W].
  injection H as _ <-. by eapply W.
Qed.

(** Attempts, with whatever fails, leave a cleanup that can go on. *)
Lemma complete_keeps now d r d' :
  allowed now -> cleaning (dk_files d) -> complete_source_cleanup limits b now d = (r, d') ->
  cleaning (dk_files d').
Proof.
  intros Al C H. pose proof (al_binding _ Al) as Vb. pose proof (binding_id Vb) as Hid.
  unfold complete_source_cleanup in H.
  m_split H; [apply lift_ok in E as [_ ->]|by rewrite E].
  apply bind_inv in H as [(u & d1 & E & H)|(e & E & _)]; [|by eapply lock_store_cleaning].
  apply lock_store_cleaning in E; [|done|done]. clear C d. rename E into C.
  pose proof (frames_load_cleanup nothing (cb_plan_id b) now) as Fl.
  m_split H; [|by rewrite E]. pose proof (frames_nothing _ _ _ _ Fl E) as F.
  destruct a0 as [receipt|]; [|injection H as _ <-; by rewrite F].
  apply load_cleanup_ok in E as (bytes & L & D). fold receipt_name in L. rewrite <- F in C, L. clear F d1.
  m_split H; [apply ensure_ok in E as [_ ->]|by rewrite E].
  m_split H; [apply ensure_ok in E as [_ ->]|by rewrite E].
  rewrite !(binding_path _ Vb) in H. fold plan_name snapshot_name reserve_name receipt_name in H.
  do 3 (m_split H; [apply lift_ok in E as [E ->]; injection E as <-|by rewrite E]).
  destruct (cg_receipt _ C) as [Li|(Lc & _)].
  - rewrite Li in L. injection L as <-. rewrite receipt_codec in D. injection D as <-.
    rewrite bool_decide_eq_false_2 in H by (rewrite (al_intent _ Al); discriminate).
    by apply (cleanup_tail now d r).
  - rewrite Lc in L. injection L as <-. rewrite receipt_codec in D. injection D as <-.
    cbn [cr_phase completed_receipt] in H. rewrite bool_decide_eq_true_2 in H by done.
    apply frames_nothing in H; [by rewrite H |]. unfold any_present. frame.
Qed.

(** ** The attempt that meets no failure *)

Section calm_attempt.
Context (now : Z) (Al : allowed now) (d : Disk) (calm : dk_faults d = []).

Lemma load_cleanup_run r :
  dk_files d !! receipt_name = Some (Regular (receipt_to_vec r)) ->
  str_len (receipt_to_vec r) <= jm_max_bytes limits -> receipt_admissible (cb_plan_id b) now r = Ok tt ->
  load_source_cleanup_unlocked limits (cb_plan_id b) now d = (Ok (Some r), d).
Proof.
  intros L Hl Ha. unfold load_source_cleanup_unlocked. rewrite (binding_path _ (al_binding _ Al)).
  fold receipt_name. rewrite (bind_run _ _ d receipt_name d) by done.
  erewrite bind_run by (rewrite (present_run d calm), L; done). cbn [negb].
  rewrite (bind_run _ _ _ _ _ (read_run d calm _ _ _ _ L (al_max _ Al) Hl)), receipt_codec.
  by rewrite (bind_run _ _ d r d), Ha.
Qed.

Lemma receipt_admissible_run r :
  r = intent \/ r = completed_receipt -> receipt_admissible (cb_plan_id b) now r = Ok tt.
Proof.
  intros Hr. assert (cleanup_receipt_validate r = Ok tt /\ cr_plan_id r = cr_plan_id intent
                     /\ cr_expires_at_unix r = cr_expires_at_unix intent) as (V & I & X)
    by (destruct Hr as [->| ->]; split_and!; try done; apply Al).
  unfold receipt_admissible, u64_checked_add. rewrite V, I, X. cbn.
  pose proof (al_exact _ Al) as E. unfold exact_binding in E. bool_prop.
  pose proof (al_clock _ Al). pose proof (al_bound _ Al).
  match goal with E : String.eqb (cr_plan_id intent) _ = true |- _ => rewrite E end. cbn.
  rewrite (proj2 (Z.leb_le _ _)) by done. cbn. by rewrite (proj2 (Z.ltb_ge _ _)) by lia.
Qed.

Lemma plan_grant_valid p : plan_validate p = Ok tt -> grant_validate (tp_grant p) = Ok tt.
Proof.
  unfold plan_validate. destruct (from_verified _ _ _ _) as [x|] eqn:V; [intros _ | done].
  unfold from_verified in V. res_inv.
  by repeat match goal with u : unit |- _ => destruct u end.
Qed.

Lemma check_plan_run :
  gone_or plan_matches (dk_files d !! plan_name) ->
  check_cleanup_plan limits intent plan_name now d = (Ok tt, d).
Proof.
  intros G. unfold check_cleanup_plan, mbind at 1, M_bind. rewrite (present_run d calm).
  destruct (dk_files d !! plan_name) as [[c|]|] eqn:L; [|done|done]. cbn [negb].
  destruct G as (Hl & plan & D & V & X & R).
  rewrite (bind_run _ _ _ _ _ (read_run d calm _ _ _ _ L (al_max _ Al) Hl)), D.
  rewrite (bind_run _ _ d plan d) by done. unfold plan_validate_at, grant_validate_at.
  rewrite V, (plan_grant_valid _ V). cbn [rbind].
  pose proof (al_live _ Al). rewrite (proj2 (Z.leb_gt _ _)) by lia. cbn. by rewrite R.
Qed.

Lemma check_snapshot_run :
  gone_or snapshot_matches (dk_files d !! snapshot_name) ->
  check_cleanup_snapshot intent snapshot_name d = (Ok tt, d).
Proof.
  intros G. unfold check_cleanup_snapshot, mbind at 1, M_bind. rewrite (present_run d calm).
  destruct (dk_files d !! snapshot_name) as [[c|]|] eqn:L; [|done|done]. cbn [negb].
  destruct G as [Hs Hh]. rewrite (bind_run _ _ _ _ _ (open_read_run d calm _ _ _ L)).
  assert (cr_source_size intent <= default_max_bytes) as Hb.
  { pose proof (al_valid _ Al) as V. unfold cleanup_receipt_validate in V. res_inv. bool_prop. lia. }
  rewrite Hs, Z.eqb_refl. cbn [negb]. rewrite (bind_run _ _ d tt d) by done.
  rewrite hash_file_spec; [|rewrite <- Hs; apply str_len_nonneg | rewrite Hs; unfold default_max_bytes in Hb; unfold u64_max; lia].
  rewrite Hs, Hh, Z.leb_refl. rewrite (bind_run _ _ d (cr_source_size intent, cr_source_sha256 intent) d) by done.
  cbn [fst snd]. by rewrite Z.eqb_refl, String.eqb_refl.
Qed.

Lemma check_reserve_run :
  gone_or reserve_matches (dk_files d !! reserve_name) ->
  check_cleanup_reservation intent (cb_plan_id b) reserve_name d = (Ok tt, d).
Proof.
  intros G. unfold check_cleanup_reservation, mbind at 1, M_bind. rewrite (present_run d calm).
  destruct (dk_files d !! reserve_name) as [[c|]|] eqn:L; [|done|done]. cbn [negb].
  destruct G as [Hs Hp]. rewrite (bind_run _ _ _ _ _ (read_run d calm _ 512 _ c L ltac:(lia) Hs)), Hp.
  erewrite bind_run by done. cbn [sr_expires_at_unix sr_bytes]. by rewrite !Z.eqb_refl.
Qed.

Lemma remove_record_run n :
  dk_files d !! n <> Some Special -> remove_record n d = (Ok tt, set_files d (delete n (dk_files d))).
Proof.
  intros L. unfold remove_record, mbind, M_bind. rewrite (present_run d calm).
  destruct (dk_files d !! n) as [[c|]|] eqn:E; [by apply (remove_retry_run d calm n c) | done |].
  rewrite delete_id by done. by destruct d.
Qed.
End calm_attempt.

Lemma any_present_run names d :
  dk_faults d = [] -> Forall (fun n => dk_files d !! n = None) names -> any_present names d = (Ok false, d).
Proof.
  intros calm H. unfold any_present. induction H as [|n names L _ IH]; [done |]. cbn [fold_m].
  erewrite bind_run by (rewrite (present_run d calm), L; done). exact IH.
Qed.

Lemma gone_or_regular P n : gone_or P n -> n <> Some Special.
Proof. by intros G ->. Qed.

(** The cleanup is over: the records are gone and the receipt says so. *)
Definition cleaned (f : gmap string Node) : Prop :=
  f !! plan_name = None /\ f !! snapshot_name = None /\ f !! reserve_name = None
  /\ f !! receipt_name = Some (Regular (receipt_to_vec completed_receipt)).

Definition removed (f : gmap string Node) : gmap string Node :=
  delete plan_name (delete reserve_name (delete snapshot_name f)).

Lemma removed_records f :
  removed f !! plan_name = None /\ removed f !! snapshot_name = None /\ removed f !! reserve_name = None
  /\ removed f !! receipt_name = f !! receipt_name.
Proof.
  unfold removed. assert (snapshot_name <> reserve_name /\ plan_name <> snapshot_name /\ plan_name <> reserve_name
    /\ plan_name <> receipt_name /\ snapshot_name <> receipt_name /\ reserve_name <> receipt_name)
    as (? & ? & ? & ? & ? & ?) by (split_and!; name_ne).
  split_and!; rewrite ?lookup_delete_eq by done; try done; rewrite ?lookup_delete_ne by done; try done;
    rewrite ?lookup_delete_eq, ?lookup_delete_ne, ?lookup_delete_eq by done; done.
Qed.

(** The three records go, in the order of the code. *)
Lemma removals_run d :
  dk_faults d = [] -> cleaning (dk_files d) ->
  for_each remove_record [snapshot_name; reserve_name; plan_name] d
  = (Ok tt, set_files d (removed (dk_files d))).
Proof.
  intros calm [_ P S R _]. cbn [for_each].
  assert (snapshot_name <> reserve_name /\ snapshot_name <> plan_name /\ reserve_name <> plan_name)
    as (N1 & N2 & N3) by (split_and!; name_ne).
  rewrite (bind_run _ _ _ _ _ (remove_record_run d calm _ (gone_or_regular _ _ S))).
  erewrite bind_run by (apply remove_record_run; [done |]; cbn; rewrite lookup_delete_ne by done; by eapply gone_or_regular).
  erewrite bind_run by (apply remove_record_run; [done |]; cbn; rewrite !lookup_delete_ne by done; by eapply gone_or_regular).
  done.
Qed.

Lemma receipts_differ now :
  allowed now -> receipt_to_vec intent <> receipt_to_vec completed_receipt.
Proof.
  intros Al E. apply (f_equal receipt_from_slice) in E. rewrite !receipt_codec in E.
  apply (inj Some), (f_equal cr_phase) in E. by rewrite (al_intent _ Al) in E.
Qed.

(** An attempt without failures finishes the cleanup. *)
Lemma complete_run now d :
  allowed now -> cleaning (dk_files d) -> dk_faults d = [] ->
  exists replayed d', complete_source_cleanup limits b now d = (Ok (Some replayed), d')
    /\ cleaned (dk_files d') /\ dk_faults d' = [] /\ (cleaned (dk_files d) -> replayed = true).
Proof.
  intros Al C calm. pose proof (al_binding _ Al) as Vb. pose proof (binding_id Vb) as Hid.
  unfold complete_source_cleanup. rewrite Vb, (bind_run _ _ d tt d) by done.
  destruct (lock_store_run d calm (gone_or_regular _ _ (cg_lock _ C))) as (f & E & F & c & Lk).
  assert (cleaned (dk_files d) -> f !! receipt_name = Some (Regular (receipt_to_vec completed_receipt))) as Cd.
  { intros (_ & _ & _ & L). rewrite F; [done |]. unfold receipt_name. destruct Hid as [x ->]. done. }
  apply (cleaning_lock _ f) in C; [|done|done|by rewrite Lk]. rewrite (bind_run _ _ _ _ _ E). clear E F c Lk.
  remember (set_files d f) as d1 eqn:Ed. assert (dk_faults d1 = []) as calm1 by (by subst).
  replace f with (dk_files d1) in C, Cd by (by subst). revert Cd. generalize (cleaned (dk_files d)).
  intros already Cd. clear Ed calm f d.
  rewrite !(binding_path _ Vb). fold plan_name snapshot_name reserve_name receipt_name.
  destruct (cg_receipt _ C) as [L|(L & L1 & L2 & L3)].
  - rewrite (bind_run _ _ _ _ _ (load_cleanup_run _ Al d1 calm1 intent L (al_fits _ Al)
      (receipt_admissible_run _ Al _ (or_introl eq_refl)))).
    rewrite (al_exact _ Al), (proj2 (Z.leb_gt _ _) (al_live _ Al)).
    do 5 (erewrite bind_run by done).
    rewrite bool_decide_eq_false_2 by (rewrite (al_intent _ Al); discriminate).
    rewrite (bind_run _ _ _ _ _ (check_plan_run _ Al d1 calm1 (cg_plan _ C))).
    rewrite (bind_run _ _ _ _ _ (check_snapshot_run _ Al d1 calm1 (cg_snapshot _ C))).
    rewrite (bind_run _ _ _ _ _ (check_reserve_run d1 calm1 (cg_reserve _ C))).
    rewrite (bind_run _ _ _ _ _ (removals_run d1 calm1 C)).
    destruct (removed_records (dk_files d1)) as (A1 & A2 & A3 & A4). rewrite L in A4.
    set (f := removed _) in *.
    erewrite bind_run by (apply any_present_run; [done | by repeat constructor]).
    do 2 (erewrite bind_run by done).
    erewrite bind_run by (apply write_run; [done | change (f !! receipt_name <> Some Special); by rewrite A4]).
    exists false. eexists. split; [done |]. split; [|split; [done |]].
    + cbn. unfold cleaned. rewrite lookup_insert_eq, !lookup_insert_ne by name_ne. done.
    + intros A%Cd. rewrite L in A. apply (inj Some) in A. injection A as A. by apply (receipts_differ _ Al) in A.
  - rewrite (bind_run _ _ _ _ _ (load_cleanup_run _ Al d1 calm1 completed_receipt L (al_fits' _ Al)
      (receipt_admissible_run _ Al _ (or_intror eq_refl)))).
    replace (exact_binding completed_receipt b) with true by (symmetry; apply (al_exact _ Al)).
    replace (cr_expires_at_unix completed_receipt <=? now) with false
      by (symmetry; apply Z.leb_gt, (al_live _ Al)).
    do 5 (erewrite bind_run by done). rewrite bool_decide_eq_true_2 by done.
    erewrite bind_run by (apply any_present_run; [done | by repeat constructor]).
    exists true, d1. by repeat split.
Qed.

(** Attempts, each with its clock and its failures. *)
Fixpoint attempts (l : list (Z * list Fault)) (f : gmap string Node) : gmap string Node :=
  match l with
  | [] => f
  | (now, faults) :: rest =>
      attempts rest (dk_files (snd (complete_source_cleanup limits b now
        {| dk_files := f; dk_faults := faults; dk_now := now |})))
  end.

Lemma attempts_keep l f :
  Forall (fun a => allowed (fst a)) l -> cleaning f -> cleaning (attempts l f).
Proof.
  intros Hl. revert f. induction Hl as [|[now faults] l Ha _ IH]; intros f C; [done |]. apply IH.
  eapply complete_keeps; [exact Ha | | apply surjective_pairing]. exact C.
Qed.

(** ** A snapshot that is not the source *)

Lemma snapshot_refused now c d u d' :
  allowed now -> dk_files d !! snapshot_name = Some (Regular c) -> ~ snapshot_matches c ->
  check_cleanup_snapshot intent snapshot_name d <> (Ok u, d').
Proof.
  intros Al L N H. unfold check_cleanup_snapshot in H. m_inv.
  match goal with E : owner_only_file_present _ _ = _ |- _ => apply present_ok in E as (F & _ & P) end.
  destruct (negb _) eqn:Np; m_inv; [bool_prop; subst; by rewrite (proj1 P eq_refl) in L |].
  match goal with E : open_owner_only_file_read _ _ _ = _ |- _ => apply open_read_ok in E as (R & _) end.
  rewrite F, L in R. injection R as <-. bool_prop.
  assert (cr_source_size intent <= default_max_bytes) as Hb.
  { pose proof (al_valid _ Al) as V. unfold cleanup_receipt_validate in V. res_inv. bool_prop. lia. }
  match goal with E : hash_file _ _ = Ok _ |- _ =>
    rewrite hash_file_spec in E by (pose proof (str_len_nonneg c); unfold default_max_bytes, u64_max in *; lia);
    rewrite (proj2 (Z.leb_le _ _)) in E by lia; injection E as <- end.
  apply N. split; [done |]. by apply String.eqb_eq.
Qed.

Lemma complete_refuses now c d r d' :
  allowed now -> dk_files d !! receipt_name = Some (Regular (receipt_to_vec intent)) ->
  dk_files d !! snapshot_name = Some (Regular c) -> ~ snapshot_matches c ->
  complete_source_cleanup limits b now d = (r, d') ->
  is_ok r = false /\ forall n, n <> ".store.lock" -> dk_files d' !! n = dk_files d !! n.
Proof.
  intros Al L S N H. pose proof (al_binding _ Al) as Vb. destruct (binding_id Vb) as [x Hid].
  unfold complete_source_cleanup in H.
  m_split H; [apply lift_ok in E as [_ ->]|by rewrite E].
  apply bind_inv in H as [(u & d1 & E & H)|(e & E & ->)];
    apply (frames_lock_store (fun n => n = ".store.lock")) in E as [F _]; [|done|by split|done].
  assert (forall n, n <> ".store.lock" -> dk_files d' !! n = dk_files d1 !! n ->  dk_files d' !! n = dk_files d !! n) as G
    by (intros n Hn ->; by apply F).
  rewrite <- F in L by (unfold receipt_name; by rewrite Hid).
  rewrite <- F in S by (unfold snapshot_name; by rewrite Hid). clear F.
  enough (is_ok r = false /\ dk_files d' = dk_files d1) as [-> E] by (split; [done |]; intros n Hn; apply G; by rewrite ?E).
  clear G. pose proof (frames_load_cleanup nothing (cb_plan_id b) now) as Fl.
  m_split H; [|by rewrite E]. pose proof (frames_nothing _ _ _ _ Fl E) as F.
  destruct a0 as [receipt|].
  2:{ exfalso. unfold load_source_cleanup_unlocked in E. m_inv.
      match goal with E : path _ _ = Ok _ |- _ => apply path_ok in E as [-> _] end.
      match goal with E : owner_only_file_present _ _ = _ |- _ => apply present_ok in E as (_ & _ & P) end.
      destruct (negb _) eqn:Np; m_inv. bool_prop. subst. fold receipt_name in P. by rewrite (proj1 P eq_refl) in L. }
  apply load_cleanup_ok in E as (bytes & L' & D). fold receipt_name in L'. rewrite L in L'. injection L' as <-.
  rewrite receipt_codec in D. injection D as <-. rewrite <- F in S |- *. clear F L d1.
  m_split H; [apply ensure_ok in E as [_ ->]|by rewrite E].
  m_split H; [apply ensure_ok in E as [_ ->]|by rewrite E].
  rewrite !(binding_path _ Vb) in H. fold plan_name snapshot_name reserve_name receipt_name in H.
  do 3 (m_split H; [apply lift_ok in E as [E ->]; injection E as <-|by rewrite E]).
  rewrite bool_decide_eq_false_2 in H by (rewrite (al_intent _ Al); discriminate).
  destruct (frames_checks nothing now) as (F1 & F2 & _).
  m_split H; [apply frames_nothing in E; [|done] |by rewrite E]. rewrite <- E in S |- *.
  m_split H; [by apply (snapshot_refused now c) in E0 | by rewrite E0].
Qed.

Lemma attempts_refuse l f c :
  Forall (fun a => allowed (fst a)) l -> f !! receipt_name = Some (Regular (receipt_to_vec intent)) ->
  f !! snapshot_name = Some (Regular c) -> ~ snapshot_matches c ->
  (exists r, cb_plan_id b = "xfer_" +:+ r) ->
  forall n, n <> ".store.lock" -> attempts l f !! n = f !! n.
Proof.
  intros Hl. revert f. induction Hl as [|[now faults] l Ha _ IH]; intros f L S N Hid n Hn; [done |]. cbn [attempts].
  destruct (complete_source_cleanup limits b now _) as [r d'] eqn:E. cbn [snd].
  apply (complete_refuses now c) in E as [_ F]; [|done..]. cbn [dk_files] in F.
  assert (receipt_name <> ".store.lock" /\ snapshot_name <> ".store.lock") as [N1 N2]
    by (unfold receipt_name, snapshot_name; destruct Hid as [x ->]; done).
  rewrite IH; [by apply F | by rewrite F | by rewrite F | done | done | done].
Qed.

(** C17: cleaning up a finished source converges, or refuses and deletes nothing.  Run any
    number of attempts of [complete_source_cleanup] while the receipt is alive, each
    failing at any file operations, before or after their effect.  If the directory held
    the intent and, of the snapshot, the reservation and the plan, those that the receipt
    names, then one attempt without failures succeeds: the three records are gone and the
    receipt says completed; an attempt after it reports a replay and leaves it so.  If it
    held the intent and a snapshot that is not the receipt's source, for one the part of it
    that an interrupted staging left, then every attempt fails and all records stay. *)
Theorem source_cleanup_converges l now f :
  Forall (fun a => allowed (fst a)) l -> allowed now ->
  (cleaning f ->
   let d := {| dk_files := attempts l f; dk_faults := []; dk_now := now |} in
   exists replayed d', complete_source_cleanup limits b now d = (Ok (Some replayed), d')
     /\ cleaned (dk_files d')
     /\ exists d'', complete_source_cleanup limits b now d' = (Ok (Some true), d'') /\ cleaned (dk_files d''))
  /\ (forall c, f !! receipt_name = Some (Regular (receipt_to_vec intent)) ->
      f !! snapshot_name = Some (Regular c) -> ~ snapshot_matches c ->
      forall faults, let d := {| dk_files := attempts l f; dk_faults := faults; dk_now := now |} in
      let '(r, d') := complete_source_cleanup limits b now d in
      is_ok r = false /\ forall n, n <> ".store.lock" -> dk_files d' !! n = f !! n).
Proof.
  intros Hl Al. split.
  - intros C d. apply (attempts_keep l) in C; [|done].
    destruct (complete_run now d Al C eq_refl) as (replayed & d' & E & Cd & calm & _).
    exists replayed, d'. split; [done |]. split; [done |].
    apply complete_keeps in E; [|done|done].
    destruct (complete_run now d' Al E calm) as (again & d'' & E' & Cd' & _ & R).
    exists d''. by rewrite E', R.
  - intros c L S N faults d. pose proof (binding_id (al_binding _ Al)) as Hid.
    pose proof (attempts_refuse l f c Hl L S N Hid) as K.
    assert (receipt_name <> ".store.lock" /\ snapshot_name <> ".store.lock") as [N1 N2]
      by (unfold receipt_name, snapshot_name; destruct Hid as [x ->]; done).
    destruct (complete_source_cleanup limits b now d) as [r d'] eqn:E.
    apply (complete_refuses now c) in E as [R F]; [|done | by cbn; rewrite K | by cbn; rewrite K | done].
    split; [done |]. intros n Hn. rewrite F by done. by apply K.
Qed.
End cleanup.

(** ** A plan whose snapshot is still there when its cleanup begins *)

Definition sample_cleanup : SourceCleanupBinding :=
  {| cb_plan_id := tp_id sample_plan; cb_tenant_id := "tenant"; cb_principal_id := "alice";
     cb_device_id := "dev1"; cb_epoch := 1; cb_fence := 1 |}.

Definition sample_intent : SourceCleanupReceipt := cleanup_intent sample_plan sample_cleanup.

(** [begin_source_cleanup] run on a directory with the plan and its snapshot. *)
Definition begun_cleanup : result unit TransferError * Disk :=
  begin_source_cleanup default_journal_limits sample_plan sample_cleanup 1000
    {| dk_files := {[ plan_name sample_cleanup := Regular (plan_to_vec sample_plan);
                      snapshot_name sample_cleanup := Regular "hello" ]};
       dk_faults := []; dk_now := 1000 |}.

Definition node_ok (P : string -> bool) (n : option Node) : bool :=
  match n with None => true | Some (Regular c) => P c | Some Special => false end.

Lemma node_ok_gone_or P Q n : (forall c, P c = true -> Q c) -> node_ok P n = true -> gone_or Q n.
Proof. intros PQ. destruct n as [[c|]|]; cbn; [apply PQ | done | done]. Qed.

Lemma sample_allowed now : 1000 <= now < 2000 -> allowed default_journal_limits sample_cleanup sample_intent now.
Proof.
  intros [H1 H2]. assert (cr_expires_at_unix sample_intent = 2000) as X by (vm_compute; reflexivity).
  split; rewrite ?X.
  - vm_compute. reflexivity.
  - vm_compute. reflexivity.
  - vm_compute. reflexivity.
  - vm_compute. reflexivity.
  - exact H2.
  - unfold MAX_SOURCE_CLEANUP_TTL_SECS. lia.
  - unfold MAX_SOURCE_CLEANUP_TTL_SECS, u64_max. lia.
  - vm_compute. discriminate.
  - vm_compute. discriminate.
  - vm_compute. discriminate.
Qed.

Lemma begun_cleaning : cleaning default_journal_limits sample_cleanup sample_intent (dk_files (snd begun_cleanup)).
Proof.
  split.
  - apply (node_ok_gone_or (fun _ => true)); [done | vm_compute; reflexivity].
  - apply (node_ok_gone_or (String.eqb (plan_to_vec sample_plan))); [|vm_compute; reflexivity].
    intros c <-%String.eqb_eq. split; [vm_compute; discriminate |]. exists sample_plan.
    split; [apply plan_codec |]. split_and!; vm_compute; reflexivity.
  - apply (node_ok_gone_or (String.eqb "hello")); [|vm_compute; reflexivity].
    intros c <-%String.eqb_eq. split; vm_compute; reflexivity.
  - apply (node_ok_gone_or (fun _ => false)); [done | vm_compute; reflexivity].
  - left. vm_compute. reflexivity.
Qed.

(** Two attempts break off, the second after the snapshot is gone. *)
Definition broken_attempts : list (Z * list Fault) :=
  [(1000, [NoFault; NoFault; Early]); (1001, repeat NoFault 11 ++ repeat Late 205)].

Lemma broken_attempts_effect :
  let g := attempts default_journal_limits sample_cleanup broken_attempts (dk_files (snd begun_cleanup)) in
  node_ok (fun _ => false) (g !! snapshot_name sample_cleanup) = true
  /\ node_ok (fun _ => false) (g !! plan_name sample_cleanup) = false.
Proof. vm_compute. split; reflexivity. Qed.

Lemma source_cleanup_converges_witness :
  let d := {| dk_files := attempts default_journal_limits sample_cleanup broken_attempts
                            (dk_files (snd begun_cleanup)); dk_faults := []; dk_now := 1002 |} in
  exists replayed d', complete_source_cleanup default_journal_limits sample_cleanup 1002 d = (Ok (Some replayed), d')
    /\ cleaned sample_cleanup sample_intent (dk_files d')
    /\ exists d'', complete_source_cleanup default_journal_limits sample_cleanup 1002 d' = (Ok (Some true), d'')
       /\ cleaned sample_cleanup sample_intent (dk_files d'').
Proof.
  refine (proj1 (source_cleanup_converges default_journal_limits sample_cleanup sample_intent broken_attempts 1002
           (dk_files (snd begun_cleanup)) _ _) begun_cleaning).
  - apply Forall_cons_2; [apply sample_allowed; cbn; lia |]. apply Forall_cons_2; [apply sample_allowed; cbn; lia |].
    apply Forall_nil_2.
  - apply sample_allowed. lia.
Defined.
