(* ===== verification/TransferCrypto.v ===== *)
(** * Transfer tickets and end-to-end cryptography

    [crates/ownmeshd/src/transfer_crypto.rs]: the agent's view of a transfer ticket, the
    bytes a device signs, the key derivation and the sealing of chunks; and the
    worker's copy of the signed bytes, [canonicalTransferEphemeralProof] of
    [packages/control-plane/src/transfer-room.ts].  Ed25519, X25519, HKDF and AES-GCM are
    the interface [Ciphers]. *)

From stdpp Require Import base list strings.
From Stdlib Require Import ZArith Lia Ascii.
From S2P Require Import Prelude RustStr RustBytes Transfer.

Open Scope Z_scope.

(** ** Tickets

    [AgentTransferTicket] and [TransferTicketClaims] have the same fields. *)

Record Ticket : Type := {
  tk_v : Z;
  tk_jti : string;
  tk_session_nonce : string;
  tk_transfer_id : string;
  tk_tenant_id : string;
  tk_principal_id : string;
  tk_device_id : string;
  tk_role : string;
  tk_source_device_id : string;
  tk_destination_device_id : string;
  tk_source_workspace_id : string;
  tk_destination_workspace_id : string;
  tk_plan_sha256 : string;
  tk_epoch : Z;
  tk_fence : Z;
  tk_max_bytes : Z;
  tk_ticket_exp : Z;
  tk_transfer_expires_at : Z;
  tk_source_device_public_key : string;
  tk_destination_device_public_key : string;
  tk_source_ephemeral_public_key : string;
  tk_destination_ephemeral_public_key : string;
  tk_source_ephemeral_signature : string;
  tk_destination_ephemeral_signature : string
}.

#[export] Instance Ticket_eq_dec : EqDecision Ticket.
Proof. solve_decision. Defined.

(** ** Text checks of the agent *)

Definition small_hex (c : ascii) : bool := is_ascii_digit c || in_range 97 102 (code c).

Definition valid_hex (value : string) (bytes : Z) : bool :=
  (str_len value =? bytes * 2) && str_all small_hex value.

Definition ticket_id (value : string) : bool :=
  negb (is_empty value) && (str_len value <=? 256) && negb (str_any is_ascii_control value).

(** [u8::from_str_radix] on each pair of digits. *)
Fixpoint hex_pairs (value : string) : string :=
  match value with
  | String h (String l r) =>
      match hex_value h, hex_value l with
      | Some a, Some b => String (byte_of (16 * a + b)) (hex_pairs r)
      | _, _ => hex_pairs r
      end
  | _ => ""
  end.

Definition decode_hex (value : string) : result string string :=
  guard_err (negb (str_len value mod 2 =? 0) || negb (str_all small_hex value))
    "invalid hexadecimal value" ;?
  Ok (hex_pairs value).

(** ** The signed bytes *)

Definition EPHEMERAL_PROOF_DOMAIN : string := "ownmesh-transfer-ephemeral-v1".

Definition push_proof_string (value : string) : result string string :=
  guard_err (u32_max <? str_len value) "transfer proof field too long" ;?
  Ok (to_be_bytes 4 (str_len value) +:+ value).

Definition role_byte (role : string) : result Z string :=
  if String.eqb role "source" then Ok 1
  else if String.eqb role "destination" then Ok 2
  else Err "invalid transfer proof role".

Definition canonical_ephemeral_proof (transfer_id tenant_id role device_id workspace_id plan_sha256 : string)
    (epoch fence : Z) (session_nonce ephemeral_public_key : string) (expires_at_ms : Z)
  : result string string :=
  let? plan := decode_hex plan_sha256 in
  let? ephemeral := decode_hex ephemeral_public_key in
  guard_err (negb (str_len plan =? 32) || negb (str_len ephemeral =? 32) || (epoch =? 0) || (fence =? 0))
    "invalid transfer proof key material" ;?
  let? role := role_byte role in
  let? domain := push_proof_string EPHEMERAL_PROOF_DOMAIN in
  let? transfer := push_proof_string transfer_id in
  let? tenant := push_proof_string tenant_id in
  let? device := push_proof_string device_id in
  let? workspace := push_proof_string workspace_id in
  let? nonce := push_proof_string session_nonce in
  Ok (domain +:+ transfer +:+ tenant +:+ String (byte_of role) (device +:+ workspace +:+ plan
      +:+ to_be_bytes 4 epoch +:+ to_be_bytes 8 fence +:+ nonce +:+ ephemeral
      +:+ to_be_bytes 8 expires_at_ms)).

Definition ephemeral_proof (t : Ticket) (role : string) : result string string :=
  let? parts :=
    (if String.eqb role "source"
     then Ok (tk_source_device_id t, tk_source_workspace_id t, tk_source_ephemeral_public_key t)
     else if String.eqb role "destination"
     then Ok (tk_destination_device_id t, tk_destination_workspace_id t, tk_destination_ephemeral_public_key t)
     else Err "invalid transfer role") in
  let '(device, workspace, ephemeral) := parts in
  canonical_ephemeral_proof (tk_transfer_id t) (tk_tenant_id t) role device workspace (tk_plan_sha256 t)
    (tk_epoch t) (tk_fence t) (tk_session_nonce t) ephemeral (tk_transfer_expires_at t).

(** ** The worker's copy

    A JavaScript string is its UTF-8 text; a number that the code uses only as a safe
    integer is a [Z]. *)

Inductive TransferRole : Type := Source | Destination.

#[export] Instance TransferRole_eq_dec : EqDecision TransferRole.
Proof. solve_decision. Defined.

Definition role_name (role : TransferRole) : string :=
  match role with Source => "source" | Destination => "destination" end.

Definition max_safe : Z := 9007199254740991.
Definition is_safe_integer (z : Z) : bool := (- max_safe <=? z) && (z <=? max_safe).

(** [/^[a-f0-9]{n}$/]. *)
Definition js_hex (value : string) (bytes : Z) : bool :=
  (str_len value =? bytes * 2) && str_all small_hex value.
Definition js_hash (value : string) : bool := js_hex value 32.

Definition js_u32 (value : Z) : result string string :=
  guard_err (negb (is_safe_integer value) || (value <? 0) || (4294967295 <? value))
    "invalid_ephemeral_proof_integer" ;?
  Ok (to_be_bytes 4 value).

Definition js_u64 (value : Z) : result string string :=
  guard_err (negb (is_safe_integer value) || (value <? 0)) "invalid_ephemeral_proof_integer" ;?
  Ok (to_be_bytes 8 value).

Definition js_text (value : string) : result string string :=
  let? length := js_u32 (str_len value) in Ok (length +:+ value).

Definition canonicalTransferEphemeralProof (claims : Ticket) (role : TransferRole) : result string string :=
  let device := match role with Source => tk_source_device_id claims
                              | Destination => tk_destination_device_id claims end in
  let workspace := match role with Source => tk_source_workspace_id claims
                                 | Destination => tk_destination_workspace_id claims end in
  let ephemeral := match role with Source => tk_source_ephemeral_public_key claims
                                 | Destination => tk_destination_ephemeral_public_key claims end in
  guard_err (negb (js_hash (tk_plan_sha256 claims)) || negb (js_hex ephemeral 32))
    "invalid_ephemeral_proof_claims" ;?
  let? domain := js_text "ownmesh-transfer-ephemeral-v1" in
  let? transfer := js_text (tk_transfer_id claims) in
  let? tenant := js_text (tk_tenant_id claims) in
  let? device := js_text device in
  let? workspace := js_text workspace in
  let? epoch := js_u32 (tk_epoch claims) in
  let? fence := js_u64 (tk_fence claims) in
  let? nonce := js_text (tk_session_nonce claims) in
  let? deadline := js_u64 (tk_transfer_expires_at claims) in
  Ok (domain +:+ transfer +:+ tenant
      +:+ String (byte_of (match role with Source => 1 | Destination => 2 end))
            (device +:+ workspace +:+ hex_pairs (tk_plan_sha256 claims) +:+ epoch +:+ fence +:+ nonce
             +:+ hex_pairs ephemeral +:+ deadline)).

(** ** Key agreement and sealing *)

Record TransferCryptoBinding : Type := {
  cx_transfer_id : string;
  cx_tenant_id : string;
  cx_source_device_id : string;
  cx_destination_device_id : string;
  cx_source_workspace_id : string;
  cx_destination_workspace_id : string;
  cx_plan_sha256 : string;
  cx_epoch : Z;
  cx_fence : Z;
  cx_session_nonce : string
}.

Definition ticket_binding (t : Ticket) : TransferCryptoBinding :=
  {| cx_transfer_id := tk_transfer_id t; cx_tenant_id := tk_tenant_id t;
     cx_source_device_id := tk_source_device_id t; cx_destination_device_id := tk_destination_device_id t;
     cx_source_workspace_id := tk_source_workspace_id t;
     cx_destination_workspace_id := tk_destination_workspace_id t; cx_plan_sha256 := tk_plan_sha256 t;
     cx_epoch := tk_epoch t; cx_fence := tk_fence t; cx_session_nonce := tk_session_nonce t |}.

Definition DOMAIN : string := "ownmesh-transfer-e2e-v1".

Definition binding_fields (b : TransferCryptoBinding) : list string :=
  [cx_transfer_id b; cx_tenant_id b; cx_source_device_id b; cx_destination_device_id b;
   cx_source_workspace_id b; cx_destination_workspace_id b; cx_plan_sha256 b; cx_session_nonce b].

(** [(len as u32).to_be_bytes()] and the field. *)
Definition sized (field : string) : string := to_be_bytes 4 (str_len field) +:+ field.

Fixpoint sized_all (fields : list string) : string :=
  match fields with [] => "" | field :: rest => sized field +:+ sized_all rest end.

Definition binding_canonical (b : TransferCryptoBinding) : result string string :=
  guard_err (existsb (fun v => is_empty v || (256 <? str_len v) || str_any is_ascii_control v) (binding_fields b)
             || (cx_epoch b =? 0) || (cx_fence b =? 0) || negb (str_len (cx_plan_sha256 b) =? 64)
             || negb (str_all is_ascii_hexdigit (cx_plan_sha256 b))) "invalid transfer crypto binding" ;?
  Ok (DOMAIN +:+ sized_all (binding_fields b) +:+ to_be_bytes 4 (cx_epoch b) +:+ to_be_bytes 8 (cx_fence b)).

Definition nonce (b : TransferCryptoBinding) (sequence : Z) : string :=
  to_be_bytes 4 (cx_epoch b) +:+ to_be_bytes 8 sequence.

Definition additional_data (b : TransferCryptoBinding) (sequence offset length : Z) (chunk_sha256 : string)
  : result string string :=
  guard_err (negb (str_len chunk_sha256 =? 64) || negb (str_all is_ascii_hexdigit chunk_sha256))
    "invalid chunk hash" ;?
  let? ad := binding_canonical b in
  Ok (ad +:+ to_be_bytes 8 sequence +:+ to_be_bytes 8 offset +:+ to_be_bytes 8 length +:+ chunk_sha256).

(** The algorithms of [ring] and [ed25519-dalek] the code calls. *)
Class Ciphers : Type := {
  PrivateKey : Type;
  public_key : PrivateKey -> string;
  public_key_len k : str_len (public_key k) = 32;
  agree_ephemeral : PrivateKey -> string -> option string;
  (** Diffie-Hellman: both sides compute one secret. *)
  agree_symmetric a b : agree_ephemeral a (public_key b) = agree_ephemeral b (public_key a);
  hkdf_expand : string -> string -> list string -> option string;
  aead_seal : string -> string -> string -> string -> option string;
  aead_open : string -> string -> string -> string -> option string;
  (** What was sealed opens again under the same key, nonce and additional data; the
      tag takes 16 bytes. *)
  aead_open_seal k n ad p c : aead_seal k n ad p = Some c -> aead_open k n ad c = Some p;
  aead_seal_len k n ad p c : aead_seal k n ad p = Some c -> str_len c = str_len p + 16;
  ed25519_verify : string -> string -> string -> bool
}.

Section ciphers.
Context {DG : Digests} {CI : Ciphers}.

(** [TransferEphemeral]; the private key is taken by its first use. *)
Record TransferEphemeral : Type := {
  te_private : option PrivateKey;
  te_public : string
}.

Definition generate (private : PrivateKey) : TransferEphemeral :=
  {| te_private := Some private; te_public := public_key private |}.

Record TransferCipher : Type := {
  tc_key : string;
  tc_binding : TransferCryptoBinding
}.

Definition derive (e : TransferEphemeral) (peer_public : string) (b : TransferCryptoBinding)
  : result TransferCipher string :=
  guard_err (negb (str_len peer_public =? 32)) "invalid peer x25519 public key" ;?
  let? private := ok_or (te_private e) "ephemeral key already consumed" in
  let? info := binding_canonical b in
  let? shared := ok_or (agree_ephemeral private peer_public) "x25519 agreement failed" in
  let? key := ok_or (hkdf_expand (cx_plan_sha256 b) shared [DOMAIN; info]) "hkdf expand failed" in
  Ok {| tc_key := key; tc_binding := b |}.

(** [sha_hex]: the digits of the digest, written out. *)
Definition sha_hex (bytes : string) : string := plain_hex (sha256 bytes).

Definition seal (c : TransferCipher) (sequence offset : Z) (chunk_sha256 plaintext : string)
  : result string string :=
  guard_err (is_empty plaintext || (64 * 1024 <? str_len plaintext)) "invalid transfer plaintext length" ;?
  let? ad := additional_data (tc_binding c) sequence offset (str_len plaintext) chunk_sha256 in
  ok_or (aead_seal (tc_key c) (nonce (tc_binding c) sequence) ad plaintext) "aes seal failed".

Definition open (c : TransferCipher) (sequence offset length : Z) (chunk_sha256 ciphertext : string)
  : result string string :=
  guard_err ((length =? 0) || (64 * 1024 <? length) || negb (str_len ciphertext =? length + 16))
    "invalid transfer ciphertext length" ;?
  let? ad := additional_data (tc_binding c) sequence offset length chunk_sha256 in
  let? plain := ok_or (aead_open (tc_key c) (nonce (tc_binding c) sequence) ad ciphertext) "aes open failed" in
  guard_err (negb (String.eqb (sha_hex plain) chunk_sha256)) "transfer chunk hash mismatch" ;?
  Ok plain.

(** ** Tickets at the agent *)

(** [hex_decode] and [verify_from_public_key_hex] of [ownmesh-identity]. *)
Definition identity_hex_decode (input : string) : option string :=
  let s := trim input in
  if negb (str_len s mod 2 =? 0) || negb (str_all is_ascii_hexdigit s) then None else Some (hex_pairs s).

Definition verify_from_public_key_hex (public_key_hex message signature_hex : string) : bool :=
  match identity_hex_decode (trim public_key_hex), identity_hex_decode (trim signature_hex) with
  | Some pk, Some sig => (str_len pk =? 32) && (str_len sig =? 64) && ed25519_verify pk message sig
  | _, _ => false
  end.

Definition verify_ephemeral_proofs (t : Ticket) : result unit string :=
  let? source := ephemeral_proof t "source" in
  guard_err (negb (verify_from_public_key_hex (tk_source_device_public_key t) source
                     (tk_source_ephemeral_signature t))) "invalid source ephemeral proof" ;?
  let? destination := ephemeral_proof t "destination" in
  guard_err (negb (verify_from_public_key_hex (tk_destination_device_public_key t) destination
                     (tk_destination_ephemeral_signature t))) "invalid destination ephemeral proof".

Definition ticket_validate_for (t : Ticket) (device_id role : string) (now_ms : Z) : result unit string :=
  guard_err (negb (tk_v t =? 1) || negb (ticket_id (tk_jti t)) || negb (ticket_id (tk_session_nonce t))
    || negb (ticket_id (tk_transfer_id t)) || negb (ticket_id (tk_tenant_id t))
    || negb (ticket_id (tk_principal_id t)) || negb (ticket_id (tk_source_device_id t))
    || negb (ticket_id (tk_destination_device_id t)) || negb (ticket_id (tk_source_workspace_id t))
    || negb (ticket_id (tk_destination_workspace_id t)) || negb (valid_hex (tk_plan_sha256 t) 32)
    || negb (String.eqb role (tk_role t)) || negb (String.eqb device_id (tk_device_id t))
    || (tk_ticket_exp t <=? now_ms) || (tk_transfer_expires_at t <=? now_ms)
    || (tk_transfer_expires_at t <? tk_ticket_exp t) || (tk_epoch t =? 0) || (tk_fence t =? 0)
    || negb (String.eqb role "source" || String.eqb role "destination")
    || negb (String.eqb device_id (if String.eqb role "source" then tk_source_device_id t
                                   else tk_destination_device_id t))
    || negb (valid_hex (tk_source_device_public_key t) 32)
    || negb (valid_hex (tk_destination_device_public_key t) 32)
    || negb (valid_hex (tk_source_ephemeral_public_key t) 32)
    || negb (valid_hex (tk_destination_ephemeral_public_key t) 32)
    || negb (valid_hex (tk_source_ephemeral_signature t) 64)
    || negb (valid_hex (tk_destination_ephemeral_signature t) 64)) "invalid transfer ticket binding" ;?
  verify_ephemeral_proofs t.

Definition peer_ephemeral_public_key (t : Ticket) (role : string) : result string string :=
  let? raw := (if String.eqb role "source" then Ok (tk_destination_ephemeral_public_key t)
               else if String.eqb role "destination" then Ok (tk_source_ephemeral_public_key t)
               else Err "invalid transfer role") in
  decode_hex raw.
End ciphers.

(** ** Unambiguous encodings *)

Lemma small_hex_lower c : small_hex c = lower_hex c.
Proof.
  apply Bool.eqb_prop. revert c. apply (forall_byte (fun c => Bool.eqb (small_hex c) (lower_hex c))).
  vm_compute. reflexivity.
Qed.

Lemma hex_pairs_unhex n s b :
  (String.length s <= n)%nat -> plain_unhex s = Some b -> hex_pairs s = b.
Proof.
  revert s b. induction n as [|n IH]; intros [|h [|l s]] b Hn; cbn in *; try lia; try congruence.
  destruct (hex_value h), (hex_value l), (plain_unhex s) as [t|] eqn:E; try discriminate.
  intros [= <-]. f_equal. apply IH; [lia | done].
Qed.

Lemma str_all_small s : str_all small_hex s = str_all lower_hex s.
Proof. induction s as [|c s IH]; [done |]. cbn [str_all]. by rewrite IH, small_hex_lower. Qed.

(** Lower-case digits in pairs are the digits of what they decode to. *)
Lemma hex_pairs_back v :
  str_len v mod 2 = 0 -> str_all small_hex v = true -> plain_hex (hex_pairs v) = v.
Proof.
  intros E A. rewrite str_all_small in A.
  destruct (plain_hex_unhex (String.length v) v) as (b & U & P); [done | done | |].
  { apply Z.even_spec. exists (str_len v / 2). pose proof (Z.div_mod (str_len v) 2). lia. }
  by rewrite (hex_pairs_unhex (String.length v) v b).
Qed.

Lemma hex_pairs_len v :
  str_len v mod 2 = 0 -> str_all small_hex v = true -> str_len v = 2 * str_len (hex_pairs v).
Proof. intros E A. by rewrite <- plain_hex_len, hex_pairs_back. Qed.

Lemma decode_hex_ok v b : decode_hex v = Ok b -> plain_hex b = v.
Proof. unfold decode_hex. intros H. res_inv. bool_prop. by apply hex_pairs_back. Qed.

Lemma js_hex_decode v :
  js_hex v 32 = true -> decode_hex v = Ok (hex_pairs v) /\ str_len (hex_pairs v) = 32.
Proof.
  unfold js_hex, decode_hex. intros H. bool_prop. pose proof (hex_pairs_len v) as L.
  rewrite H in *. rewrite H0 in *. cbn. split; [done |]. specialize (L eq_refl eq_refl). lia.
Qed.

Lemma js_hex_reject v b : js_hex v 32 = false -> decode_hex v = Ok b -> str_len b <> 32.
Proof.
  intros J D L. unfold js_hex in J. pose proof (decode_hex_ok v b D) as P. unfold decode_hex in D.
  res_inv. bool_prop. pose proof (hex_pairs_len v) as Hl. rewrite H0 in *. lia.
Qed.

Definition res_opt {A E} (r : result A E) : option A := match r with Ok a => Some a | Err _ => None end.

Lemma push_proof_spec v :
  push_proof_string v = if str_len v <=? u32_max then Ok (sized v) else Err "transfer proof field too long".
Proof. unfold push_proof_string, sized. by destruct (Z.leb_spec (str_len v) u32_max), (Z.ltb_spec u32_max (str_len v)); try lia. Qed.

Lemma js_text_spec v :
  js_text v = if str_len v <=? u32_max then Ok (sized v) else Err "invalid_ephemeral_proof_integer".
Proof.
  unfold js_text, js_u32, sized, is_safe_integer, max_safe, u32_max. pose proof (str_len_nonneg v).
  rewrite (proj2 (Z.ltb_ge (str_len v) 0)), (proj2 (Z.leb_le (- _) _)) by lia. cbn [negb andb orb].
  destruct (Z.leb_spec (str_len v) 4294967295).
  - rewrite (proj2 (Z.leb_le _ _)), (proj2 (Z.ltb_ge _ _)) by lia. done.
  - rewrite (proj2 (Z.ltb_lt _ _)) by lia. by rewrite orb_true_r.
Qed.

Lemma js_u64_ok z : 0 <= z <= max_safe -> js_u64 z = Ok (to_be_bytes 8 z).
Proof.
  intros H. unfold js_u64, is_safe_integer, max_safe in *.
  by rewrite (proj2 (Z.leb_le _ _)), (proj2 (Z.leb_le _ _)), (proj2 (Z.ltb_ge _ _)) by lia.
Qed.

Lemma js_u32_ok z : 0 <= z <= u32_max -> js_u32 z = Ok (to_be_bytes 4 z).
Proof.
  intros H. unfold js_u32, is_safe_integer, max_safe, u32_max in *.
  by rewrite (proj2 (Z.leb_le _ _)), (proj2 (Z.leb_le _ _)), (proj2 (Z.ltb_ge _ _)), (proj2 (Z.ltb_ge _ _)) by lia.
Qed.

Lemma text_agrees v : res_opt (js_text v) = res_opt (push_proof_string v).
Proof. rewrite js_text_spec, push_proof_spec. by destruct (_ <=? _). Qed.

Lemma bind_agrees {A B E F} (r : result A E) (s : result A F) (k : A -> result B E) (h : A -> result B F) :
  res_opt r = res_opt s -> (forall a, res_opt (k a) = res_opt (h a)) -> res_opt (rbind r k) = res_opt (rbind s h).
Proof. destruct r, s; cbn; [intros [= ->] K; apply K | done | done | done]. Qed.

(** The agent's check of the key material is the worker's. *)
Lemma key_material_gate {A} plan ephemeral epoch fence (k : string -> string -> result A string) :
  1 <= epoch -> 1 <= fence ->
  res_opt (let? p := decode_hex plan in
           let? e := decode_hex ephemeral in
           guard_err (negb (str_len p =? 32) || negb (str_len e =? 32) || (epoch =? 0) || (fence =? 0))
             "invalid transfer proof key material" ;? k p e)
  = if js_hex plan 32 && js_hex ephemeral 32 then res_opt (k (hex_pairs plan) (hex_pairs ephemeral)) else None.
Proof.
  intros He Hf. rewrite (proj2 (Z.eqb_neq epoch 0)), (proj2 (Z.eqb_neq fence 0)) by lia.
  destruct (js_hex plan 32) eqn:P; [apply js_hex_decode in P as [-> L]; cbn [rbind]; rewrite L|].
  - destruct (js_hex ephemeral 32) eqn:Q; [apply js_hex_decode in Q as [-> L']; cbn [rbind]; by rewrite L'|].
    cbn [rbind andb]. destruct (decode_hex ephemeral) as [e|] eqn:D; [|done]. cbn [rbind].
    apply (js_hex_reject _ _ Q), Z.eqb_neq in D as ->. done.
  - destruct (decode_hex plan) as [p|] eqn:D; [|done]. cbn [rbind andb].
    apply (js_hex_reject _ _ P), Z.eqb_neq in D as ->. by destruct (decode_hex ephemeral).
Qed.

Lemma in_range_agree t role :
  1 <= tk_epoch t <= u32_max -> 1 <= tk_fence t <= max_safe -> 0 <= tk_transfer_expires_at t <= max_safe ->
  res_opt (canonicalTransferEphemeralProof t role) = res_opt (ephemeral_proof t (role_name role)).
Proof.
  intros He Hf Hx. unfold canonicalTransferEphemeralProof, ephemeral_proof, canonical_ephemeral_proof, js_hash,
    EPHEMERAL_PROOF_DOMAIN.
  rewrite js_u32_ok, !js_u64_ok by lia.
  destruct role; cbn [role_name String.eqb Ascii.eqb Bool.eqb rbind];
    rewrite key_material_gate by lia; cbn [role_byte String.eqb Ascii.eqb Bool.eqb rbind];
    repeat match goal with |- context [js_hex ?v 32] => destruct (js_hex v 32) end; try reflexivity;
    cbn [negb orb andb guard_err rbind]; repeat (apply bind_agrees; [apply text_agrees | intros ?]); reflexivity.
Qed.

(** The agent refuses the epoch and the fence that no transfer has. *)
Lemma agent_refuses_zero t role :
  tk_epoch t = 0 \/ tk_fence t = 0 -> res_opt (ephemeral_proof t (role_name role)) = None.
Proof.
  intros Z0. assert ((tk_epoch t =? 0) || (tk_fence t =? 0) = true) as E
    by (apply orb_true_iff; rewrite !Z.eqb_eq; exact Z0).
  destruct (ephemeral_proof t (role_name role)) as [p|] eqn:H; [|done]. exfalso. revert H.
  unfold ephemeral_proof, canonical_ephemeral_proof.
  destruct role; cbn [role_name String.eqb Ascii.eqb Bool.eqb rbind];
    (destruct (decode_hex (tk_plan_sha256 t)); [|done]); cbn [rbind];
    match goal with |- context [decode_hex ?v] => destruct (decode_hex v); [|done] end; cbn [rbind];
    rewrite <- orb_assoc, E, orb_true_r; done.
Qed.

(** The worker refuses a fence or a deadline that is no safe integer. *)
Lemma worker_refuses_large t role :
  max_safe < tk_fence t \/ max_safe < tk_transfer_expires_at t ->
  res_opt (canonicalTransferEphemeralProof t role) = None.
Proof.
  intros L. destruct (canonicalTransferEphemeralProof t role) as [p|] eqn:H; [|done]. exfalso. revert H.
  assert (forall z, max_safe < z -> js_u64 z = Err "invalid_ephemeral_proof_integer") as R.
  { intros z Hz. unfold js_u64, is_safe_integer. rewrite (proj2 (Z.leb_gt z max_safe)) by lia.
    by rewrite andb_false_r. }
  unfold canonicalTransferEphemeralProof.
  destruct (guard_err _ _); [|done]; cbn [rbind].
  repeat match goal with |- context [js_text ?v] => destruct (js_text v); [|done]; cbn [rbind] end.
  destruct (js_u32 _); [|done]; cbn [rbind]. destruct L as [L|L].
  - by rewrite (R _ L).
  - destruct (js_u64 (tk_fence t)); [|done]; cbn [rbind].
    destruct (js_text _); [|done]; cbn [rbind]. by rewrite (R _ L).
Qed.

(** C21: the worker and the agents sign and check the same bytes.  Take any ticket that the
    agent can represent, its epoch 32 bits wide and its fence and deadline 64, and either
    role.  When the worker's [canonicalTransferEphemeralProof] and the agent's
    [ephemeral_proof] both return bytes, the bytes are equal; the worker alone returns
    bytes only for an epoch or a fence of zero, and the agent alone only for a fence or a
    deadline beyond JavaScript's safe integers.  In every other case both fail. *)
Theorem proofs_agree t role :
  0 <= tk_epoch t <= u32_max -> 0 <= tk_fence t <= u64_max -> 0 <= tk_transfer_expires_at t <= u64_max ->
  match res_opt (canonicalTransferEphemeralProof t role), res_opt (ephemeral_proof t (role_name role)) with
  | Some worker, Some agent => worker = agent
  | Some _, None => tk_epoch t = 0 \/ tk_fence t = 0
  | None, Some _ => max_safe < tk_fence t \/ max_safe < tk_transfer_expires_at t
  | None, None => True
  end.
Proof.
  intros He Hf Hx.
  destruct (decide (tk_epoch t = 0 \/ tk_fence t = 0)) as [Z0|NZ].
  { rewrite (agent_refuses_zero _ _ Z0). by destruct (res_opt (canonicalTransferEphemeralProof t role)). }
  destruct (decide (max_safe < tk_fence t \/ max_safe < tk_transfer_expires_at t)) as [L|NL].
  { rewrite (worker_refuses_large _ _ L). by destruct (res_opt (ephemeral_proof t (role_name role))). }
  rewrite in_range_agree by lia. by destruct (res_opt (ephemeral_proof t (role_name role))).
Qed.

(** ** What a signature and a tag cover *)

Lemma sized_inj a b x y :
  str_len a <= u32_max -> str_len b <= u32_max -> sized a +:+ x = sized b +:+ y -> a = b /\ x = y.
Proof.
  intros Ha Hb H. unfold sized in H. rewrite <- !str_app_assoc in H.
  pose proof (str_len_nonneg a). pose proof (str_len_nonneg b).
  apply str_app_inj_len in H as [H H']; [|pose proof (to_be_bytes_len 4 (str_len a)); pose proof (to_be_bytes_len 4 (str_len b)); unfold str_len in *; lia].
  apply (f_equal from_be_bytes) in H. rewrite !from_to_be_bytes in H by (unfold u32_max in *; lia).
  apply str_app_inj_len in H'; [done | unfold str_len in *; lia].
Qed.

Lemma be_inj n a b x y :
  0 <= a < 256 ^ Z.of_nat n -> 0 <= b < 256 ^ Z.of_nat n ->
  to_be_bytes n a +:+ x = to_be_bytes n b +:+ y -> a = b /\ x = y.
Proof.
  intros Ha Hb H. apply str_app_inj_len in H as [H ->];
    [|pose proof (to_be_bytes_len n a); pose proof (to_be_bytes_len n b); unfold str_len in *; lia].
  apply (f_equal from_be_bytes) in H. by rewrite !from_to_be_bytes in H.
Qed.

Lemma cons_inj c d x y : String c x = String d y -> c = d /\ x = y.
Proof. by intros [= -> ->]. Qed.

Lemma fixed_inj n a b x y :
  str_len a = n -> str_len b = n -> a +:+ x = b +:+ y -> a = b /\ x = y.
Proof. intros Ha Hb. apply str_app_inj_len. unfold str_len in *. lia. Qed.

(** The device, workspace and ephemeral key of a role. *)
Definition device_of (t : Ticket) (role : TransferRole) : string :=
  match role with Source => tk_source_device_id t | Destination => tk_destination_device_id t end.
Definition workspace_of (t : Ticket) (role : TransferRole) : string :=
  match role with Source => tk_source_workspace_id t | Destination => tk_destination_workspace_id t end.
Definition ephemeral_of (t : Ticket) (role : TransferRole) : string :=
  match role with
  | Source => tk_source_ephemeral_public_key t
  | Destination => tk_destination_ephemeral_public_key t
  end.

Definition signed_facts (t : Ticket) (role : TransferRole) : TransferRole * list string * list Z :=
  (role, [tk_transfer_id t; tk_tenant_id t; device_of t role; workspace_of t role; tk_plan_sha256 t;
          tk_session_nonce t; ephemeral_of t role],
   [tk_epoch t; tk_fence t; tk_transfer_expires_at t]).

Lemma ephemeral_proof_role t role :
  ephemeral_proof t (role_name role) =
  canonical_ephemeral_proof (tk_transfer_id t) (tk_tenant_id t) (role_name role) (device_of t role)
    (workspace_of t role) (tk_plan_sha256 t) (tk_epoch t) (tk_fence t) (tk_session_nonce t)
    (ephemeral_of t role) (tk_transfer_expires_at t).
Proof. by destruct role. Qed.

(** What the parts of a signed string are. *)
Lemma canonical_ephemeral_proof_ok transfer tenant role device workspace plan epoch fence nonce ephemeral x p :
  canonical_ephemeral_proof transfer tenant role device workspace plan epoch fence nonce ephemeral x = Ok p ->
  exists r plan' ephemeral', role_byte role = Ok r /\ plain_hex plan' = plan /\ plain_hex ephemeral' = ephemeral
    /\ str_len plan' = 32 /\ str_len ephemeral' = 32
    /\ Forall (fun v => str_len v <= u32_max) [transfer; tenant; device; workspace; nonce]
    /\ p = sized EPHEMERAL_PROOF_DOMAIN +:+ sized transfer +:+ sized tenant
           +:+ String (byte_of r) (sized device +:+ sized workspace +:+ plan' +:+ to_be_bytes 4 epoch
           +:+ to_be_bytes 8 fence +:+ sized nonce +:+ ephemeral' +:+ to_be_bytes 8 x).
Proof.
  unfold canonical_ephemeral_proof. rewrite !push_proof_spec. intros H. res_inv. bool_prop.
  repeat match goal with E : decode_hex _ = Ok _ |- _ => apply decode_hex_ok in E end.
  repeat match goal with E : (if ?b then _ else _) = Ok _ |- _ => destruct b eqn:?; [injection E as <- | discriminate E] end.
  bool_prop. do 3 eexists. split; [done |]. split; [done |]. split; [done |]. split; [done |]. split; [done |].
  split; [by repeat constructor | done].
Qed.

(** A signature covers the whole statement.  If the bytes signed for two tickets and
    roles are equal, the role, the transfer, tenant, device and workspace ids, the plan
    digest, the session nonce, the ephemeral key, the generation and the deadline are
    equal: no two statements share their signed bytes. *)
Theorem signed_bytes_unambiguous t u r s p :
  0 <= tk_epoch t <= u32_max -> 0 <= tk_epoch u <= u32_max -> 0 <= tk_fence t <= u64_max ->
  0 <= tk_fence u <= u64_max -> 0 <= tk_transfer_expires_at t <= u64_max ->
  0 <= tk_transfer_expires_at u <= u64_max ->
  ephemeral_proof t (role_name r) = Ok p -> ephemeral_proof u (role_name s) = Ok p ->
  signed_facts t r = signed_facts u s.
Proof.
  intros E1 E2 F1 F2 X1 X2 P Q. rewrite ephemeral_proof_role in P, Q.
  apply canonical_ephemeral_proof_ok in P as (n & pl & ep & Rn & Hp & He & Lp & Le & Sm & ->).
  apply canonical_ephemeral_proof_ok in Q as (m & pl' & ep' & Rm & Hp' & He' & Lp' & Le' & Sm' & H).
  rewrite !Forall_cons in Sm, Sm'. destruct_and!.
  apply sized_inj in H as [_ H]; [|done|done]. apply sized_inj in H as [I1 H]; [|done|done].
  apply sized_inj in H as [I2 H]; [|done|done]. apply cons_inj in H as [Hb H].
  apply sized_inj in H as [I3 H]; [|done|done]. apply sized_inj in H as [I4 H]; [|done|done].
  apply (fixed_inj 32) in H as [I5 H]; [|done|done].
  apply be_inj in H as [I6 H]; [|unfold u32_max in *; lia..].
  apply be_inj in H as [I7 H]; [|unfold u64_max in *; lia..].
  apply sized_inj in H as [I8 H]; [|done|done]. apply (fixed_inj 32) in H as [I9 H]; [|done|done].
  rewrite <- (str_app_nil_r (to_be_bytes 8 (tk_transfer_expires_at t))),
    <- (str_app_nil_r (to_be_bytes 8 (tk_transfer_expires_at u))) in H.
  apply be_inj in H as [I10 _]; [|unfold u64_max in *; lia..].
  assert (r = s) as <- by (destruct r, s; cbn in Rn, Rm; injection Rn as <-; injection Rm as <-; try done; discriminate Hb).
  unfold signed_facts. congruence.
Qed.

Lemma sized_all_inj l k x y :
  length l = length k -> Forall (fun v => str_len v <= 256) l -> Forall (fun v => str_len v <= 256) k ->
  sized_all l +:+ x = sized_all k +:+ y -> l = k /\ x = y.
Proof.
  revert k. induction l as [|a l IH]; intros [|b k] Hl Fl Fk H; try discriminate Hl; [done |].
  cbn [sized_all] in H. apply Forall_cons in Fl as [Fa Fl]. apply Forall_cons in Fk as [Fb Fk].
  rewrite <- !str_app_assoc in H.
  apply sized_inj in H as [-> H]; [|unfold u32_max; lia..].
  apply IH in H as [-> ->]; [done | by injection Hl | done | done].
Qed.

Lemma binding_canonical_ok b c :
  binding_canonical b = Ok c ->
  Forall (fun v => str_len v <= 256) (binding_fields b) /\ str_len (cx_plan_sha256 b) = 64
  /\ c = DOMAIN +:+ sized_all (binding_fields b) +:+ to_be_bytes 4 (cx_epoch b) +:+ to_be_bytes 8 (cx_fence b).
Proof.
  unfold binding_canonical. intros H. res_inv. bool_prop. split; [|done].
  apply Forall_forall. intros v Hv. apply Z.nlt_ge. intros L.
  apply not_true_iff_false in H. apply H, existsb_exists. exists v.
  split; [by apply list_elem_of_In | apply Z.ltb_lt in L as ->]. by rewrite orb_true_r.
Qed.

Lemma additional_data_ok b s o l h ad :
  additional_data b s o l h = Ok ad ->
  Forall (fun v => str_len v <= 256) (binding_fields b)
  /\ ad = DOMAIN +:+ sized_all (binding_fields b) +:+ to_be_bytes 4 (cx_epoch b) +:+ to_be_bytes 8 (cx_fence b)
          +:+ to_be_bytes 8 s +:+ to_be_bytes 8 o +:+ to_be_bytes 8 l +:+ h.
Proof.
  unfold additional_data. destruct (_ || _); [done |]. cbn [guard_err rbind].
  destruct (binding_canonical b) as [c|] eqn:E; [|done]. apply binding_canonical_ok in E as (F & _ & ->).
  cbn [rbind]. intros H. split; [done |]. symmetry. rewrite !str_app_assoc in *. congruence.
Qed.

(** A sealed chunk is bound to its place.  Equal additional data means equal facts:
    the transfer, tenant, device and workspace ids, the plan digest, the session nonce
    and the generation, and the chunk's sequence number, offset, length and digest. And
    within a generation, chunks of different sequence numbers never share a nonce. *)
Theorem sealed_chunk_bound b b' s s' o o' l l' h h' ad :
  0 <= cx_epoch b <= u32_max -> 0 <= cx_epoch b' <= u32_max ->
  0 <= cx_fence b <= u64_max -> 0 <= cx_fence b' <= u64_max ->
  0 <= s <= u64_max -> 0 <= s' <= u64_max -> 0 <= o <= u64_max -> 0 <= o' <= u64_max ->
  0 <= l <= u64_max -> 0 <= l' <= u64_max ->
  (additional_data b s o l h = Ok ad -> additional_data b' s' o' l' h' = Ok ad ->
   b = b' /\ s = s' /\ o = o' /\ l = l' /\ h = h')
  /\ (nonce b s = nonce b' s' -> cx_epoch b = cx_epoch b' /\ s = s').
Proof.
  intros E1 E2 F1 F2 S1 S2 O1 O2 L1 L2. unfold u32_max, u64_max in *. split.
  - intros A B. apply additional_data_ok in A as [Fa ->], B as [Fb H]. apply str_app_inj_l in H.
    apply sized_all_inj in H as [Hf H]; [|done|done|done]. do 5 (apply be_inj in H as [? H]; [|lia..]).
    unfold binding_fields in Hf. injection Hf as ????????. split_and!; try done. destruct b, b'. cbn in *. congruence.
  - intros H. apply be_inj in H as [He H]; [|lia..].
    rewrite <- (str_app_nil_r (to_be_bytes 8 s)), <- (str_app_nil_r (to_be_bytes 8 s')) in H.
    by apply be_inj in H as [-> _]; [|lia..].
Qed.

Section sessions.
Context {DG : Digests} {CI : Ciphers}.

Lemma seal_opens c sequence offset plaintext ciphertext :
  seal c sequence offset (sha_hex plaintext) plaintext = Ok ciphertext ->
  open c sequence offset (str_len plaintext) (sha_hex plaintext) ciphertext = Ok plaintext.
Proof.
  unfold seal, open. intros H. res_inv. bool_prop.
  rewrite (proj2 (Z.eqb_neq (str_len plaintext) 0)), (proj2 (Z.ltb_ge _ _)) by
    (destruct plaintext; [done | rewrite ?str_len_cons in *; pose proof (str_len_nonneg plaintext); lia]).
  match goal with E : aead_seal _ _ _ _ = Some _ |- _ =>
    rewrite (aead_seal_len _ _ _ _ _ E), Z.eqb_refl; cbn [negb orb guard_err rbind];
    rewrite (aead_open_seal _ _ _ _ _ E) end.
  cbn. by rewrite String.eqb_refl.
Qed.

(** The two ends of a session understand each other.  Two agents that derive from
    their own ephemeral key, the other's public key and the same binding get one cipher;
    and what one seals at a place of the stream, the other opens at that place, to the
    same bytes. *)
Theorem session_round_trip a b bind ca cb sequence offset plaintext ciphertext :
  derive (generate a) (te_public (generate b)) bind = Ok ca ->
  derive (generate b) (te_public (generate a)) bind = Ok cb ->
  seal ca sequence offset (sha_hex plaintext) plaintext = Ok ciphertext ->
  ca = cb /\ open cb sequence offset (str_len plaintext) (sha_hex plaintext) ciphertext = Ok plaintext.
Proof.
  intros A B S. unfold derive, generate in A, B. cbn [te_private te_public ok_or] in A, B.
  rewrite !public_key_len in A, B. cbn [rbind] in A, B. destruct (binding_canonical bind); [|discriminate A].
  cbn [rbind guard_err negb Z.eqb Pos.eqb] in A, B. rewrite (agree_symmetric a b) in A.
  assert (ca = cb) as <- by congruence. split; [done |]. by apply seal_opens.
Qed.
End sessions.

(** ** A concrete instance

    One-byte keys with exclusive or as the agreement; the tag is a prefix of the key,
    the nonce and the additional data. *)

Definition plain_tag (k n ad : string) : string := take 16 (k +:+ n +:+ ad +:+ to_be_bytes 16 0).

Lemma plain_tag_len k n ad : str_len (plain_tag k n ad) = 16.
Proof.
  unfold plain_tag. rewrite take_len, !str_len_app, to_be_bytes_len by lia.
  pose proof (str_len_nonneg k). pose proof (str_len_nonneg n). pose proof (str_len_nonneg ad). lia.
Qed.

Definition plain_agree (a : ascii) (p : string) : option string :=
  match p with String h _ => Some (String (byte_of (Z.lxor (code a) (code h))) "") | _ => None end.

Definition plain_public (a : ascii) : string := String a (to_be_bytes 31 0).

Definition plain_open (k n ad c : string) : option string :=
  if String.eqb (drop (str_len c - 16) c) (plain_tag k n ad) then Some (take (str_len c - 16) c) else None.

Lemma plain_open_seal k n ad p : plain_open k n ad (p +:+ plain_tag k n ad) = Some p.
Proof.
  unfold plain_open. rewrite str_len_app, plain_tag_len, Z.add_simpl_r, drop_app, take_app.
  by rewrite String.eqb_refl.
Qed.

#[export] Instance plain_ciphers : Ciphers := {|
  PrivateKey := ascii;
  public_key := plain_public;
  public_key_len k := eq_refl;
  agree_ephemeral := plain_agree;
  agree_symmetric a b := f_equal (fun z => Some (String (byte_of z) "")) (Z.lxor_comm (code a) (code b));
  hkdf_expand salt shared info := Some (take 32 (shared +:+ salt));
  aead_seal k n ad p := Some (p +:+ plain_tag k n ad);
  aead_open := plain_open;
  aead_open_seal k n ad p c H := match H in _ = o return match o with Some c => plain_open k n ad c = Some p | None => True end with eq_refl => plain_open_seal k n ad p end;
  aead_seal_len k n ad p c H := match H in _ = o return match o with Some c => str_len c = str_len p + 16 | None => True end with eq_refl => eq_trans (str_len_app p _) (f_equal (Z.add (str_len p)) (plain_tag_len k n ad)) end;
  ed25519_verify pk m s := String.eqb (take 32 s) pk
|}.

Definition sample_ticket : Ticket :=
  {| tk_v := 1; tk_jti := "j1"; tk_session_nonce := "n1"; tk_transfer_id := tp_id sample_plan;
     tk_tenant_id := "tenant"; tk_principal_id := "alice"; tk_device_id := "dev1"; tk_role := "source";
     tk_source_device_id := "dev1"; tk_destination_device_id := "dev2"; tk_source_workspace_id := "ws1";
     tk_destination_workspace_id := "ws2"; tk_plan_sha256 := tp_plan_sha256 sample_plan; tk_epoch := 1;
     tk_fence := 1; tk_max_bytes := 5; tk_ticket_exp := 1060000; tk_transfer_expires_at := 2000000;
     tk_source_device_public_key := plain_hex (plain_public "a");
     tk_destination_device_public_key := plain_hex (plain_public "b");
     tk_source_ephemeral_public_key := plain_hex (plain_public "c");
     tk_destination_ephemeral_public_key := plain_hex (plain_public "d");
     tk_source_ephemeral_signature := plain_hex (plain_public "a" +:+ plain_public "a");
     tk_destination_ephemeral_signature := plain_hex (plain_public "b" +:+ plain_public "b") |}.

Lemma sample_ticket_valid : ticket_validate_for sample_ticket "dev1" "source" 1000000 = Ok tt.
Proof. vm_compute. reflexivity. Qed.

Definition sample_signed : string :=
  match ephemeral_proof sample_ticket "source" with Ok p => p | Err _ => "" end.

Lemma proofs_agree_witness :
  res_opt (ephemeral_proof sample_ticket (role_name Source)) = Some sample_signed
  /\ res_opt (canonicalTransferEphemeralProof sample_ticket Source) = Some sample_signed.
Proof.
  assert (res_opt (ephemeral_proof sample_ticket (role_name Source)) = Some sample_signed) as A
    by (vm_compute; reflexivity).
  split; [exact A |].
  pose proof (proofs_agree sample_ticket Source) as P. rewrite A in P.
  destruct (res_opt (canonicalTransferEphemeralProof sample_ticket Source)) as [w|].
  - f_equal. apply P; split; vm_compute; discriminate.
  - exfalso. destruct P as [P|P]; [split; vm_compute; discriminate .. | |]; vm_compute in P; discriminate P.
Defined.

Lemma signed_bytes_unambiguous_witness :
  ephemeral_proof sample_ticket (role_name Source) = Ok sample_signed
  /\ signed_facts sample_ticket Source = signed_facts sample_ticket Source.
Proof.
  assert (ephemeral_proof sample_ticket (role_name Source) = Ok sample_signed) as E by (vm_compute; reflexivity).
  split; [exact E |].
  apply (signed_bytes_unambiguous sample_ticket sample_ticket Source Source sample_signed);
    [split; vm_compute; discriminate .. | exact E | exact E].
Defined.

Definition sample_ad : string :=
  match additional_data (ticket_binding sample_ticket) 0 0 5 (hash_bytes "hello") with Ok a => a | Err _ => "" end.

Lemma sealed_chunk_bound_witness :
  additional_data (ticket_binding sample_ticket) 0 0 5 (hash_bytes "hello") = Ok sample_ad
  /\ nonce (ticket_binding sample_ticket) 0 <> nonce (ticket_binding sample_ticket) 1.
Proof.
  split; [vm_compute; reflexivity |]. intros N.
  destruct (sealed_chunk_bound (ticket_binding sample_ticket) (ticket_binding sample_ticket) 0 1 0 0 5 5
              (hash_bytes "hello") (hash_bytes "hello") sample_ad) as [_ U];
    [split; vm_compute; discriminate .. |].
  destruct (U N) as [_ E]. discriminate E.
Defined.

Definition cipher_of (r : result TransferCipher string) : TransferCipher :=
  match r with Ok c => c | Err _ => {| tc_key := ""; tc_binding := ticket_binding sample_ticket |} end.

Definition source_cipher : TransferCipher :=
  cipher_of (derive (CI := plain_ciphers) (generate (CI := plain_ciphers) "c"%char)
    (te_public (generate (CI := plain_ciphers) "d"%char)) (ticket_binding sample_ticket)).

Definition destination_cipher : TransferCipher :=
  cipher_of (derive (CI := plain_ciphers) (generate (CI := plain_ciphers) "d"%char)
    (te_public (generate (CI := plain_ciphers) "c"%char)) (ticket_binding sample_ticket)).

Definition sample_sealed : string :=
  match seal (CI := plain_ciphers) source_cipher 0 0 (sha_hex "hello") "hello" with Ok c => c | Err _ => "" end.

Lemma session_round_trip_witness :
  source_cipher = destination_cipher
  /\ open (CI := plain_ciphers) destination_cipher 0 0 (str_len "hello") (sha_hex "hello") sample_sealed = Ok "hello".
Proof.
  apply (session_round_trip (CI := plain_ciphers) "c"%char "d"%char (ticket_binding sample_ticket)
           source_cipher destination_cipher 0 0 "hello" sample_sealed).
  - vm_compute. reflexivity.
  - vm_compute. reflexivity.
  - vm_compute. reflexivity.
Defined.
