(* ===== verification/Js.v ===== *)
(** * JavaScript values

    What the control plane's code sees of parsed JSON and of numbers.  A string is its
    UTF-8 text.  A number is [Some z] when it is the safe integer [z] and [None]
    otherwise (a fraction, an unsafe or non-finite value): the code only asks for safe
    integers and compares with them. *)

From stdpp Require Import base list strings.
From Stdlib Require Import ZArith Lia Ascii.
From S2P Require Import Prelude RustStr.

Open Scope Z_scope.

Inductive js : Type :=
| JsNull
| JsBool (b : bool)
| JsNumber (n : option Z)
| JsString (s : string)
| JsArray (l : list js)
| JsObject (members : list (string * js)).

(** A property read on a parsed object; [None] is [undefined]. *)
Fixpoint assoc (key : string) (members : list (string * js)) : option js :=
  match members with
  | [] => None
  | (k, v) :: rest => if String.eqb k key then Some v else assoc key rest
  end.

(** [value === n] and [value === s] for a number and a string. *)
Definition js_is_number (value : option js) (n : Z) : bool :=
  match value with Some (JsNumber (Some m)) => m =? n | _ => false end.
Definition js_is_string (value : option js) (s : string) : bool :=
  match value with Some (JsString t) => String.eqb t s | _ => false end.

(** [Number(value)], given what it makes of a string.  An array converts through its
    text: the text of its only element, or text with a comma. *)
Fixpoint js_to_number (string_to_number : string -> option Z) (value : js) : option Z :=
  match value with
  | JsNull => Some 0
  | JsBool b => Some (if b then 1 else 0)
  | JsNumber n => n
  | JsString s => string_to_number s
  | JsArray [] => Some 0
  | JsArray [JsBool _] => None
  | JsArray [v] => js_to_number string_to_number v
  | JsArray _ => None
  | JsObject _ => None
  end.

(** [Number(undefined)] is not a number. *)
Definition js_number (string_to_number : string -> option Z) (value : option js) : option Z :=
  match value with Some v => js_to_number string_to_number v | None => None end.

(** [s.length]: UTF-16 code units. *)
Fixpoint utf16_len (s : string) : Z :=
  match s with
  | EmptyString => 0
  | String c r => (if in_range 128 191 (code c) then 0 else if 240 <=? code c then 2 else 1) + utf16_len r
  end.

(** [Object.keys(value).every(key => keys.includes(key))]. *)
Definition keys_within (members : list (string * js)) (keys : list string) : bool :=
  forallb (fun '(k, _) => existsb (String.eqb k) keys) members.

Lemma js_is_number_Some v n : js_is_number v n = true <-> v = Some (JsNumber (Some n)).
Proof.
  unfold js_is_number. split; [|intros ->; apply Z.eqb_refl].
  repeat case_match; try done. intros ->%Z.eqb_eq. done.
Qed.

Lemma js_is_string_Some v s : js_is_string v s = true <-> v = Some (JsString s).
Proof.
  unfold js_is_string. split; [|intros ->; apply String.eqb_refl].
  repeat case_match; try done. intros ->%String.eqb_eq. done.
Qed.
