(* ===== verification/Base64.v ===== *)
(** * Base64

    [btoa] and [atob] on byte strings, as the control plane and the agents use them for
    tickets and chunk bodies.  [atob] is modelled on padded text; it ignores the unused
    bits of the last group, as the platform does. *)

From stdpp Require Import base list strings.
From Stdlib Require Import ZArith Lia Ascii.
From S2P Require Import Prelude RustStr RustBytes.

Open Scope Z_scope.

Definition b64_digit (n : Z) : ascii :=
  byte_of (if n <? 26 then n + 65 else if n <? 52 then n + 71 else if n <? 62 then n - 4
           else if n =? 62 then 43 else 47).

Definition b64_value (c : ascii) : option Z :=
  let n := code c in
  if in_range 65 90 n then Some (n - 65)
  else if in_range 97 122 n then Some (n - 71)
  else if in_range 48 57 n then Some (n + 4)
  else if n =? 43 then Some 62
  else if n =? 47 then Some 63 else None.

Definition pad : ascii := "=".
Definition is_pad (c : ascii) : bool := Ascii.eqb c pad.

Definition four (n : Z) (k : Z) : ascii := b64_digit ((n / 64 ^ (3 - k)) mod 64).

Fixpoint btoa (s : string) : string :=
  match s with
  | EmptyString => ""
  | String a EmptyString =>
      let n := code a * 65536 in
      String (four n 0) (String (four n 1) (String pad (String pad "")))
  | String a (String b EmptyString) =>
      let n := code a * 65536 + code b * 256 in
      String (four n 0) (String (four n 1) (String (four n 2) (String pad "")))
  | String a (String b (String c r)) =>
      let n := code a * 65536 + code b * 256 + code c in
      String (four n 0) (String (four n 1) (String (four n 2) (String (four n 3) (btoa r))))
  end.

(** The padding, removed and added. *)
Fixpoint trim_pad (s : string) : string :=
  match s with
  | EmptyString => ""
  | String c r => if is_pad c then trim_pad r else String c (trim_pad r)
  end.

Definition pads (n : Z) : string :=
  if n =? 1 then "=" else if n =? 2 then "==" else if n =? 3 then "===" else "".

Definition three (n : Z) (k : Z) : ascii := byte_of ((n / 256 ^ (2 - k)) mod 256).

Fixpoint atob (s : string) : option string :=
  match s with
  | EmptyString => Some ""
  | String a (String b (String c (String d r))) =>
      match b64_value a, b64_value b, b64_value c, b64_value d with
      | Some w, Some x, Some y, Some z =>
          let n := ((w * 64 + x) * 64 + y) * 64 + z in
          option_map (fun t => String (three n 0) (String (three n 1) (String (three n 2) t))) (atob r)
      | Some w, Some x, Some y, None =>
          let n := ((w * 64 + x) * 64 + y) * 64 in
          if is_pad d && is_empty r then Some (String (three n 0) (String (three n 1) "")) else None
      | Some w, Some x, None, None =>
          let n := (w * 64 + x) * 4096 in
          if is_pad c && is_pad d && is_empty r then Some (String (three n 0) "") else None
      | _, _, _, _ => None
      end
  | _ => None
  end.

Lemma b64_value_digit n : 0 <= n < 64 -> b64_value (b64_digit n) = Some n.
Proof.
  intros H. unfold b64_value, b64_digit.
  assert (0 <= (if n <? 26 then n + 65 else if n <? 52 then n + 71 else if n <? 62 then n - 4
                else if n =? 62 then 43 else 47) < 256) as R by (repeat case_match; lia).
  rewrite code_byte_of by exact R. unfold in_range.
  repeat match goal with |- context [Z.ltb ?a ?b] => destruct (Z.ltb_spec a b)
         | |- context [Z.eqb ?a ?b] => destruct (Z.eqb_spec a b)
         | |- context [Z.leb ?a ?b] => destruct (Z.leb_spec a b) end; cbn; try lia; f_equal; lia.
Qed.

Lemma b64_value_pad : b64_value pad = None.
Proof. reflexivity. Qed.

Lemma four_value n k : b64_value (four n k) = Some ((n / 64 ^ (3 - k)) mod 64).
Proof. apply b64_value_digit. apply Z.mod_pos_bound. done. Qed.

(** Four digits rebuild a 24-bit group. *)
Lemma group_back n : 0 <= n < 16777216 ->
  (((n / 64 ^ (3 - 0)) mod 64 * 64 + (n / 64 ^ (3 - 1)) mod 64) * 64 + (n / 64 ^ (3 - 2)) mod 64) * 64
  + (n / 64 ^ (3 - 3)) mod 64 = n.
Proof.
  intros H. change (64 ^ (3 - 0)) with 262144. change (64 ^ (3 - 1)) with 4096.
  change (64 ^ (3 - 2)) with 64. change (64 ^ (3 - 3)) with 1. Z.div_mod_to_equations. lia.
Qed.

Lemma two_back n : 0 <= n < 16777216 -> n mod 4096 = 0 ->
  ((n / 64 ^ (3 - 0)) mod 64 * 64 + (n / 64 ^ (3 - 1)) mod 64) * 4096 = n.
Proof.
  intros H M. change (64 ^ (3 - 0)) with 262144. change (64 ^ (3 - 1)) with 4096.
  Z.div_mod_to_equations. lia.
Qed.

Lemma three_back n : 0 <= n < 16777216 -> n mod 64 = 0 ->
  (((n / 64 ^ (3 - 0)) mod 64 * 64 + (n / 64 ^ (3 - 1)) mod 64) * 64 + (n / 64 ^ (3 - 2)) mod 64) * 64 = n.
Proof.
  intros H M. change (64 ^ (3 - 0)) with 262144. change (64 ^ (3 - 1)) with 4096. change (64 ^ (3 - 2)) with 64.
  Z.div_mod_to_equations. lia.
Qed.

Lemma byte_eq z a : z = code a -> byte_of z = a.
Proof. intros ->. apply byte_of_code. Qed.

Lemma three_bytes a b c :
  let n := code a * 65536 + code b * 256 + code c in
  three n 0 = a /\ three n 1 = b /\ three n 2 = c.
Proof.
  intros n. pose proof (code_range a). pose proof (code_range b). pose proof (code_range c).
  unfold three, n. change (256 ^ (2 - 0)) with 65536. change (256 ^ (2 - 1)) with 256. change (256 ^ (2 - 2)) with 1.
  split_and!; (etrans; [|apply byte_of_code]); f_equal; Z.div_mod_to_equations; lia.
Qed.

Lemma string_ind3 (P : string -> Prop) :
  P "" -> (forall a, P (String a "")) -> (forall a b, P (String a (String b ""))) ->
  (forall a b c r, P r -> P (String a (String b (String c r)))) -> forall s, P s.
Proof.
  intros P0 P1 P2 P3 s. enough (forall n s, (String.length s <= n)%nat -> P s) as H by eauto.
  clear s. induction n as [|n IH]; intros [|a [|b [|c r]]] Hn; cbn in Hn; auto; try lia. apply P3, IH. lia.
Qed.

(** Decoding inverts encoding. *)
Lemma atob_btoa s : atob (btoa s) = Some s.
Proof.
  induction s as [|a|a b|a b c r IH] using string_ind3; [done | | |]; cbn [btoa atob].
  - rewrite !four_value, b64_value_pad. unfold is_pad. rewrite Ascii.eqb_refl. cbn [is_empty andb].
    pose proof (code_range a). rewrite two_back by (rewrite ?Z.mod_mul; lia || Z.div_mod_to_equations; lia).
    do 2 f_equal. apply byte_eq. change (256 ^ (2 - 0)) with 65536. Z.div_mod_to_equations. lia.
  - rewrite !four_value, b64_value_pad. unfold is_pad. rewrite Ascii.eqb_refl. cbn [is_empty andb].
    pose proof (code_range a). pose proof (code_range b). rewrite three_back by (Z.div_mod_to_equations; lia).
    do 2 f_equal; [|f_equal]; apply byte_eq; [change (256 ^ (2 - 0)) with 65536|change (256 ^ (2 - 1)) with 256];
      Z.div_mod_to_equations; lia.
  - rewrite !four_value, IH. pose proof (code_range a). pose proof (code_range b). pose proof (code_range c).
    rewrite group_back by lia. destruct (three_bytes a b c) as (-> & -> & ->). done.
Qed.

Lemma btoa_len s : str_len (btoa s) = (str_len s + 2) / 3 * 4.
Proof.
  induction s as [|a|a b|a b c r IH] using string_ind3; [done.. |]. cbn [btoa]. rewrite !str_len_cons, IH.
  replace (1 + (1 + (1 + str_len r)) + 2) with (str_len r + 2 + 1 * 3) by lia. rewrite Z.div_add by done. lia.
Qed.
