(* ===== verification/AgentBase64.v ===== *)
(** * Base64 in the daemon

    The two pairs of routines of [crates/ownmeshd/src]: [b64_standard_encode] and
    [b64_standard_decode] of [agent_transport.rs], [base64_standard] and
    [base64_decode_strict] of [runtime.rs].  Both encoders are the platform's [btoa], both
    decoders invert them, and the strict one accepts nothing else. *)

From stdpp Require Import base list strings.
From Stdlib Require Import ZArith Lia Ascii.
From S2P Require Import Prelude RustStr RustBytes Base64.

Open Scope Z_scope.

(** [TABLE]. *)
Definition table (n : Z) : ascii := b64_digit n.

Fixpoint b64_standard_encode (bytes : string) : string :=
  match bytes with
  | EmptyString => ""
  | String a EmptyString =>
      let a := code a in
      String (table (Z.shiftr a 2)) (String (table (Z.lor (Z.shiftl (Z.land a 3) 4) 0)) (String pad (String pad "")))
  | String a (String b EmptyString) =>
      let a := code a in let b := code b in
      String (table (Z.shiftr a 2))
        (String (table (Z.lor (Z.shiftl (Z.land a 3) 4) (Z.shiftr b 4)))
           (String (table (Z.lor (Z.shiftl (Z.land b 15) 2) 0)) (String pad "")))
  | String a (String b (String c r)) =>
      let a := code a in let b := code b in let c := code c in
      String (table (Z.shiftr a 2))
        (String (table (Z.lor (Z.shiftl (Z.land a 3) 4) (Z.shiftr b 4)))
           (String (table (Z.lor (Z.shiftl (Z.land b 15) 2) (Z.shiftr c 6)))
              (String (table (Z.land c 63)) (b64_standard_encode r))))
  end.

(** The same loop, by index. *)
Definition base64_standard (bytes : string) : string := b64_standard_encode bytes.

(** The number of trailing [=]. *)
Fixpoint pad_run (value : string) (run : Z) : Z :=
  match value with EmptyString => run | String c r => pad_run r (if is_pad c then run + 1 else 0) end.

Definition pad_count (value : string) : Z := pad_run value 0.

(** The bytes of a group; a [u8] keeps the low eight bits of a shift. *)
Definition push_group (c d : ascii) (x y z w : Z) (rest : string) : string :=
  let third := if is_pad d then rest else String (byte_of (Z.lor (Z.shiftl z 6 mod 256) w)) rest in
  let second := if is_pad c then third
                else String (byte_of (Z.lor (Z.shiftl y 4 mod 256) (Z.shiftr z 2))) third in
  String (byte_of (Z.lor (Z.shiftl x 2 mod 256) (Z.shiftr y 4))) second.

(** A digit that may be padding. *)
Definition padded (c : ascii) : option Z := if is_pad c then Some 0 else b64_value c.

Fixpoint b64_decode_groups (value : string) : result string string :=
  match value with
  | String a (String b (String c (String d r))) =>
      let? x := ok_or (b64_value a) "invalid base64" in
      let? y := ok_or (b64_value b) "invalid base64" in
      let? z := ok_or (padded c) "invalid base64" in
      let? w := ok_or (padded d) "invalid base64" in
      guard_err ((is_pad d || is_pad c) && (negb (is_pad d) || negb (is_empty r))) "invalid base64" ;?
      let? rest := b64_decode_groups r in
      Ok (push_group c d x y z w rest)
  | _ => Ok ""
  end.

Definition b64_standard_decode (value : string) : result string string :=
  guard_err (is_empty value || negb (str_len value mod 4 =? 0)) "invalid base64" ;?
  guard_err ((2 <? pad_count value) || str_any is_pad (take (str_len value - pad_count value) value))
    "invalid base64" ;?
  b64_decode_groups value.

Fixpoint strict_groups (value : string) : option string :=
  match value with
  | String a (String b (String c (String d r))) =>
      x ← b64_value a; y ← b64_value b; z ← padded c; w ← padded d;
      let last := is_empty r in
      if (negb last && is_pad c) || (negb last && is_pad d) || (is_pad c && negb (is_pad d))
         || (is_pad c && negb (Z.land y 15 =? 0)) || (is_pad d && negb (is_pad c) && negb (Z.land z 3 =? 0))
      then None
      else rest ← strict_groups r; Some (push_group c d x y z w rest)
  | _ => Some ""
  end.

Definition base64_decode_strict (value : string) : option string :=
  if is_empty value || negb (str_len value mod 4 =? 0) then None
  else if (2 <? pad_count value) || str_any is_pad (take (str_len value - pad_count value) value) then None
  else strict_groups value.

(** ** Bits *)

Lemma lor_pack x y n : 0 <= n -> 0 <= y < 2 ^ n -> Z.lor (x * 2 ^ n) y = x * 2 ^ n + y.
Proof.
  intros Hn Hy. rewrite <- Z.shiftl_mul_pow2 by done. symmetry. apply Z.add_nocarry_lor.
  apply Z.bits_inj'. intros i Hi. rewrite Z.land_spec, Z.bits_0.
  destruct (Z.lt_ge_cases i n) as [L|G]; [by rewrite Z.shiftl_spec_low |].
  destruct (Z.eq_dec y 0) as [->|]; [by rewrite Z.bits_0, andb_false_r |].
  rewrite (Z.bits_above_log2 y i), andb_false_r; [done | lia |]. apply Z.log2_lt_pow2; [lia |].
  eapply Z.lt_le_trans; [apply Hy | apply Z.pow_le_mono_r; lia].
Qed.

(** The expressions of the sources in arithmetic. *)
Lemma hi_bits a k : 0 <= k -> Z.shiftr a k = a / 2 ^ k.
Proof. apply Z.shiftr_div_pow2. Qed.

Lemma lo_bits a k : 0 <= k -> Z.land a (Z.ones k) = a mod 2 ^ k.
Proof. apply Z.land_ones. Qed.

Lemma second_digit a b : 0 <= b < 256 -> Z.lor (Z.shiftl (Z.land a 3) 4) (Z.shiftr b 4) = a mod 4 * 16 + b / 16.
Proof.
  intros H. change 3 with (Z.ones 2). rewrite lo_bits, Z.shiftl_mul_pow2, hi_bits by lia.
  apply (lor_pack _ _ 4); [lia |]. change (2 ^ 4) with 16. Z.div_mod_to_equations. lia.
Qed.

Lemma third_digit b c : 0 <= c < 256 -> Z.lor (Z.shiftl (Z.land b 15) 2) (Z.shiftr c 6) = b mod 16 * 4 + c / 64.
Proof.
  intros H. change 15 with (Z.ones 4). rewrite lo_bits, Z.shiftl_mul_pow2, hi_bits by lia.
  apply (lor_pack _ _ 2); [lia |]. change (2 ^ 6) with 64. change (2 ^ 2) with 4. Z.div_mod_to_equations. lia.
Qed.

Lemma first_byte x y : 0 <= x < 64 -> 0 <= y < 64 -> Z.lor (Z.shiftl x 2 mod 256) (Z.shiftr y 4) = x * 4 + y / 16.
Proof.
  intros H H'. rewrite Z.shiftl_mul_pow2, hi_bits by lia. change (2 ^ 2) with 4. change (2 ^ 4) with 16.
  rewrite Z.mod_small by lia. apply (lor_pack _ _ 2); [lia |]. change (2 ^ 2) with 4. Z.div_mod_to_equations. lia.
Qed.

Lemma second_byte y z : 0 <= y < 64 -> 0 <= z < 64 -> Z.lor (Z.shiftl y 4 mod 256) (Z.shiftr z 2) = y mod 16 * 16 + z / 4.
Proof.
  intros H H'. rewrite Z.shiftl_mul_pow2, hi_bits by lia. change (2 ^ 2) with 4. change (2 ^ 4) with 16.
  replace (y * 16 mod 256) with (y mod 16 * 2 ^ 4) by (change (2 ^ 4) with 16; Z.div_mod_to_equations; lia).
  apply lor_pack; [lia |]. change (2 ^ 4) with 16. Z.div_mod_to_equations. lia.
Qed.

Lemma third_byte z w : 0 <= z < 64 -> 0 <= w < 64 -> Z.lor (Z.shiftl z 6 mod 256) w = z mod 4 * 64 + w.
Proof.
  intros H H'. rewrite Z.shiftl_mul_pow2 by lia. change (2 ^ 6) with 64.
  replace (z * 64 mod 256) with (z mod 4 * 2 ^ 6) by (change (2 ^ 6) with 64; Z.div_mod_to_equations; lia).
  by apply lor_pack.
Qed.

Ltac powers := change (64 ^ (3 - 0)) with 262144; change (64 ^ (3 - 1)) with 4096; change (64 ^ (3 - 2)) with 64;
  change (64 ^ (3 - 3)) with 1.

(** ** Encoding *)

Lemma encode_btoa s : b64_standard_encode s = btoa s.
Proof.
  induction s as [|a|a b|a b c r IH] using string_ind3; [done | | |]; cbn [b64_standard_encode btoa]; unfold four, table.
  - pose proof (code_range a). change 0 with (Z.shiftr 0 4) at 1. rewrite second_digit, hi_bits by lia. powers.
    repeat (f_equal; try (change (2 ^ 2) with 4; Z.div_mod_to_equations; lia)).
  - pose proof (code_range a). pose proof (code_range b). rewrite second_digit by lia.
    change 0 with (Z.shiftr 0 6) at 1. rewrite third_digit, hi_bits by lia. powers.
    repeat (f_equal; try (change (2 ^ 2) with 4; Z.div_mod_to_equations; lia)).
  - pose proof (code_range a). pose proof (code_range b). pose proof (code_range c).
    rewrite second_digit, third_digit, hi_bits, IH by lia. change 63 with (Z.ones 6). rewrite lo_bits by lia. powers.
    repeat (f_equal; try (change (2 ^ 2) with 4; change (2 ^ 6) with 64; Z.div_mod_to_equations; lia)).
Qed.

(** ** Decoding *)

Lemma digit_not_pad c n : b64_value c = Some n -> is_pad c = false.
Proof. unfold is_pad. destruct (Ascii.eqb_spec c pad) as [->|]; [|done]. by rewrite b64_value_pad. Qed.

Lemma four_not_pad n k : is_pad (four n k) = false.
Proof. eapply digit_not_pad, four_value. Qed.

Definition pad_tail (s : string) : string := match str_len s mod 3 with 1 => "==" | 2 => "=" | _ => "" end.

(** The digits of a text and its padding. *)
Lemma btoa_parts s :
  exists body, btoa s = body +:+ pad_tail s /\ str_all (fun c => negb (is_pad c)) body = true
               /\ (s <> "" -> body <> "").
Proof.
  induction s as [|a|a b|a b c r (body & E & A & _)] using string_ind3.
  - by exists "".
  - eexists (String _ (String _ "")). split; [done |]. cbn [str_all]. by rewrite !four_not_pad.
  - eexists (String _ (String _ (String _ ""))). split; [done |]. cbn [str_all]. by rewrite !four_not_pad.
  - cbn [btoa]. rewrite E. eexists (String _ (String _ (String _ (String _ body)))). split.
    + cbn. unfold pad_tail. rewrite !str_len_cons.
      replace (1 + (1 + (1 + str_len r))) with (str_len r + 1 * 3) by lia. by rewrite Z.mod_add.
    + cbn [str_all]. by rewrite !four_not_pad.
Qed.

Lemma pad_run_body body tail run :
  str_all (fun c => negb (is_pad c)) body = true -> body <> "" -> pad_run (body +:+ tail) run = pad_run tail 0.
Proof.
  revert run. induction body as [|c body IH]; intros run A N; [done |]. cbn in *. bool_prop.
  rewrite H. destruct body; [done |]. by apply IH.
Qed.

Lemma pad_tail_run s : pad_run (pad_tail s) 0 = str_len (pad_tail s) /\ str_len (pad_tail s) <= 2.
Proof. unfold pad_tail. by repeat case_match. Qed.

(** Both decoders let the padding of an encoder pass. *)
Lemma btoa_padding s :
  s <> "" ->
  is_empty (btoa s) = false /\ str_len (btoa s) mod 4 = 0 /\ pad_count (btoa s) <= 2
  /\ str_any is_pad (take (str_len (btoa s) - pad_count (btoa s)) (btoa s)) = false.
Proof.
  intros N. destruct (btoa_parts s) as (body & E & A & B). specialize (B N).
  split; [destruct s as [|? [|? [|? ?]]]; done |].
  split; [rewrite btoa_len; apply Z.mod_mul; done |]. destruct (pad_tail_run s) as [Pr Pl].
  unfold pad_count. rewrite E, pad_run_body, Pr, str_len_app by done. split; [done |].
  replace (str_len body + str_len (pad_tail s) - str_len (pad_tail s)) with (str_len body) by lia.
  rewrite take_app. clear -A. induction body as [|c body IH]; [done |]. cbn in *. bool_prop.
  unfold str_any in *. cbn. rewrite H. cbn. by rewrite H0.
Qed.

Lemma padded_four n k : padded (four n k) = Some ((n / 64 ^ (3 - k)) mod 64).
Proof. unfold padded. by rewrite four_not_pad, four_value. Qed.

Lemma mod64 n : 0 <= n mod 64 < 64.
Proof. by apply Z.mod_pos_bound. Qed.

(** The bytes of a group come back from its digits. *)
Lemma group_bytes a b c rest :
  let n := code a * 65536 + code b * 256 + code c in
  let x k := (n / 64 ^ (3 - k)) mod 64 in
  push_group (four n 2) (four n 3) (x 0) (x 1) (x 2) (x 3) rest = String a (String b (String c rest)).
Proof.
  intros n x. unfold push_group. rewrite !four_not_pad. unfold x.
  rewrite first_byte, second_byte, third_byte by apply mod64.
  pose proof (code_range a). pose proof (code_range b). pose proof (code_range c). unfold n. powers.
  f_equal; [|f_equal; [|f_equal]]; apply byte_eq; Z.div_mod_to_equations; lia.
Qed.

Lemma decode_groups_btoa s : b64_decode_groups (btoa s) = Ok s.
Proof.
  induction s as [|a|a b|a b c r IH] using string_ind3; [done | | |]; cbn [btoa b64_decode_groups];
    rewrite ?four_value, ?padded_four; cbn [ok_or rbind]; rewrite ?four_not_pad.
  - unfold push_group. cbn. rewrite first_byte by apply mod64. pose proof (code_range a). powers.
    do 2 f_equal. apply byte_eq. Z.div_mod_to_equations. lia.
  - unfold push_group. rewrite !four_not_pad. cbn -[Z.lor Z.shiftl Z.shiftr Z.modulo Z.div Z.pow].
    rewrite first_byte, second_byte by apply mod64. pose proof (code_range a). pose proof (code_range b). powers.
    do 2 f_equal; [|f_equal]; apply byte_eq; Z.div_mod_to_equations; lia.
  - cbn [orb andb guard_err rbind]. rewrite IH. cbn [rbind]. f_equal. apply group_bytes.
Qed.

(** The agent's decoder inverts its encoder. *)
Lemma standard_decode_encode s : s <> "" -> b64_standard_decode (b64_standard_encode s) = Ok s.
Proof.
  intros N. rewrite encode_btoa. destruct (btoa_padding s N) as (E & L & P & A).
  unfold b64_standard_decode. rewrite E, L, A, (proj2 (Z.ltb_ge _ _)) by done. cbn [orb negb Z.eqb guard_err rbind].
  apply decode_groups_btoa.
Qed.

(** ** The strict decoder *)

Lemma low_two z : Z.land z 3 = z mod 4.
Proof. apply (lo_bits z 2). done. Qed.

Lemma low_four z : Z.land z 15 = z mod 16.
Proof. apply (lo_bits z 4). done. Qed.

Lemma strict_groups_btoa s : strict_groups (btoa s) = Some s.
Proof.
  induction s as [|a|a b|a b c r IH] using string_ind3; [done | | |]; cbn [btoa strict_groups];
    rewrite ?four_value, ?padded_four; cbn [mbind option_bind]; rewrite ?four_not_pad.
  - pose proof (code_range a). change (padded pad) with (Some 0). cbn [mbind option_bind].
    rewrite low_four. cbn -[Z.modulo Z.div Z.pow push_group]. powers.
    rewrite (proj2 (Z.eqb_eq _ _)) by (Z.div_mod_to_equations; lia). cbn [negb].
    unfold push_group. cbn -[Z.modulo Z.div Z.pow Z.lor Z.shiftl Z.shiftr]. rewrite first_byte by apply mod64.
    do 2 f_equal. apply byte_eq. Z.div_mod_to_equations. lia.
  - pose proof (code_range a). pose proof (code_range b). change (padded pad) with (Some 0). cbn [mbind option_bind].
    rewrite low_two. cbn -[Z.modulo Z.div Z.pow push_group]. powers.
    rewrite (proj2 (Z.eqb_eq _ _)) by (Z.div_mod_to_equations; lia). cbn [negb].
    unfold push_group. rewrite !four_not_pad. cbn -[Z.modulo Z.div Z.pow Z.lor Z.shiftl Z.shiftr].
    rewrite first_byte, second_byte by apply mod64.
    do 2 f_equal; [|f_equal]; apply byte_eq; Z.div_mod_to_equations; lia.
  - rewrite !andb_false_r. cbn [orb andb]. rewrite IH. cbn [mbind option_bind]. f_equal. apply group_bytes.
Qed.

Lemma value_digit c n : b64_value c = Some n -> c = b64_digit n /\ 0 <= n < 64.
Proof.
  unfold b64_value, b64_digit, in_range. intros H.
  assert (forall z, z = code c -> c = byte_of z) as K by (intros z ->; symmetry; apply byte_of_code).
  repeat case_match; bool_prop; simplify_eq; split; try lia; apply K; repeat case_match; bool_prop; lia.
Qed.

(** A group of digits is the group its bytes encode to. *)
Lemma digits_back x y z w :
  0 <= x < 64 -> 0 <= y < 64 -> 0 <= z < 64 -> 0 <= w < 64 ->
  let n := (x * 4 + y / 16) * 65536 + (y mod 16 * 16 + z / 4) * 256 + (z mod 4 * 64 + w) in
  four n 0 = b64_digit x /\ four n 1 = b64_digit y /\ four n 2 = b64_digit z /\ four n 3 = b64_digit w.
Proof.
  intros Hx Hy Hz Hw n. unfold four, n. powers.
  split_and!; f_equal; Z.div_mod_to_equations; lia.
Qed.

Lemma mod_four_tail (n : Z) : (1 + (1 + (1 + (1 + n)))) mod 4 = n mod 4.
Proof. replace (1 + (1 + (1 + (1 + n)))) with (n + 1 * 4) by lia. by rewrite Z.mod_add. Qed.

Lemma pad_is c : is_pad c = true -> c = pad.
Proof. apply Ascii.eqb_eq. Qed.

Lemma strict_groups_inv k v b :
  (String.length v <= k)%nat -> str_len v mod 4 = 0 -> strict_groups v = Some b -> v = btoa b.
Proof.
  revert v b. induction k as [|k IH]; intros v b Hk L; [by destruct v; [intros [= <-] | cbn in Hk; lia] |].
  destruct v as [|a [|a1 [|a2 [|a3 r]]]]; [by intros [= <-] | by vm_compute in L.. |].
  rewrite !str_len_cons, mod_four_tail in L. cbn [strict_groups].
  destruct (b64_value a) as [x|] eqn:X; [|done]. destruct (b64_value a1) as [y|] eqn:Y; [|done].
  cbn [mbind option_bind]. unfold padded, push_group.
  apply value_digit in X as [-> Hx]. apply value_digit in Y as [-> Hy]. rewrite low_four.
  destruct (is_pad a2) eqn:P2; [apply pad_is in P2 as ->; cbn [mbind option_bind] |
    destruct (b64_value a2) as [z|] eqn:Vz; [|done]; apply value_digit in Vz as [-> Hz]; cbn [mbind option_bind]].
  - destruct (is_pad a3) eqn:P3; cbn [mbind option_bind]; [apply pad_is in P3 as -> |
      destruct (b64_value a3); [|done]; cbn [mbind option_bind]; by rewrite !orb_true_r].
    destruct r; [|done]. cbn [is_empty negb andb orb strict_groups mbind option_bind]. rewrite orb_false_r.
    destruct (Z.eqb_spec (y mod 16) 0) as [E|]; [|done]. cbn [negb]. intros [= <-]. rewrite first_byte by done.
    destruct (digits_back x y 0 0) as (D0 & D1 & _); [lia.. |]. rewrite E, Z.mul_0_l, !Z.add_0_r in D0, D1.
    cbn [btoa]. rewrite code_byte_of by (Z.div_mod_to_equations; lia). rewrite ?Z.add_0_r in *. by rewrite D0, D1.
  - rewrite low_two. destruct (is_pad a3) eqn:P3; cbn [mbind option_bind].
    + apply pad_is in P3 as ->. destruct r; [|done]. cbn [is_empty negb andb orb strict_groups mbind option_bind].
      destruct (Z.eqb_spec (z mod 4) 0) as [E|]; [|done]. cbn [negb]. intros [= <-].
      rewrite first_byte, second_byte by done.
      destruct (digits_back x y z 0) as (D0 & D1 & D2 & _); [lia.. |]. rewrite E in D0, D1, D2. cbn [btoa].
      rewrite !code_byte_of by (Z.div_mod_to_equations; lia). rewrite ?Z.mul_0_l, ?Z.add_0_r in *. by rewrite D0, D1, D2.
    + destruct (b64_value a3) as [w|] eqn:Vw; [|done]. apply value_digit in Vw as [-> Hw]. cbn [mbind option_bind].
      rewrite !andb_false_r. cbn [orb andb].
      destruct (strict_groups r) as [rest|] eqn:R; [|done]. cbn [mbind option_bind]. intros [= <-].
      rewrite (IH r rest) by (cbn in Hk; lia || done). rewrite first_byte, second_byte, third_byte by done. cbn [btoa].
      rewrite !code_byte_of by (Z.div_mod_to_equations; lia).
      destruct (digits_back x y z w) as (-> & -> & -> & ->); done.
Qed.

(** The strict decoder accepts exactly the texts of the encoder. *)
Lemma strict_decode_iff v b : base64_decode_strict v = Some b <-> v = base64_standard b /\ b <> "".
Proof.
  unfold base64_standard. rewrite encode_btoa. unfold base64_decode_strict. split.
  - destruct (is_empty v) eqn:E; [done |]. cbn [orb]. destruct (Z.eqb_spec (str_len v mod 4) 0) as [L|]; [|done].
    cbn [negb]. destruct (_ || _); [done |]. intros H. pose proof (strict_groups_inv _ v b (le_n _) L H) as ->.
    split; [done |]. by intros ->.
  - intros [-> N]. destruct (btoa_padding b N) as (E & L & P & A).
    rewrite E, L, A, (proj2 (Z.ltb_ge _ _)) by done. apply strict_groups_btoa.
Qed.
