(* ===== verification/TransferRoom.v ===== *)
(** * The transfer relay

    [packages/control-plane/src/transfer-room.ts]: the router that passes encrypted
    chunks from the source to the destination one at a time ([TransferRoomRouter]), and
    the durable object around it that admits peers with single-use tickets, keeps the
    acknowledged cursor in storage and survives restarts ([TransferRoom]).

    Handlers are functions of the room's state, the clock and the outcome of each
    storage write.  The room and its router may hold one and the same metadata object;
    [rm_shared] says so, and writes then show on both sides. *)

From stdpp Require Import base list strings gmap.
From Stdlib Require Import ZArith Lia Ascii.
From S2P Require Import Prelude RustStr RustBytes Transfer TransferCrypto Js Base64.

Open Scope Z_scope.

Definition TRANSFER_PROTOCOL : string := "ownmesh.transfer/1.0".
Definition MAX_TRANSFER_CHUNK_BYTES : Z := 64 * 1024.
Definition MAX_TRANSFER_FRAME_BYTES : Z := 96 * 1024.
Definition AEAD_TAG_BYTES : Z := 16.
Definition TICKET_MAX_MS : Z := 60000.
Definition TRANSFER_MAX_TTL_MS : Z := 24 * 60 * 60000.
Definition MAX_TICKET_REPLAYS : Z := 128.

Inductive TransferState : Type :=
| RoomPrepared | RoomActive | RoomCompleted | RoomCancelled | RoomExpired.

#[export] Instance TransferState_eq_dec : EqDecision TransferState.
Proof. solve_decision. Defined.

Record TransferMetadata : Type := {
  md_transfer_id : string;
  md_tenant_id : string;
  md_source_device_id : string;
  md_destination_device_id : string;
  md_source_workspace_id : string;
  md_destination_workspace_id : string;
  md_plan_sha256 : string;
  md_transfer_expires_at : Z;
  md_max_bytes : Z;
  md_epoch : Z;
  md_fence : Z;
  md_state : TransferState;
  md_contiguous_ack_sequence : option Z;
  md_contiguous_ack_offset : Z
}.

#[export] Instance TransferMetadata_eta : Eta TransferMetadata := fun m =>
  {| md_transfer_id := md_transfer_id m; md_tenant_id := md_tenant_id m;
     md_source_device_id := md_source_device_id m; md_destination_device_id := md_destination_device_id m;
     md_source_workspace_id := md_source_workspace_id m;
     md_destination_workspace_id := md_destination_workspace_id m; md_plan_sha256 := md_plan_sha256 m;
     md_transfer_expires_at := md_transfer_expires_at m; md_max_bytes := md_max_bytes m;
     md_epoch := md_epoch m; md_fence := md_fence m; md_state := md_state m;
     md_contiguous_ack_sequence := md_contiguous_ack_sequence m;
     md_contiguous_ack_offset := md_contiguous_ack_offset m |}.

Record TransferPeer : Type := {
  pe_id : string;
  pe_role : TransferRole;
  pe_device_id : string
}.

Inductive TransferAttachResult : Type := AttachNew | AttachExisting | AttachReject.

Record InFlight : Type := {
  if_sequence : Z;
  if_offset : Z;
  if_length : Z
}.

Record Router : Type := {
  ro_source : option TransferPeer;
  ro_destination : option TransferPeer;
  ro_in_flight : option InFlight;
  ro_metadata : TransferMetadata;
  ro_broken : bool
}.

#[export] Instance Router_eta : Eta Router := fun r =>
  {| ro_source := ro_source r; ro_destination := ro_destination r; ro_in_flight := ro_in_flight r;
     ro_metadata := ro_metadata r; ro_broken := ro_broken r |}.

(** What the relay sends, and to which peer id. *)
Inductive RoomMessage : Type :=
| MsgReady (epoch fence next_sequence next_offset : Z)
| MsgRaw (raw : string)
| MsgAck (epoch fence sequence next_offset : Z)
| MsgFinishAck (epoch fence : Z)
| MsgCancel (epoch fence : Z)
| MsgError (code : string).

Definition Outbox : Type := list (string * RoomMessage).

(** ** Text checks *)

Definition js_id (value : option js) : bool :=
  match value with
  | Some (JsString s) => (0 <? utf16_len s) && (utf16_len s <=? 256) && negb (str_any (fun c => code c <=? 31) s)
  | _ => false
  end.

Definition js_is_hash (value : option js) : bool :=
  match value with Some (JsString s) => js_hash s | _ => false end.

Definition is_b64 (c : ascii) : bool := match b64_value c with Some _ => true | None => false end.

(** The shape of the pattern in [b64]: groups of four, the last one padded or not. *)
Fixpoint b64_groups (s : string) : bool :=
  match s with
  | EmptyString => true
  | String a (String b (String c (String d r))) =>
      (is_b64 a && is_b64 b && is_b64 c && is_b64 d && b64_groups r)
      || (is_empty r && is_b64 a && is_b64 b && (is_pad c && is_pad d || is_b64 c && is_pad d))
  | _ => false
  end.

Definition js_b64 (value : option js) : bool :=
  match value with
  | Some (JsString s) => (0 <? str_len s) && (str_len s <=? MAX_TRANSFER_FRAME_BYTES) && b64_groups s
  | _ => false
  end.

Definition decodedBase64Bytes (value : string) : option Z :=
  match atob value with
  | Some decoded => if String.eqb (btoa decoded) value then Some (str_len decoded) else None
  | None => None
  end.

(** ** Router *)

Record TransferTerminalControl : Type := {
  cl_v : Z;
  cl_transfer_id : string;
  cl_plan_sha256 : string;
  cl_epoch : Z;
  cl_fence : Z;
  cl_artifact_sha256 : string
}.

(** [JSON.parse], [Number] on text, HMAC-SHA-256, and the JSON text of tickets and
    terminal controls. *)
Class WorkerHost : Type := {
  JSON_parse : string -> option js;
  string_to_number : string -> option Z;
  hmac : string -> string -> string;
  ticket_json : Ticket -> string;
  ticket_parse : string -> option Ticket;
  ticket_json_parse t : ticket_parse (ticket_json t) = Some t;
  control_json : TransferTerminalControl -> string;
  control_parse : string -> option TransferTerminalControl;
  control_json_parse c : control_parse (control_json c) = Some c
}.

Section router.
Context {WH : WorkerHost}.

Definition new_router (m : TransferMetadata) : Router :=
  {| ro_source := None; ro_destination := None; ro_in_flight := None; ro_metadata := m; ro_broken := false |}.

Definition peer_of (role : TransferRole) (r : Router) : option TransferPeer :=
  match role with Source => ro_source r | Destination => ro_destination r end.

Definition set_peer (role : TransferRole) (p : option TransferPeer) (r : Router) : Router :=
  match role with Source => r <| ro_source := p |> | Destination => r <| ro_destination := p |> end.

(** [this.peers.get(role)?.send(message)]. *)
Definition send_to (role : TransferRole) (m : RoomMessage) (r : Router) : Outbox :=
  match peer_of role r with Some p => [(pe_id p, m)] | None => [] end.

Definition next_sequence (m : TransferMetadata) : Z :=
  match md_contiguous_ack_sequence m with None => 0 | Some s => s + 1 end.

Definition sendReady (r : Router) : Outbox :=
  let m := ro_metadata r in
  let ready := MsgReady (md_epoch m) (md_fence m) (next_sequence m) (md_contiguous_ack_offset m) in
  send_to Source ready r ++ send_to Destination ready r.

Definition set_state (st : TransferState) (r : Router) : Router :=
  r <| ro_metadata := ro_metadata r <| md_state := st |> |>.

(** [expired()] records what it finds. *)
Definition expired (now : Z) (r : Router) : bool * Router :=
  if now <? md_transfer_expires_at (ro_metadata r) then (false, r) else (true, set_state RoomExpired r).

Definition attach (now : Z) (peer : TransferPeer) (r : Router) : TransferAttachResult * Router * Outbox :=
  let m := ro_metadata r in
  let expected := match pe_role peer with
                  | Source => md_source_device_id m
                  | Destination => md_destination_device_id m
                  end in
  if ro_broken r || negb (String.eqb (pe_device_id peer) expected)
     || bool_decide (md_state m = RoomCancelled) || bool_decide (md_state m = RoomCompleted)
  then (AttachReject, r, [])
  else match expired now r with
       | (true, r) => (AttachReject, r, [])
       | (false, r) =>
           match peer_of (pe_role peer) r with
           | Some existing =>
               if negb (String.eqb (pe_id existing) (pe_id peer)) then (AttachReject, r, [])
               else (AttachExisting, r, [])
           | None =>
               let r := set_peer (pe_role peer) (Some peer) r in
               (AttachNew, r,
                match ro_source r, ro_destination r with Some _, Some _ => sendReady r | _, _ => [] end)
           end
       end.

Definition detach (role : TransferRole) (peer_id : string) (r : Router) : Router :=
  let r := match peer_of role r with
           | Some p => if String.eqb (pe_id p) peer_id then set_peer role None r else r
           | None => r
           end in
  r <| ro_in_flight := None |>.

(** The outcome of a frame: the error if any, the router, what is sent, and the
    metadata handed to [persist] if it was called. *)
Record Handled : Type := {
  hd_error : option string;
  hd_router : Router;
  hd_out : Outbox;
  hd_put : option TransferMetadata
}.

Definition refuse (error : string) (r : Router) : Handled :=
  {| hd_error := Some error; hd_router := r; hd_out := []; hd_put := None |}.

(** The [catch] branches: the metadata goes back and the peers are dropped. *)
Definition persist_failed (before : TransferMetadata) (put : TransferMetadata) (r : Router) : Handled :=
  {| hd_error := Some "persist_failed";
     hd_router := r <| ro_metadata := before |> <| ro_broken := true |>
                    <| ro_source := None |> <| ro_destination := None |>;
     hd_out := []; hd_put := Some put |}.

Definition bound (frame : list (string * js)) (m : TransferMetadata) : bool :=
  js_is_number (assoc "epoch" frame) (md_epoch m) && js_is_number (assoc "fence" frame) (md_fence m)
  && js_is_string (assoc "plan_sha256" frame) (md_plan_sha256 m).

Definition num (frame : list (string * js)) (key : string) : option Z :=
  js_number string_to_number (assoc key frame).

Definition base_keys : list string :=
  ["protocol"; "type"; "transfer_id"; "epoch"; "fence"; "plan_sha256"].

Definition chunk (peer : TransferPeer) (frame : list (string * js)) (raw : string) (r : Router) : Handled :=
  let m := ro_metadata r in
  if negb (bool_decide (pe_role peer = Source)) || bool_decide (md_state m = RoomCancelled)
     || negb (bound frame m)
  then refuse "binding_mismatch" r
  else if negb (keys_within frame (base_keys ++ ["sequence"; "offset"; "length"; "ciphertext_base64"; "chunk_sha256"]))
          || negb (js_is_hash (assoc "chunk_sha256" frame)) || negb (js_b64 (assoc "ciphertext_base64" frame))
  then refuse "bad_chunk" r
  else
    let ciphertext := match assoc "ciphertext_base64" frame with Some (JsString s) => s | _ => "" end in
    match num frame "sequence", num frame "offset", num frame "length", decodedBase64Bytes ciphertext with
    | Some sequence, Some offset, Some length, Some ciphertext_bytes =>
        if negb (sequence =? next_sequence m) || negb (offset =? md_contiguous_ack_offset m)
           || (length <? 1) || (MAX_TRANSFER_CHUNK_BYTES <? length) || (md_max_bytes m <? offset + length)
           || negb (ciphertext_bytes =? length + AEAD_TAG_BYTES)
           || match ro_in_flight r with Some _ => true | None => false end
        then refuse "non_contiguous_or_busy" r
        else match ro_destination r with
             | None => refuse "destination_offline" r
             | Some destination =>
                 {| hd_error := None;
                    hd_router := (set_state RoomActive r)
                      <| ro_in_flight := Some {| if_sequence := sequence; if_offset := offset; if_length := length |} |>;
                    hd_out := [(pe_id destination, MsgRaw raw)]; hd_put := None |}
             end
    | _, _, _, _ => refuse "non_contiguous_or_busy" r
    end.

Definition ack (persist_ok : bool) (peer : TransferPeer) (frame : list (string * js)) (r : Router) : Handled :=
  let m := ro_metadata r in
  match ro_in_flight r with
  | None => refuse "bad_ack" r
  | Some f =>
      if negb (bool_decide (pe_role peer = Destination)) || negb (bound frame m)
         || negb (keys_within frame (base_keys ++ ["sequence"; "next_offset"]))
      then refuse "bad_ack" r
      else match num frame "sequence", num frame "next_offset" with
           | Some sequence, Some next =>
               if negb (sequence =? if_sequence f) || negb (next =? if_offset f + if_length f)
               then refuse "ack_mismatch" r
               else
                 let m' := m <| md_contiguous_ack_sequence := Some sequence |>
                             <| md_contiguous_ack_offset := next |> in
                 let r := r <| ro_metadata := m' |> <| ro_in_flight := None |> in
                 if persist_ok
                 then {| hd_error := None; hd_router := r;
                         hd_out := send_to Source (MsgAck (md_epoch m') (md_fence m') sequence next) r;
                         hd_put := Some m' |}
                 else persist_failed m m' r
           | _, _ => refuse "ack_mismatch" r
           end
  end.

Definition in_flight (r : Router) : bool := match ro_in_flight r with Some _ => true | None => false end.

Definition finish (peer : TransferPeer) (frame : list (string * js)) (raw : string) (r : Router) : Handled :=
  let m := ro_metadata r in
  if negb (bool_decide (pe_role peer = Source)) || negb (bound frame m) || in_flight r
     || negb (keys_within frame base_keys)
  then refuse "bad_finish" r
  else if negb (md_contiguous_ack_offset m =? md_max_bytes m) then refuse "finish_before_complete" r
  else match ro_destination r with
       | None => refuse "destination_offline" r
       | Some destination =>
           {| hd_error := None; hd_router := r; hd_out := [(pe_id destination, MsgRaw raw)]; hd_put := None |}
       end.

Definition finishAck (persist_ok : bool) (peer : TransferPeer) (frame : list (string * js)) (r : Router) : Handled :=
  let m := ro_metadata r in
  if negb (bool_decide (pe_role peer = Destination)) || negb (bound frame m) || in_flight r
     || negb (keys_within frame base_keys)
  then refuse "bad_finish_ack" r
  else if negb (md_contiguous_ack_offset m =? md_max_bytes m) then refuse "finish_before_complete" r
  else
    let r := set_state RoomCompleted r in
    let m' := ro_metadata r in
    if persist_ok
    then {| hd_error := None; hd_router := r;
            hd_out := send_to Source (MsgFinishAck (md_epoch m') (md_fence m')) r; hd_put := Some m' |}
    else persist_failed m m' r.

Definition cancel_room (persist_ok : bool) (peer : TransferPeer) (frame : list (string * js)) (r : Router) : Handled :=
  let m := ro_metadata r in
  if negb (bound frame m) || negb (keys_within frame base_keys) then refuse "binding_mismatch" r
  else
    let r := (set_state RoomCancelled r) <| ro_in_flight := None |> in
    let m' := ro_metadata r in
    if persist_ok
    then {| hd_error := None; hd_router := r;
            hd_out := send_to (match pe_role peer with Source => Destination | Destination => Source end)
                        (MsgCancel (md_epoch m') (md_fence m')) r;
            hd_put := Some m' |}
    else persist_failed m m' r.

Definition handle (now : Z) (persist_ok : bool) (peer : TransferPeer) (raw : string) (r : Router) : Handled :=
  if MAX_TRANSFER_FRAME_BYTES <? str_len raw then refuse "frame_too_large" r
  else if ro_broken r
          || negb match peer_of (pe_role peer) r with Some p => String.eqb (pe_id p) (pe_id peer) | None => false end
          || bool_decide (md_state (ro_metadata r) = RoomCompleted)
  then refuse "peer_unavailable" r
  else match expired now r with
       | (true, r) => refuse "peer_unavailable" r
       | (false, r) =>
           match JSON_parse raw with
           | Some (JsObject frame) =>
               if negb (js_is_string (assoc "protocol" frame) TRANSFER_PROTOCOL)
                  || negb (js_is_string (assoc "transfer_id" frame) (md_transfer_id (ro_metadata r)))
                  || negb (js_id (assoc "type" frame))
               then refuse "bad_frame" r
               else if js_is_string (assoc "type" frame) "chunk" then chunk peer frame raw r
               else if js_is_string (assoc "type" frame) "ack" then ack persist_ok peer frame r
               else if js_is_string (assoc "type" frame) "finish" then finish peer frame raw r
               else if js_is_string (assoc "type" frame) "finish_ack" then finishAck persist_ok peer frame r
               else if js_is_string (assoc "type" frame) "cancel" then cancel_room persist_ok peer frame r
               else refuse "unsupported_type" r
           | _ => refuse "bad_frame" r
           end
       end.
End router.

(** ** Tickets *)

Section tickets.
Context {DG : Digests} {WH : WorkerHost}.

Definition ticketReplayKey (transfer_id jti : string) : string :=
  plain_hex (sha256 (sized "ownmesh-transfer-ticket-replay-v1" +:+ sized transfer_id +:+ sized jti)).

(** [replaceAll] of the two characters that differ, and the padding. *)
Definition base64Url (bytes : string) : string :=
  str_map (fun c => if Ascii.eqb c "+" then "-"%char else if Ascii.eqb c "/" then "_"%char else c)
    (trim_pad (btoa bytes)).

Definition url_char (c : ascii) : bool :=
  is_ascii_alphanumeric c || Ascii.eqb c "_" || Ascii.eqb c "-".

Definition fromBase64Url (value : string) : option string :=
  if is_empty value || negb (str_all url_char value) then None
  else atob (str_map (fun c => if Ascii.eqb c "-" then "+"%char else if Ascii.eqb c "_" then "/"%char else c) value
             +:+ pads ((4 - str_len value mod 4) mod 4)).

Definition claims_id (s : string) : bool := js_id (Some (JsString s)).

(** The condition of [issueTransferTicket], negated. *)
Definition ticket_claims_ok (now : Z) (c : Ticket) : bool :=
  (tk_v c =? 1) && claims_id (tk_jti c) && claims_id (tk_session_nonce c) && claims_id (tk_transfer_id c)
  && claims_id (tk_tenant_id c) && claims_id (tk_principal_id c) && claims_id (tk_device_id c)
  && claims_id (tk_source_device_id c) && claims_id (tk_destination_device_id c)
  && claims_id (tk_source_workspace_id c) && claims_id (tk_destination_workspace_id c)
  && js_hash (tk_plan_sha256 c) && js_hex (tk_source_device_public_key c) 32
  && js_hex (tk_destination_device_public_key c) 32 && js_hex (tk_source_ephemeral_public_key c) 32
  && js_hex (tk_destination_ephemeral_public_key c) 32 && js_hex (tk_source_ephemeral_signature c) 64
  && js_hex (tk_destination_ephemeral_signature c) 64
  && (String.eqb (tk_role c) "source" || String.eqb (tk_role c) "destination")
  && String.eqb (tk_device_id c)
       (if String.eqb (tk_role c) "source" then tk_source_device_id c else tk_destination_device_id c)
  && is_safe_integer (tk_ticket_exp c) && (now <? tk_ticket_exp c) && (tk_ticket_exp c <=? now + TICKET_MAX_MS)
  && is_safe_integer (tk_transfer_expires_at c) && (now <? tk_transfer_expires_at c)
  && (tk_ticket_exp c <=? tk_transfer_expires_at c)
  && (tk_transfer_expires_at c <=? now + TRANSFER_MAX_TTL_MS)
  && is_safe_integer (tk_epoch c) && (1 <=? tk_epoch c) && is_safe_integer (tk_fence c) && (1 <=? tk_fence c)
  && is_safe_integer (tk_max_bytes c) && (0 <=? tk_max_bytes c).

Definition issueTransferTicket (secret : string) (now : Z) (claims : Ticket) : option string :=
  if is_empty secret || negb (ticket_claims_ok now claims) then None
  else let body := base64Url (ticket_json claims) in
       Some (body +:+ "." +:+ base64Url (hmac secret body)).

Definition verifyTransferTicket (secret : string) (now : Z) (raw : string) : option Ticket :=
  if is_empty secret || is_empty raw then None
  else match split_char "." raw with
       | body :: sig :: rest =>
           if is_empty body || is_empty sig || match rest with extra :: _ => negb (is_empty extra) | [] => false end
           then None
           else match fromBase64Url sig with
                | None => None
                | Some signature =>
                    if negb (String.eqb signature (hmac secret body)) then None
                    else match fromBase64Url body with
                         | None => None
                         | Some decoded =>
                             match ticket_parse decoded with
                             | None => None
                             | Some claims =>
                                 if negb (String.eqb decoded (ticket_json claims)) then None
                                 else if ticket_claims_ok now claims then Some claims else None
                             end
                         end
                end
       | _ => None
       end.

Definition control_ok (c : TransferTerminalControl) : bool :=
  (cl_v c =? 1) && claims_id (cl_transfer_id c) && js_hash (cl_plan_sha256 c) && js_hash (cl_artifact_sha256 c)
  && is_safe_integer (cl_epoch c) && (1 <=? cl_epoch c) && is_safe_integer (cl_fence c) && (1 <=? cl_fence c).

Definition issueTransferTerminalControl (secret : string) (control : TransferTerminalControl)
  : option (string * string) :=
  if is_empty secret || negb (control_ok control) then None
  else let body := control_json control in Some (body, base64Url (hmac secret body)).

Definition verifyTransferTerminalControl (secret body signature : string) : option TransferTerminalControl :=
  if is_empty secret || is_empty signature then None
  else match fromBase64Url signature with
       | None => None
       | Some raw_signature =>
           if negb (String.eqb raw_signature (hmac secret body)) then None
           else match control_parse body with
                | None => None
                | Some control =>
                    if negb (String.eqb body (control_json control)) then None
                    else if control_ok control then Some control else None
                end
       end.
End tickets.

(** ** The durable object *)

(** What a socket carries across hibernation; the room itself writes it. *)
Record TransferAttachment : Type := {
  at_peer_id : string;
  at_role : TransferRole;
  at_device_id : string;
  at_transfer_id : string;
  at_epoch : Z;
  at_fence : Z;
  at_plan_sha256 : string;
  at_transfer_expires_at : Z
}.

Definition validateTransferAttachment (a : TransferAttachment) (metadata : option TransferMetadata) (now : Z) : bool :=
  claims_id (at_peer_id a) && claims_id (at_device_id a) && claims_id (at_transfer_id a)
  && is_safe_integer (at_epoch a) && (1 <=? at_epoch a) && is_safe_integer (at_fence a) && (1 <=? at_fence a)
  && js_hash (at_plan_sha256 a) && is_safe_integer (at_transfer_expires_at a)
  && (now <? at_transfer_expires_at a)
  && match metadata with
     | None => false
     | Some m =>
         String.eqb (at_transfer_id a) (md_transfer_id m) && (at_epoch a =? md_epoch m)
         && (at_fence a =? md_fence m) && String.eqb (at_plan_sha256 a) (md_plan_sha256 m)
         && (at_transfer_expires_at a =? md_transfer_expires_at m)
         && String.eqb (at_device_id a)
              (match at_role a with Source => md_source_device_id m | Destination => md_destination_device_id m end)
     end.

(** Memory, open sockets and storage.  [rm_shared]: the room's metadata is the router's
    own object; [rm_metadata] is it otherwise.  [rm_pending]: an admission waiting for
    the digest of its replay key; the admission queue lets one through at a time.
    [rm_failed]: [restore] threw and every handler that waits for it does;
    a close does not wait. *)
Record Room : Type := {
  rm_metadata : option TransferMetadata;
  rm_router : option Router;
  rm_shared : bool;
  rm_consumed : gmap string Z;
  rm_pending : option Ticket;
  rm_failed : bool;
  rm_sockets : list TransferAttachment;
  rm_store_metadata : option TransferMetadata;
  rm_store_tickets : option (list (string * Z))
}.

#[export] Instance Room_eta : Eta Room := fun r =>
  {| rm_metadata := rm_metadata r; rm_router := rm_router r; rm_shared := rm_shared r;
     rm_consumed := rm_consumed r; rm_pending := rm_pending r; rm_failed := rm_failed r;
     rm_sockets := rm_sockets r; rm_store_metadata := rm_store_metadata r;
     rm_store_tickets := rm_store_tickets r |}.

Definition metadata (rm : Room) : option TransferMetadata :=
  if rm_shared rm then option_map ro_metadata (rm_router rm) else rm_metadata rm.

Definition attachment_peer (a : TransferAttachment) : TransferPeer :=
  {| pe_id := at_peer_id a; pe_role := at_role a; pe_device_id := at_device_id a |}.

Definition map_len {A} (m : gmap string A) : Z := Z.of_nat (size m).

Section room.
Context {DG : Digests} {WH : WorkerHost}.
Variable secret : string.

Definition replay_entry_ok (now : Z) (entry : string * Z) : bool :=
  js_hash (fst entry) && is_safe_integer (snd entry) && (1 <=? snd entry) && (snd entry <=? now + TICKET_MAX_MS).

Definition live_entries (now : Z) (entries : list (string * Z)) : gmap string Z :=
  foldl (fun m '(k, e) => if now <? e then <[k := e]> m else m) ∅ entries.

(** Reattaching every socket whose attachment is still exact. *)
Definition reattach (now : Z) (sockets : list TransferAttachment) (m : option TransferMetadata) (r : Router)
  : Router * Outbox :=
  foldl (fun '(r, out) a =>
    if validateTransferAttachment a m now
    then let '(_, r, o) := attach now (attachment_peer a) r in (r, out ++ o)
    else (r, out)) (r, []) sockets.

(** The constructor: memory is rebuilt from storage and from the sockets that are left. *)
Definition restore (now : Z) (rm : Room) : Room * Outbox :=
  let entries := match rm_store_tickets rm with Some l => l | None => [] end in
  let stored := rm_store_metadata rm in
  let fresh := rm <| rm_metadata := stored |> <| rm_router := None |> <| rm_shared := false |>
                  <| rm_consumed := ∅ |> <| rm_pending := None |> <| rm_failed := false |> in
  if (MAX_TICKET_REPLAYS <? zlen entries) || negb (forallb (replay_entry_ok now) entries)
  then (fresh <| rm_failed := true |>, [])
  else
    let fresh := fresh <| rm_consumed := live_entries now entries |> in
    match stored with
    | None => (fresh, [])
    | Some m =>
        let '(r, out) := reattach now (rm_sockets rm) (Some m) (new_router m) in
        (fresh <| rm_router := Some r |> <| rm_shared := true |>, out)
    end.

(** [persistMetadata] of a new object, when the write succeeds; when it fails nothing of
    the room changes. *)
Definition persistMetadata (m : TransferMetadata) (rm : Room) : Room :=
  rm <| rm_store_metadata := Some m |> <| rm_metadata := Some m |> <| rm_shared := false |>.

(** A router over the object the room holds. *)
Definition with_router (m : TransferMetadata) (rm : Room) : Room :=
  rm <| rm_metadata := Some m |> <| rm_router := Some (new_router m) |> <| rm_shared := true |>.

Definition metadataFor (c : Ticket) : TransferMetadata :=
  {| md_transfer_id := tk_transfer_id c; md_tenant_id := tk_tenant_id c;
     md_source_device_id := tk_source_device_id c; md_destination_device_id := tk_destination_device_id c;
     md_source_workspace_id := tk_source_workspace_id c;
     md_destination_workspace_id := tk_destination_workspace_id c; md_plan_sha256 := tk_plan_sha256 c;
     md_transfer_expires_at := tk_transfer_expires_at c; md_max_bytes := tk_max_bytes c;
     md_epoch := tk_epoch c; md_fence := tk_fence c; md_state := RoomPrepared;
     md_contiguous_ack_sequence := None; md_contiguous_ack_offset := 0 |}.

(** What a generation change must leave alone. *)
Definition same_plan (m : TransferMetadata) (c : Ticket) : bool :=
  String.eqb (md_transfer_id m) (tk_transfer_id c) && String.eqb (md_tenant_id m) (tk_tenant_id c)
  && String.eqb (md_source_device_id m) (tk_source_device_id c)
  && String.eqb (md_destination_device_id m) (tk_destination_device_id c)
  && String.eqb (md_source_workspace_id m) (tk_source_workspace_id c)
  && String.eqb (md_destination_workspace_id m) (tk_destination_workspace_id c)
  && String.eqb (md_plan_sha256 m) (tk_plan_sha256 c) && (md_max_bytes m =? tk_max_bytes c)
  && (md_transfer_expires_at m =? tk_transfer_expires_at c).

Definition sameMetadata (m : TransferMetadata) (c : Ticket) : bool :=
  same_plan m c && (md_epoch m =? tk_epoch c) && (md_fence m =? tk_fence c).

Definition canAdvanceMetadata (m : TransferMetadata) (c : Ticket) : bool :=
  same_plan m c && (tk_epoch c =? md_epoch m + 1) && (tk_fence c =? md_fence m + 1).

Definition ticket_role (c : Ticket) : TransferRole :=
  if String.eqb (tk_role c) "source" then Source else Destination.

(** The generation the ticket asks for: the room's own, or exactly the next one.  [None]
    is a refusal with its status. *)
Definition advance (put_ok : bool) (c : Ticket) (rm : Room) : option Z * Room :=
  match metadata rm with
  | None => (None, rm)
  | Some m =>
      if sameMetadata m c then (None, rm)
      else if negb (canAdvanceMetadata m c) then (Some 403, rm)
      else
        let advanced := m <| md_epoch := tk_epoch c |> <| md_fence := tk_fence c |> in
        if put_ok then (None, with_router advanced (persistMetadata advanced rm))
        else (Some 503, rm)
  end.

Definition closed_to_tickets (now : Z) (rm : Room) : bool :=
  match metadata rm with
  | Some m => bool_decide (md_state m = RoomCancelled) || bool_decide (md_state m = RoomCompleted)
              || (negb (md_transfer_expires_at m =? 0) && (md_transfer_expires_at m <=? now))
  | None => false
  end.

Definition role_connected (now : Z) (role : TransferRole) (rm : Room) : bool :=
  existsb (fun a => validateTransferAttachment a (metadata rm) now && bool_decide (at_role a = role)) (rm_sockets rm).

Definition purge (now : Z) (rm : Room) : Room :=
  rm <| rm_consumed := filter (fun '(_, e) => now < e) (rm_consumed rm) |>.

(** A WebSocket request up to the digest of the replay key.  The status, or [None] when
    the admission goes on. *)
Definition fetch_admit (now : Z) (raw : string) (put_ok : bool) (rm : Room) : option Z * Room :=
  match verifyTransferTicket secret now raw with
  | None => (Some 401, rm)
  | Some c =>
      if tk_ticket_exp c <=? now then (Some 401, rm)
      else if negb (String.eqb (tk_device_id c)
                      (match ticket_role c with Source => tk_source_device_id c | Destination => tk_destination_device_id c end))
      then (Some 403, rm)
      else match advance put_ok c rm with
           | (Some status, rm) => (Some status, rm)
           | (None, rm) =>
               if closed_to_tickets now rm then (Some 410, rm)
               else if role_connected now (ticket_role c) rm then (Some 409, rm)
               else (None, purge now rm <| rm_pending := Some c |>)
           end
  end.

Definition ticket_attachment (peer_id : string) (c : Ticket) : TransferAttachment :=
  {| at_peer_id := peer_id; at_role := ticket_role c; at_device_id := tk_device_id c;
     at_transfer_id := tk_transfer_id c; at_epoch := tk_epoch c; at_fence := tk_fence c;
     at_plan_sha256 := tk_plan_sha256 c; at_transfer_expires_at := tk_transfer_expires_at c |}.

(** [consume], once the key is there. *)
Definition consume (tickets_ok : bool) (c : Ticket) (rm : Room) : option Z * Room :=
  let key := ticketReplayKey (tk_transfer_id c) (tk_jti c) in
  if match rm_consumed rm !! key with Some _ => true | None => false end
     || (MAX_TICKET_REPLAYS <=? map_len (rm_consumed rm))
  then (Some 409, rm)
  else
    let rm := rm <| rm_consumed := <[key := tk_ticket_exp c]> (rm_consumed rm) |> in
    if tickets_ok then (None, rm <| rm_store_tickets := Some (map_to_list (rm_consumed rm)) |>)
    else (Some 503, rm).

(** The first admission creates the metadata and asks for an alarm at the deadline. *)
Definition create_metadata (put_ok alarm_ok : bool) (c : Ticket) (rm : Room) : option Z * Room :=
  match metadata rm with
  | Some _ => (None, rm)
  | None =>
      let m := metadataFor c in
      if negb put_ok then (Some 503, rm)
      else if negb alarm_ok then (Some 503, persistMetadata m rm)
      else (None, with_router m (persistMetadata m rm))
  end.

(** The rest of the admission: consume the ticket, accept the socket and attach it. *)
Definition fetch_finish (now : Z) (peer_id : string) (tickets_ok put_ok alarm_ok : bool) (rm : Room)
  : Z * Room * Outbox :=
  match rm_pending rm with
  | None => (500, rm, [])
  | Some c =>
      let rm := rm <| rm_pending := None |> in
      match consume tickets_ok c rm with
      | (Some status, rm) => (status, rm, [])
      | (None, rm) =>
          match create_metadata put_ok alarm_ok c rm with
          | (Some status, rm) => (status, rm, [])
          | (None, rm) =>
              let a := ticket_attachment peer_id c in
              let rm := rm <| rm_sockets := rm_sockets rm ++ [a] |> in
              match rm_router rm with
              | None => (101, rm, [])
              | Some r =>
                  let '(res, r, out) := attach now (attachment_peer a) r in
                  (match res with AttachReject => 403 | _ => 101 end, rm <| rm_router := Some r |>, out)
              end
          end
      end
  end.

(** The terminal control of a published receipt. *)
Definition fetch_terminal (body signature : string) (put_ok delete_ok : bool) (rm : Room) : Z * Room :=
  match verifyTransferTerminalControl secret body signature with
  | None => (401, rm)
  | Some control =>
      match metadata rm with
      | None => (403, rm)
      | Some m =>
          if negb (String.eqb (cl_transfer_id control) (md_transfer_id m))
             || negb (String.eqb (cl_plan_sha256 control) (md_plan_sha256 m))
             || negb (cl_epoch control =? md_epoch m) || negb (cl_fence control =? md_fence m)
          then (403, rm)
          else if bool_decide (md_state m = RoomCancelled) || bool_decide (md_state m = RoomExpired)
          then (409, rm)
          else
            let completed := m <| md_state := RoomCompleted |> in
            match (if bool_decide (md_state m = RoomCompleted) then Some rm
                   else if put_ok then Some (with_router completed (persistMetadata completed rm)) else None) with
            | None => (503, rm)
            | Some rm =>
                if delete_ok then (200, rm <| rm_store_tickets := None |> <| rm_consumed := ∅ |>) else (503, rm)
            end
      end
  end.

(** What [persist] did to the room when a frame asked for it.  If it failed, the router
    has gone back to a copy and the room is left with the object the router changed. *)
Definition after_frame (persist_ok : bool) (h : Handled) (rm : Room) : Room :=
  match hd_put h with
  | None => rm <| rm_router := Some (hd_router h) |>
  | Some m =>
      if persist_ok then persistMetadata m (rm <| rm_router := Some (hd_router h) |>)
      else if rm_shared rm
      then rm <| rm_router := Some (hd_router h) |> <| rm_metadata := Some m |> <| rm_shared := false |>
      else rm <| rm_router := Some (hd_router h) |>
  end.

Definition webSocketMessage (now : Z) (a : TransferAttachment) (raw : string) (persist_ok : bool) (rm : Room)
  : Room * Outbox :=
  match rm_router rm with
  | None => (rm, [])
  | Some r =>
      if negb (validateTransferAttachment a (metadata rm) now) then (rm, [])
      else
        let peer := attachment_peer a in
        let '(res, r, out) := attach now peer r in
        let rm := rm <| rm_router := Some r |> in
        match res with
        | AttachReject => (rm, out)
        | _ =>
            let h := handle now persist_ok peer raw r in
            (after_frame persist_ok h rm,
             out ++ hd_out h
             ++ match hd_error h with
                | Some e => if String.eqb e "persist_failed" || ro_broken (hd_router h) then []
                            else [(at_peer_id a, MsgError e)]
                | None => []
                end)
        end
  end.

(** [webSocketClose] and [webSocketError]; the platform drops the socket. *)
Definition webSocketClose (now : Z) (a : TransferAttachment) (rm : Room) : Room :=
  let rm := match rm_router rm with
            | Some r =>
                if validateTransferAttachment a (metadata rm) now
                then rm <| rm_router := Some (detach (at_role a) (at_peer_id a) r) |> else rm
            | None => rm
            end in
  rm <| rm_sockets := List.filter (fun b => negb (String.eqb (at_peer_id b) (at_peer_id a))) (rm_sockets rm) |>.

(** Marking the room's object expired; a router that holds it sees it. *)
Definition expire_metadata (m : TransferMetadata) (rm : Room) : Room :=
  let m' := m <| md_state := RoomExpired |> in
  if rm_shared rm
  then rm <| rm_router := option_map (fun r => r <| ro_metadata := m' |>) (rm_router rm) |>
  else rm <| rm_metadata := Some m' |>.

Definition alarm (now : Z) (put_ok delete_ok : bool) (rm : Room) : Room :=
  match metadata rm with
  | None => rm
  | Some m =>
      if now <? md_transfer_expires_at m then rm
      else
        let rm := expire_metadata m rm in
        if negb put_ok then rm
        else
          let rm := rm <| rm_store_metadata := Some (m <| md_state := RoomExpired |>) |> in
          if delete_ok then rm <| rm_store_tickets := None |> else rm
  end.
End room.

(** ** Events

    The platform runs one handler at a time up to its next wait; a wait for storage
    keeps other events out, so a handler is one event, but for the digest inside an
    admission, which splits it in two.  The admission queue keeps other requests out in
    between. *)

#[export] Instance TransferAttachment_eq_dec : EqDecision TransferAttachment.
Proof. solve_decision. Defined.

Inductive RoomEvent : Type :=
| EvRestart
| EvFetch (ticket : string) (put_ok : bool)
| EvFinish (peer_id : string) (tickets_ok put_ok alarm_ok : bool)
| EvTerminal (body signature : string) (put_ok delete_ok : bool)
| EvMessage (socket : TransferAttachment) (raw : string) (persist_ok : bool)
| EvClose (socket : TransferAttachment)
| EvAlarm (put_ok delete_ok : bool).

Section events.
Context {DG : Digests} {WH : WorkerHost}.
Variable secret : string.

Definition room_event (now : Z) (ev : RoomEvent) (rm : Room) : Room * Outbox :=
  if rm_failed rm
  then match ev with
       | EvRestart => restore now rm
       | EvClose socket => (if bool_decide (socket ∈ rm_sockets rm) then webSocketClose now socket rm else rm, [])
       | _ => (rm, [])
       end
  else match ev with
       | EvRestart => restore now rm
       | EvFetch ticket put_ok =>
           match rm_pending rm with
           | Some _ => (rm, [])
           | None => (snd (fetch_admit secret now ticket put_ok rm), [])
           end
       | EvFinish peer_id tickets_ok put_ok alarm_ok =>
           let '(_, rm, out) := fetch_finish now peer_id tickets_ok put_ok alarm_ok rm in (rm, out)
       | EvTerminal body signature put_ok delete_ok =>
           match rm_pending rm with
           | Some _ => (rm, [])
           | None => (snd (fetch_terminal secret body signature put_ok delete_ok rm), [])
           end
       | EvMessage socket raw persist_ok =>
           if bool_decide (socket ∈ rm_sockets rm) then webSocketMessage now socket raw persist_ok rm else (rm, [])
       | EvClose socket =>
           (if bool_decide (socket ∈ rm_sockets rm) then webSocketClose now socket rm else rm, [])
       | EvAlarm put_ok delete_ok => (alarm now put_ok delete_ok rm, [])
       end.

Definition empty_room : Room :=
  {| rm_metadata := None; rm_router := None; rm_shared := false; rm_consumed := ∅; rm_pending := None;
     rm_failed := false; rm_sockets := []; rm_store_metadata := None; rm_store_tickets := None |}.

(** The room after a list of timed events. *)
Fixpoint room_run (events : list (Z * RoomEvent)) (rm : Room) : Room :=
  match events with
  | [] => rm
  | (now, ev) :: rest => room_run rest (fst (room_event now ev rm))
  end.
End events.
