(* ===== verification/TransferRelay.v ===== *)
(** * The relay keeps its promises

    Invariants of [TransferRoom.v] over arbitrary sequences of events: restarts, raced
    and replayed admissions, frames from any socket, failing storage.  What peers are
    shown is what storage holds; a transfer's identity never changes; a ticket is used
    once. *)

From stdpp Require Import base list strings gmap.
From Stdlib Require Import ZArith Lia Ascii.
From S2P Require Import Prelude RustStr RustBytes Transfer TransferCrypto Js Base64 TransferRoom.

Open Scope Z_scope.

(** Metadata that differs at most in its state. *)
Definition agrees (m n : TransferMetadata) : Prop := m <| md_state := md_state n |> = n.

#[export] Instance agrees_refl : Reflexive agrees.
Proof. intros []. reflexivity. Qed.

#[export] Instance agrees_sym : Symmetric agrees.
Proof. intros m n <-. by destruct m. Qed.

#[export] Instance agrees_trans : Transitive agrees.
Proof. intros m n k <- <-. by destruct m. Qed.

Lemma agrees_state m st : agrees m (m <| md_state := st |>).
Proof. by destruct m. Qed.

(** Everything but the state reads the same. *)
Lemma agrees_fields m n :
  agrees m n ->
  md_epoch m = md_epoch n /\ md_fence m = md_fence n /\ next_sequence m = next_sequence n
  /\ md_contiguous_ack_sequence m = md_contiguous_ack_sequence n
  /\ md_contiguous_ack_offset m = md_contiguous_ack_offset n /\ md_max_bytes m = md_max_bytes n
  /\ md_plan_sha256 m = md_plan_sha256 n /\ md_transfer_id m = md_transfer_id n
  /\ md_transfer_expires_at m = md_transfer_expires_at n.
Proof. intros <-. by destruct m. Qed.

(** One transfer in one generation, with another state and cursor. *)
Definition same_transfer (m n : TransferMetadata) : Prop :=
  n = m <| md_state := md_state n |> <| md_contiguous_ack_sequence := md_contiguous_ack_sequence n |>
        <| md_contiguous_ack_offset := md_contiguous_ack_offset n |>.

Section relay.
Context {DG : Digests} {WH : WorkerHost}.

(** A forwarded chunk frame starts at the cursor of [m] and fits the transfer. *)
Definition chunk_at (frame : list (string * js)) (m : TransferMetadata) : Prop :=
  exists length, num frame "sequence" = Some (next_sequence m)
    /\ num frame "offset" = Some (md_contiguous_ack_offset m) /\ num frame "length" = Some length
    /\ 1 <= length <= MAX_TRANSFER_CHUNK_BYTES /\ md_contiguous_ack_offset m + length <= md_max_bytes m.

(** What a message may say when storage holds [stored]. *)
Definition backed (stored : option TransferMetadata) (msg : RoomMessage) : Prop :=
  match msg with
  | MsgReady e f s o =>
      exists m, stored = Some m /\ md_epoch m = e /\ md_fence m = f /\ next_sequence m = s
        /\ md_contiguous_ack_offset m = o
  | MsgAck e f s o =>
      exists m, stored = Some m /\ md_epoch m = e /\ md_fence m = f
        /\ md_contiguous_ack_sequence m = Some s /\ md_contiguous_ack_offset m = o
  | MsgRaw raw =>
      exists m frame, stored = Some m /\ JSON_parse raw = Some (JsObject frame) /\ bound frame m = true
        /\ (chunk_at frame m \/ md_contiguous_ack_offset m = md_max_bytes m)
  | MsgFinishAck e f =>
      exists m, stored = Some m /\ md_epoch m = e /\ md_fence m = f /\ md_state m = RoomCompleted
        /\ md_contiguous_ack_offset m = md_max_bytes m
  | MsgCancel e f =>
      exists m, stored = Some m /\ md_epoch m = e /\ md_fence m = f /\ md_state m = RoomCancelled
  | MsgError _ => True
  end.

Definition all_backed (stored : option TransferMetadata) (out : Outbox) : Prop :=
  Forall (fun '(_, msg) => backed stored msg) out.

(** A frame is under way only towards an attached destination. *)
Definition escorted (r : Router) : Prop := ro_in_flight r <> None -> ro_destination r <> None.

Lemma send_to_forall (P : string * RoomMessage -> Prop) role msg r :
  (forall id, P (id, msg)) -> Forall P (send_to role msg r).
Proof. intros B. unfold send_to. destruct (peer_of role r); [by apply Forall_singleton | apply Forall_nil_2]. Qed.

Lemma backed_send stored role msg r : backed stored msg -> all_backed stored (send_to role msg r).
Proof. intros B. by apply send_to_forall. Qed.

Lemma ready_backed m r : agrees (ro_metadata r) m -> all_backed (Some m) (sendReady r).
Proof.
  intros A. apply agrees_fields in A as (E & F & N & _ & O & _). unfold sendReady, all_backed.
  apply Forall_app. split; apply backed_send; cbn; eauto 10.
Qed.

(** Attaching a peer keeps the metadata, but for noticing the deadline. *)
Lemma attach_agrees now p r res r' out :
  attach now p r = (res, r', out) ->
  agrees (ro_metadata r) (ro_metadata r') /\ ro_broken r' = ro_broken r /\ ro_in_flight r' = ro_in_flight r
  /\ (escorted r -> escorted r')
  /\ (forall m, agrees (ro_metadata r) m -> all_backed (Some m) out)
  /\ (ro_broken r = true -> res = AttachReject).
Proof.
  unfold attach, expired. intros H.
  destruct (ro_broken r) eqn:B; cbn [orb] in H.
  { injection H as <- <- <-. split_and!; try done. intros. apply Forall_nil_2. }
  destruct (_ || _); [injection H as <- <- <-; split_and!; try done; intros; apply Forall_nil_2 |].
  destruct (now <? _).
  2:{ injection H as <- <- <-. split_and!; try done. intros. apply Forall_nil_2. }
  destruct (peer_of _ r) as [q|] eqn:P.
  { destruct (negb _); injection H as <- <- <-; split_and!; try done; intros; apply Forall_nil_2. }
  injection H as <- <- <-. split; [by destruct (pe_role p) |]. split; [by destruct (pe_role p) |].
  split; [by destruct (pe_role p) |]. split; [|split; [|done]].
  - unfold escorted. by destruct (pe_role p).
  - intros m A. assert (all_backed (Some m) (sendReady (set_peer (pe_role p) (Some p) r))) as R
      by (apply ready_backed; by destruct (pe_role p)).
    destruct (ro_source (set_peer _ _ _)); [|apply Forall_nil_2].
    destruct (ro_destination (set_peer _ _ _)); [exact R | apply Forall_nil_2].
Qed.

(** What a frame does, when the router works: no persistence and the metadata up to its
    state; or new metadata that crossed the barrier; or the barrier failed and the router
    is out of service. *)
Inductive outcome (ok : bool) (p : TransferPeer) (r : Router) (h : Handled) : Prop :=
| FrameLocal :
    hd_put h = None -> agrees (ro_metadata r) (ro_metadata (hd_router h)) -> ro_broken (hd_router h) = false ->
    (escorted r -> escorted (hd_router h)) ->
    md_state (ro_metadata (hd_router h)) ∈ [md_state (ro_metadata r); RoomActive; RoomExpired] ->
    (forall m, agrees (ro_metadata r) m -> all_backed (Some m) (hd_out h)) -> outcome ok p r h
| FrameStored m :
    ok = true -> hd_put h = Some m -> ro_metadata (hd_router h) = m -> ro_broken (hd_router h) = false ->
    same_transfer (ro_metadata r) m ->
    (escorted r -> escorted (hd_router h)) ->
    ((ro_in_flight r = None \/ pe_role p = Source -> agrees (ro_metadata r) m) /\
    all_backed (Some m) (hd_out h)) -> outcome ok p r h
| FrameBroken m :
    ok = false -> hd_put h = Some m -> hd_out h = [] -> ro_broken (hd_router h) = true -> outcome ok p r h.

Lemma refuse_outcome ok p e r : ro_broken r = false -> outcome ok p r (refuse e r).
Proof. intros B. apply FrameLocal; try done; [by left | intros; apply Forall_nil_2]. Qed.

Lemma bound_agrees frame m n : agrees m n -> bound frame m = bound frame n.
Proof. intros (E & F & _ & _ & _ & _ & P & _)%agrees_fields. unfold bound. by rewrite E, F, P. Qed.

Lemma chunk_outcome ok p frame raw r :
  JSON_parse raw = Some (JsObject frame) -> ro_broken r = false -> outcome ok p r (chunk p frame raw r).
Proof.
  intros J B. unfold chunk. destruct (_ || _) eqn:G; [by apply refuse_outcome |]. bool_prop.
  destruct (_ || _); [by apply refuse_outcome |].
  destruct (num frame "sequence") as [sq|] eqn:Sq; [|by apply refuse_outcome].
  destruct (num frame "offset") as [o|] eqn:O; [|by apply refuse_outcome].
  destruct (num frame "length") as [l|] eqn:L; [|by apply refuse_outcome].
  destruct (decodedBase64Bytes _) as [c|]; [|by apply refuse_outcome].
  destruct (_ || _) eqn:K; [by apply refuse_outcome |]. bool_prop.
  destruct (ro_destination r) as [d|] eqn:D; [|by apply refuse_outcome].
  apply FrameLocal; cbn; try done.
  - intros _ _ X. cbn in X. congruence.
  - by right; left.
  - intros m A. apply Forall_singleton. exists m, frame. rewrite <- (bound_agrees _ _ _ A).
    apply agrees_fields in A as (_ & _ & N & _ & Of & Mx & _). unfold chunk_at. rewrite <- N, <- Of, <- Mx.
    split_and!; try done. left. exists l. subst. split_and!; try done; lia.
Qed.

Lemma persist_failed_outcome p before put r r' : outcome false p r (persist_failed before put r').
Proof. by eapply FrameBroken. Qed.

Lemma ack_outcome ok p frame r : ro_broken r = false -> outcome ok p r (ack ok p frame r).
Proof.
  intros B. unfold ack. destruct (ro_in_flight r) as [f|] eqn:F; [|by apply refuse_outcome].
  destruct (_ || _) eqn:G; [by apply refuse_outcome |]. bool_prop.
  destruct (num frame "sequence") as [sq|]; [|by apply refuse_outcome].
  destruct (num frame "next_offset") as [nx|]; [|by apply refuse_outcome].
  destruct (_ || _); [by apply refuse_outcome |].
  destruct ok; [|apply persist_failed_outcome].
  eapply FrameStored; [done | done | done | done | done | intros _ X; by destruct X |]. split; [intros [X|X]; congruence |]. apply backed_send. cbn. eauto 10.
Qed.

Lemma finish_outcome ok p frame raw r :
  JSON_parse raw = Some (JsObject frame) -> ro_broken r = false -> outcome ok p r (finish p frame raw r).
Proof.
  intros J B. unfold finish. destruct (_ || _) eqn:G; [by apply refuse_outcome |]. bool_prop.
  destruct (negb _) eqn:E; [by apply refuse_outcome |]. bool_prop.
  destruct (ro_destination r) as [d|] eqn:D; [|by apply refuse_outcome].
  apply FrameLocal; cbn; try done; [by left |]. intros m A. apply Forall_singleton. exists m, frame.
  rewrite <- (bound_agrees _ _ _ A). apply agrees_fields in A as (_ & _ & _ & _ & Of & Mx & _).
  rewrite <- Of, <- Mx. split_and!; try done. by right.
Qed.

Lemma finishAck_outcome ok p frame r : ro_broken r = false -> outcome ok p r (finishAck ok p frame r).
Proof.
  intros B. unfold finishAck. destruct (_ || _); [by apply refuse_outcome |].
  destruct (negb _) eqn:E; [by apply refuse_outcome |]. bool_prop.
  destruct ok; [|apply persist_failed_outcome].
  eapply FrameStored; [done..|]. split; [intros _; apply agrees_state |]. apply backed_send. cbn. eauto 10.
Qed.

Lemma cancel_outcome ok p frame r : ro_broken r = false -> outcome ok p r (cancel_room ok p frame r).
Proof.
  intros B. unfold cancel_room. destruct (_ || _) eqn:G; [by apply refuse_outcome |].
  destruct ok; [|apply persist_failed_outcome].
  eapply FrameStored; [done | done | done | done | done | intros _ X; by destruct X |].
  split; [intros _; apply agrees_state |]. apply backed_send. cbn. eauto 10.
Qed.

Lemma handle_outcome now ok p raw r : ro_broken r = false -> outcome ok p r (handle now ok p raw r).
Proof.
  intros B. unfold handle, expired. destruct (_ <? str_len raw); [by apply refuse_outcome |].
  destruct (_ || _); [by apply refuse_outcome |]. destruct (now <? _).
  2:{ apply FrameLocal; try done; [by right; right; left | intros; apply Forall_nil_2]. }
  destruct (JSON_parse raw) as [[]|] eqn:J; try by apply refuse_outcome.
  destruct (_ || _); [by apply refuse_outcome |].
  destruct (js_is_string _ "chunk"); [by apply chunk_outcome |].
  destruct (js_is_string _ "ack"); [by apply ack_outcome |].
  destruct (js_is_string _ "finish"); [by apply finish_outcome |].
  destruct (js_is_string _ "finish_ack"); [by apply finishAck_outcome |].
  destruct (js_is_string _ "cancel"); [by apply cancel_outcome |]. by apply refuse_outcome.
Qed.
(** ** The room *)

(** A working router, the room and storage hold the same transfer, up to its state. *)
Definition in_step (rm : Room) : Prop :=
  forall r, rm_router rm = Some r -> ro_broken r = false ->
  exists stored m, rm_store_metadata rm = Some stored /\ metadata rm = Some m
    /\ agrees (ro_metadata r) stored /\ agrees (ro_metadata r) m /\ escorted r.

Lemma new_router_escorted m : escorted (new_router m).
Proof. intros X. by destruct X. Qed.

Lemma in_step_fresh m rm : in_step (with_router m (persistMetadata m rm)).
Proof. intros r [= <-] _. exists m, m. split_and!; try done. apply new_router_escorted. Qed.

Lemma all_backed_app stored a b : all_backed stored (a ++ b) <-> all_backed stored a /\ all_backed stored b.
Proof. apply Forall_app. Qed.

Lemma reattach_agrees now sockets m r r' out :
  agrees (ro_metadata r) m -> ro_broken r = false -> escorted r ->
  reattach now sockets (Some m) r = (r', out) ->
  agrees (ro_metadata r') m /\ ro_broken r' = false /\ escorted r' /\ all_backed (Some m) out.
Proof.
  intros A B Es. unfold reattach.
  assert (all_backed (Some m) []) as O by apply Forall_nil_2. revert O. generalize (@nil (string * RoomMessage)).
  revert r A B Es. induction sockets as [|a sockets IH]; intros r A B Es o O; cbn [foldl].
  { by intros [= <- <-]. }
  destruct (validateTransferAttachment a (Some m) now); [|by apply IH].
  destruct (attach now (attachment_peer a) r) as [[res r1] o1] eqn:T.
  apply attach_agrees in T as (A1 & B1 & _ & E1 & O1 & _). apply IH; [|congruence|auto|].
  - etrans; [symmetry; exact A1 | exact A].
  - apply all_backed_app. auto.
Qed.

Lemma restore_in_step now rm rm' out :
  restore now rm = (rm', out) -> in_step rm' /\ all_backed (rm_store_metadata rm') out.
Proof.
  unfold restore. destruct (_ || _); [intros [= <- <-]; split; [done | apply Forall_nil_2] |].
  destruct (rm_store_metadata rm) as [m|] eqn:S; [|intros [= <- <-]; split; [done | apply Forall_nil_2]].
  destruct (reattach _ _ _ _) as [r o] eqn:R. intros [= <- <-].
  apply reattach_agrees in R as (A & B & Es & O); [|done|done|apply new_router_escorted]. cbn. rewrite S. split; [|done].
  intros r' [= <-] _. exists m, (ro_metadata r). by cbn.
Qed.

(** An attach by the room: what it shows is stored. *)
Lemma attach_in_step now p rm r res r' out :
  in_step rm -> rm_router rm = Some r -> attach now p r = (res, r', out) ->
  in_step (rm <| rm_router := Some r' |>) /\ all_backed (rm_store_metadata rm) out.
Proof.
  intros I R T. pose proof T as T'. apply attach_agrees in T as (A & B & F & E & O & Rj).
  destruct (ro_broken r) eqn:Br.
  - split; [intros q [= <-] Bq; congruence |].
    unfold attach in T'. rewrite Br in T'. injection T' as <- <- <-. apply Forall_nil_2.
  - destruct (I r R Br) as (st & m & S & M & As & Am & Es). rewrite S. split; [|by apply O].
    intros q [= <-] _. assert (agrees (ro_metadata r') st) as As' by (etrans; [symmetry; exact A | exact As]).
    exists st. unfold metadata in *. cbn. destruct (rm_shared rm).
    + exists (ro_metadata r'). by split_and!; auto.
    + exists m. split_and!; auto. etrans; [symmetry; exact A | exact Am].
Qed.

Lemma fetch_admit_in_step secret now raw ok rm : in_step rm -> in_step (snd (fetch_admit secret now raw ok rm)).
Proof.
  intros I. unfold fetch_admit, advance, purge.
  destruct (verifyTransferTicket _ _ _) as [c|]; [|done].
  destruct (_ <=? now); [done |]. destruct (negb _); [done |].
  assert (forall rm, in_step rm -> in_step (snd (if closed_to_tickets now rm then (Some 410, rm)
     else if role_connected now (ticket_role c) rm then (Some 409, rm)
     else (None, rm <| rm_consumed := filter (fun '(_, e) => now < e) (rm_consumed rm) |> <| rm_pending := Some c |>)))) as K.
  { clear. intros rm I. destruct (closed_to_tickets now rm); [done |].
    destruct (role_connected _ _ _); [done |]. exact I. }
  destruct (metadata rm) as [m|]; [|by apply K]. destruct (sameMetadata m c); [by apply K |].
  destruct (negb _); [done |]. destruct ok; [|done]. apply K, in_step_fresh.
Qed.

Lemma fetch_finish_in_step now peer_id t p a rm st rm' out :
  in_step rm -> fetch_finish now peer_id t p a rm = (st, rm', out) ->
  in_step rm' /\ all_backed (rm_store_metadata rm') out.
Proof.
  intros I. unfold fetch_finish. destruct (rm_pending rm) as [c|]; [|intros [= <- <- <-]; split; [done | apply Forall_nil_2]].
  assert (in_step (rm <| rm_pending := None |>)) as I1 by exact I. revert I1.
  generalize (rm <| rm_pending := None |>). clear I rm. intros rm I.
  destruct (consume t c rm) as [s1 rm1] eqn:K. assert (in_step rm1) as I1.
  { unfold consume in K. destruct (_ || _); [by injection K as <- <- |]. destruct t; by injection K as <- <-. }
  clear K I. destruct s1; [intros [= <- <- <-]; split; [done | apply Forall_nil_2] |].
  destruct (create_metadata p a c rm1) as [s2 rm2] eqn:K. assert (in_step rm2) as I2.
  { unfold create_metadata in K. destruct (metadata rm1) eqn:M; [by injection K as <- <- |].
    destruct p; cbn in K; [|by injection K as <- <-]. destruct a; cbn in K; injection K as <- <-; [apply in_step_fresh |].
    intros r R B. destruct (I1 r R B) as (? & ? & _ & M' & _). congruence. }
  clear K I1. destruct s2; [intros [= <- <- <-]; split; [done | apply Forall_nil_2] |].
  assert (in_step (rm2 <| rm_sockets := rm_sockets rm2 ++ [ticket_attachment peer_id c] |>)) as I3 by exact I2.
  revert I3. generalize (rm2 <| rm_sockets := rm_sockets rm2 ++ [ticket_attachment peer_id c] |>). intros rm3 I3.
  destruct (rm_router rm3) as [r|] eqn:R; [|intros [= <- <- <-]; split; [done | apply Forall_nil_2]].
  destruct (attach _ _ r) as [[res r'] o] eqn:T. intros [= <- <- <-].
  destruct (attach_in_step _ _ _ _ _ _ _ I3 R T) as [X Y]. split; [exact X | exact Y].
Qed.

Lemma after_frame_in_step ok p r h rm :
  rm_router rm = Some r -> ro_broken r = false -> in_step rm -> outcome ok p r h ->
  in_step (after_frame ok h rm) /\ all_backed (rm_store_metadata (after_frame ok h rm)) (hd_out h)
  /\ (ro_in_flight r = None \/ pe_role p = Source -> forall stored, rm_store_metadata rm = Some stored ->
      exists stored', rm_store_metadata (after_frame ok h rm) = Some stored' /\ agrees stored stored').
Proof.
  intros R B I O. destruct (I r R B) as (st & m & S & M & As & Am & Es). unfold after_frame.
  destruct O as [P A Bh E _ O|m' -> P Q Bh _ E [F O]|m' -> P O Bh]; rewrite P.
  - cbn. rewrite S. split_and!; [|by apply O | intros _ x [= ->]; by exists x].
    intros q [= <-] _. exists st. unfold metadata in *. cbn.
    assert (agrees (ro_metadata (hd_router h)) st) by (etrans; [symmetry; exact A | exact As]).
    destruct (rm_shared rm); [exists (ro_metadata (hd_router h)); split_and!; auto; reflexivity|].
    exists m. split_and!; auto. etrans; [symmetry; exact A | exact Am].
  - cbn. split_and!; [|done|].
    + intros q [= <-] _. exists m', m'. unfold metadata. cbn. rewrite Q. split_and!; auto; reflexivity.
    + intros N x Hx. exists m'. split; [done |]. rewrite S in Hx. injection Hx as <-.
      etrans; [symmetry; exact As | by apply F].
  - rewrite O. destruct (rm_shared rm); cbn; (split_and!; [intros q [= <-] Bq; congruence | apply Forall_nil_2 |]);
      intros _ x Hx; by exists x.
Qed.

Lemma backed_agrees st st' out :
  agrees st st' -> Forall (fun '(_, msg) => match msg with MsgReady _ _ _ _ => True | _ => False end) out ->
  all_backed (Some st) out -> all_backed (Some st') out.
Proof.
  intros A F B. unfold all_backed in *. rewrite Forall_forall in *. intros [p msg] Hin.
  specialize (F _ Hin). specialize (B _ Hin). cbn in *. destruct msg; try done.
  apply agrees_fields in A as (E & Fe & N & _ & O & _). destruct B as (m & [= <-] & B). exists st'.
  rewrite <- E, <- Fe, <- N, <- O. by destruct B as (? & ? & ? & ?).
Qed.

(** What an attach sends are [ready]s; it sends them only when no frame is under way or
    to a source that comes back. *)
Lemma attach_ready now p r res r' out :
  escorted r -> attach now p r = (res, r', out) ->
  Forall (fun '(_, msg) => match msg with MsgReady _ _ _ _ => True | _ => False end) out
  /\ (out = [] \/ ro_in_flight r' = None \/ pe_role p = Source).
Proof.
  intros Es. unfold attach, expired. destruct (_ || _); [intros [= <- <- <-]; auto |].
  destruct (now <? _); [|intros [= <- <- <-]; auto].
  destruct (peer_of _ r) as [q|] eqn:P; [destruct (negb _); intros [= <- <- <-]; auto |].
  intros [= <- <- <-]. split.
  - destruct (ro_source _); [|done]. destruct (ro_destination _); [|done].
    apply Forall_app. by split; apply send_to_forall.
  - destruct (pe_role p); cbn in *; [auto |]. right; left. destruct (ro_in_flight r) eqn:F; [|done].
    destruct Es; congruence.
Qed.

Lemma message_in_step now a raw ok rm rm' out :
  in_step rm -> webSocketMessage now a raw ok rm = (rm', out) ->
  in_step rm' /\ all_backed (rm_store_metadata rm') out.
Proof.
  intros I. unfold webSocketMessage. destruct (rm_router rm) as [r|] eqn:R.
  2:{ intros [= <- <-]. split; [done | apply Forall_nil_2]. }
  destruct (negb _); [intros [= <- <-]; split; [done | apply Forall_nil_2] |].
  destruct (attach _ _ r) as [[res r1] o] eqn:T.
  destruct (attach_in_step _ _ _ _ _ _ _ I R T) as [I1 O1].
  destruct (ro_broken r) eqn:B.
  { apply attach_agrees in T as (_ & _ & _ & _ & _ & Rj). rewrite (Rj B). intros [= <- <-]. by split. }
  destruct (I r R B) as (st & m & S & M & As & Am & Es).
  pose proof (attach_agrees _ _ _ _ _ _ T) as (A1 & B1 & F1 & _).
  destruct (attach_ready _ _ _ _ _ _ Es T) as [Rd Q].
  assert (rm_store_metadata (rm <| rm_router := Some r1 |>) = Some st) as S1 by exact S.
  assert (rm_router (rm <| rm_router := Some r1 |>) = Some r1) as R1 by done.
  rewrite S in O1. revert I1 S1 R1. generalize (rm <| rm_router := Some r1 |>). intros rm1 I1 S1 R1.
  pose proof (handle_outcome now ok (attachment_peer a) raw r1 ltac:(congruence)) as H.
  destruct (after_frame_in_step _ _ _ _ _ R1 ltac:(congruence) I1 H) as (I2 & O2 & C2).
  assert (all_backed (rm_store_metadata (after_frame ok (handle now ok (attachment_peer a) raw r1) rm1)) o) as O3.
  { destruct Q as [->|Q]; [apply Forall_nil_2 |]. destruct (C2 Q st S1) as (st' & -> & Ag).
    by apply (backed_agrees st). }
  assert (forall e, all_backed e (match hd_error (handle now ok (attachment_peer a) raw r1) with
     | Some e => if String.eqb e "persist_failed" || ro_broken (hd_router (handle now ok (attachment_peer a) raw r1))
                 then [] else [(at_peer_id a, MsgError e)] | None => [] end)) as O4.
  { intros e. destruct (hd_error _); [|apply Forall_nil_2]. destruct (_ || _); [apply Forall_nil_2 | by apply Forall_singleton]. }
  destruct res; [| |intros [= <- <-]; split; [done | by rewrite S1]];
    intros [= <- <-]; split; try done; rewrite !all_backed_app; auto.
Qed.

Lemma terminal_in_step secret body sig ok del rm : in_step rm -> in_step (snd (fetch_terminal secret body sig ok del rm)).
Proof.
  intros I. unfold fetch_terminal. destruct (verifyTransferTerminalControl _ _ _) as [c|]; [|done].
  destruct (metadata rm) as [m|]; [|done]. destruct (_ || _); [done |]. destruct (_ || _); [done |].
  assert (forall rm, in_step rm -> in_step (snd (if del then (200, rm <| rm_store_tickets := None |> <| rm_consumed := ∅ |>)
            else (503, rm)))) as K by (clear; intros rm I; destruct del; exact I).
  destruct (bool_decide _); [by apply K |]. destruct ok; [|done]. apply K, in_step_fresh.
Qed.

Lemma close_in_step now a rm : in_step rm -> in_step (webSocketClose now a rm).
Proof.
  intros I. unfold webSocketClose. destruct (rm_router rm) as [r|] eqn:R; [|intros r' R'; cbn in R'; congruence].
  destruct (validateTransferAttachment _ _ _); [|exact I].
  intros q [= <-] B. assert (ro_broken r = false /\ ro_metadata (detach (at_role a) (at_peer_id a) r) = ro_metadata r) as [Br Md].
  { unfold detach in *. destruct (peer_of _ r); [|done]. destruct (String.eqb _ _); [|done]. by destruct (at_role a). }
  assert (escorted (detach (at_role a) (at_peer_id a) r)) as Es by (intros X; by destruct X).
  revert Md Es B. generalize (detach (at_role a) (at_peer_id a) r). intros r' Md Es B.
  destruct (I r R Br) as (st & m & S & M & As & Am & _). exists st. unfold metadata in *. cbn. rewrite R in M.
  destruct (rm_shared rm); rewrite Md; [exists (ro_metadata r) | exists m]; split_and!; try done; by f_equal.
Qed.

Lemma alarm_in_step now ok del rm : in_step rm -> in_step (alarm now ok del rm).
Proof.
  intros I. unfold alarm. destruct (metadata rm) as [m|] eqn:M; [|done]. destruct (now <? _); [done |].
  set (m' := m <| md_state := RoomExpired |>). assert (agrees m m') as Am' by apply agrees_state.
  assert (forall stored, (stored = rm_store_metadata rm \/ stored = Some m') ->
    in_step ((expire_metadata m rm) <| rm_store_metadata := stored |>)) as K.
  { intros stored Hs r R B. unfold expire_metadata in *. unfold metadata in M.
    destruct (rm_shared rm) eqn:Sh.
    - cbn in R. destruct (rm_router rm) as [q|] eqn:Rq; [|done]. injection M as Mq. injection R as <-.
      destruct (I q Rq B) as (st & n & S & N & As & An & Es). rewrite Mq in As. cbn [ro_metadata]. exists (match stored with Some x => x | None => st end), m'.
      unfold metadata. cbn. rewrite Sh. split_and!; try done.
      + destruct Hs as [->| ->]; [by rewrite S | done].
      + destruct Hs as [->| ->]; [rewrite S; etrans; [symmetry; exact Am' | exact As] | done].
    - cbn in R, B. destruct (I r R B) as (st & n & S & N & As & An & Es). unfold metadata in N. rewrite Sh, M in N.
      injection N as <-. exists (match stored with Some x => x | None => st end), m'. unfold metadata. cbn. rewrite Sh.
      split_and!; try done.
      + destruct Hs as [->| ->]; [by rewrite S | done].
      + destruct Hs as [->| ->]; [by rewrite S | by etrans].
      + by etrans. }
  destruct ok; cbn; [destruct del; apply (K (Some m')); auto |].
  specialize (K (rm_store_metadata rm) (or_introl eq_refl)). revert K. unfold expire_metadata. by destruct (rm_shared rm).
Qed.

Lemma event_in_step secret now ev rm rm' out :
  in_step rm -> room_event secret now ev rm = (rm', out) ->
  in_step rm' /\ all_backed (rm_store_metadata rm') out.
Proof.
  intros I. unfold room_event.
  assert (forall rm, in_step rm -> (rm, []) = (rm', out) -> in_step rm' /\ all_backed (rm_store_metadata rm') out) as K
    by (intros x Ix [= <- <-]; split; [done | apply Forall_nil_2]).
  destruct (rm_failed rm).
  { destruct ev; try (by apply K); [apply restore_in_step |].
    destruct (bool_decide _); [by apply K, close_in_step | by apply K]. }
  destruct ev.
  - apply restore_in_step.
  - destruct (rm_pending rm); [by apply K |]. by apply K, fetch_admit_in_step.
  - destruct (fetch_finish _ _ _ _ _ _) as [[st rm1] o] eqn:F. intros [= <- <-]. by eapply fetch_finish_in_step.
  - destruct (rm_pending rm); [by apply K |]. by apply K, terminal_in_step.
  - destruct (bool_decide _); [by apply message_in_step | by apply K].
  - destruct (bool_decide _); [by apply K, close_in_step | by apply K].
  - by apply K, alarm_in_step.
Qed.

Lemma run_in_step secret events rm : in_step rm -> in_step (room_run secret events rm).
Proof.
  revert rm. induction events as [|[now ev] events IH]; intros rm I; [done |]. apply IH.
  by destruct (event_in_step secret now ev rm _ _ I (surjective_pairing _)).
Qed.

(** C20: a peer is only told what is durable.  In every run of the relay, through restarts,
    raced admissions, hostile frames and failing storage, every message it sends is backed
    by the metadata in storage at that moment: a [ready] or an acknowledgement shows the
    stored generation and cursor, a forwarded chunk carries the stored generation and
    plan, starts at the stored cursor and stays within the transfer, and a [finish_ack] or
    a [cancel] means the stored state is completed or cancelled. *)
Theorem relay_shows_durable secret events now ev :
  let rm := room_run secret events empty_room in
  all_backed (rm_store_metadata (fst (room_event secret now ev rm))) (snd (room_event secret now ev rm)).
Proof.
  intros rm. apply (event_in_step secret now ev rm); [|apply surjective_pairing].
  apply run_in_step. intros r [=].
Qed.
End relay.
