(* ===== verification/TransferAdmit.v ===== *)
(** * Admission tickets are single-use

    The replay ledger of [TransferRoom.v] across restarts, purges, races and failing
    storage: no ticket is consumed twice, and a restart can always read the ledger
    back. *)

From stdpp Require Import base list strings gmap.
From Stdlib Require Import ZArith Lia Ascii.
From S2P Require Import Prelude RustStr RustBytes Transfer TransferPlain Items TransferCrypto Js Base64 TransferRoom TransferRelay.

Open Scope Z_scope.

(** No more admissions: terminal, or past the deadline. *)
Definition closed (now : Z) (m : TransferMetadata) : Prop :=
  md_state m = RoomCancelled \/ md_state m = RoomCompleted
  \/ (md_transfer_expires_at m <> 0 /\ md_transfer_expires_at m <= now).

Definition settled (m : TransferMetadata) : Prop := md_state m = RoomCancelled \/ md_state m = RoomCompleted.

Section admission.
Context {DG : Digests} {WH : WorkerHost}.
Variable secret : string.

Definition ticket_key (c : Ticket) : string := ticketReplayKey (tk_transfer_id c) (tk_jti c).

(** The ticket an event uses up, if any. *)
Definition used_by (ev : RoomEvent) (rm : Room) : option Ticket :=
  match ev, rm_pending rm with
  | EvFinish _ tickets_ok _ _, Some c =>
      if rm_failed rm then None
      else match fst (consume tickets_ok c (rm <| rm_pending := None |>)) with None => Some c | Some _ => None end
  | _, _ => None
  end.

Fixpoint used (events : list (Z * RoomEvent)) (rm : Room) : list Ticket :=
  match events with
  | [] => []
  | (now, ev) :: rest =>
      option_list (used_by ev rm) ++ used rest (fst (room_event secret now ev rm))
  end.

(** Clocks that do not run backwards. *)
Fixpoint clocked (t : Z) (events : list (Z * RoomEvent)) : Prop :=
  match events with [] => True | (now, _) :: rest => t <= now /\ clocked now rest end.

(** Storage takes the metadata of every frame. *)
Definition frames_stored (events : list (Z * RoomEvent)) : Prop :=
  Forall (fun '(_, ev) => match ev with EvMessage _ _ ok => ok = true | _ => True end) events.

Definition stored_entries (rm : Room) : list (string * Z) :=
  match rm_store_tickets rm with Some l => l | None => [] end.

Definition entry_ok (now : Z) (k : string) (e : Z) : Prop :=
  js_hash k = true /\ 1 <= e <= max_safe /\ e <= now + TICKET_MAX_MS.

(** Closed in memory, in the router and in storage. *)
Record shut (now : Z) (rm : Room) : Prop := {
  sh_room : exists m, metadata rm = Some m /\ closed now m;
  sh_store : exists m, rm_store_metadata rm = Some m /\ closed now m;
  sh_router : forall r, rm_router rm = Some r -> closed now (ro_metadata r)
}.

(** The metadata: a working router, in step with storage; a settled transfer is shut
    everywhere. *)
Record calm (now : Z) (rm : Room) : Prop := {
  ca_working : forall r, rm_router rm = Some r -> ro_broken r = false;
  ca_step : in_step rm;
  ca_same : match metadata rm, rm_store_metadata rm with
            | Some m, Some s => agrees m s /\ 0 < md_transfer_expires_at s
            | None, None => rm_router rm = None
            | _, _ => False
            end;
  ca_settled : forall m, metadata rm = Some m -> settled m -> shut now rm
}.

(** The ledger: every used ticket that could still verify is in memory and in storage,
    unless the room is shut. *)
Record ledgered (now : Z) (gone : list Ticket) (rm : Room) : Prop := {
  le_alive : rm_failed rm = false;
  le_memory : forall k e, rm_consumed rm !! k = Some e -> entry_ok now k e;
  le_stored : exists l, stored_entries rm = map_to_list l /\ Z.of_nat (size l) <= MAX_TICKET_REPLAYS
              /\ (forall k e, l !! k = Some e -> entry_ok now k e)
              /\ (forall c, c ∈ gone -> tk_ticket_exp c <= now \/ shut now rm
                  \/ (rm_consumed rm !! ticket_key c = Some (tk_ticket_exp c)
                      /\ l !! ticket_key c = Some (tk_ticket_exp c)));
  le_pending : forall c, rm_pending rm = Some c ->
               entry_ok now (ticket_key c) (tk_ticket_exp c) /\ 0 < tk_transfer_expires_at c
               /\ (c ∈ gone -> is_Some (rm_consumed rm !! ticket_key c))
}.

Lemma ticket_key_hash c : js_hash (ticket_key c) = true.
Proof.
  unfold js_hash, js_hex, ticket_key, ticketReplayKey. rewrite plain_hex_len, sha256_len, str_all_small.
  by rewrite plain_hex_lower.
Qed.

Lemma closed_mono now now' m : now <= now' -> closed now m -> closed now' m.
Proof. unfold closed. intros H [?|[?|[? ?]]]; auto. right; right. split; [done | lia]. Qed.

Lemma shut_mono now now' rm : now <= now' -> shut now rm -> shut now' rm.
Proof. intros H [(m & M & C) (s & S & D) R]. split; [exists m | exists s |]; eauto using closed_mono. Qed.

Lemma entry_ok_mono now now' k e : now <= now' -> entry_ok now k e -> entry_ok now' k e.
Proof. unfold entry_ok. intros H (? & ? & ?). split_and!; try done; lia. Qed.

Lemma calm_mono now now' rm : now <= now' -> calm now rm -> calm now' rm.
Proof. intros H [W I S T]. split; eauto using shut_mono. Qed.

Lemma ledgered_mono now now' gone rm : now <= now' -> ledgered now gone rm -> ledgered now' gone rm.
Proof.
  intros H [A M (l & L & Sz & Lo & G) P]. split; eauto using entry_ok_mono.
  - exists l. split_and!; eauto using entry_ok_mono. intros c Hc.
    destruct (G c Hc) as [?|[?|?]]; [left; lia | right; left; eauto using shut_mono | auto].
  - intros c Hc. destruct (P c Hc) as (? & ? & ?). eauto using entry_ok_mono.
Qed.

Lemma ledgered_keep now gone rm rm' :
  rm_failed rm' = rm_failed rm -> rm_consumed rm' = rm_consumed rm -> rm_store_tickets rm' = rm_store_tickets rm ->
  rm_pending rm' = rm_pending rm -> (shut now rm -> shut now rm') ->
  ledgered now gone rm -> ledgered now gone rm'.
Proof.
  intros F C T P Sh [A M (l & L & Sz & Lo & G) Pe]. split; rewrite ?F, ?C, ?P; try done.
  exists l. unfold stored_entries in *. rewrite T. split_and!; try done.
  intros c Hc. destruct (G c Hc) as [?|[?|?]]; auto.
Qed.

(** ** The metadata under each handler *)

Definition expired_mark (now : Z) (m m' : TransferMetadata) : Prop :=
  m' = m \/ (m' = m <| md_state := RoomExpired |> /\ ~ settled m /\ md_transfer_expires_at m <= now).

Lemma attach_mark now p r res r' out :
  attach now p r = (res, r', out) ->
  expired_mark now (ro_metadata r) (ro_metadata r')
  /\ (res <> AttachReject -> ~ settled (ro_metadata r') /\ now < md_transfer_expires_at (ro_metadata r')
                              /\ ro_broken r' = false).
Proof.
  unfold attach, expired, expired_mark, settled. intros H.
  destruct (ro_broken r) eqn:B; cbn [orb] in H; [injection H as <- <- <-; split; [by left | done] |].
  destruct (_ || _) eqn:G; [injection H as <- <- <-; split; [by left | done] |]. bool_prop.
  destruct (Z.ltb_spec now (md_transfer_expires_at (ro_metadata r))).
  2:{ injection H as <- <- <-. split; [|done]. right. split_and!; [done | naive_solver | lia]. }
  destruct (peer_of _ r) as [q|].
  - destruct (negb _); injection H as <- <- <-; (split; [by left |]); [done |]. intros _. split_and!; naive_solver.
  - injection H as <- <- <-. split; [left; by destruct (pe_role p) |]. intros _.
    destruct (pe_role p); cbn; split_and!; naive_solver.
Qed.
Lemma mark_closed now m m' : expired_mark now m m' -> closed now m -> closed now m'.
Proof.
  intros [->|(-> & N & D)] C; [done |]. right; right. cbn. unfold closed, settled in *. naive_solver.
Qed.

Lemma mark_settled now m m' : expired_mark now m m' -> settled m' -> m' = m.
Proof. intros [->|(-> & _)] [S|S]; done. Qed.

Lemma settled_closed now m : settled m -> closed now m.
Proof. unfold settled, closed. naive_solver. Qed.

(** All three views are one transfer that is closed. *)
Lemma shut_same now m rm :
  metadata rm = Some m -> rm_store_metadata rm = Some m ->
  (forall r, rm_router rm = Some r -> ro_metadata r = m) -> closed now m -> shut now rm.
Proof. intros M S R C. split; eauto. intros r Hr. by rewrite (R r Hr). Qed.

Lemma calm_fresh now m rm :
  0 < md_transfer_expires_at m -> calm now (with_router m (persistMetadata m rm)).
Proof.
  intros D. split.
  - by intros r [= <-].
  - apply in_step_fresh.
  - cbn. by split.
  - intros m' [= <-] St.
    apply (shut_same now m); [done | done | by intros r [= <-] | by apply settled_closed].
Qed.

(** A router whose metadata only noticed the deadline. *)
Lemma shut_mark now r r' rm :
  rm_router rm = Some r -> expired_mark now (ro_metadata r) (ro_metadata r') ->
  shut now rm -> shut now (rm <| rm_router := Some r' |>).
Proof.
  intros R K [(m & M & C) S Ro]. split; [|done|].
  - unfold metadata in *. cbn. rewrite R in M. destruct (rm_shared rm); [|eauto].
    injection M as <-. eauto using mark_closed.
  - intros q [= <-]. eauto using mark_closed.
Qed.

Lemma calm_attach now p rm r res r' out :
  calm now rm -> rm_router rm = Some r -> attach now p r = (res, r', out) ->
  calm now (rm <| rm_router := Some r' |>) /\ (shut now rm -> shut now (rm <| rm_router := Some r' |>)).
Proof.
  intros [W I S T] R A. pose proof (attach_mark _ _ _ _ _ _ A) as [K _].
  pose proof (attach_agrees _ _ _ _ _ _ A) as (Ag & B & _).
  destruct (attach_in_step _ _ _ _ _ _ _ I R A) as [I' _]. split; [|by apply (shut_mark now r)].
  split; [intros q [= <-]; rewrite B; auto | done | |].
  - unfold metadata in *. cbn. rewrite R in S. destruct (rm_shared rm); cbn in *.
    + destruct (rm_store_metadata rm); [|done]. destruct S as [S D]. split; [|done]. etrans; [symmetry; exact Ag | exact S].
    + destruct (rm_metadata rm), (rm_store_metadata rm); done.
  - intros m M St. apply (shut_mark now r r' rm R K). unfold metadata in *. cbn in M. rewrite R in *.
    destruct (rm_shared rm) eqn:Sh; [|by apply (T m)]. injection M as <-.
    rewrite (mark_settled _ _ _ K St) in St. apply (T (ro_metadata r)); [done | done].
Qed.

Lemma calm_frame now p r h rm :
  calm now rm -> rm_router rm = Some r -> ro_broken r = false -> ~ shut now rm -> outcome true p r h ->
  ~ settled (ro_metadata r) -> calm now (after_frame true h rm).
Proof.
  intros [W I S T] R B Ns O U. destruct (after_frame_in_step _ _ _ _ _ R B I O) as (I' & _).
  destruct (I r R B) as (st & m0 & St & M0 & As & Am & _). rewrite M0, St in S.
  revert I'. unfold after_frame. destruct O as [P A Bh _ Sx _|m _ P Q Bh Tr _ _|]; [| |done]; rewrite P; intros I'.
  - split; [by intros q [= <-] | done | |].
    + destruct (I' _ eq_refl Bh) as (st' & m' & St' & M' & As' & Am' & _). rewrite St', M'.
      cbn in St'. rewrite St in St'. injection St' as <-. split; [etrans; [symmetry; exact Am' | exact As'] |].
      apply S.
    + intros m Hm Sm. unfold metadata in *. cbn in Hm. destruct (rm_shared rm) eqn:Sh.
      * injection Hm as <-. rewrite !elem_of_cons, elem_of_nil in Sx. unfold settled in *.
        destruct Sx as [E|[E|[E|[]]]]; rewrite E in *; naive_solver.
      * destruct Ns. apply (T m); [unfold metadata; by rewrite ?Sh | done].
  - split; [by intros q [= <-] | done | |].
    + cbn. split; [done |]. rewrite Tr. cbn. apply agrees_fields in As as (_ & _ & _ & _ & _ & _ & _ & _ & ->).
      apply S.
    + intros m' [= <-] Sm. apply (shut_same now m); [done | done | by intros q [= <-] | by apply settled_closed].
Qed.

Lemma message_ledger now a raw ok rm :
  let rm' := fst (webSocketMessage now a raw ok rm) in
  rm_failed rm' = rm_failed rm /\ rm_consumed rm' = rm_consumed rm /\ rm_store_tickets rm' = rm_store_tickets rm
  /\ rm_pending rm' = rm_pending rm.
Proof.
  unfold webSocketMessage. destruct (rm_router rm) as [r|]; [|done]. destruct (negb _); [done |].
  destruct (attach _ _ r) as [[res r1] o]. destruct res; [| |done]; cbn [fst]; unfold after_frame;
    (destruct (hd_put _); [|done]); (destruct ok; [done |]); by destruct (rm_shared _).
Qed.

Lemma calm_message now a raw rm :
  calm now rm -> calm now (fst (webSocketMessage now a raw true rm))
  /\ (shut now rm -> shut now (fst (webSocketMessage now a raw true rm))).
Proof.
  intros C. unfold webSocketMessage. destruct (rm_router rm) as [r|] eqn:R; [|done].
  destruct (negb _); [done |]. destruct (attach _ _ r) as [[res r1] o] eqn:A.
  destruct (calm_attach _ _ _ _ _ _ _ C R A) as [C1 S1]. destruct (attach_mark _ _ _ _ _ _ A) as [K N].
  assert (rm_router (rm <| rm_router := Some r1 |>) = Some r1) as R1 by done.
  revert C1 S1 R1. generalize (rm <| rm_router := Some r1 |>). intros rm1 C1 S1 R1.
  assert (res <> AttachReject -> calm now (after_frame true (handle now true (attachment_peer a) raw r1) rm1)
          /\ ~ shut now rm1) as Ca.
  { intros Nr. destruct (N Nr) as (Ns & Nd & Nb).
    assert (~ shut now rm1) as Nsh.
    { intros Sh. destruct (sh_router _ _ Sh r1 R1) as [?|[?|[? ?]]]; [| |lia]; apply Ns; red; auto. }
    split; [|done]. eapply calm_frame; try done. by apply handle_outcome. }
  destruct res; cbn [fst]; [| |done]; (destruct Ca as [Ca Nsh]; [done|]); split; auto; intros Sh; destruct Nsh; auto.
Qed.

(** Only the metadata, the router and the stored metadata matter. *)
Lemma calm_view now rm rm' :
  metadata rm' = metadata rm -> rm_router rm' = rm_router rm -> rm_store_metadata rm' = rm_store_metadata rm ->
  (calm now rm -> calm now rm') /\ (shut now rm -> shut now rm').
Proof.
  intros M R S. assert (shut now rm -> shut now rm') as Sh by (intros []; split; by rewrite ?M, ?R, ?S).
  split; [|done]. intros [W I Sa T]. split; unfold in_step; rewrite ?M, ?R, ?S; eauto.
Qed.

Lemma calm_advance now ok c rm st rm' :
  calm now rm -> advance ok c rm = (st, rm') ->
  calm now rm' /\ (shut now rm -> shut now rm') /\ rm_failed rm' = rm_failed rm /\ rm_consumed rm' = rm_consumed rm
  /\ rm_store_tickets rm' = rm_store_tickets rm /\ rm_pending rm' = rm_pending rm.
Proof.
  intros C. unfold advance. destruct (metadata rm) as [m|] eqn:M; [|by intros [= <- <-]].
  destruct (sameMetadata m c); [by intros [= <- <-] |]. destruct (negb _); [by intros [= <- <-] |].
  destruct ok; intros [= <- <-]; [|done]. split_and!; try done.
  - apply calm_fresh. pose proof (ca_same _ _ C) as S. rewrite M in S. destruct (rm_store_metadata rm); [|done].
    destruct S as [A D]. apply agrees_fields in A as (_ & _ & _ & _ & _ & _ & _ & _ & E). cbn. lia.
  - intros [(m0 & M0 & Cl) _ _]. rewrite M in M0. injection M0 as <-.
    apply (shut_same now (m <| md_epoch := tk_epoch c |> <| md_fence := tk_fence c |>));
      [done | done | by intros r [= <-] | exact Cl].
Qed.

Lemma closed_to_tickets_shut now rm : shut now rm -> closed_to_tickets now rm = true.
Proof.
  intros [(m & M & C) _ _]. unfold closed_to_tickets. rewrite M.
  destruct C as [->|[->|[N D]]]; [done | done |].
  rewrite (proj2 (Z.leb_le _ _)), (proj2 (Z.eqb_neq _ _)) by done. by rewrite !orb_true_r.
Qed.

Lemma verified_ticket now raw c :
  0 <= now -> verifyTransferTicket secret now raw = Some c ->
  entry_ok now (ticket_key c) (tk_ticket_exp c) /\ now < tk_ticket_exp c /\ 0 < tk_transfer_expires_at c.
Proof.
  intros Hn V. assert (ticket_claims_ok now c = true) as K.
  { unfold verifyTransferTicket in V. repeat case_match; try done; by injection V as <-. }
  unfold ticket_claims_ok in K. bool_prop. unfold is_safe_integer in *. bool_prop.
  split_and!; try lia. split_and!; try lia. apply ticket_key_hash.
Qed.

Lemma admit_keeps now gone raw ok rm :
  0 <= now -> rm_pending rm = None -> calm now rm -> ledgered now gone rm ->
  calm now (snd (fetch_admit secret now raw ok rm)) /\ ledgered now gone (snd (fetch_admit secret now raw ok rm)).
Proof.
  intros Hn Hp C L. unfold fetch_admit. destruct (verifyTransferTicket _ _ _) as [c|] eqn:V; [|done].
  destruct (verified_ticket _ _ _ Hn V) as (E & X & D). destruct (_ <=? now); [done |].
  destruct (negb _); [done |]. destruct (advance ok c rm) as [st rm1] eqn:A.
  destruct (calm_advance _ _ _ _ _ _ C A) as (C1 & S1 & F1 & K1 & T1 & P1).
  assert (ledgered now gone rm1) as L1 by (by apply (ledgered_keep now gone rm)). destruct st; [done |].
  destruct (closed_to_tickets now rm1) eqn:Cl; [done |]. destruct (role_connected _ _ _); [done |].
  cbn [snd]. split; [by apply (calm_view now rm1) |].
  destruct L1 as [Al Me (l & El & Sz & Lo & G) Pe].
  assert (~ shut now rm1) as Ns by (intros ?%closed_to_tickets_shut; congruence).
  assert (forall k e, filter (fun '(_, e) => now < e) (rm_consumed rm1) !! k = Some e <-> rm_consumed rm1 !! k = Some e /\ now < e) as Fl
    by (intros k e; apply map_lookup_filter_Some).
  assert (forall c, c ∈ gone -> tk_ticket_exp c <= now \/
            (rm_consumed rm1 !! ticket_key c = Some (tk_ticket_exp c) /\ l !! ticket_key c = Some (tk_ticket_exp c))) as G'
    by (intros c' Hc; destruct (G c' Hc) as [?|[?|?]]; [auto | done | auto]).
  split; [done | | |].
  - intros k e [H _]%Fl. eauto.
  - exists l. split_and!; try done. intros c' Hc. destruct (G' c' Hc) as [?|[H1 H2]]; [auto |].
    destruct (Z.le_gt_cases (tk_ticket_exp c') now); [auto |]. right; right. split; [by apply Fl | done].
  - intros c' [= <-]. split_and!; try done. intros Hc. destruct (G' c Hc) as [?|[H1 _]]; [lia |].
    exists (tk_ticket_exp c). by apply Fl.
Qed.

(** Past its deadline a calm room is shut. *)
Lemma deadline_shut now rm m :
  calm now rm -> metadata rm = Some m -> md_transfer_expires_at m <= now -> shut now rm.
Proof.
  intros [W I S T] M D. rewrite M in S. destruct (rm_store_metadata rm) as [st|] eqn:St; [|done].
  destruct S as [A P]. pose proof (agrees_fields _ _ A) as (_ & _ & _ & _ & _ & _ & _ & _ & E).
  assert (forall n, md_transfer_expires_at n = md_transfer_expires_at m -> closed now n) as K
    by (intros n En; right; right; lia).
  split; [eauto | eauto |]. intros r R. destruct (I r R (W r R)) as (_ & n & _ & M' & _ & An & _).
  rewrite M in M'. injection M' as <-. apply K. by apply agrees_fields in An as (_ & _ & _ & _ & _ & _ & _ & _ & ->).
Qed.

(** The ledger may go once the room is shut. *)
Lemma ledgered_shut now gone rm rm' :
  rm_failed rm' = false -> rm_pending rm' = rm_pending rm -> rm_store_tickets rm' = None -> shut now rm' ->
  rm_consumed rm' = rm_consumed rm \/ (rm_consumed rm' = ∅ /\ rm_pending rm = None) ->
  ledgered now gone rm -> ledgered now gone rm'.
Proof.
  intros F P T Sh Co [A M _ Pe]. split; [done | | |].
  - intros k e. destruct Co as [->|[-> _]]; [auto | by rewrite lookup_empty].
  - exists ∅. unfold stored_entries. rewrite T, map_to_list_empty, map_size_empty.
    split_and!; try done. auto.
  - intros c Hc. rewrite P in Hc. destruct Co as [->|[_ Pn]]; [auto | congruence].
Qed.

Lemma terminal_keeps now gone body sig ok del rm :
  rm_pending rm = None -> calm now rm -> ledgered now gone rm ->
  calm now (snd (fetch_terminal secret body sig ok del rm))
  /\ ledgered now gone (snd (fetch_terminal secret body sig ok del rm)).
Proof.
  intros Hp C L. unfold fetch_terminal. destruct (verifyTransferTerminalControl _ _ _) as [t|]; [|done].
  destruct (metadata rm) as [m|] eqn:M; [|done]. destruct (_ || _); [done |]. destruct (_ || _); [done |].
  assert (forall rm1, calm now rm1 -> shut now rm1 -> rm_failed rm1 = rm_failed rm -> rm_consumed rm1 = rm_consumed rm ->
    rm_store_tickets rm1 = rm_store_tickets rm -> rm_pending rm1 = rm_pending rm ->
    let rm2 := snd (if del then (200, rm1 <| rm_store_tickets := None |> <| rm_consumed := ∅ |>) else (503, rm1)) in
    calm now rm2 /\ ledgered now gone rm2) as K.
  { intros rm1 C1 S1 F1 K1 T1 P1. assert (ledgered now gone rm1) as L1 by (by apply (ledgered_keep now gone rm)).
    destruct del; [|by split]. cbn [snd]. split; [by apply (calm_view now rm1) |].
    apply (ledgered_shut now gone rm1); try done; [apply L1 | by apply (calm_view now rm1) |].
    right. split; [done | congruence]. }
  case_bool_decide as Dn; [apply K; try done; apply (ca_settled _ _ C m M); by right |].
  destruct ok; [|done]. apply K; try done; [apply calm_fresh |].
  - pose proof (ca_same _ _ C) as S. rewrite M in S. destruct (rm_store_metadata rm); [|done].
    destruct S as [(_ & _ & _ & _ & _ & _ & _ & _ & E)%agrees_fields D]. cbn. lia.
  - apply (shut_same now (m <| md_state := RoomCompleted |>)); [done | done | by intros r [= <-] |].
    by right; left.
Qed.

Lemma alarm_keeps now gone ok del rm :
  calm now rm -> ledgered now gone rm -> calm now (alarm now ok del rm) /\ ledgered now gone (alarm now ok del rm).
Proof.
  intros C L. pose proof (alarm_in_step now ok del rm (ca_step _ _ C)) as I. revert I. unfold alarm.
  destruct (metadata rm) as [m|] eqn:M; [|done]. destruct (Z.ltb_spec now (md_transfer_expires_at m)) as [|D]; [done |].
  pose proof (deadline_shut _ _ _ C M D) as Sh. pose proof C as [W _ S _]. rewrite M in S.
  destruct (rm_store_metadata rm) as [st|] eqn:St; [|done]. destruct S as [A P].
  pose proof (agrees_fields _ _ A) as (_ & _ & _ & _ & _ & _ & _ & _ & E).
  set (m' := m <| md_state := RoomExpired |>). intros I.
  assert (metadata (expire_metadata m rm) = Some m') as M'.
  { unfold expire_metadata. unfold metadata in *. destruct (rm_shared rm) eqn:Q; cbn; rewrite Q; [|done].
    by destruct (rm_router rm). }
  assert (forall r, rm_router (expire_metadata m rm) = Some r -> ro_broken r = false) as W'.
  { unfold expire_metadata. destruct (rm_shared rm); cbn; [|done].
    destruct (rm_router rm) as [q|]; [|done]. intros r [= <-]. exact (W q eq_refl). }
  assert (agrees m' st) as As by (etrans; [symmetry; apply agrees_state | exact A]).
  assert (forall x, metadata x = Some m' -> (forall r, rm_router x = Some r -> ro_broken r = false) ->
    (rm_store_metadata x = Some st \/ rm_store_metadata x = Some m') -> in_step x -> calm now x /\ shut now x) as K.
  { intros x Mx Wx Sx Ix. assert (calm now x) as Cx; [|split; [done | by apply (deadline_shut _ _ m')]].
    split; [done | done | |].
    - rewrite Mx. destruct Sx as [->| ->]; (split; [done | cbn; lia]).
    - rewrite Mx. by intros n [= <-] [X|X]. }
  assert (rm_failed (expire_metadata m rm) = rm_failed rm /\ rm_consumed (expire_metadata m rm) = rm_consumed rm
    /\ rm_store_tickets (expire_metadata m rm) = rm_store_tickets rm
    /\ rm_pending (expire_metadata m rm) = rm_pending rm
    /\ rm_store_metadata (expire_metadata m rm) = rm_store_metadata rm) as (F1 & F2 & F3 & F4 & F5)
    by (unfold expire_metadata; by destruct (rm_shared rm)).
  revert I M' W' F1 F2 F3 F4 F5. generalize (expire_metadata m rm). intros x I M' W' F1 F2 F3 F4 F5.
  destruct ok; cbn [negb] in *; [destruct del|].
  - destruct ((fun Mx Wx Sx => K _ Mx Wx Sx I) M' W' (or_intror eq_refl)) as [Cx Sx]. split; [done |].
    apply (ledgered_shut now gone rm); try done; [cbn; rewrite F1; apply L | by left].
  - destruct ((fun Mx Wx Sx => K _ Mx Wx Sx I) M' W' (or_intror eq_refl)) as [Cx Sx]. split; [done |]. by apply (ledgered_keep now gone rm).
  - destruct (K _ M' W' ltac:(left; congruence) I) as [Cx Sx]. split; [done |]. by apply (ledgered_keep now gone rm).
Qed.

Lemma detach_same role id r :
  ro_metadata (detach role id r) = ro_metadata r /\ ro_broken (detach role id r) = ro_broken r.
Proof. unfold detach. destruct (peer_of role r); [|done]. destruct (String.eqb _ _); [|done]. by destruct role. Qed.

Lemma close_keeps now gone a rm :
  calm now rm -> ledgered now gone rm -> calm now (webSocketClose now a rm) /\ ledgered now gone (webSocketClose now a rm).
Proof.
  intros C L. pose proof (close_in_step now a rm (ca_step _ _ C)) as I. revert I. unfold webSocketClose.
  destruct (rm_router rm) as [r|] eqn:R.
  2:{ intros _. split; [by apply (calm_view now rm) |]. by apply (ledgered_keep now gone rm); [..|apply (calm_view now rm)|]. }
  destruct (validateTransferAttachment _ _ _).
  2:{ intros _. split; [by apply (calm_view now rm) |]. by apply (ledgered_keep now gone rm); [..|apply (calm_view now rm)|]. }
  destruct (detach_same (at_role a) (at_peer_id a) r) as [Md B]. revert Md B. generalize (detach (at_role a) (at_peer_id a) r).
  intros r' Md B I. destruct C as [W _ S T].
  assert (forall x, metadata x = metadata rm -> rm_router x = Some r' -> rm_store_metadata x = rm_store_metadata rm ->
    in_step x -> calm now x /\ (shut now rm -> shut now x)) as K.
  { intros x Mx Rx Sx Ix. assert (shut now rm -> shut now x) as Sh.
    { intros [A D E]. split; rewrite ?Mx, ?Sx, ?Rx; try done. intros q [= <-]. rewrite Md. auto. }
    split; [|done]. split; rewrite ?Mx, ?Sx, ?Rx; eauto.
    - intros q [= <-]. rewrite B. auto.
    - destruct (metadata rm), (rm_store_metadata rm); congruence. }
  destruct ((fun A B D => K _ A B D I)) as [Cx Sx]; [|done|done|].
  - unfold metadata. cbn. rewrite R. destruct (rm_shared rm); [|done]. cbn. by f_equal.
  - split; [done |]. by apply (ledgered_keep now gone rm).
Qed.

Lemma mark_trans now m n k : expired_mark now m n -> expired_mark now n k -> expired_mark now m k.
Proof.
  intros [->|(-> & Ns & D)]; [done |]. intros [->|(-> & _)]; right; by destruct m.
Qed.

Lemma reattach_mark now sockets m r r' out :
  reattach now sockets (Some m) r = (r', out) -> expired_mark now (ro_metadata r) (ro_metadata r').
Proof.
  unfold reattach. generalize (@nil (string * RoomMessage)). revert r.
  induction sockets as [|a sockets IH]; intros r o; cbn [foldl]; [intros [= <- <-]; by left |].
  destruct (validateTransferAttachment a (Some m) now); [|by apply IH].
  destruct (attach now (attachment_peer a) r) as [[res r1] o1] eqn:T. apply attach_mark in T as [K _].
  intros H. eapply mark_trans; [exact K | by eapply IH].
Qed.

(** Reading the stored ledger back. *)
Lemma live_entries_lookup now l k e :
  live_entries now (map_to_list l) !! k = Some e <-> (l : gmap string Z) !! k = Some e /\ now < e.
Proof.
  assert (forall es (acc : gmap string Z), NoDup es.*1 -> (forall k e, (k, e) ∈ es -> acc !! k = None) ->
    forall k e, foldl (fun m '(k, e) => if now <? e then <[k := e]> m else m) acc es !! k = Some e
      <-> acc !! k = Some e \/ ((k, e) ∈ es /\ now < e)) as K.
  { clear. induction es as [|[k0 e0] es IH]; intros acc N A k e; cbn [foldl].
    { split; [auto | intros [?|[[]%elem_of_nil _]]; done]. }
    cbn in N. apply NoDup_cons in N as [N0 N]. rewrite list_elem_of_fmap in N0.
    destruct (Z.ltb_spec now e0).
    - rewrite IH; [|done|].
      + pose proof (A k0 e0 ltac:(left)) as A0. rewrite elem_of_cons. destruct (decide (k = k0)) as [->|Nk].
        * rewrite lookup_insert_eq, A0. split.
          -- intros [[= <-]|[X ?]]; [auto | destruct N0; by exists (k0, e)].
          -- intros [?|[[[= <-]|X] ?]]; [done | auto | destruct N0; by exists (k0, e)].
        * rewrite lookup_insert_ne by done. naive_solver.
      + intros k1 e1 H1. rewrite lookup_insert_ne; [by eapply A; right|]. intros ->. destruct N0. by exists (k1, e1).
    - rewrite IH; [|done| intros; eapply A; by right]. rewrite elem_of_cons. naive_solver lia. }
  unfold live_entries. rewrite K; [|apply NoDup_fst_map_to_list | intros; apply lookup_empty].
  rewrite lookup_empty, elem_of_map_to_list. naive_solver.
Qed.

Lemma entries_ok now (l : gmap string Z) :
  (forall k e, l !! k = Some e -> entry_ok now k e) -> forallb (replay_entry_ok now) (map_to_list l) = true.
Proof.
  intros H. apply Is_true_true, forallb_True, Forall_forall. intros [k e] Hin%elem_of_map_to_list.
  destruct (H k e Hin) as (Hh & [? ?] & ?). unfold replay_entry_ok, is_safe_integer, fst, snd. rewrite Hh. cbn [andb].
  apply Is_true_true. rewrite !andb_true_iff, !Z.leb_le. split_and!; lia.
Qed.

Lemma restore_keeps now gone rm :
  calm now rm -> ledgered now gone rm -> calm now (fst (restore now rm)) /\ ledgered now gone (fst (restore now rm)).
Proof.
  intros C [A Me (l & El & Sz & Lo & G) Pe]. destruct (restore now rm) as [rm' out] eqn:H. cbn [fst].
  pose proof (restore_in_step _ _ _ _ H) as [I _]. unfold restore in H. change (match rm_store_tickets rm with Some l => l | None => [] end) with (stored_entries rm) in H.
  rewrite El, (entries_ok now l Lo), orb_false_r in H. unfold zlen in H. rewrite length_map_to_list in H.
  rewrite (proj2 (Z.ltb_ge _ _) Sz) in H.
  assert (forall x, calm now x -> (shut now rm -> shut now x) -> rm_failed x = false -> rm_pending x = None ->
    rm_consumed x = live_entries now (map_to_list l) -> rm_store_tickets x = rm_store_tickets rm ->
    calm now x /\ ledgered now gone x) as K.
  { intros x Cx Sx F P Co T. split; [done |]. split; rewrite ?F, ?P, ?Co; try done.
    - intros k e [Hk _]%live_entries_lookup. eauto.
    - exists l. unfold stored_entries in *. rewrite T. split_and!; try done. intros c Hc.
      destruct (G c Hc) as [?|[?|[H1 H2]]]; [auto | auto |]. destruct (Z.le_gt_cases (tk_ticket_exp c) now); [auto |].
      right; right. split; [by apply live_entries_lookup | done]. }
  pose proof (ca_same _ _ C) as S. destruct (rm_store_metadata rm) as [m|] eqn:St.
  2:{ injection H as <- _. apply K; try done; [split; cbn; try done; by rewrite St |]. intros [_ (s & Hs & _) _]. congruence. }
  destruct (reattach _ _ _ _) as [r o] eqn:R. injection H as <- _.
  pose proof (reattach_mark _ _ _ _ _ _ R) as Mk. apply reattach_agrees in R as (Ag & B & _); [|done|done|apply new_router_escorted].
  assert (0 < md_transfer_expires_at m) as D by (destruct (metadata rm); [apply S | done]).
  assert (forall x, metadata x = Some (ro_metadata r) -> rm_store_metadata x = Some m -> rm_router x = Some r ->
    closed now m -> shut now x) as Sh.
  { intros x Mx Sx Rx Cl. pose proof (mark_closed _ _ _ Mk Cl). split; [eauto | eauto |]. intros q Hq. congruence. }
  apply K; try done.
  - split; [by intros q [= <-] | done | |].
    + cbn. rewrite St. by split.
    + intros n [= <-] Sn. apply Sh; try done. apply settled_closed. by rewrite (mark_settled _ _ _ Mk Sn) in Sn.
  - intros [_ (s & Hs & Cl) _]. rewrite St in Hs. injection Hs as <-. by apply Sh.
Qed.

Ltac view_of V :=
  match goal with |- calm _ ?x /\ _ => destruct (V x eq_refl eq_refl eq_refl) as [? ?] end.

(** [consume] refuses a ticket in the ledger, and writes a new one down. *)
Lemma consume_keeps now gone ok c rm st rm' :
  rm_pending rm = Some c -> calm now rm -> ledgered now gone rm ->
  consume ok c (rm <| rm_pending := None |>) = (st, rm') ->
  calm now rm' /\ rm_router rm' = rm_router rm
  /\ match st with
     | None => (c ∉ gone) /\ ledgered now (c :: gone) rm'
     | Some _ => ledgered now gone rm'
     end.
Proof.
  intros P C [A Me (l & El & Sz & Lo & G) Pe]. destruct (Pe c P) as (E & D & Used). unfold consume.
  change (ticketReplayKey (tk_transfer_id c) (tk_jti c)) with (ticket_key c). cbn [rm_consumed update]. unfold update; cbn.
  assert (forall x, metadata x = metadata rm -> rm_router x = rm_router rm -> rm_store_metadata x = rm_store_metadata rm ->
    calm now x /\ (shut now rm -> shut now x)) as V by (intros x ? ? ?; split; by apply (calm_view now rm)).
  destruct (rm_consumed rm !! ticket_key c) as [e|] eqn:Q; cbn [orb].
  { intros [= <- <-]. view_of V. split_and!; try done.
    split; try done. exists l. split_and!; try done. intros c' Hc. destruct (G c' Hc) as [?|[?|?]]; auto. }
  destruct (MAX_TICKET_REPLAYS <=? map_len (rm_consumed rm)) eqn:Full.
  { intros [= <- <-]. view_of V. split_and!; try done.
    split; try done. exists l. split_and!; try done. intros c' Hc. destruct (G c' Hc) as [?|[?|?]]; auto. }
  assert (forall k e, <[ticket_key c:=tk_ticket_exp c]> (rm_consumed rm) !! k = Some e -> entry_ok now k e) as Me'
    by (intros k e [[<- <-]|[_ ?]]%lookup_insert_Some; eauto).
  assert (forall c', rm_consumed rm !! ticket_key c' = Some (tk_ticket_exp c') ->
    <[ticket_key c:=tk_ticket_exp c]> (rm_consumed rm) !! ticket_key c' = Some (tk_ticket_exp c')) as Keep
    by (intros c' Hc; rewrite lookup_insert_ne; congruence).
  destruct ok; intros [= <- <-]; view_of V; split_and!; try done.
  - intros (e & He)%Used. congruence.
  - split; try done. exists (<[ticket_key c:=tk_ticket_exp c]> (rm_consumed rm)). split_and!; try done.
    + rewrite map_size_insert, Q. apply Z.leb_gt in Full. unfold map_len in Full. lia.
    + intros c' [->|Hc]%elem_of_cons; [right; right; cbn; by rewrite lookup_insert_eq |].
      destruct (G c' Hc) as [?|[?|[? ?]]]; auto.
  - split; try done. exists l. split_and!; try done. intros c' Hc. destruct (G c' Hc) as [?|[?|[? ?]]]; auto.
Qed.

Lemma create_keeps now gone ok al c rm st rm' :
  0 < tk_transfer_expires_at c -> calm now rm -> ledgered now gone rm -> create_metadata ok al c rm = (st, rm') ->
  calm now rm' /\ ledgered now gone rm'.
Proof.
  intros D C L. unfold create_metadata. pose proof (ca_same _ _ C) as S.
  destruct (metadata rm) as [m|] eqn:M; [by intros [= <- <-] |].
  destruct ok; cbn [negb]; [|by intros [= <- <-]].
  assert (forall x, shut now rm -> shut now x) as Sh by (intros x [(m & M' & _) _ _]; congruence).
  destruct (rm_store_metadata rm); [done |].
  destruct al; intros [= <- <-]; (split; [|by apply (ledgered_keep now gone rm); auto]).
  - by apply calm_fresh.
  - split; [intros r R | intros r R | cbn; done | intros m [= <-] [X|X]; discriminate X]; exfalso; cbn in R; congruence.
Qed.

Lemma finish_keeps now gone peer_id t ok al rm :
  calm now rm -> ledgered now gone rm ->
  let u := used_by (EvFinish peer_id t ok al) rm in
  let rm' := snd (fst (fetch_finish now peer_id t ok al rm)) in
  (forall c, u = Some c -> c ∉ gone) /\ calm now rm' /\ ledgered now (option_list u ++ gone) rm'.
Proof.
  intros C L. unfold used_by, fetch_finish. rewrite (le_alive _ _ _ L).
  destruct (rm_pending rm) as [c|] eqn:P; [|done]. pose proof (le_pending _ _ _ L c P) as (_ & D & _).
  destruct (consume t c _) as [st rm1] eqn:K.
  destruct (consume_keeps _ _ _ _ _ _ _ P C L K) as (C1 & _ & R). cbn [fst].
  destruct st; [done |]. destruct R as [N L1]. split; [by intros x [= <-] |]. cbn [option_list app].
  destruct (create_metadata ok al c rm1) as [st rm2] eqn:Cr.
  destruct (create_keeps _ _ _ _ _ _ _ _ D C1 L1 Cr) as [C2 L2]. destruct st; [done |].
  assert (forall x, metadata x = metadata rm2 -> rm_router x = rm_router rm2 -> rm_store_metadata x = rm_store_metadata rm2 ->
    rm_failed x = rm_failed rm2 -> rm_consumed x = rm_consumed rm2 -> rm_store_tickets x = rm_store_tickets rm2 ->
    rm_pending x = rm_pending rm2 -> calm now x /\ ledgered now (c :: gone) x) as V.
  { intros x X1 X2 X3 X4 X5 X6 X7. split; [by apply (calm_view now rm2) |].
    apply (ledgered_keep now (c :: gone) rm2); try done. by apply (calm_view now rm2). }
  match goal with |- context [rm_router ?y] =>
    destruct (V y eq_refl eq_refl eq_refl eq_refl eq_refl eq_refl eq_refl) as [C3 L3]; revert C3 L3; generalize y end.
  intros rm3 C3 L3. destruct (rm_router rm3) as [r|] eqn:R; [|done].
  destruct (attach _ _ r) as [[res r'] o] eqn:A. cbn [fst snd].
  destruct (calm_attach _ _ _ _ _ _ _ C3 R A) as [C4 S4]. split; [done |]. by apply (ledgered_keep now (c :: gone) rm3).
Qed.

Lemma event_keeps now gone ev rm :
  0 <= now -> match ev with EvMessage _ _ ok => ok = true | _ => True end -> calm now rm -> ledgered now gone rm ->
  (forall c, used_by ev rm = Some c -> c ∉ gone)
  /\ calm now (fst (room_event secret now ev rm))
  /\ ledgered now (option_list (used_by ev rm) ++ gone) (fst (room_event secret now ev rm)).
Proof.
  intros Hn Ok C L. unfold room_event. rewrite (le_alive _ _ _ L).
  assert ((forall c, used_by ev rm = Some c -> c ∉ gone) /\ (match ev with EvFinish _ _ _ _ => True | _ => used_by ev rm = None end)) as [U N].
  { destruct ev; try done. split; [|done]. by eapply finish_keeps. }
  split; [exact U |]. destruct ev; try rewrite N; cbn [option_list app].
  - by apply restore_keeps.
  - destruct (rm_pending rm) eqn:P; [done |]. by apply admit_keeps.
  - destruct (finish_keeps now gone peer_id tickets_ok put_ok alarm_ok rm C L) as (_ & C' & L').
    destruct (fetch_finish _ _ _ _ _ _) as [[? ?] ?]. by split.
  - destruct (rm_pending rm) eqn:P; [done |]. by apply terminal_keeps.
  - destruct (bool_decide _); [|done]. subst persist_ok. destruct (calm_message now socket raw rm C) as [C' S'].
    split; [done |]. apply (ledgered_keep now gone rm); try done; apply message_ledger.
  - destruct (bool_decide _); [by apply close_keeps | done].
  - by apply alarm_keeps.
Qed.

Lemma used_fresh events t gone rm :
  0 <= t -> clocked t events -> frames_stored events -> calm t rm -> ledgered t gone rm ->
  NoDup (used events rm) /\ forall c, c ∈ used events rm -> c ∉ gone.
Proof.
  revert t gone rm. induction events as [|[now ev] events IH]; intros t gone rm Ht Ck Fs C L; cbn [used].
  { split; [apply NoDup_nil_2 | by intros c ?%elem_of_nil]. }
  destruct Ck as [Hn Ck]. apply Forall_cons in Fs as [F Fs].
  destruct (event_keeps now gone ev rm) as (U & C' & L'); [lia | done | by apply (calm_mono t) | by apply (ledgered_mono t) |].
  destruct (IH now _ _ ltac:(lia) Ck Fs C' L') as [Nd Nin]. destruct (used_by ev rm) as [c|]; [|by split].
  cbn [option_list app] in *. split.
  - apply NoDup_cons_2; [|done]. intros Hc. apply (Nin c Hc). left.
  - intros x [->|Hx]%elem_of_cons; [auto |]. intros G. apply (Nin x Hx). by right.
Qed.

(** C19: an admission ticket admits once.  In every run from an empty room in which the
    clock does not go back and storage takes the metadata of frames, through restarts,
    replays and races, failing writes of the ledger and of admissions, purges of the
    ledger, and its deletion at the terminal control and at the deadline, no ticket is
    used twice. *)
Theorem ticket_used_once events :
  clocked 0 events -> frames_stored events -> NoDup (used events empty_room).
Proof.
  intros Ck Fs. apply (used_fresh events 0 [] empty_room); [done | done | done | |].
  - split; [done | intros r [=] | done | done].
  - split; [done | intros k e; cbn; by rewrite lookup_empty | | done].
    exists ∅. unfold stored_entries. cbn. rewrite map_to_list_empty, map_size_empty.
    split_and!; try done. intros c []%elem_of_nil.
Qed.
End admission.

(** ** Witnesses *)

Definition ticket_items (c : Ticket) : list item :=
  [inl (tk_v c); inr (tk_jti c); inr (tk_session_nonce c); inr (tk_transfer_id c); inr (tk_tenant_id c);
   inr (tk_principal_id c); inr (tk_device_id c); inr (tk_role c); inr (tk_source_device_id c);
   inr (tk_destination_device_id c); inr (tk_source_workspace_id c); inr (tk_destination_workspace_id c);
   inr (tk_plan_sha256 c); inl (tk_epoch c); inl (tk_fence c); inl (tk_max_bytes c); inl (tk_ticket_exp c);
   inl (tk_transfer_expires_at c); inr (tk_source_device_public_key c); inr (tk_destination_device_public_key c);
   inr (tk_source_ephemeral_public_key c); inr (tk_destination_ephemeral_public_key c);
   inr (tk_source_ephemeral_signature c); inr (tk_destination_ephemeral_signature c)].

Definition items_ticket (l : list item) : option Ticket :=
  match l with
  | [inl a; inr b; inr c; inr d; inr e; inr f; inr g; inr h; inr i; inr j; inr k; inr l; inr m; inl n; inl o;
     inl p; inl q; inl r; inr s; inr t; inr u; inr v; inr w; inr x] =>
      Some {| tk_v := a; tk_jti := b; tk_session_nonce := c; tk_transfer_id := d; tk_tenant_id := e;
              tk_principal_id := f; tk_device_id := g; tk_role := h; tk_source_device_id := i;
              tk_destination_device_id := j; tk_source_workspace_id := k; tk_destination_workspace_id := l;
              tk_plan_sha256 := m; tk_epoch := n; tk_fence := o; tk_max_bytes := p; tk_ticket_exp := q;
              tk_transfer_expires_at := r; tk_source_device_public_key := s;
              tk_destination_device_public_key := t; tk_source_ephemeral_public_key := u;
              tk_destination_ephemeral_public_key := v; tk_source_ephemeral_signature := w;
              tk_destination_ephemeral_signature := x |}
  | _ => None
  end.

Lemma items_ticket_items c : (read_items 24 (write_items (ticket_items c)) ≫= items_ticket) = Some c.
Proof. rewrite read_write_items by (cbn; lia). by destruct c. Qed.

Definition control_items (c : TransferTerminalControl) : list item :=
  [inl (cl_v c); inr (cl_transfer_id c); inr (cl_plan_sha256 c); inl (cl_epoch c); inl (cl_fence c);
   inr (cl_artifact_sha256 c)].

Definition items_control (l : list item) : option TransferTerminalControl :=
  match l with
  | [inl a; inr b; inr c; inl d; inl e; inr f] =>
      Some {| cl_v := a; cl_transfer_id := b; cl_plan_sha256 := c; cl_epoch := d; cl_fence := e;
              cl_artifact_sha256 := f |}
  | _ => None
  end.

Lemma items_control_items c : (read_items 6 (write_items (control_items c)) ≫= items_control) = Some c.
Proof. rewrite read_write_items by (cbn; lia). by destruct c. Qed.

(** Frames as flat lists of keys and scalars. *)
Fixpoint item_fields (l : list item) : list (string * js) :=
  match l with
  | inr k :: inl z :: rest => (k, JsNumber (Some z)) :: item_fields rest
  | inr k :: inr s :: rest => (k, JsString s) :: item_fields rest
  | _ => []
  end.

#[export] Instance plain_worker : WorkerHost := {|
  JSON_parse s := l ← read_items 64 s; Some (JsObject (item_fields l));
  string_to_number _ := None;
  hmac k m := rolling_sha256 (k +:+ m);
  ticket_json c := write_items (ticket_items c);
  ticket_parse s := read_items 24 s ≫= items_ticket;
  ticket_json_parse := items_ticket_items;
  control_json c := write_items (control_items c);
  control_parse s := read_items 6 s ≫= items_control;
  control_json_parse := items_control_items
|}.

Definition sample_raw : string :=
  match issueTransferTicket "k" 1000000 sample_ticket with Some raw => raw | None => "" end.

(** The ticket is shown, shown again, shown after a restart and after a purge. *)
Definition replays : list (Z * RoomEvent) :=
  [(1000000, EvFetch sample_raw true); (1000000, EvFinish "p1" true true true);
   (1000001, EvFetch sample_raw true); (1000001, EvFinish "p2" true true true);
   (1000002, EvRestart); (1000003, EvClose (ticket_attachment "p1" sample_ticket));
   (1000004, EvFetch sample_raw true); (1000004, EvFinish "p3" true true true)].

Lemma ticket_used_once_witness :
  used "k" replays empty_room = [sample_ticket] /\ NoDup (used "k" replays empty_room).
Proof.
  split; [vm_compute; reflexivity |].
  apply (ticket_used_once "k" replays); [cbn; lia | repeat apply Forall_cons_2; done].
Defined.

(** The two tickets of an empty file: [finish_ack] is due at once. *)
Definition empty_ticket (jti role device_id : string) : Ticket :=
  let t := sample_ticket in
  {| tk_v := 1; tk_jti := jti; tk_session_nonce := tk_session_nonce t; tk_transfer_id := tk_transfer_id t;
     tk_tenant_id := tk_tenant_id t; tk_principal_id := tk_principal_id t; tk_device_id := device_id;
     tk_role := role; tk_source_device_id := tk_source_device_id t;
     tk_destination_device_id := tk_destination_device_id t;
     tk_source_workspace_id := tk_source_workspace_id t;
     tk_destination_workspace_id := tk_destination_workspace_id t; tk_plan_sha256 := tk_plan_sha256 t;
     tk_epoch := 1; tk_fence := 1; tk_max_bytes := 0; tk_ticket_exp := tk_ticket_exp t;
     tk_transfer_expires_at := tk_transfer_expires_at t;
     tk_source_device_public_key := tk_source_device_public_key t;
     tk_destination_device_public_key := tk_destination_device_public_key t;
     tk_source_ephemeral_public_key := tk_source_ephemeral_public_key t;
     tk_destination_ephemeral_public_key := tk_destination_ephemeral_public_key t;
     tk_source_ephemeral_signature := tk_source_ephemeral_signature t;
     tk_destination_ephemeral_signature := tk_destination_ephemeral_signature t |}.

Definition empty_source : Ticket := empty_ticket "j1" "source" "dev1".
Definition empty_destination : Ticket := empty_ticket "j2" "destination" "dev2".

Definition issued (c : Ticket) : string :=
  match issueTransferTicket "k" 1000000 c with Some raw => raw | None => "" end.

Definition finish_ack_frame : string :=
  write_items [inr "protocol"; inr TRANSFER_PROTOCOL; inr "type"; inr "finish_ack"; inr "transfer_id";
    inr (tk_transfer_id sample_ticket); inr "epoch"; inl 1; inr "fence"; inl 1; inr "plan_sha256";
    inr (tk_plan_sha256 sample_ticket)].

Definition published_control : string * string :=
  match issueTransferTerminalControl "k"
    {| cl_v := 1; cl_transfer_id := tk_transfer_id sample_ticket; cl_plan_sha256 := tk_plan_sha256 sample_ticket;
       cl_epoch := 1; cl_fence := 1; cl_artifact_sha256 := tk_plan_sha256 sample_ticket |} with
  | Some p => p
  | None => ("", "")
  end.

(** Both peers join and the write behind the destination's [finish_ack] fails. *)
Definition unstored_finish : list (Z * RoomEvent) :=
  [(1000000, EvFetch (issued empty_source) true); (1000000, EvFinish "p1" true true true);
   (1000001, EvFetch (issued empty_destination) true); (1000001, EvFinish "p2" true true true);
   (1000002, EvMessage (ticket_attachment "p2" empty_destination) finish_ack_frame false)].

(** Then the terminal control, a restart, and the source's ticket once more. *)
Definition unstored_finish_replay : list (Z * RoomEvent) :=
  unstored_finish ++
  [(1000003, EvTerminal (fst published_control) (snd published_control) true true); (1000004, EvRestart);
   (1000005, EvClose (ticket_attachment "p1" empty_source));
   (1000006, EvFetch (issued empty_source) true); (1000006, EvFinish "p3" true true true)].

(** The terminal control may answer without making the completion durable.  After a
    failed write behind [finish_ack] the room still holds the object the router changed
    and reads it as completed, so the control skips the write, deletes the replay ledger
    and answers 200 while storage has the transfer unfinished.  After a restart a used
    ticket is admitted again. *)
Theorem terminal_reply_not_durable :
  let rm := room_run "k" unstored_finish empty_room in
  fst (fetch_terminal "k" (fst published_control) (snd published_control) true true rm) = 200
  /\ option_map md_state
       (rm_store_metadata (snd (fetch_terminal "k" (fst published_control) (snd published_control) true true rm)))
     = Some RoomPrepared
  /\ used "k" unstored_finish_replay empty_room = [empty_source; empty_destination; empty_source].
Proof. split_and!; vm_compute; reflexivity. Qed.
