(* ===== verification/TransferPump.v ===== *)
(** * The transfer pumps of the agent

    [crates/ownmeshd/src/agent_transport.rs]: the two loops that move a file through the
    relay.  A loop is cut where it waits for the socket: it is resumed with the next text,
    or with the error of the transport, of a cancellation, or of the last send.  The
    daemon's transfer handlers are the interface [Runtime]; the texts of JSON values are
    the interface [Serde]. *)

From stdpp Require Import base list strings gmap.
From Stdlib Require Import ZArith Lia Ascii.
From S2P Require Import Prelude RustStr RustBytes Json Transfer TransferCrypto Base64 AgentBase64.

Open Scope Z_scope.

(** ** Frames *)

(** [str::contains] of a literal. *)
Fixpoint contains (s part : string) : bool :=
  starts_with s part || match s with EmptyString => false | String _ r => contains r part end.

(** [serde_json::from_str] and [Value::to_string]. *)
Class Serde : Type := {
  serde_from_str : string -> option Value;
  serde_to_string : Value -> string
}.

Definition as_u64 (v : Value) : option Z := match v with Number (PosInt n) => Some n | _ => None end.
Definition json_u64 (n : Z) : Value := Number (PosInt n).

Definition get_text (o : gmap string Value) (key : string) : option string := o !! key ≫= as_str.
Definition get_num (o : gmap string Value) (key : string) : option Z := o !! key ≫= as_u64.

Definition is_text (o : gmap string Value) (key s : string) : bool :=
  match get_text o key with Some t => String.eqb t s | None => false end.
Definition is_num (o : gmap string Value) (key : string) (n : Z) : bool :=
  match get_num o key with Some m => m =? n | None => false end.

Definition PROTOCOL : string := "ownmesh.transfer/1.0".

Definition transfer_frame_binding (value : gmap string Value) (t : Ticket) : bool :=
  is_text value "protocol" PROTOCOL && is_text value "transfer_id" (tk_transfer_id t)
  && is_num value "epoch" (tk_epoch t) && is_num value "fence" (tk_fence t)
  && is_text value "plan_sha256" (tk_plan_sha256 t).

Inductive TransferSessionFailure : Type := Reconnect | SessionCancelled | SessionTerminal.

Definition classify_transfer_failure (error : string) : TransferSessionFailure :=
  if contains error "transfer lease is held by another owner" || contains error "journal lease or fence is stale"
  then Reconnect
  else if String.eqb error "transfer cancelled" then SessionCancelled
  else if existsb (String.eqb error)
            ["transfer socket closed; fresh ticket required for reconnect";
             "transfer socket failed; fresh ticket required for reconnect"; "transfer socket ACK timeout";
             "transfer send failed"; "transfer ACK send failed"; "transfer finish send failed";
             "transfer finish acknowledgement send failed";
             "transfer peer unavailable; fresh ticket required for reconnect"; "source cleanup pending"]
  then Reconnect
  else SessionTerminal.

Definition transfer_room_reconnect_signal (frame : gmap string Value) : bool :=
  Nat.eqb (size frame) 3 && is_text frame "protocol" PROTOCOL && is_text frame "type" "error"
  && (is_text frame "code" "destination_offline" || is_text frame "code" "peer_unavailable").

Definition reject_transfer_room_reconnect_signal (frame : gmap string Value) : result unit string :=
  guard_err (transfer_room_reconnect_signal frame)
    "transfer peer unavailable; fresh ticket required for reconnect".

(** ** The loops *)

(** The daemon's transfer methods, behind its lock. *)
Class Runtime (R : Type) : Type := call : string -> Value -> R -> result Value string * R.

(** A loop that waits, with what it sends first, or that has returned. *)
Inductive Pump (W : Type) : Type :=
| Waiting (send : list string) (at_ : W)
| Returned (send : list string) (outcome : result Value string).
Arguments Waiting {W} _ _.
Arguments Returned {W} _ _.

Definition fails {W} (e : string) : Pump W := Returned [] (Err e).

(** What both loops are given. *)
Record Session : Type := {
  ss_ticket : Ticket;
  ss_cipher : TransferCipher;
  ss_plan_id : string
}.

Section pumps.
Context {DG : Digests} {CI : Ciphers} {SE : Serde} {R : Type} {RT : Runtime R}.

Definition parse_object (raw e : string) : result (gmap string Value) string :=
  let? v := ok_or (serde_from_str raw) e in ok_or (as_object v) e.

Definition transfer_ready_cursor (t : Ticket) (input : result string string) : result (Z * Z) string :=
  let? raw := input in
  let? object := parse_object raw "invalid transfer ready frame" in
  reject_transfer_room_reconnect_signal object ;?
  guard_err (negb (is_text object "type" "ready") || negb (transfer_frame_binding object t))
    "transfer ready binding mismatch" ;?
  let? sequence := ok_or (get_num object "next_sequence") "transfer ready cursor missing" in
  let? offset := ok_or (get_num object "next_offset") "transfer ready cursor missing" in
  guard_err (tk_max_bytes t <? offset) "transfer ready cursor exceeds plan" ;?
  Ok (sequence, offset).

(** The members every frame of the agent has. *)
Definition frame_members (t : Ticket) (kind : string) : list (string * Value) :=
  [("protocol", JString PROTOCOL); ("type", JString kind); ("transfer_id", JString (tk_transfer_id t));
   ("epoch", json_u64 (tk_epoch t)); ("fence", json_u64 (tk_fence t)); ("plan_sha256", JString (tk_plan_sha256 t))].

Definition frame_text (t : Ticket) (kind : string) (more : list (string * Value)) : string :=
  serde_to_string (json_object (frame_members t kind ++ more)).

(** Where the source waits: for the acknowledgement of a chunk, or of the end. *)
Inductive SourceWait : Type :=
| AwaitAck (sequence offset : Z) (chunk : TransferChunk)
| AwaitFinishAck.

(** The chunk in a reply of the handler. *)
Definition source_chunk_of (sequence offset : Z) (reply : Value) : result TransferChunk string :=
  let? raw := ok_or (get_str reply "frame_base64") "source chunk frame missing" in
  let? bytes := b64_standard_decode raw in
  let? chunk := map_err transfer_to_string (chunk_decode bytes) in
  guard_err (negb (ch_sequence chunk =? sequence) || negb (ch_offset chunk =? offset))
    "source emitted non-contiguous chunk" ;?
  Ok chunk.

(** A chunk, sealed and framed. *)
Definition chunk_frame (ss : Session) (chunk : TransferChunk) : result string string :=
  let? ciphertext := seal (ss_cipher ss) (ch_sequence chunk) (ch_offset chunk) (ch_sha256 chunk) (ch_bytes chunk) in
  Ok (frame_text (ss_ticket ss) "chunk"
        [("sequence", json_u64 (ch_sequence chunk)); ("offset", json_u64 (ch_offset chunk));
         ("length", json_u64 (str_len (ch_bytes chunk)));
         ("ciphertext_base64", JString (b64_standard_encode ciphertext));
         ("chunk_sha256", JString (ch_sha256 chunk))]).

(** The top of the source's loop, up to where it waits. *)
Definition source_turn (ss : Session) (sequence offset : Z) (rt : R) : Pump SourceWait * R :=
  let t := ss_ticket ss in
  match call "transfer.source_chunk"
          (json_object [("plan_id", JString (ss_plan_id ss)); ("sequence", json_u64 sequence)]) rt with
  | (Err e, rt) => (fails e, rt)
  | (Ok reply, rt) =>
      if match get reply "eof" with Some (JBool true) => true | _ => false end then
        if negb (offset =? tk_max_bytes t) then (fails "source ended before immutable transfer size", rt)
        else (Waiting [frame_text t "finish" []] AwaitFinishAck, rt)
      else match (let? chunk := source_chunk_of sequence offset reply in
                  let? frame := chunk_frame ss chunk in Ok (chunk, frame)) with
           | Err e => (fails e, rt)
           | Ok (chunk, frame) => (Waiting [frame] (AwaitAck sequence offset chunk), rt)
           end
  end.

(** [cleanup_source_transfer_state]: up to four attempts. *)
Fixpoint cleanup_source (attempts : nat) (ss : Session) (rt : R) : result unit string * R :=
  match attempts with
  | O => (Err "source cleanup pending", rt)
  | S attempts =>
      let t := ss_ticket ss in
      match call "transfer.cancel"
              (json_object [("plan_id", JString (ss_plan_id ss)); ("epoch", json_u64 (tk_epoch t));
                            ("fence", json_u64 (tk_fence t))]) rt with
      | (Ok _, rt) => (Ok tt, rt)
      | (Err _, rt) => cleanup_source attempts ss rt
      end
  end.

Definition cleanup_source_transfer_state (ss : Session) (rt : R) : result unit string * R := cleanup_source 4 ss rt.

(** Before the loop: the handler opens the source at the relay's cursor. *)
Definition run_source_transfer_pump (ss : Session) (cursor : Z * Z) (rt : R) : Pump SourceWait * R :=
  let t := ss_ticket ss in
  match call "transfer.source_open"
          (json_object [("plan_id", JString (ss_plan_id ss)); ("sequence", json_u64 (fst cursor));
                        ("offset", json_u64 (snd cursor)); ("workspace_id", JString (tk_source_workspace_id t))]) rt with
  | (Err e, rt) => (fails e, rt)
  | (Ok opened, rt) =>
      match get opened "next_sequence" ≫= as_u64, get opened "next_offset" ≫= as_u64 with
      | Some sequence, Some offset =>
          if negb ((sequence =? fst cursor) && (offset =? snd cursor))
          then (fails "source durable cursor differs from transfer room", rt)
          else source_turn ss sequence offset rt
      | _, _ => (fails "source cursor missing", rt)
      end
  end.

Definition ack_matches (t : Ticket) (object : gmap string Value) (sequence next_offset : Z) : bool :=
  is_text object "type" "ack" && transfer_frame_binding object t && is_num object "sequence" sequence
  && is_num object "next_offset" next_offset.

(** The loop, from where it waited. *)
Definition source_resume (ss : Session) (w : SourceWait) (input : result string string) (rt : R)
  : Pump SourceWait * R :=
  let t := ss_ticket ss in
  match w with
  | AwaitAck sequence offset chunk =>
      let next_offset := wrap_u64 (offset + str_len (ch_bytes chunk)) in
      match (let? raw := input in
             let? object := parse_object raw "invalid transfer ACK" in
             reject_transfer_room_reconnect_signal object ;?
             guard_err (negb (ack_matches t object sequence next_offset))
               "transfer ACK binding mismatch") with
      | Err e => (fails e, rt)
      | Ok _ => source_turn ss (wrap_u64 (sequence + 1)) next_offset rt
      end
  | AwaitFinishAck =>
      match (let? raw := input in
             let? object := parse_object raw "invalid transfer finish acknowledgement" in
             reject_transfer_room_reconnect_signal object ;?
             guard_err (negb (is_text object "type" "finish_ack") || negb (transfer_frame_binding object t))
               "transfer finish acknowledgement binding mismatch") with
      | Err e => (fails e, rt)
      | Ok _ =>
          match cleanup_source_transfer_state ss rt with
          | (Err e, rt) => (fails e, rt)
          | (Ok _, rt) =>
              (Returned [] (Ok (json_object
                 [("transfer_id", JString (tk_transfer_id t)); ("state", JString "source_finished");
                  ("plan_sha256", JString (tk_plan_sha256 t))])), rt)
          end
      end
  end.

(** Where the destination waits: for the frame after what it has. *)
Record DestinationWait : Type := {
  dw_sequence : Z;
  dw_offset : Z
}.

Definition run_destination_transfer_pump (ss : Session) (cursor : Z * Z) (rt : R) : Pump DestinationWait * R :=
  let t := ss_ticket ss in
  match call "transfer.destination_prepare"
          (json_object [("plan_id", JString (ss_plan_id ss)); ("epoch", json_u64 (tk_epoch t));
                        ("fence", json_u64 (tk_fence t)); ("next_sequence", json_u64 (fst cursor));
                        ("next_offset", json_u64 (snd cursor));
                        ("workspace_id", JString (tk_destination_workspace_id t))]) rt with
  | (Err e, rt) => (fails e, rt)
  | (Ok prepared, rt) =>
      match get prepared "next_sequence" ≫= as_u64, get prepared "next_offset" ≫= as_u64 with
      | Some sequence, Some offset =>
          if negb ((sequence =? fst cursor) && (offset =? snd cursor))
          then (fails "destination durable cursor differs from transfer room", rt)
          else (Waiting [] {| dw_sequence := sequence; dw_offset := offset |}, rt)
      | _, _ => (fails "destination cursor missing", rt)
      end
  end.

(** The chunk in a frame, decrypted and checked against the expected cursor. *)
Definition destination_open (ss : Session) (w : DestinationWait) (object : gmap string Value)
  : result (TransferChunk * Z) string :=
  let? sequence := ok_or (get_num object "sequence") "chunk sequence missing" in
  let? offset := ok_or (get_num object "offset") "chunk offset missing" in
  let? length := ok_or (get_num object "length") "chunk length invalid" in
  guard_err (negb ((0 <? length) && (length <=? 64 * 1024))) "chunk length invalid" ;?
  let? sha := ok_or (get_text object "chunk_sha256") "chunk hash missing" in
  let? text := ok_or (get_text object "ciphertext_base64") "ciphertext missing" in
  let? encrypted := b64_standard_decode text in
  guard_err (negb (sequence =? dw_sequence w) || negb (offset =? dw_offset w)) "destination chunk is not contiguous" ;?
  let? plaintext := open (ss_cipher ss) sequence offset length sha encrypted in
  let? chunk := map_err transfer_to_string (chunk_new sequence offset plaintext) in
  Ok (chunk, length).

(** What a text asks for. *)
Inductive DestinationAction : Type :=
| ActFinish
| ActChunk (chunk : TransferChunk) (length : Z) (frame : string).

Definition destination_action (ss : Session) (w : DestinationWait) (input : result string string)
  : result DestinationAction string :=
  let t := ss_ticket ss in
  let? raw := input in
  let? object := parse_object raw "invalid transfer frame" in
  reject_transfer_room_reconnect_signal object ;?
  if is_text object "type" "cancel" then
    Err (if transfer_frame_binding object t then "transfer cancelled" else "transfer cancel binding mismatch")
  else if is_text object "type" "finish" then
    guard_err (negb (transfer_frame_binding object t)) "transfer finish binding mismatch" ;?
    guard_err (negb (dw_offset w =? tk_max_bytes t)) "transfer finish before durable destination completion" ;?
    Ok ActFinish
  else
    guard_err (negb (is_text object "type" "chunk") || negb (transfer_frame_binding object t))
      "transfer frame binding mismatch" ;?
    let? opened := destination_open ss w object in
    let? frame := map_err transfer_to_string (chunk_encode (fst opened)) in
    Ok (ActChunk (fst opened) (snd opened) frame).

(** The loop, from where it waited.  A chunk is durable before it is acknowledged; a
    [finish] publishes, and a lost acknowledgement of it changes nothing. *)
Definition destination_resume (ss : Session) (w : DestinationWait) (input : result string string) (rt : R)
  : Pump DestinationWait * R :=
  let t := ss_ticket ss in
  match destination_action ss w input with
  | Err e => (fails e, rt)
  | Ok ActFinish =>
      match call "transfer.finalize"
              (json_object [("plan_id", JString (ss_plan_id ss)); ("epoch", json_u64 (tk_epoch t));
                            ("fence", json_u64 (tk_fence t));
                            ("workspace_id", JString (tk_destination_workspace_id t))]) rt with
      | (Err e, rt) => (fails e, rt)
      | (Ok finalized, rt) => (Returned [frame_text t "finish_ack" []] (Ok finalized), rt)
      end
  | Ok (ActChunk chunk length frame) =>
      match call "transfer.destination_chunk"
              (json_object [("plan_id", JString (ss_plan_id ss)); ("epoch", json_u64 (tk_epoch t));
                            ("fence", json_u64 (tk_fence t));
                            ("workspace_id", JString (tk_destination_workspace_id t));
                            ("frame_base64", JString (b64_standard_encode frame))]) rt with
      | (Err e, rt) => (fails e, rt)
      | (Ok saved, rt) =>
          let next_offset := wrap_u64 (ch_offset chunk + length) in
          let ack := frame_text t "ack" [("sequence", json_u64 (ch_sequence chunk)); ("next_offset", json_u64 next_offset)] in
          if match get saved "completed" with Some (JBool true) => true | _ => false end
             && negb (next_offset =? tk_max_bytes t)
          then (Returned [ack] (Err "destination reported completed before immutable transfer size"), rt)
          else (Waiting [ack] {| dw_sequence := wrap_u64 (dw_sequence w + 1); dw_offset := next_offset |}, rt)
      end
  end.
End pumps.
