(* ===== verification/TransferWire.v ===== *)
(** * The texts on the wire

    The agents write and read JSON with [serde_json], the relay with [JSON.parse] and
    [JSON.stringify].  [Wire] states what the two have in common: a flat object of
    strings and safe integers that one of them writes is the same object when another
    reads it.  An instance prints such objects. *)

From stdpp Require Import base list strings gmap.
From Stdlib Require Import ZArith Lia Ascii.
From S2P Require Import Prelude RustStr RustBytes Json Transfer TransferCrypto Js TransferRoom TransferAdmit TransferPump.

Open Scope Z_scope.

Definition flat_value (v : Value) : Prop :=
  match v with JString _ => True | Number (PosInt n) => 0 <= n <= max_safe | _ => False end.

Definition flat (ms : list (string * Value)) : Prop :=
  NoDup ms.*1 /\ Forall (fun m => flat_value (snd m)) ms.

Definition js_of (v : Value) : js :=
  match v with JString s => JsString s | Number (PosInt n) => JsNumber (Some n) | _ => JsNull end.

Definition js_members (ms : list (string * Value)) : list (string * js) := map (fun m => (fst m, js_of (snd m))) ms.

(** The bytes of a character inside a JSON text: one, or an escape. *)
Definition char_cost (c : ascii) : Z := if (32 <=? code c) && negb (code c =? 34) && negb (code c =? 92) then 1 else 6.

Fixpoint string_cost (s : string) : Z :=
  match s with EmptyString => 0 | String c r => char_cost c + string_cost r end.

Definition value_cost (v : Value) : Z := match v with JString s => string_cost s | _ => 20 end.

Fixpoint text_cost (ms : list (string * Value)) : Z :=
  match ms with [] => 2 | (k, v) :: rest => string_cost k + value_cost v + 6 + text_cost rest end.

Class Wire {SE : Serde} {WH : WorkerHost} : Type := {
  JSON_stringify : list (string * js) -> string;
  agent_agent ms : flat ms -> serde_from_str (serde_to_string (json_object ms)) = Some (json_object ms);
  agent_worker ms : flat ms ->
    exists l, JSON_parse (serde_to_string (json_object ms)) = Some (JsObject l) /\ l ≡ₚ js_members ms;
  worker_agent ms : flat ms -> serde_from_str (JSON_stringify (js_members ms)) = Some (json_object ms);
  agent_size ms : flat ms -> str_len (serde_to_string (json_object ms)) <= text_cost ms
}.

(** ** A printer for flat objects *)

Definition quote_char : ascii := byte_of 34.
Definition escape_char : ascii := byte_of 92.

Fixpoint escape (s rest : string) : string :=
  match s with
  | EmptyString => String quote_char rest
  | String c r =>
      if Ascii.eqb c quote_char || Ascii.eqb c escape_char then String escape_char (String c (escape r rest))
      else String c (escape r rest)
  end.

Fixpoint unescape (s : string) : option (string * string) :=
  match s with
  | EmptyString => None
  | String c r =>
      if Ascii.eqb c quote_char then Some ("", r)
      else if Ascii.eqb c escape_char
      then match r with
           | String d r => p ← unescape r; Some (String d (fst p), snd p)
           | EmptyString => None
           end
      else p ← unescape r; Some (String c (fst p), snd p)
  end.

Lemma unescape_escape s rest : unescape (escape s rest) = Some (s, rest).
Proof.
  induction s as [|c s IH]; [done |]. cbn [escape].
  destruct (Ascii.eqb c quote_char) eqn:Q; [cbn; by rewrite IH |].
  destruct (Ascii.eqb c escape_char) eqn:E; [cbn; by rewrite IH |]. cbn [orb unescape]. by rewrite Q, E, IH.
Qed.

Lemma escape_len s rest : str_len (escape s rest) <= string_cost s + 1 + str_len rest.
Proof.
  induction s as [|c s IH]; cbn [escape string_cost]; [rewrite str_len_cons; lia |].
  assert (1 <= char_cost c) as C by (unfold char_cost; destruct (_ && _); lia).
  destruct (Ascii.eqb_spec c quote_char) as [->|Q]; cbn [orb].
  { rewrite !str_len_cons. change (char_cost quote_char) with 6. lia. }
  destruct (Ascii.eqb_spec c escape_char) as [->|E]; rewrite !str_len_cons; [change (char_cost escape_char) with 6; lia | lia].
Qed.

Lemma digits_cost s : str_all is_ascii_digit s = true -> string_cost s = str_len s.
Proof.
  induction s as [|c s IH]; [done |]. cbn [str_all string_cost]. rewrite str_len_cons. intros [D A]%andb_prop.
  rewrite IH by done. f_equal. unfold char_cost, is_ascii_digit, in_range in *. bool_prop.
  rewrite (proj2 (Z.leb_le _ _)), !(proj2 (Z.eqb_neq _ _)) by lia. done.
Qed.

Definition value_text (v : Value) (rest : string) : string :=
  match v with
  | JString s => String "s" (escape s rest)
  | Number (PosInt n) => String "n" (escape (u64_to_string n) rest)
  | _ => rest
  end.

Fixpoint members_text (ms : list (string * Value)) : string :=
  match ms with [] => "" | (k, v) :: rest => escape k (value_text v (members_text rest)) end.

Fixpoint read_members (fuel : nat) (s : string) : option (list (string * Value)) :=
  match fuel, s with
  | _, EmptyString => Some []
  | O, _ => None
  | S fuel, _ =>
      k ← unescape s;
      match snd k with
      | String tag r =>
          v ← unescape r; rest ← read_members fuel (snd v);
          x ← (if Ascii.eqb tag "s" then Some (JString (fst v))
               else n ← parse_unsigned u64_max (fst v); Some (Number (PosInt n)));
          Some ((fst k, x) :: rest)
      | EmptyString => None
      end
  end.

Lemma escape_nonempty s rest : is_empty (escape s rest) = false.
Proof. destruct s as [|c s]; [done |]. cbn. by destruct (_ || _). Qed.

Lemma read_members_text ms fuel :
  (length ms <= fuel)%nat -> Forall (fun m => flat_value (snd m)) ms -> read_members fuel (members_text ms) = Some ms.
Proof.
  revert fuel. induction ms as [|[k v] ms IH]; intros fuel H F; [by destruct fuel |].
  destruct fuel as [|fuel]; [cbn in H; lia |]. apply Forall_cons in F as [V F]. cbn [snd] in V. cbn [members_text].
  pose proof (escape_nonempty k (value_text v (members_text ms))) as N.
  destruct (escape k (value_text v (members_text ms))) as [|c r] eqn:E; [done |]. cbn [read_members].
  rewrite <- E, unescape_escape. cbn [mbind option_bind snd fst].
  destruct v as [| |[n| |]|s| |]; try done; cbn [value_text]; rewrite unescape_escape; cbn [mbind option_bind snd fst];
    rewrite IH by (done || (cbn in H; lia)); [|done].
  cbn -[parse_unsigned u64_to_string]. rewrite parse_unsigned_to_string; [done | | done]. cbn in V. unfold max_safe in V. unfold u64_max. lia.
Qed.

Lemma members_text_len ms :
  Forall (fun m => flat_value (snd m)) ms -> str_len (members_text ms) + 2 <= text_cost ms.
Proof.
  induction ms as [|[k v] ms IH]; intros F; [done |]. apply Forall_cons in F as [V F]. specialize (IH F).
  cbn [members_text text_cost snd] in *. etrans; [apply Zplus_le_compat_r, escape_len |].
  assert (str_len (value_text v (members_text ms)) <= value_cost v + 2 + str_len (members_text ms)); [|lia].
  destruct v as [| |[n| |]|s| |]; try done; cbn [value_text value_cost]; rewrite str_len_cons;
    (etrans; [apply Zplus_le_compat_l, escape_len |]); [|lia].
  rewrite digits_cost by (apply u64_to_string_digits; cbn in V; lia).
  pose proof (digits_len 20 n ""). unfold u64_to_string. change (str_len "") with 0 in *. lia.
Qed.

(** ** The instance *)

Definition value_of (j : js) : Value :=
  match j with JsString s => JString s | JsNumber (Some n) => Number (PosInt n) | _ => Null end.

Definition read_object (s : string) : option (list (string * Value)) := read_members (String.length s) s.
#[local] Arguments read_object : simpl never.

#[export] Instance plain_serde : Serde := {|
  serde_from_str s := json_object <$> read_object s;
  serde_to_string v := match v with Object ms => members_text (map_to_list ms) | _ => "" end
|}.

#[export] Instance wire_worker : WorkerHost := {|
  JSON_parse s := l ← read_object s; Some (JsObject (js_members l));
  string_to_number := string_to_number;
  hmac := hmac;
  ticket_json := ticket_json;
  ticket_parse := ticket_parse;
  ticket_json_parse := ticket_json_parse;
  control_json := control_json;
  control_parse := control_parse;
  control_json_parse := control_json_parse
|}.

Lemma escape_grows s rest : (S (String.length rest) <= String.length (escape s rest))%nat.
Proof. induction s as [|c s IH]; cbn; [done |]. destruct (_ || _); cbn; lia. Qed.

Lemma members_length ms : (length ms <= String.length (members_text ms))%nat.
Proof.
  induction ms as [|[k v] ms IH]; [done |]. cbn [members_text length].
  pose proof (escape_grows k (value_text v (members_text ms))).
  assert (String.length (members_text ms) <= String.length (value_text v (members_text ms)))%nat; [|lia].
  destruct v as [| |[n| |]|s| |]; cbn [value_text String.length]; try lia.
  - pose proof (escape_grows (u64_to_string n) (members_text ms)). lia.
  - pose proof (escape_grows s (members_text ms)). lia.
Qed.

Lemma read_object_text ms : Forall (fun m => flat_value (snd m)) ms -> read_object (members_text ms) = Some ms.
Proof. intros F. apply read_members_text; [apply members_length | done]. Qed.

Lemma flat_members ms :
  flat ms -> map_to_list (list_to_map ms : gmap string Value) ≡ₚ ms
             /\ Forall (fun m => flat_value (snd m)) (map_to_list (list_to_map ms : gmap string Value)).
Proof. intros [N F]. pose proof (map_to_list_to_map ms N) as P. split; [done |]. by rewrite P. Qed.

Lemma text_cost_perm ms ms' : ms ≡ₚ ms' -> text_cost ms = text_cost ms'.
Proof. induction 1 as [|[] ? ? ? IH|[] []|]; cbn; lia. Qed.

Lemma plain_agent_agent ms :
  flat ms -> serde_from_str (serde_to_string (json_object ms)) = Some (json_object ms).
Proof.
  intros F. destruct (flat_members ms F) as [P Fa]. cbn. rewrite read_object_text by done. cbn.
  unfold json_object. by rewrite list_to_map_to_list.
Qed.

Lemma plain_agent_worker ms :
  flat ms -> exists l, JSON_parse (serde_to_string (json_object ms)) = Some (JsObject l) /\ l ≡ₚ js_members ms.
Proof.
  intros F. destruct (flat_members ms F) as [P Fa]. eexists. split; [cbn; rewrite read_object_text by done; reflexivity |].
  unfold js_members. by rewrite P.
Qed.

Lemma value_of_js v : flat_value v -> value_of (js_of v) = v.
Proof. by destruct v as [| |[]|s| |]. Qed.

Definition plain_stringify (l : list (string * js)) : string := members_text (map (fun m => (fst m, value_of (snd m))) l).

Lemma plain_worker_agent ms :
  flat ms -> serde_from_str (plain_stringify (js_members ms)) = Some (json_object ms).
Proof.
  intros [N F]. unfold plain_stringify, js_members. rewrite map_map. cbn [fst snd].
  assert (map (fun m => (fst m, value_of (js_of (snd m)))) ms = ms) as ->.
  { clear N. induction F as [|[k v] ms V F IH]; [done |]. cbn in *. by rewrite IH, value_of_js. }
  cbn. by rewrite read_object_text.
Qed.

Lemma plain_agent_size ms : flat ms -> str_len (serde_to_string (json_object ms)) <= text_cost ms.
Proof.
  intros F. destruct (flat_members ms F) as [P Fa]. cbn. rewrite <- (text_cost_perm _ _ P).
  pose proof (members_text_len _ Fa). lia.
Qed.

#[export] Instance plain_wire : Wire := {|
  JSON_stringify := plain_stringify;
  agent_agent := plain_agent_agent;
  agent_worker := plain_agent_worker;
  worker_agent := plain_worker_agent;
  agent_size := plain_agent_size
|}.
