(* ===== verification/TransferIntegrity.v ===== *)
(** * End-to-end integrity through an untrusted relay

    The two pumps of [TransferPump.v] over arbitrary runtimes and arbitrary texts from the
    relay: what the destination hands to its store is a stretch of what the source sealed,
    and the source never seals twice under one nonce. *)

From stdpp Require Import base list strings gmap.
From Stdlib Require Import ZArith Lia Ascii.
From S2P Require Import Prelude RustStr RustBytes Json Transfer TransferFlow TransferRun TransferCrypto AgentBase64 TransferPump TransferWire.

Open Scope Z_scope.

Section integrity.
Context {DG : Digests} {CI : Ciphers} {SE : Serde}.

(** Consecutive chunks from a cursor. *)
Fixpoint contiguous_from (q o : Z) (cs : list TransferChunk) : Prop :=
  match cs with
  | [] => True
  | c :: rest => ch_sequence c = q /\ ch_offset c = o /\ chunk_validate c = Ok tt
                 /\ contiguous_from (q + 1) (wrap_u64 (o + str_len (ch_bytes c))) rest
  end.

(** The chunks a source seals from where it waits, for the texts it is given. *)
Fixpoint source_chunks {R} {RT : Runtime R} (ss : Session) (inputs : list (result string string))
    (p : Pump SourceWait * R) : list TransferChunk :=
  match p with
  | (Waiting _ w, rt) =>
      (match w with AwaitAck _ _ c => [c] | AwaitFinishAck => [] end)
      ++ match inputs with
         | [] => []
         | input :: rest => source_chunks ss rest (source_resume ss w input rt)
         end
  | _ => []
  end.

(** The chunks a destination hands to its store. *)
Fixpoint destination_chunks {R} {RT : Runtime R} (ss : Session) (inputs : list (result string string))
    (p : Pump DestinationWait * R) : list TransferChunk :=
  match inputs, p with
  | input :: rest, (Waiting _ w, rt) =>
      (match destination_action ss w input with Ok (ActChunk c _ _) => [c] | _ => [] end)
      ++ destination_chunks ss rest (destination_resume ss w input rt)
  | _, _ => []
  end.

(** Nonce, additional data and ciphertext of a sealed chunk. *)
Definition sealed_as (k : TransferCipher) (c : TransferChunk) (n ad text : string) : Prop :=
  n = nonce (tc_binding k) (ch_sequence c)
  /\ additional_data (tc_binding k) (ch_sequence c) (ch_offset c) (str_len (ch_bytes c)) (ch_sha256 c) = Ok ad
  /\ aead_seal (tc_key k) n ad (ch_bytes c) = Some text.

(** The AEAD held: a ciphertext that opens was made by the source, for that nonce and
    additional data. *)
Definition unforged (k : TransferCipher) (cs : list TransferChunk) (inputs : list (result string string)) : Prop :=
  forall raw object sequence offset length sha text encrypted ad p,
    Ok raw ∈ inputs -> serde_from_str raw = Some (Object object) ->
    get_num object "sequence" = Some sequence -> get_num object "offset" = Some offset ->
    get_num object "length" = Some length -> get_text object "chunk_sha256" = Some sha ->
    get_text object "ciphertext_base64" = Some text -> b64_standard_decode text = Ok encrypted ->
    additional_data (tc_binding k) sequence offset length sha = Ok ad ->
    aead_open (tc_key k) (nonce (tc_binding k) sequence) ad encrypted = Some p ->
    exists c, c ∈ cs /\ sealed_as k c (nonce (tc_binding k) sequence) ad encrypted.

Section source.
Context {R : Type} {RT : Runtime R}.

Lemma source_turn_wait ss q o rt sends w rt' :
  source_turn ss q o rt = (Waiting sends w, rt') ->
  match w with
  | AwaitAck q' o' c => q' = q /\ o' = o /\ ch_sequence c = q /\ ch_offset c = o /\ chunk_validate c = Ok tt
                        /\ exists f, chunk_frame ss c = Ok f
  | AwaitFinishAck => True
  end.
Proof.
  unfold source_turn. destruct (call _ _ rt) as [[reply|e] rt1]; [|done].
  destruct (match get reply "eof" with Some (JBool true) => true | _ => false end).
  { destruct (negb _); [done |]. by intros [= <- <- <-]. }
  destruct (source_chunk_of q o reply) as [c|] eqn:C; [|done]. cbn [rbind].
  destruct (chunk_frame ss c) as [f|] eqn:F; [|done]. cbn [rbind]. intros [= <- <- <-].
  unfold source_chunk_of in C. destruct (get_str reply "frame_base64"); [|done]. cbn [ok_or rbind] in C.
  destruct (b64_standard_decode _) as [bytes|]; [|done]. cbn [rbind] in C.
  destruct (chunk_decode bytes) as [d|] eqn:D; [|done]. cbn [map_err rbind] in C.
  destruct (_ || _) eqn:G; [done |]. cbn [guard_err rbind] in C. injection C as ->. bool_prop.
  apply chunk_decode_encode, chunk_encode_ok in D as (V & _). split_and!; eauto.
Qed.

Lemma source_chunks_contiguous ss inputs p q o :
  (forall sends w rt, p = (Waiting sends w, rt) ->
    match w with
    | AwaitAck q' o' c => q' = q /\ o' = o /\ ch_sequence c = q /\ ch_offset c = o /\ chunk_validate c = Ok tt
    | AwaitFinishAck => True
    end) ->
  0 <= q -> q + zlen inputs <= u64_max -> contiguous_from q o (source_chunks ss inputs p).
Proof.
  revert p q o. induction inputs as [|input inputs IH]; intros [[sends w|] rt] q o W Hq Hl; try done.
  - specialize (W sends w rt eq_refl). destruct w; [|done]. destruct W as (_ & _ & ? & ? & ?). cbn. by split_and!.
  - specialize (W sends w rt eq_refl). rewrite zlen_cons in Hl. pose proof (zlen_nonneg inputs).
    cbn [source_chunks]. destruct w as [q' o' c|].
    + destruct W as (-> & -> & Eq & Eo & V). cbn [app contiguous_from]. split_and!; try done.
      apply IH; [|lia|lia]. intros sends' w' rt' H'. cbn [source_resume] in H'.
      destruct (rbind _ _); [|done]. rewrite wrap_u64_small in H' by lia. apply source_turn_wait in H'.
      by destruct w'; destruct_and?.
    + cbn [app]. assert (forall sends' w' rt', source_resume ss AwaitFinishAck input rt <> (Waiting sends' w', rt')) as N.
      { intros sends' w' rt'. cbn [source_resume]. destruct (rbind _ _); [|done].
        destruct (cleanup_source_transfer_state ss rt) as [[]]; done. }
      destruct (source_resume ss AwaitFinishAck input rt) as [[]]; [by edestruct N |].
      by destruct inputs.
Qed.

Lemma source_chunks_length ss inputs p : zlen (source_chunks ss inputs p) <= zlen inputs + 1.
Proof.
  revert p. induction inputs as [|input inputs IH]; intros [[sends w|] rt]; try done.
  - by destruct w.
  - cbn [source_chunks]. rewrite zlen_app, zlen_cons. specialize (IH (source_resume ss w input rt)).
    destruct w; rewrite ?zlen_cons, ?zlen_nil; lia.
Qed.
End source.

Lemma wrap_u64_bounds z : 0 <= wrap_u64 z <= u64_max.
Proof. pose proof (wrap_u64_range z). unfold u64_max in *. lia. Qed.

(** The position of a chunk is its sequence number. *)
Lemma contiguous_at q o cs i c :
  contiguous_from q o cs -> cs !! i = Some c ->
  ch_sequence c = q + Z.of_nat i /\ (0 <= o <= u64_max -> 0 <= ch_offset c <= u64_max) /\ chunk_validate c = Ok tt.
Proof.
  revert q o i. induction cs as [|d cs IH]; intros q o i; [done |]. cbn. intros (Eq & Eo & V & H).
  destruct i as [|i]; cbn.
  - intros [= ->]. split_and!; [lia | lia | done].
  - intros Hi. destruct (IH _ _ _ H Hi) as (E & O & V'). split_and!; [lia | | done].
    intros _. apply O, wrap_u64_bounds.
Qed.

(** A text that hands on a chunk: what was read and what was opened. *)
Lemma destination_action_chunk ss w input c length frame :
  destination_action ss w input = Ok (ActChunk c length frame) ->
  exists raw object sha text encrypted ad,
    input = Ok raw /\ serde_from_str raw = Some (Object object)
    /\ get_num object "sequence" = Some (dw_sequence w) /\ get_num object "offset" = Some (dw_offset w)
    /\ get_num object "length" = Some length /\ 0 < length <= 64 * 1024
    /\ get_text object "chunk_sha256" = Some sha /\ get_text object "ciphertext_base64" = Some text
    /\ b64_standard_decode text = Ok encrypted
    /\ additional_data (tc_binding (ss_cipher ss)) (dw_sequence w) (dw_offset w) length sha = Ok ad
    /\ aead_open (tc_key (ss_cipher ss)) (nonce (tc_binding (ss_cipher ss)) (dw_sequence w)) ad encrypted
       = Some (ch_bytes c)
    /\ c = {| ch_sequence := dw_sequence w; ch_offset := dw_offset w; ch_bytes := ch_bytes c;
              ch_sha256 := hash_bytes (ch_bytes c) |}.
Proof.
  unfold destination_action. destruct input as [raw|]; [|done]. cbn [rbind]. unfold parse_object.
  destruct (serde_from_str raw) as [v|] eqn:Sv; [|done]. cbn [ok_or rbind].
  destruct v; try done. cbn [as_object ok_or rbind]. destruct (reject_transfer_room_reconnect_signal _); [|done].
  cbn [rbind]. destruct (is_text members "type" "cancel"); [done |].
  destruct (is_text members "type" "finish").
  { destruct (negb _); [done |]. cbn. by destruct (negb _). }
  destruct (_ || _); [done |]. cbn [guard_err rbind].
  destruct (destination_open ss w members) as [[d len]|] eqn:O; [|done]. cbn [rbind fst snd].
  destruct (chunk_encode d) eqn:E; [|done]. cbn [map_err rbind]. intros [= -> -> _].
  unfold destination_open in O.
  destruct (get_num members "sequence") as [sq|] eqn:Q; [|done]. cbn [ok_or rbind] in O.
  destruct (get_num members "offset") as [off|] eqn:Of; [|done]. cbn [ok_or rbind] in O.
  destruct (get_num members "length") as [ln|] eqn:L; [|done]. cbn [ok_or rbind] in O.
  destruct (negb _) eqn:Gl; [done |]. cbn [guard_err rbind] in O.
  destruct (get_text members "chunk_sha256") as [sha|] eqn:Sh; [|done]. cbn [ok_or rbind] in O.
  destruct (get_text members "ciphertext_base64") as [text|] eqn:Tx; [|done]. cbn [ok_or rbind] in O.
  destruct (b64_standard_decode text) as [enc|] eqn:B; [|done]. cbn [rbind] in O.
  destruct (_ || _) eqn:Gc; [done |]. cbn [guard_err rbind] in O. bool_prop. subst sq off.
  destruct (open _ _ _ _ _ _) as [p|] eqn:Op; [|done]. cbn [rbind] in O.
  destruct (chunk_new _ _ p) as [d|] eqn:N; [|done]. cbn [map_err rbind] in O. injection O as -> ->.
  apply chunk_new_ok in N as (N1 & N2 & N3 & N4). apply chunk_validate_ok in N4 as (_ & N5 & _). unfold open in Op. destruct (_ || _) in Op; [done |]. cbn [guard_err rbind] in Op.
  destruct (additional_data _ _ _ _ _) as [ad|] eqn:Ad; [|done]. cbn [rbind] in Op.
  destruct (aead_open _ _ _ _) as [pl|] eqn:Ae; [|done]. cbn [ok_or rbind] in Op. destruct (negb _) in Op; [done |].
  injection Op as <-. rewrite <- N3 in Ae. exists raw, members, sha, text, enc, ad. split_and!; try done; [lia.. |].
  destruct c. cbn in *. congruence.
Qed.

Lemma nonce_sequence b s s' : 0 <= s <= u64_max -> 0 <= s' <= u64_max -> nonce b s = nonce b s' -> s = s'.
Proof.
  unfold u64_max. intros H H' E. apply str_app_inj_l in E.
  rewrite <- (str_app_nil_r (to_be_bytes 8 s)), <- (str_app_nil_r (to_be_bytes 8 s')) in E.
  by apply be_inj in E as [-> _]; [|lia..].
Qed.

Lemma additional_data_place b s o o' l l' h h' ad :
  0 <= o <= u64_max -> 0 <= o' <= u64_max -> 0 <= l <= u64_max -> 0 <= l' <= u64_max ->
  additional_data b s o l h = Ok ad -> additional_data b s o' l' h' = Ok ad -> o = o' /\ l = l'.
Proof.
  unfold u64_max. intros ???? A B. apply additional_data_ok in A as [_ ->], B as [_ E].
  do 5 apply str_app_inj_l in E. do 2 (apply be_inj in E as [? E]; [|lia..]). done.
Qed.

(** What opens at the place of [w] is the source's chunk of that place. *)
Lemma opened_is_sealed k c n ad text d length sha w :
  chunk_validate c = Ok tt -> 0 <= ch_sequence c <= u64_max -> 0 <= ch_offset c <= u64_max ->
  0 <= dw_sequence w <= u64_max -> 0 <= dw_offset w <= u64_max -> 0 < length <= 64 * 1024 ->
  n = nonce (tc_binding k) (dw_sequence w) ->
  additional_data (tc_binding k) (dw_sequence w) (dw_offset w) length sha = Ok ad ->
  aead_open (tc_key k) n ad text = Some (ch_bytes d) ->
  d = {| ch_sequence := dw_sequence w; ch_offset := dw_offset w; ch_bytes := ch_bytes d;
         ch_sha256 := hash_bytes (ch_bytes d) |} ->
  sealed_as k c n ad text -> d = c /\ length = str_len (ch_bytes c).
Proof.
  intros V Sc Oc Sw Ow Lw -> Ad Op -> (N & Ad' & Se). apply nonce_sequence in N; [|done..].
  apply chunk_validate_ok in V as (Vl & Vh & _). unfold MAX_CHUNK_BYTES in Vl. rewrite N in Ad.
  assert (dw_offset w = ch_offset c /\ length = str_len (ch_bytes c)) as [Eo El]
    by (eapply additional_data_place; [done | done | | | exact Ad | exact Ad']; unfold u64_max; lia).
  apply aead_open_seal in Se. rewrite Op in Se. injection Se as Eb. split; [|done].
  destruct c. cbn in *. subst. done.
Qed.

Section destination.
Context {R : Type} {RT : Runtime R}.

Lemma destination_chunks_stretch ss sent inputs p q o q' :
  unforged (ss_cipher ss) sent inputs ->
  contiguous_from q o sent -> 0 <= q -> q + zlen sent <= u64_max -> 0 <= o <= u64_max ->
  (forall sends w rt, p = (Waiting sends w, rt) ->
     dw_sequence w = q' /\ 0 <= dw_sequence w <= u64_max /\ 0 <= dw_offset w <= u64_max) ->
  destination_chunks ss inputs p `prefix_of` skipn (Z.to_nat (q' - q)) sent.
Proof.
  revert q' p. induction inputs as [|input inputs IH]; intros q' p U C Hq Hl Ho W; [apply prefix_nil |].
  assert (unforged (ss_cipher ss) sent inputs) as U' by (intros ??????????? ; eapply U; by right).
  destruct p as [[sends w|] rt]; [|apply prefix_nil]. destruct (W sends w rt eq_refl) as (Sw & Bw & Ow).
  cbn [destination_chunks]. destruct (destination_action ss w input) as [[|c length frame]|] eqn:A.
  - unfold destination_resume. rewrite A. destruct (call _ _ rt) as [[v|e] rt']; destruct inputs; apply prefix_nil.
  - pose proof (destination_action_chunk _ _ _ _ _ _ A) as (raw & object & sha & text & enc & ad & -> & Sv & Fq & Fo & Fl & Lb & Fs & Ft & B & Ad & Op & Ec).
    destruct (U raw object (dw_sequence w) (dw_offset w) length sha text enc ad (ch_bytes c)) as (c' & Hc & Sl); [by left | done.. |].
    apply list_elem_of_lookup in Hc as (i & Hi). destruct (contiguous_at _ _ _ _ _ C Hi) as (Ei & Oi & Vi). specialize (Oi Ho).
    pose proof (lookup_lt_Some _ _ _ Hi) as Li.
    destruct (opened_is_sealed (ss_cipher ss) c' (nonce (tc_binding (ss_cipher ss)) (dw_sequence w)) ad enc c length sha w) as [-> El]; try done; [unfold zlen in *; lia |].
    assert (dw_sequence w = q + Z.of_nat i) as Es by (rewrite Ec in Ei; exact Ei).
    replace (Z.to_nat (q' - q)) with i by lia. rewrite (drop_S _ _ _ Hi). cbn [app]. apply prefix_cons.
    replace (S i) with (Z.to_nat (q' + 1 - q)) by lia. apply IH; try done.
    intros sends' w' rt'. unfold destination_resume. rewrite A. destruct (call _ _ rt) as [[v|e] rt1]; [|done].
    destruct (_ && _); [done |]. intros [= <- <- <-]. cbn [dw_sequence dw_offset].
    rewrite (wrap_u64_small (dw_sequence w + 1)) by (unfold zlen in *; lia).
    split_and!; [lia | lia | unfold zlen in *; lia | apply wrap_u64_bounds | apply wrap_u64_bounds].
  - unfold destination_resume. rewrite A. destruct inputs; apply prefix_nil.
Qed.
End destination.

(** C10: the relay cannot alter, reorder, drop inside or add to a transfer.  Take any two
    runtimes, any texts a relay feeds to the two pumps, any cursor at either end, and
    sessions that derived one cipher.  If every ciphertext that opens at the destination
    was made by the source, then the chunks the destination hands to its store are
    consecutive chunks of the source, byte for byte and in order, from the place of the
    destination's own cursor on; and the source seals no two chunks under one nonce. *)
Theorem delivered_is_sent {Rs Rd : Type} {Hs : Runtime Rs} {Hd : Runtime Rd} (source destination : Session)
    (rs : Rs) (rd : Rd) inputs_s inputs_d q o q' o' :
  ss_cipher destination = ss_cipher source ->
  0 <= q -> q + zlen inputs_s < u64_max -> 0 <= o <= u64_max -> 0 <= q' <= u64_max -> 0 <= o' <= u64_max ->
  let sent := source_chunks source inputs_s (run_source_transfer_pump source (q, o) rs) in
  unforged (ss_cipher source) sent inputs_d ->
  destination_chunks destination inputs_d (run_destination_transfer_pump destination (q', o') rd)
    `prefix_of` skipn (Z.to_nat (q' - q)) sent
  /\ NoDup (map (fun c => nonce (tc_binding (ss_cipher source)) (ch_sequence c)) sent).
Proof.
  intros K Hq Hl Ho Hq' Ho' sent U. pose proof (zlen_nonneg inputs_s) as Zi.
  assert (contiguous_from q o sent) as C.
  { apply source_chunks_contiguous; [|done|lia]. intros sends w rt. unfold run_source_transfer_pump. cbn [fst snd].
    destruct (call _ _ rs) as [[v|e] rs1]; [|done]. destruct (_ ≫= _) as [q1|]; [|done].
    destruct (_ ≫= _) as [o1|]; [|done]. destruct (negb _) eqn:G; [done |]. bool_prop. subst q1 o1.
    intros T. apply source_turn_wait in T. by destruct w; destruct_and?. }
  assert (q + zlen sent <= u64_max) as L by (pose proof (source_chunks_length source inputs_s (run_source_transfer_pump source (q, o) rs)); unfold sent; lia).
  split.
  - apply (destination_chunks_stretch destination sent inputs_d _ q o q'); try done; [by rewrite K |].
    intros sends w rt. unfold run_destination_transfer_pump. cbn [fst snd].
    destruct (call _ _ rd) as [[v|e] rd1]; [|done]. destruct (_ ≫= _) as [q1|]; [|done].
    destruct (_ ≫= _) as [o1|]; [|done]. destruct (negb _) eqn:G; [done |]. bool_prop. subst q1 o1.
    intros [= <- <- <-]. cbn. done.
  - apply NoDup_alt. intros i j n Hi Hj. rewrite list_lookup_fmap in Hi, Hj.
    destruct (sent !! i) as [a|] eqn:A; [|done]. destruct (sent !! j) as [b|] eqn:B; [|done]. 
    rewrite <- Hj in Hi. cbn [fmap option_fmap option_map] in Hi. apply (inj Some) in Hi as E.
    pose proof (lookup_lt_Some _ _ _ A). pose proof (lookup_lt_Some _ _ _ B). unfold zlen in L.
    destruct (contiguous_at _ _ _ _ _ C A) as (Ea & _). destruct (contiguous_at _ _ _ _ _ C B) as (Eb & _).
    apply nonce_sequence in E; lia.
Qed.
End integrity.

(** ** A file of five bytes *)

Definition sample_chunk : TransferChunk :=
  {| ch_sequence := 0; ch_offset := 0; ch_bytes := "hello"; ch_sha256 := hash_bytes "hello" |}.

Definition sample_cursor : Value := json_object [("next_sequence", json_u64 0); ("next_offset", json_u64 0)].

Definition sample_source : Runtime unit := fun method params rt =>
  (Ok (if String.eqb method "transfer.source_open" then sample_cursor
       else match chunk_encode sample_chunk with
            | Ok frame => json_object [("frame_base64", JString (b64_standard_encode frame))]
            | Err _ => Null
            end), rt).

Definition sample_destination : Runtime unit := fun method params rt => (Ok sample_cursor, rt).

Definition sample_session : Session :=
  {| ss_ticket := sample_ticket; ss_cipher := source_cipher; ss_plan_id := "plan" |}.

Definition sample_frame : string :=
  match chunk_frame sample_session sample_chunk with Ok f => f | Err _ => "" end.

Definition sample_object : gmap string Value :=
  match serde_from_str sample_frame with Some (Object o) => o | _ => ∅ end.

Lemma delivered_is_sent_witness :
  destination_chunks (RT := sample_destination) sample_session [Ok sample_frame]
    (run_destination_transfer_pump (RT := sample_destination) sample_session (0, 0) tt) = [sample_chunk]
  /\ [sample_chunk] `prefix_of` source_chunks (RT := sample_source) sample_session []
       (run_source_transfer_pump (RT := sample_source) sample_session (0, 0) tt).
Proof.
  assert (destination_chunks (RT := sample_destination) sample_session [Ok sample_frame]
    (run_destination_transfer_pump (RT := sample_destination) sample_session (0, 0) tt) = [sample_chunk]) as D
    by (vm_compute; reflexivity).
  assert (source_chunks (RT := sample_source) sample_session []
       (run_source_transfer_pump (RT := sample_source) sample_session (0, 0) tt) = [sample_chunk]) as E
    by (vm_compute; reflexivity).
  split; [exact D |]. rewrite <- D at 1.
  apply (delivered_is_sent (Hs := sample_source) (Hd := sample_destination) sample_session sample_session tt tt [] [Ok sample_frame] 0 0 0 0);
    [reflexivity | lia | unfold zlen, u64_max; cbn; lia | unfold u64_max; lia .. |].
  rewrite E. intros raw object sequence offset length sha text encrypted ad p I O Fq Fo Fl Fs Ft B A _.
  apply list_elem_of_singleton in I. assert (raw = sample_frame) as -> by congruence.
  assert (serde_from_str sample_frame = Some (Object sample_object)) as S by (vm_compute; reflexivity).
  rewrite S in O. assert (object = sample_object) as -> by congruence.
  assert (get_num sample_object "sequence" = Some 0) as Q by (vm_compute; reflexivity). rewrite Q in Fq.
  assert (get_num sample_object "offset" = Some 0) as P by (vm_compute; reflexivity). rewrite P in Fo.
  assert (get_num sample_object "length" = Some 5) as L by (vm_compute; reflexivity). rewrite L in Fl.
  assert (get_text sample_object "chunk_sha256" = Some (hash_bytes "hello")) as H by (vm_compute; reflexivity).
  rewrite H in Fs. apply (inj Some) in Fq as <-, Fo as <-, Fl as <-, Fs as <-.
  exists sample_chunk. split; [by apply list_elem_of_singleton |]. split; [reflexivity |]. split; [exact A |].
  assert (get_text sample_object "ciphertext_base64" = Some (b64_standard_encode sample_sealed)) as T by (vm_compute; reflexivity).
  rewrite T in Ft. apply (inj Some) in Ft as <-.
  assert (b64_standard_decode (b64_standard_encode sample_sealed) = Ok sample_sealed) as U by (vm_compute; reflexivity).
  rewrite U in B. assert (encrypted = sample_sealed) as -> by congruence.
  assert (additional_data (tc_binding source_cipher) 0 0 5 (hash_bytes "hello") = Ok sample_ad) as V by (vm_compute; reflexivity).
  cbn [ss_cipher sample_session] in A |- *. rewrite V in A. assert (ad = sample_ad) as -> by congruence. vm_compute. reflexivity.
Defined.
