(* ===== verification/BrokerLedger.v ===== *)
(** * The replay ledger of the privileged broker ([crates/ownmesh-broker/src/ledger.rs])

    Every nonce is written here before a privileged process may start.  The ledger in
    memory is modelled with its file: [persist] writes a temporary file, renames it and
    syncs the directory, and each of these may fail.  A renamed file whose directory was
    not synced is visible but need not survive a loss of power. *)

From stdpp Require Import base list strings gmap.
From Stdlib Require Import ZArith Lia Ascii.
From S2P Require Import Prelude RustStr.

Open Scope Z_scope.

(** ** Data *)

Definition LEDGER_VERSION : Z := 2.
Definition MAX_LEDGER_BYTES : Z := 4 * 1024 * 1024.
Definition MAX_NONCE_BYTES : Z := 256.
Definition DIGEST_HEX_BYTES : Z := 64.

Inductive ReplayState : Type := ReservedPreSpawn | SpawnedUncertain | Completed | AbortedBeforeSpawn.

#[export] Instance ReplayState_eq_dec : EqDecision ReplayState.
Proof. solve_decision. Defined.

Record ReconciliationRecord : Type := {
  rr_actor : string;
  rr_at_unix : Z;
  rr_prior_state : ReplayState;
  rr_new_state : ReplayState
}.

Record LedgerEntry : Type := {
  le_digest : string;
  le_reserved_at_unix : Z;
  le_expires_at_unix : Z;
  le_transition_seq : N;
  le_state : ReplayState;
  le_process_pid : option Z;
  le_process_birth_id : option Z;
  le_result_digest : option string;
  le_reconciliation : option ReconciliationRecord
}.

#[export] Instance LedgerEntry_eta : Eta LedgerEntry := fun e =>
  {| le_digest := le_digest e; le_reserved_at_unix := le_reserved_at_unix e;
     le_expires_at_unix := le_expires_at_unix e; le_transition_seq := le_transition_seq e;
     le_state := le_state e; le_process_pid := le_process_pid e;
     le_process_birth_id := le_process_birth_id e; le_result_digest := le_result_digest e;
     le_reconciliation := le_reconciliation e |}.

Record LedgerFile : Type := { lf_version : Z; lf_entries : gmap string LedgerEntry }.

Inductive LegacyReplayState : Type := LegacyReserved | LegacyCompleted.

Record LegacyLedgerEntry : Type := {
  ll_digest : string;
  ll_expires_at_unix : Z;
  ll_state : LegacyReplayState
}.

Record LegacyLedgerFile : Type := { lg_version : Z; lg_entries : gmap string LegacyLedgerEntry }.

Inductive ReconcileDecision : Type := MarkAbortedBeforeSpawn | MarkCompleted.

Inductive ReplayLedgerError : Type :=
| Replay
| DigestConflict
| Full
| Corrupt (e : string)
| Custody (e : string)
| Write (e : string)
| FailedClosed
| Invalid (e : string).

(** [serde_json] on the two files: what is written reads back, with its version. *)
Class LedgerCodec : Type := {
  ledger_to_vec : LedgerFile -> string;
  json_version : string -> option Z;
  ledger_from_slice : string -> result LedgerFile string;
  legacy_from_slice : string -> result LegacyLedgerFile string;
  ledger_version_to_vec f : json_version (ledger_to_vec f) = Some (lf_version f);
  ledger_from_to_vec f : ledger_from_slice (ledger_to_vec f) = Ok f
}.

(** The file as it is read, and as it is after a loss of power. *)
Record LedgerDisk : Type := { ld_file : option string; ld_durable : option string }.

#[export] Instance LedgerDisk_eta : Eta LedgerDisk := fun d =>
  {| ld_file := ld_file d; ld_durable := ld_durable d |}.

Record ReplayLedger : Type := {
  rl_max_entries : Z;
  rl_entries : gmap string LedgerEntry;
  rl_failed_closed : bool;
  rl_disk : LedgerDisk
}.

#[export] Instance ReplayLedger_eta : Eta ReplayLedger := fun l =>
  {| rl_max_entries := rl_max_entries l; rl_entries := rl_entries l;
     rl_failed_closed := rl_failed_closed l; rl_disk := rl_disk l |}.

(** ** Validation *)

Definition is_digest (value : string) : bool :=
  (str_len value =? DIGEST_HEX_BYTES)
  && str_all (fun b => is_ascii_digit b || (is_ascii_lowercase b && is_ascii_hexdigit b)) value.

Definition NUL : ascii := byte_of 0.

Definition validate_reservation (nonce digest : string) (expires_at_unix now_unix : Z)
  : result unit ReplayLedgerError :=
  guard_err (is_empty nonce || (MAX_NONCE_BYTES <? str_len nonce) || contains_char NUL nonce) (Invalid "nonce") ;?
  guard_err (negb (is_digest digest)) (Invalid "digest") ;?
  guard_err (expires_at_unix <? now_unix) (Invalid "expired reservation").

(** [actor.is_empty() || actor.len() > 128 || actor.contains(['\n', '\r', '\0'])]. *)
Definition bad_actor (actor : string) : bool :=
  is_empty actor || (128 <? str_len actor)
  || str_any (fun c => (code c =? 10) || (code c =? 13) || (code c =? 0)) actor.

Definition is_some {A} (o : option A) : bool := match o with Some _ => true | None => false end.

Definition validate_entry (nonce : string) (entry : LedgerEntry) : result unit ReplayLedgerError :=
  validate_reservation nonce (le_digest entry) (le_expires_at_unix entry) i64_min ;?
  guard_err (N.eqb (le_transition_seq entry) 0) (Corrupt "zero transition sequence") ;?
  guard_err (negb (Bool.eqb (is_some (le_process_pid entry)) (is_some (le_process_birth_id entry))))
    (Corrupt "partial process identity in replay ledger") ;?
  guard_err (match le_result_digest entry with Some d => negb (is_digest d) | None => false end)
    (Corrupt "invalid result digest") ;?
  guard_err (match le_reconciliation entry with Some r => bad_actor (rr_actor r) | None => false end)
    (Corrupt "invalid reconciliation metadata").

(** A [BTreeMap] is iterated in the order of its keys. *)
Definition btree_iter {A} (m : gmap string A) : list (string * A) :=
  sort_by (fun a b => String.compare (fst a) (fst b)) (map_to_list m).

Fixpoint validate_entries (l : list (string * LedgerEntry)) : result unit ReplayLedgerError :=
  match l with
  | [] => Ok tt
  | (nonce, entry) :: rest => validate_entry nonce entry ;? validate_entries rest
  end.

(** ** Operations *)

(** Where a call of [persist] fails. *)
Inductive PersistFault : Type := CreateFails | WriteFails | SyncFails | RenameFails | SyncDirectoryFails | VerifyFails.

Section ledger.
Context {LC : LedgerCodec}.

Definition persist (fault : option PersistFault) (l : ReplayLedger) : result unit ReplayLedgerError * ReplayLedger :=
  let serialized := ledger_to_vec {| lf_version := LEDGER_VERSION; lf_entries := rl_entries l |} in
  if MAX_LEDGER_BYTES <? str_len serialized then (Err Full, l)
  else
    let renamed := l <| rl_disk := rl_disk l <| ld_file := Some serialized |> |> in
    let synced := renamed <| rl_disk := rl_disk renamed <| ld_durable := Some serialized |> |> in
    match fault with
    | Some CreateFails => (Err (Write "create"), l)
    | Some WriteFails => (Err (Write "write"), l)
    | Some SyncFails => (Err (Write "sync"), l)
    | Some RenameFails => (Err (Write "rename"), l)
    | Some SyncDirectoryFails => (Err (Write "sync directory"), renamed)
    | Some VerifyFails => (Err (Custody "inspect"), synced)
    | None => (Ok tt, synced)
    end.

(** [if let Err(error) = self.persist() { self.failed_closed = true; return Err(error) }]. *)
Definition persist_or_close (fault : option PersistFault) (l : ReplayLedger)
  : result unit ReplayLedgerError * ReplayLedger :=
  match persist fault l with
  | (Err e, l) => (Err e, l <| rl_failed_closed := true |>)
  | (Ok _, l) => (Ok tt, l)
  end.

Definition ensure_available (l : ReplayLedger) : result unit ReplayLedgerError :=
  guard_err (rl_failed_closed l) FailedClosed.

Definition unsettled (e : LedgerEntry) : bool :=
  match le_state e with ReservedPreSpawn | SpawnedUncertain => true | _ => false end.

Definition prune_completed (fault : option PersistFault) (now_unix : Z) (l : ReplayLedger)
  : result unit ReplayLedgerError * ReplayLedger :=
  let kept := filter (fun kv => unsettled (snd kv) || (now_unix <=? le_expires_at_unix (snd kv)) = true)
                (rl_entries l) in
  let pruned := l <| rl_entries := kept |> in
  if Nat.eqb (size kept) (size (rl_entries l)) then (Ok tt, pruned) else persist_or_close fault pruned.

Definition new_entry (digest : string) (expires_at_unix now_unix : Z) : LedgerEntry :=
  {| le_digest := digest; le_reserved_at_unix := now_unix; le_expires_at_unix := expires_at_unix;
     le_transition_seq := 1%N; le_state := ReservedPreSpawn; le_process_pid := None;
     le_process_birth_id := None; le_result_digest := None; le_reconciliation := None |}.

(** The faults are those of the pruning and of the reservation. *)
Definition reserve (faults : option PersistFault * option PersistFault) (nonce digest : string)
    (expires_at_unix now_unix : Z) (l : ReplayLedger) : result unit ReplayLedgerError * ReplayLedger :=
  match (ensure_available l ;? validate_reservation nonce digest expires_at_unix now_unix) with
  | Err e => (Err e, l)
  | Ok _ =>
      match prune_completed (fst faults) now_unix l with
      | (Err e, l) => (Err e, l)
      | (Ok _, l) =>
          match rl_entries l !! nonce with
          | Some entry => (Err (if String.eqb (le_digest entry) digest then Replay else DigestConflict), l)
          | None =>
              if rl_max_entries l <=? Z.of_nat (size (rl_entries l)) then (Err Full, l)
              else persist_or_close (snd faults)
                     (l <| rl_entries := <[nonce := new_entry digest expires_at_unix now_unix]> (rl_entries l) |>)
          end
      end
  end.

(** The entry that a transition may change. *)
Definition entry_for (nonce digest : string) (from : ReplayState) (l : ReplayLedger)
  : result LedgerEntry ReplayLedgerError :=
  ensure_available l ;?
  let? entry := ok_or (rl_entries l !! nonce) Replay in
  guard_err (negb (String.eqb (le_digest entry) digest)) DigestConflict ;?
  guard_err (negb (bool_decide (le_state entry = from))) Replay ;?
  Ok entry.

Definition advance (entry : LedgerEntry) (state : ReplayState) : LedgerEntry :=
  entry <| le_state := state |> <| le_transition_seq := N.min (le_transition_seq entry + 1) (Z.to_N u64_max) |>.

Definition mark_spawned (fault : option PersistFault) (nonce digest : string) (process_identity : option (Z * Z))
    (l : ReplayLedger) : result unit ReplayLedgerError * ReplayLedger :=
  match entry_for nonce digest ReservedPreSpawn l with
  | Err e => (Err e, l)
  | Ok entry =>
      let entry := advance entry SpawnedUncertain in
      let entry := match process_identity with
                   | Some (pid, birth) => entry <| le_process_pid := Some pid |> <| le_process_birth_id := Some birth |>
                   | None => entry
                   end in
      persist_or_close fault (l <| rl_entries := <[nonce := entry]> (rl_entries l) |>)
  end.

Definition mark_completed (fault : option PersistFault) (nonce digest : string) (l : ReplayLedger)
  : result unit ReplayLedgerError * ReplayLedger :=
  match entry_for nonce digest SpawnedUncertain l with
  | Err e => (Err e, l)
  | Ok entry => persist_or_close fault (l <| rl_entries := <[nonce := advance entry Completed]> (rl_entries l) |>)
  end.

(** What an operator's decision makes of a state. *)
Definition reconciled (decision : ReconcileDecision) (prior : ReplayState) (acknowledge_uncertain : bool)
  : result ReplayState ReplayLedgerError :=
  match decision, prior with
  | MarkAbortedBeforeSpawn, ReservedPreSpawn => Ok AbortedBeforeSpawn
  | MarkCompleted, SpawnedUncertain =>
      if acknowledge_uncertain then Ok Completed
      else Err (Invalid "spawned-uncertain reconciliation requires explicit acknowledgement")
  | _, _ => Err (Invalid "reconciliation decision is incompatible with durable state")
  end.

Definition reconcile (fault : option PersistFault) (nonce : string) (decision : ReconcileDecision) (actor : string)
    (now_unix : Z) (acknowledge_uncertain : bool) (l : ReplayLedger) : result unit ReplayLedgerError * ReplayLedger :=
  match (ensure_available l ;?
         guard_err (bad_actor actor) (Invalid "reconciliation actor is invalid") ;?
         let? entry := ok_or (rl_entries l !! nonce) Replay in
         let? next := reconciled decision (le_state entry) acknowledge_uncertain in
         Ok (entry, next)) with
  | Err e => (Err e, l)
  | Ok (entry, next) =>
      let record := {| rr_actor := actor; rr_at_unix := now_unix; rr_prior_state := le_state entry; rr_new_state := next |} in
      persist_or_close fault
        (l <| rl_entries := <[nonce := advance entry next <| le_reconciliation := Some record |>]> (rl_entries l) |>)
  end.

(** A version 1 entry could not tell a crash before the spawn from one after it. *)
Definition migrate (entry : LegacyLedgerEntry) : LedgerEntry :=
  {| le_digest := ll_digest entry; le_reserved_at_unix := 0; le_expires_at_unix := ll_expires_at_unix entry;
     le_transition_seq := 1%N;
     le_state := match ll_state entry with LegacyReserved => SpawnedUncertain | LegacyCompleted => Completed end;
     le_process_pid := None; le_process_birth_id := None; le_result_digest := None; le_reconciliation := None |}.

(** The entries of a file, and whether they were migrated. *)
Definition read_ledger (max_entries : Z) (bytes : string)
  : result (gmap string LedgerEntry * bool) ReplayLedgerError :=
  guard_err (MAX_LEDGER_BYTES <? str_len bytes) (Corrupt "file exceeds size limit") ;?
  let? version := ok_or (json_version bytes) (Corrupt "missing ledger version") in
  let? read :=
    (if version =? 1 then
       let? legacy := map_err Corrupt (legacy_from_slice bytes) in
       guard_err (negb (lg_version legacy =? 1) || (max_entries <? Z.of_nat (size (lg_entries legacy))))
         (Corrupt "legacy version or entry count is invalid") ;?
       Ok (migrate <$> lg_entries legacy, true)
     else if version =? LEDGER_VERSION then
       let? file := map_err Corrupt (ledger_from_slice bytes) in
       guard_err (max_entries <? Z.of_nat (size (lf_entries file))) (Corrupt "entry count exceeds limit") ;?
       Ok (lf_entries file, false)
     else Err (Corrupt "unsupported forward ledger version")) in
  validate_entries (btree_iter (fst read)) ;?
  Ok read.

(** [ReplayLedger::open].  [custody] is the outcome of the checks of the directory, the
    lock and the file, [readable] that of reading the file. *)
Definition open_ledger (custody readable : result unit ReplayLedgerError) (fault : option PersistFault)
    (max_entries : Z) (disk : LedgerDisk) : result ReplayLedger ReplayLedgerError * LedgerDisk :=
  let ledger entries :=
    {| rl_max_entries := max_entries; rl_entries := entries; rl_failed_closed := false; rl_disk := disk |} in
  let written entries :=
    match persist fault (ledger entries) with
    | (Err e, l) => (Err e, rl_disk l)
    | (Ok _, l) => (Ok l, rl_disk l)
    end in
  match (guard_err (max_entries =? 0) (Invalid "max entries must be positive") ;? custody) with
  | Err e => (Err e, disk)
  | Ok _ =>
      match ld_file disk with
      | None => written ∅
      | Some bytes =>
          match (readable ;? read_ledger max_entries bytes) with
          | Err e => (Err e, disk)
          | Ok (entries, migrated) => if migrated then written entries else (Ok (ledger entries), disk)
          end
      end
  end.

(** ** The status *)

Record ReplayLedgerStatus : Type := {
  st_schema_version : Z;
  st_max_entries : Z;
  st_total_entries : Z;
  st_completed_entries : Z;
  st_uncertain_entries : Z;
  st_recoverable_pre_spawn_entries : Z;
  st_durable_bytes : Z;
  st_oldest_uncertain_unix : option Z;
  st_warning : bool;
  st_critical : bool
}.

Definition count_entries (p : LedgerEntry -> bool) (l : ReplayLedger) : Z :=
  Z.of_nat (length (List.filter p (map snd (btree_iter (rl_entries l))))).

Definition oldest (l : list Z) : option Z :=
  match l with [] => None | x :: rest => Some (foldr Z.min x rest) end.

(** [usize::saturating_mul]. *)
Definition usize_saturating_mul (a b : Z) : Z := Z.min (a * b) u64_max.

Definition status (l : ReplayLedger) : ReplayLedgerStatus :=
  let total := Z.of_nat (size (rl_entries l)) in
  {| st_schema_version := LEDGER_VERSION;
     st_max_entries := rl_max_entries l;
     st_total_entries := total;
     st_completed_entries := count_entries (fun e => negb (unsettled e)) l;
     st_uncertain_entries := count_entries (fun e => bool_decide (le_state e = SpawnedUncertain)) l;
     st_recoverable_pre_spawn_entries := count_entries (fun e => bool_decide (le_state e = ReservedPreSpawn)) l;
     st_durable_bytes := match ld_file (rl_disk l) with Some b => str_len b | None => 0 end;
     st_oldest_uncertain_unix :=
       oldest (map le_reserved_at_unix (List.filter unsettled (map snd (btree_iter (rl_entries l)))));
     st_warning := usize_saturating_mul (rl_max_entries l) 3 / 5 <=? total;
     st_critical := usize_saturating_mul (rl_max_entries l) 4 / 5 <=? total |}.

(** ** What the operations do *)

Definition encoded (m : gmap string LedgerEntry) : string :=
  ledger_to_vec {| lf_version := LEDGER_VERSION; lf_entries := m |}.

(** A file is read as the entries it was written from. *)
Lemma read_encoded max m m' migrated :
  read_ledger max (encoded m) = Ok (m', migrated) -> m' = m /\ migrated = false.
Proof.
  unfold read_ledger, encoded. destruct (_ <? _); [done |]. cbn [guard_err rbind].
  rewrite ledger_version_to_vec. cbn [ok_or rbind lf_version]. change (LEDGER_VERSION =? 1) with false.
  change (LEDGER_VERSION =? LEDGER_VERSION) with true. cbn iota.
  rewrite ledger_from_to_vec. cbn [map_err rbind lf_entries]. destruct (_ <? _); [done |]. cbn [guard_err rbind fst].
  destruct (validate_entries _); [|done]. cbn [rbind]. by intros [= <- <-].
Qed.

Lemma persist_spec fault l r l' :
  persist fault l = (r, l') ->
  rl_entries l' = rl_entries l /\ rl_max_entries l' = rl_max_entries l /\ rl_failed_closed l' = rl_failed_closed l
  /\ (ld_file (rl_disk l') = ld_file (rl_disk l) \/ ld_file (rl_disk l') = Some (encoded (rl_entries l)))
  /\ (ld_durable (rl_disk l') = ld_durable (rl_disk l) \/ ld_durable (rl_disk l') = Some (encoded (rl_entries l)))
  /\ (r = Ok tt -> rl_disk l' = {| ld_file := Some (encoded (rl_entries l)); ld_durable := Some (encoded (rl_entries l)) |}
                   /\ str_len (encoded (rl_entries l)) <= MAX_LEDGER_BYTES).
Proof.
  unfold persist. fold (encoded (rl_entries l)). destruct (Z.ltb_spec MAX_LEDGER_BYTES (str_len (encoded (rl_entries l)))).
  { intros [= <- <-]. naive_solver. }
  destruct fault as [[]|]; intros [= <- <-]; cbn; naive_solver.
Qed.

(** Entries before and after an operation that persists them. *)
Lemma persist_or_close_spec fault l r l' :
  persist_or_close fault l = (r, l') ->
  rl_entries l' = rl_entries l /\ rl_max_entries l' = rl_max_entries l
  /\ (ld_file (rl_disk l') = ld_file (rl_disk l) \/ ld_file (rl_disk l') = Some (encoded (rl_entries l)))
  /\ (ld_durable (rl_disk l') = ld_durable (rl_disk l) \/ ld_durable (rl_disk l') = Some (encoded (rl_entries l)))
  /\ match r with
     | Ok _ => rl_failed_closed l' = rl_failed_closed l
               /\ rl_disk l' = {| ld_file := Some (encoded (rl_entries l)); ld_durable := Some (encoded (rl_entries l)) |}
               /\ str_len (encoded (rl_entries l)) <= MAX_LEDGER_BYTES
     | Err _ => rl_failed_closed l' = true
     end.
Proof.
  unfold persist_or_close. destruct (persist fault l) as [[[]|e] l1] eqn:P; apply persist_spec in P;
    destruct P as (A & B & C & D & F & G); intros [= <- <-]; cbn; split_and!; try done; by apply G.
Qed.

(** ** A property of the entries, in memory and on disk

    [P] holds of the entries in memory, and of whatever the file is read as, now or
    after a loss of power. *)

Section holds.
Context (max : Z) (P : gmap string LedgerEntry -> Prop).

Definition file_holds (f : option string) : Prop :=
  match f with
  | None => P ∅
  | Some bytes => forall m migrated, read_ledger max bytes = Ok (m, migrated) -> P m
  end.

Definition disk_holds (d : LedgerDisk) : Prop := file_holds (ld_file d) /\ file_holds (ld_durable d).

Definition ledger_holds (l : ReplayLedger) : Prop := P (rl_entries l) /\ disk_holds (rl_disk l).

Lemma file_holds_encoded m : P m -> file_holds (Some (encoded m)).
Proof. intros H m' migrated R. by apply read_encoded in R as [-> _]. Qed.

Lemma disk_holds_written m d d' :
  P m -> disk_holds d ->
  ld_file d' = ld_file d \/ ld_file d' = Some (encoded m) ->
  ld_durable d' = ld_durable d \/ ld_durable d' = Some (encoded m) -> disk_holds d'.
Proof.
  intros Hm [F D] [E|E] [E'|E']; split; rewrite ?E, ?E'; try done; by apply file_holds_encoded.
Qed.

Lemma persist_holds fault l r l' : persist fault l = (r, l') -> ledger_holds l -> ledger_holds l'.
Proof.
  intros H [M D]. apply persist_spec in H as (E & _ & _ & F & G & _). split; [by rewrite E |].
  by eapply disk_holds_written.
Qed.

Lemma persist_or_close_holds fault l r l' : persist_or_close fault l = (r, l') -> ledger_holds l -> ledger_holds l'.
Proof.
  intros H [M D]. apply persist_or_close_spec in H as (E & _ & F & G & _). split; [by rewrite E |].
  by eapply disk_holds_written.
Qed.

(** What [P] must survive. *)
Definition pruned (now : Z) (m : gmap string LedgerEntry) : gmap string LedgerEntry :=
  filter (fun kv => unsettled (snd kv) || (now <=? le_expires_at_unix (snd kv)) = true) m.

Lemma prune_holds fault now l r l' :
  (forall m, P m -> P (pruned now m)) -> prune_completed fault now l = (r, l') -> ledger_holds l -> ledger_holds l'.
Proof.
  intros C H [M D]. unfold prune_completed in H. fold (pruned now (rl_entries l)) in H.
  assert (ledger_holds (l <| rl_entries := pruned now (rl_entries l) |>)) by (split; [by apply C | done]).
  destruct (Nat.eqb _ _); [by injection H as <- <- | by eapply persist_or_close_holds].
Qed.

Lemma reserve_holds faults nonce digest expires now l r l' :
  (forall m, P m -> P (pruned now m)) ->
  (forall m, P m -> m !! nonce = None -> now <= expires -> P (<[nonce := new_entry digest expires now]> m)) ->
  reserve faults nonce digest expires now l = (r, l') -> ledger_holds l -> ledger_holds l'.
Proof.
  intros C A H L. unfold reserve in H. destruct (ensure_available l); [|by injection H as <- <-]. cbn [rbind] in H.
  destruct (validate_reservation nonce digest expires now) eqn:V; [|by injection H as <- <-].
  destruct (prune_completed _ now l) as [[u|e] l1] eqn:Pr; (eapply prune_holds in Pr; [|done|done]); [|by injection H as <- <-].
  destruct (rl_entries l1 !! nonce) eqn:N; [by injection H as <- <- |].
  destruct (_ <=? _); [by injection H as <- <- |]. eapply persist_or_close_holds; [exact H |].
  destruct Pr as [M D]. split; [|done]. apply A; [done | done |].
  unfold validate_reservation in V. res_inv. bool_prop. lia.
Qed.

Lemma entry_for_ok nonce digest from l e :
  entry_for nonce digest from l = Ok e ->
  rl_failed_closed l = false /\ rl_entries l !! nonce = Some e /\ le_digest e = digest /\ le_state e = from.
Proof.
  unfold entry_for, ensure_available. intros H. res_inv. bool_prop. split_and!; try done.
  by apply String.eqb_eq.
Qed.

Lemma mark_spawned_holds fault nonce digest l r l' :
  (forall m e, P m -> m !! nonce = Some e -> le_state e = ReservedPreSpawn ->
               P (<[nonce := advance e SpawnedUncertain]> m)) ->
  mark_spawned fault nonce digest None l = (r, l') -> ledger_holds l -> ledger_holds l'.
Proof.
  intros A H [M D]. unfold mark_spawned in H. destruct (entry_for _ _ _ l) as [e|] eqn:E; [|by injection H as <- <-].
  apply entry_for_ok in E as (_ & E & _ & S). eapply persist_or_close_holds; [exact H |]. split; [by apply A | done].
Qed.

Lemma mark_completed_holds fault nonce digest l r l' :
  (forall m e, P m -> m !! nonce = Some e -> le_state e = SpawnedUncertain -> P (<[nonce := advance e Completed]> m)) ->
  mark_completed fault nonce digest l = (r, l') -> ledger_holds l -> ledger_holds l'.
Proof.
  intros A H [M D]. unfold mark_completed in H. destruct (entry_for _ _ _ l) as [e|] eqn:E; [|by injection H as <- <-].
  apply entry_for_ok in E as (_ & E & _ & S). eapply persist_or_close_holds; [exact H |]. split; [by apply A | done].
Qed.

Lemma open_holds custody readable fault disk r disk' :
  open_ledger custody readable fault max disk = (r, disk') -> disk_holds disk ->
  disk_holds disk' /\ match r with Ok l => ledger_holds l /\ rl_disk l = disk' | Err _ => True end.
Proof.
  unfold open_ledger. intros H D. destruct (rbind _ _); [|by injection H as <- <-].
  assert (forall m, P m -> match persist fault {| rl_max_entries := max; rl_entries := m; rl_failed_closed := false; rl_disk := disk |} with
    | (Err e, l) => (Err e, rl_disk l) | (Ok _, l) => (Ok l, rl_disk l) end = (r, disk') ->
    disk_holds disk' /\ match r with Ok l => ledger_holds l /\ rl_disk l = disk' | Err _ => True end) as W.
  { clear H. intros m Hm. destruct (persist _ _) as [[u|e] l] eqn:Pe; (eapply persist_holds in Pe; [|split; [exact Hm | exact D]]); destruct Pe as [Pm Pd];
      intros [= <- <-]; done. }
  destruct (ld_file disk) as [bytes|] eqn:F; [|by apply (W ∅); [destruct D as [D _]; rewrite F in D |]].
  destruct (readable ;? read_ledger max bytes) as [[m migrated]|] eqn:R; [|by injection H as <- <-].
  assert (P m) as Hm.
  { destruct D as [D _]. rewrite F in D. destruct readable; [|done]. by eapply D. }
  destruct migrated; [by apply (W m) | by injection H as <- <-].
Qed.
End holds.
End ledger.
