(* ===== verification/BrokerWire.v ===== *)
(** * Requests to the privileged broker ([crates/ownmesh-broker-client/src/lib.rs])

    Protocol 2: the facts of an action, the execute and cancel intents of the daemon, the
    capability the broker mints for itself, the canonical bytes that are authenticated
    and signed, and the checks.  HMAC, Ed25519 and the JSON text of an intent are the
    class [BrokerKeys]; SHA-256 and hexadecimal are [Digests]. *)

From stdpp Require Import base list strings gmap.
From Stdlib Require Import ZArith Lia Ascii.
From S2P Require Import Prelude RustStr RustBytes RustPath Transfer BrokerLedger.

Open Scope Z_scope.

(** ** Data *)

Definition BROKER_PROTOCOL_V2 : Z := 2.
Definition MAX_BROKER_REQUEST_BYTES : Z := 64 * 1024.
Definition MAX_BROKER_ARGV : Z := 128.
Definition MAX_BROKER_ENV : Z := 64.
Definition MAX_BROKER_FIELD_BYTES : Z := 4096.
Definition MAX_BROKER_TIMEOUT_MS : Z := 300000.
Definition MAX_BROKER_OUTPUT_BYTES : Z := 1000000.
Definition MAX_STRUCTURED_EXECUTABLE_BYTES : Z := 512 * 1024 * 1024.
Definition DEFAULT_CAPABILITY_TTL_SECS : Z := 300.
Definition ELEVATED_CAPABILITY_SCOPE : string := "elevated.exec".

Inductive BrokerError : Type :=
| InvalidToken
| Expired
| BrokerReplay
| BadSignature
| Unauthorized
| Protocol (e : string).

Record ExecutablePinV2 : Type := {
  ex_canonical_path : string;
  ex_image_sha256 : string;
  ex_image_len : Z
}.

Record PeerProcessBindV2 : Type := {
  pb_pid : Z;
  pb_uid : Z;
  pb_executable_path : string;
  pb_process_birth_id : Z;
  pb_image_identity : string
}.

#[export] Instance PeerProcessBindV2_eq_dec : EqDecision PeerProcessBindV2.
Proof. solve_decision. Defined.

Record OperationFactsV2 : Type := {
  of_operation : string;
  of_remote_payload_sha256 : string;
  of_principal_id : string;
  of_tenant_id : string;
  of_principal_credential_generation : Z;
  of_timeout_ms : Z;
  of_max_output_bytes : Z;
  of_device_id : string;
  of_workspace_id : string;
  of_argv : list string;
  of_canonical_cwd : option string;
  of_sanitized_env : gmap string string;
  of_executable : ExecutablePinV2
}.

Record CapabilityTokenV2 : Type := {
  ct_token_id : string;
  ct_broker_instance_id : string;
  ct_broker_key_id : string;
  ct_principal : string;
  ct_scope : string;
  ct_operation_id : string;
  ct_operation_facts_digest : string;
  ct_nonce : string;
  ct_peer : PeerProcessBindV2;
  ct_issued_at_unix : Z;
  ct_expires_at_unix : Z;
  ct_signature : string
}.

#[export] Instance CapabilityTokenV2_eta : Eta CapabilityTokenV2 := fun c =>
  {| ct_token_id := ct_token_id c; ct_broker_instance_id := ct_broker_instance_id c;
     ct_broker_key_id := ct_broker_key_id c; ct_principal := ct_principal c; ct_scope := ct_scope c;
     ct_operation_id := ct_operation_id c; ct_operation_facts_digest := ct_operation_facts_digest c;
     ct_nonce := ct_nonce c; ct_peer := ct_peer c; ct_issued_at_unix := ct_issued_at_unix c;
     ct_expires_at_unix := ct_expires_at_unix c; ct_signature := ct_signature c |}.

Record BrokerRequestV2 : Type := {
  rq_protocol_version : Z;
  rq_request_id : string;
  rq_operation_id : string;
  rq_nonce : string;
  rq_issued_at_unix : Z;
  rq_expires_at_unix : Z;
  rq_facts : OperationFactsV2;
  rq_capability : option CapabilityTokenV2;
  rq_mac : string
}.

#[export] Instance BrokerRequestV2_eta : Eta BrokerRequestV2 := fun r =>
  {| rq_protocol_version := rq_protocol_version r; rq_request_id := rq_request_id r;
     rq_operation_id := rq_operation_id r; rq_nonce := rq_nonce r; rq_issued_at_unix := rq_issued_at_unix r;
     rq_expires_at_unix := rq_expires_at_unix r; rq_facts := rq_facts r;
     rq_capability := rq_capability r; rq_mac := rq_mac r |}.

Record ExecuteIntentV2 : Type := {
  ei_protocol_version : Z;
  ei_request_id : string;
  ei_operation_id : string;
  ei_nonce : string;
  ei_issued_at_unix : Z;
  ei_expires_at_unix : Z;
  ei_facts : OperationFactsV2;
  ei_mac : string
}.

Record CancelIntentV2 : Type := {
  ci_protocol_version : Z;
  ci_request_id : string;
  ci_operation_id : string;
  ci_nonce : string;
  ci_issued_at_unix : Z;
  ci_expires_at_unix : Z;
  ci_target_request_id : string;
  ci_target_operation_id : string;
  ci_target_nonce : string;
  ci_target_facts_digest : string;
  ci_mac : string
}.

Inductive BrokerWireIntentV2 : Type :=
| Execute (e : ExecuteIntentV2)
| Cancel (c : CancelIntentV2).

Definition into_unprepared_request (e : ExecuteIntentV2) : BrokerRequestV2 :=
  {| rq_protocol_version := ei_protocol_version e; rq_request_id := ei_request_id e;
     rq_operation_id := ei_operation_id e; rq_nonce := ei_nonce e;
     rq_issued_at_unix := ei_issued_at_unix e; rq_expires_at_unix := ei_expires_at_unix e;
     rq_facts := ei_facts e; rq_capability := None; rq_mac := ei_mac e |}.

(** ** Canonical bytes *)

Definition put_u32 (v : Z) : string := to_le_bytes 4 v.
Definition put_i32 (v : Z) : string := to_le_bytes 4 v.
Definition put_u64 (v : Z) : string := to_le_bytes 8 v.
Definition put_i64 (v : Z) : string := to_le_bytes 8 v.

Definition put_bytes (bytes : string) : string := put_u32 (str_len bytes) +:+ bytes.
Definition put_str (s : string) : string := put_bytes s.

(** [u32::try_from(n).unwrap_or(u32::MAX)]. *)
Definition u32_or_max (n : Z) : Z := if n <=? u32_max then n else u32_max.

Fixpoint put_pairs (l : list (string * string)) : string :=
  match l with [] => "" | (k, v) :: rest => put_str k +:+ put_str v +:+ put_pairs rest end.

Definition put_map (values : gmap string string) : string :=
  put_u32 (u32_or_max (Z.of_nat (size values))) +:+ put_pairs (btree_iter values).

Fixpoint put_strs (l : list string) : string :=
  match l with [] => "" | s :: rest => put_str s +:+ put_strs rest end.

Definition put_cwd (cwd : option string) : string :=
  match cwd with Some c => String (byte_of 1) (put_str c) | None => String (byte_of 0) "" end.

Definition OPERATION_FACTS_V2_DOMAIN : string := "ownmesh-broker-operation-facts-v2".
Definition CAPABILITY_V2_SIG_DOMAIN : string := "ownmesh-broker-cap-ed25519-v2".
Definition REQUEST_V2_MAC_DOMAIN : string := "ownmesh-broker-req-mac-v2".
Definition CANCEL_INTENT_V2_DOMAIN : string := "ownmesh.broker.cancel-intent.v2" +:+ String NUL "".

Definition canonical_operation_facts_v2_bytes (facts : OperationFactsV2) : string :=
  OPERATION_FACTS_V2_DOMAIN
  +:+ put_str (of_operation facts) +:+ put_str (of_remote_payload_sha256 facts)
  +:+ put_str (of_principal_id facts) +:+ put_str (of_tenant_id facts)
  +:+ put_u64 (of_principal_credential_generation facts) +:+ put_u64 (of_timeout_ms facts)
  +:+ put_u32 (u32_or_max (of_max_output_bytes facts))
  +:+ put_str (of_device_id facts) +:+ put_str (of_workspace_id facts)
  +:+ put_u32 (u32_or_max (zlen (of_argv facts))) +:+ put_strs (of_argv facts)
  +:+ put_cwd (of_canonical_cwd facts) +:+ put_map (of_sanitized_env facts)
  +:+ put_str (ex_canonical_path (of_executable facts)) +:+ put_str (ex_image_sha256 (of_executable facts))
  +:+ put_u64 (ex_image_len (of_executable facts)).

Definition canonical_peer_process_v2_bytes (peer : PeerProcessBindV2) : string :=
  put_i32 (pb_pid peer) +:+ put_u32 (pb_uid peer) +:+ put_str (pb_executable_path peer)
  +:+ put_u64 (pb_process_birth_id peer) +:+ put_str (pb_image_identity peer).

Definition canonical_capability_v2_bytes (token : CapabilityTokenV2) : string :=
  CAPABILITY_V2_SIG_DOMAIN
  +:+ put_str (ct_token_id token) +:+ put_str (ct_broker_instance_id token)
  +:+ put_str (ct_broker_key_id token) +:+ put_str (ct_principal token) +:+ put_str (ct_scope token)
  +:+ put_str (ct_operation_id token) +:+ put_str (ct_operation_facts_digest token)
  +:+ put_str (ct_nonce token) +:+ canonical_peer_process_v2_bytes (ct_peer token)
  +:+ put_i64 (ct_issued_at_unix token) +:+ put_i64 (ct_expires_at_unix token).

Definition canonical_request_v2_bytes (req : BrokerRequestV2) : string :=
  REQUEST_V2_MAC_DOMAIN
  +:+ put_u32 (rq_protocol_version req) +:+ put_str (rq_request_id req) +:+ put_str (rq_operation_id req)
  +:+ put_str (rq_nonce req) +:+ put_i64 (rq_issued_at_unix req) +:+ put_i64 (rq_expires_at_unix req)
  +:+ put_bytes (canonical_operation_facts_v2_bytes (rq_facts req))
  +:+ match rq_capability req with
      | Some cap => String (byte_of 1) (put_bytes (canonical_capability_v2_bytes cap) +:+ put_str (ct_signature cap))
      | None => String (byte_of 0) ""
      end.

Definition canonical_cancel_intent_v2_bytes (intent : CancelIntentV2) : string :=
  CANCEL_INTENT_V2_DOMAIN
  +:+ put_u32 (ci_protocol_version intent) +:+ put_str (ci_request_id intent)
  +:+ put_str (ci_operation_id intent) +:+ put_str (ci_nonce intent)
  +:+ put_i64 (ci_issued_at_unix intent) +:+ put_i64 (ci_expires_at_unix intent)
  +:+ put_str (ci_target_request_id intent) +:+ put_str (ci_target_operation_id intent)
  +:+ put_str (ci_target_nonce intent) +:+ put_str (ci_target_facts_digest intent).

(** ** Checks *)

Definition is_sha256_hex (value : string) : bool :=
  (str_len value =? 64)
  && str_all (fun b => is_ascii_digit b || (is_ascii_lowercase b && is_ascii_hexdigit b)) value.

Definition validate_bounded_field (name value : string) : result unit BrokerError :=
  guard_err (blank value || (MAX_BROKER_FIELD_BYTES <? str_len value) || contains_char NUL value)
    (Protocol ("invalid " +:+ name)).

Fixpoint validate_bounded_fields (l : list (string * string)) : result unit BrokerError :=
  match l with
  | [] => Ok tt
  | (name, value) :: rest => validate_bounded_field name value ;? validate_bounded_fields rest
  end.

(** [i64::saturating_sub] of two expiry times exceeds the permitted lifetime. *)
Definition too_long (issued expires : Z) : bool := DEFAULT_CAPABILITY_TTL_SECS <? i64_saturating_sub expires issued.

Definition bad_facts (req : BrokerRequestV2) : bool :=
  let f := rq_facts req in
  negb (String.eqb (of_operation f) (rq_operation_id req))
  || (zlen (of_argv f) =? 0) || (MAX_BROKER_ARGV <? zlen (of_argv f))
  || (MAX_BROKER_ENV <? Z.of_nat (size (of_sanitized_env f))) || negb (Nat.eqb (size (of_sanitized_env f)) 0)
  || negb (is_sha256_hex (of_remote_payload_sha256 f)) || negb (is_sha256_hex (ex_image_sha256 (of_executable f)))
  || match of_argv f with a :: _ => negb (String.eqb a (ex_canonical_path (of_executable f))) | [] => true end
  || (of_timeout_ms f =? 0) || (MAX_BROKER_TIMEOUT_MS <? of_timeout_ms f)
  || (of_max_output_bytes f =? 0) || (MAX_BROKER_OUTPUT_BYTES <? of_max_output_bytes f)
  || (ex_image_len (of_executable f) =? 0) || (MAX_STRUCTURED_EXECUTABLE_BYTES <? ex_image_len (of_executable f)).

Fixpoint validate_env (l : list (string * string)) : result unit BrokerError :=
  match l with
  | [] => Ok tt
  | (key, value) :: rest =>
      validate_bounded_field "environment name" key ;?
      guard_err (contains_char "=" key) (Protocol "environment name contains '='") ;?
      guard_err ((MAX_BROKER_FIELD_BYTES <? str_len value) || contains_char NUL value)
        (Protocol "invalid environment value") ;?
      validate_env rest
  end.

Definition validate_capability_shape (cap : CapabilityTokenV2) : result unit BrokerError :=
  validate_bounded_fields
    [("capability token id", ct_token_id cap); ("broker instance id", ct_broker_instance_id cap);
     ("broker key id", ct_broker_key_id cap); ("capability principal", ct_principal cap);
     ("peer executable path", pb_executable_path (ct_peer cap));
     ("peer image identity", pb_image_identity (ct_peer cap))] ;?
  guard_err (negb (is_sha256_hex (ct_operation_facts_digest cap)) || (pb_pid (ct_peer cap) <=? 0)
             || (pb_process_birth_id (ct_peer cap) =? 0)) (Protocol "invalid capability binding").

Definition validate_v2_request_shape (req : BrokerRequestV2) (now_unix : Z) : result unit BrokerError :=
  let f := rq_facts req in
  guard_err (negb (rq_protocol_version req =? BROKER_PROTOCOL_V2)) (Protocol "unsupported v2 protocol version") ;?
  guard_err ((rq_expires_at_unix req <? now_unix) || (now_unix <? rq_issued_at_unix req)) Expired ;?
  guard_err ((rq_expires_at_unix req <? rq_issued_at_unix req)
             || too_long (rq_issued_at_unix req) (rq_expires_at_unix req)) (Protocol "invalid request lifetime") ;?
  validate_bounded_fields
    [("request_id", rq_request_id req); ("operation_id", rq_operation_id req); ("nonce", rq_nonce req);
     ("facts.operation", of_operation f); ("principal_id", of_principal_id f); ("tenant_id", of_tenant_id f);
     ("device_id", of_device_id f); ("workspace_id", of_workspace_id f);
     ("executable path", ex_canonical_path (of_executable f))] ;?
  guard_err (bad_facts req) (Protocol "invalid bounded operation facts") ;?
  validate_bounded_fields (map (fun arg => ("argv", arg)) (of_argv f)) ;?
  match of_canonical_cwd f with
  | Some cwd =>
      validate_bounded_field "canonical cwd" cwd ;?
      guard_err (negb (is_absolute cwd)) (Protocol "canonical cwd must be absolute")
  | None => Ok tt
  end ;?
  validate_env (btree_iter (of_sanitized_env f)) ;?
  match rq_capability req with Some cap => validate_capability_shape cap | None => Ok tt end.

(** ** Authentication *)

(** [hmac], [ed25519_dalek] and [serde_json]: a signature is 64 bytes and verifies under the
    public half of its key. *)
Class BrokerKeys : Type := {
  SigningKey : Type;
  VerifyingKey : Type;
  verifying_key : SigningKey -> VerifyingKey;
  verifying_key_bytes : VerifyingKey -> string;
  ed25519_sign : SigningKey -> string -> string;
  ed25519_verifies : VerifyingKey -> string -> string -> bool;
  hmac_sha256 : string -> string -> string;
  intent_from_slice : string -> result BrokerWireIntentV2 string;
  ed25519_sign_len k m : str_len (ed25519_sign k m) = 64;
  ed25519_sign_verifies k m : ed25519_verifies (verifying_key k) m (ed25519_sign k m) = true
}.

Section auth.
Context {DG : Digests} {BK : BrokerKeys}.

Definition operation_facts_digest (facts : OperationFactsV2) : string :=
  hex_encode (sha256 (canonical_operation_facts_v2_bytes facts)).

Definition hmac_hex (secret data : string) : string := hex_encode (hmac_sha256 secret data).

Definition compute_mac_v2 (secret : string) (req : BrokerRequestV2) : string :=
  hmac_hex secret (canonical_request_v2_bytes req).

Definition compute_cancel_intent_mac_v2 (secret : string) (intent : CancelIntentV2) : string :=
  hmac_hex secret (canonical_cancel_intent_v2_bytes intent).

Definition constant_time_hex_eq (a b : string) : bool :=
  match hex_decode a, hex_decode b with
  | Some a_bytes, Some b_bytes => String.eqb a_bytes b_bytes
  | _, _ => String.eqb a b
  end.

Definition verify_request_v2_message_auth (secret : string) (req : BrokerRequestV2) (now_unix : Z)
  : result unit BrokerError :=
  validate_v2_request_shape req now_unix ;?
  guard_err (negb (constant_time_hex_eq (compute_mac_v2 secret req) (rq_mac req))) BadSignature.

Definition verify_execute_intent_v2_message_auth (secret : string) (intent : ExecuteIntentV2) (now_unix : Z)
  : result unit BrokerError :=
  verify_request_v2_message_auth secret (into_unprepared_request intent) now_unix.

Definition verify_cancel_intent_v2_message_auth (secret : string) (intent : CancelIntentV2) (now_unix : Z)
  : result unit BrokerError :=
  guard_err (negb (ci_protocol_version intent =? BROKER_PROTOCOL_V2) || (ci_expires_at_unix intent <? now_unix)
             || (now_unix <? ci_issued_at_unix intent) || (ci_expires_at_unix intent <? ci_issued_at_unix intent)
             || too_long (ci_issued_at_unix intent) (ci_expires_at_unix intent)
             || negb (is_sha256_hex (ci_target_facts_digest intent))) (Protocol "invalid bounded cancel intent") ;?
  validate_bounded_fields
    [("request_id", ci_request_id intent); ("operation_id", ci_operation_id intent); ("nonce", ci_nonce intent);
     ("target_request_id", ci_target_request_id intent); ("target_operation_id", ci_target_operation_id intent);
     ("target_nonce", ci_target_nonce intent)] ;?
  guard_err (negb (constant_time_hex_eq (compute_cancel_intent_mac_v2 secret intent) (ci_mac intent))) BadSignature.

(** [CapabilityTokenV2::issue]; [token_id] has the fresh UUID. *)
Definition issue (token_id : string) (signing_key : SigningKey) (broker_instance_id broker_key_id principal operation_id : string)
    (facts : OperationFactsV2) (nonce : string) (peer : PeerProcessBindV2) (now_unix ttl_secs : Z) : CapabilityTokenV2 :=
  let token :=
    {| ct_token_id := token_id; ct_broker_instance_id := broker_instance_id; ct_broker_key_id := broker_key_id;
       ct_principal := principal; ct_scope := ELEVATED_CAPABILITY_SCOPE; ct_operation_id := operation_id;
       ct_operation_facts_digest := operation_facts_digest facts; ct_nonce := nonce; ct_peer := peer;
       ct_issued_at_unix := now_unix; ct_expires_at_unix := i64_saturating_add now_unix ttl_secs;
       ct_signature := "" |} in
  token <| ct_signature := hex_encode (ed25519_sign signing_key (canonical_capability_v2_bytes token)) |>.

Definition capability_verify (verify_key : VerifyingKey) (message signature : string) : result unit BrokerError :=
  guard_err (negb (str_len signature =? 64)) BadSignature ;?
  guard_err (negb (ed25519_verifies verify_key message signature)) BadSignature.

Definition verify_capability_v2 (verify_key : VerifyingKey) (req : BrokerRequestV2)
    (expected_broker_instance_id expected_broker_key_id : string) (peer : PeerProcessBindV2) (now_unix : Z)
  : result unit BrokerError :=
  validate_v2_request_shape req now_unix ;?
  let? cap := ok_or (rq_capability req) InvalidToken in
  guard_err ((ct_expires_at_unix cap <? now_unix) || (now_unix <? ct_issued_at_unix cap)) Expired ;?
  guard_err (negb (String.eqb (ct_scope cap) ELEVATED_CAPABILITY_SCOPE)
             || negb (String.eqb (ct_operation_id cap) (rq_operation_id req))
             || negb (String.eqb (ct_nonce cap) (rq_nonce req))
             || negb (String.eqb (ct_broker_instance_id cap) expected_broker_instance_id)
             || negb (String.eqb (ct_broker_key_id cap) expected_broker_key_id)
             || negb (String.eqb (ct_operation_facts_digest cap) (operation_facts_digest (rq_facts req)))
             || negb (bool_decide (ct_peer cap = peer))) Unauthorized ;?
  let? signature := ok_or (hex_decode (ct_signature cap)) BadSignature in
  capability_verify verify_key (canonical_capability_v2_bytes cap) signature.

Definition parse_broker_wire_intent_v2 (bytes : string) : result BrokerWireIntentV2 BrokerError :=
  guard_err (MAX_BROKER_REQUEST_BYTES <? str_len bytes) (Protocol "request exceeds byte limit") ;?
  map_err (fun e => Protocol ("invalid strict v2 intent: " +:+ e)) (intent_from_slice bytes).
End auth.
