(* ===== verification/BrokerServe.v ===== *)
(** * The privileged broker at work

    [crates/ownmesh-broker/src/peer.rs] (Linux) and the production handler of
    [crates/ownmesh-broker/src/serve.rs].  A connection is a task that is cut where the
    handler takes a lock or waits: the ledger and the table of active executions are
    shared, and tasks interleave; a cancellation keeps the lock of the table over its
    writes of the ledger, which is left out: the tasks interleave more here.  What the
    operating system reports is an argument. *)

From stdpp Require Import base list strings gmap.
From Stdlib Require Import ZArith Lia Ascii.
From S2P Require Import Prelude RustStr RustBytes RustPath Transfer BrokerLedger BrokerWire.

Open Scope Z_scope.

(** ** The peer *)

Record FileIdentity : Type := { fi_device : Z; fi_inode : Z }.

#[export] Instance FileIdentity_eq_dec : EqDecision FileIdentity.
Proof. solve_decision. Defined.

Definition identity_text (i : FileIdentity) : string :=
  "dev=" +:+ u64_to_string (fi_device i) +:+ ";ino=" +:+ u64_to_string (fi_inode i).

Record PeerBind : Type := { pr_pid : Z; pr_uid : Z; pr_exe_path : string }.

#[export] Instance PeerBind_eq_dec : EqDecision PeerBind.
Proof. solve_decision. Defined.

Record TrustedPeerPolicy : Type := {
  tp_trusted_executable : string;
  tp_allowed_uids : list Z;
  tp_trusted_file_id : option FileIdentity
}.

Record AuthorizedPeer : Type := {
  ap_peer : PeerBind;
  ap_process_start_time : Z;
  ap_image_identity : string
}.

Definition check_bind (policy : TrustedPeerPolicy) (peer : PeerBind) : result unit string :=
  guard_err (pr_pid peer <=? 0) "trusted ownmeshd PID is missing (fail-closed)" ;?
  guard_err (negb (existsb (Z.eqb (pr_uid peer)) (tp_allowed_uids policy))) "ownmeshd uid is not in explicit allow-list (fail-closed)" ;?
  guard_err (blank (pr_exe_path peer)) "OS could not resolve ownmeshd executable (fail-closed)" ;?
  guard_err (negb (String.eqb (pr_exe_path peer) (tp_trusted_executable policy))) "peer executable mismatch (fail-closed)".

(** What one authorization reads from the system: the socket's credentials and the
    process behind them, twice, and the trusted file before and after. *)
Record PeerView : Type := {
  pv_socket_pid : result Z string;
  pv_socket_uid : Z;
  pv_socket_exe : result string string;
  pv_trusted_before : result FileIdentity string;
  pv_start_before : result Z string;
  pv_file_before : result FileIdentity string;
  pv_exe : result string string;
  pv_uid : result Z string;
  pv_exe_after : result string string;
  pv_file_after : result FileIdentity string;
  pv_start_after : result Z string;
  pv_trusted_after : result FileIdentity string
}.

Record ResolvedLinuxProcess : Type := {
  rp_peer : PeerBind;
  rp_start_time : Z;
  rp_executable_file_id : FileIdentity
}.

Definition resolve_linux_process (v : PeerView) (pid : Z) : result ResolvedLinuxProcess string :=
  guard_err (pid <=? 0) "peer PID must be positive (fail-closed)" ;?
  let? start_before := pv_start_before v in
  let? file_before := pv_file_before v in
  let? exe := pv_exe v in
  let? uid := pv_uid v in
  let? exe_after := pv_exe_after v in
  let? file_after := pv_file_after v in
  let? start_after := pv_start_after v in
  guard_err (negb (start_before =? start_after) || negb (String.eqb exe exe_after)
             || negb (bool_decide (file_before = file_after)))
    "process identity changed while resolving PID/UID/executable (fail-closed)" ;?
  Ok {| rp_peer := {| pr_pid := pid; pr_uid := uid; pr_exe_path := exe |};
        rp_start_time := start_before; rp_executable_file_id := file_before |}.

Definition authorize_process (policy : TrustedPeerPolicy) (v : PeerView) (pid : Z) : result AuthorizedPeer string :=
  let? pinned := ok_or (tp_trusted_file_id policy)
                   "trusted executable policy is not pinned to root-controlled file identity (fail-closed)" in
  let? current_before := pv_trusted_before v in
  guard_err (negb (bool_decide (current_before = pinned))) "trusted ownmeshd executable identity changed (fail-closed)" ;?
  let? resolved := resolve_linux_process v pid in
  guard_err (negb (bool_decide (rp_executable_file_id resolved = pinned))) "peer executable file identity mismatch (fail-closed)" ;?
  let? current_after := pv_trusted_after v in
  guard_err (negb (bool_decide (current_after = pinned)))
    "trusted ownmeshd executable identity changed during authorization (fail-closed)" ;?
  check_bind policy (rp_peer resolved) ;?
  Ok {| ap_peer := rp_peer resolved; ap_process_start_time := rp_start_time resolved;
        ap_image_identity := identity_text (rp_executable_file_id resolved) |}.

Definition check_unix_peer (v : PeerView) : result PeerBind string :=
  let? pid := pv_socket_pid v in
  guard_err (pid <=? 0) "peer pid missing from SO_PEERCRED (fail-closed)" ;?
  let? exe := pv_socket_exe v in
  Ok {| pr_pid := pid; pr_uid := pv_socket_uid v; pr_exe_path := exe |}.

Definition authorize_unix_peer (policy : TrustedPeerPolicy) (v : PeerView) : result AuthorizedPeer string :=
  let? socket_peer := check_unix_peer v in
  let? authorized := authorize_process policy v (pr_pid socket_peer) in
  guard_err (negb (bool_decide (ap_peer authorized = socket_peer)))
    "socket peer identity changed during authorization (fail-closed)" ;?
  Ok authorized.

Definition validate_refresh (accepted refreshed : AuthorizedPeer) : result unit string :=
  guard_err (negb (ap_process_start_time refreshed =? ap_process_start_time accepted))
    "peer PID was reused after accept (process start time changed; fail-closed)" ;?
  guard_err (negb (bool_decide (ap_peer refreshed = ap_peer accepted))) "peer identity changed after accept (fail-closed)".

Definition process_bind_v2 (p : AuthorizedPeer) : PeerProcessBindV2 :=
  {| pb_pid := pr_pid (ap_peer p); pb_uid := pr_uid (ap_peer p); pb_executable_path := pr_exe_path (ap_peer p);
     pb_process_birth_id := ap_process_start_time p; pb_image_identity := ap_image_identity p |}.

(** ** The frame *)

(** [read_bounded_v2_frame], on the bytes the peer sends before it closes. *)
Fixpoint read_frame (stream frame : string) : result string string :=
  match stream with
  | EmptyString => Err "broker peer closed before request frame"
  | String byte rest =>
      if code byte =? 10 then Ok frame
      else if MAX_BROKER_REQUEST_BYTES <=? str_len frame then Err "broker request frame exceeds byte limit"
      else read_frame rest (frame +:+ String byte "")
  end.

Definition read_bounded_v2_frame (stream : string) : result string string := read_frame stream "".

(** ** The staged executable *)

(** The pinned source, from the open descriptor, and the outcome of the writes. *)
Record SourceView : Type := {
  sv_is_file : bool;
  sv_identity_before : FileIdentity;
  sv_len_before : Z;
  sv_reads : list (result string string);
  sv_identity_after : FileIdentity;
  sv_len_after : Z;
  sv_created : result unit string;
  sv_written : result unit string;
  sv_staged_custody : bool
}.

(** The copying loop. *)
Fixpoint copy_source (reads : list (result string string)) (copied : string) : result string string :=
  match reads with
  | [] => Ok copied
  | Err e :: _ => Err e
  | Ok buf :: rest =>
      if is_empty buf then Ok copied
      else
        let? total := ok_or (u64_checked_add (str_len copied) (str_len buf)) "source executable length overflow" in
        guard_err (MAX_STRUCTURED_EXECUTABLE_BYTES <? total) "source executable exceeds staging bound" ;?
        copy_source rest (copied +:+ buf)
  end.

Section staging.
Context {DG : Digests}.

(** The bytes of the private copy; a copy that fails is removed. *)
Definition stage_linux_executable (request : BrokerRequestV2) (source : result SourceView string) : result string string :=
  let facts := rq_facts request in
  guard_err (is_some (of_canonical_cwd facts)) "non-None cwd is unsupported for privileged broker execution; safe pinned cwd handoff is not implemented" ;?
  guard_err (negb (is_absolute (ex_canonical_path (of_executable facts)))) "source executable must be absolute (fail-closed)" ;?
  let? v := source in
  guard_err (negb (sv_is_file v) || negb (sv_len_before v =? ex_image_len (of_executable facts))
             || (MAX_STRUCTURED_EXECUTABLE_BYTES <? sv_len_before v))
    "source executable type or bounded length changed (fail-closed)" ;?
  sv_created v ;?
  let? copied := copy_source (sv_reads v) "" in
  sv_written v ;?
  guard_err (negb (bool_decide (sv_identity_after v = sv_identity_before v)) || negb (sv_len_after v =? sv_len_before v)
             || negb (str_len copied =? ex_image_len (of_executable facts))
             || negb (String.eqb (hex_encode (sha256 copied)) (ex_image_sha256 (of_executable facts))))
    "pinned source executable identity/hash mismatch (fail-closed)" ;?
  guard_err (negb (sv_staged_custody v)) "staged executable lost root-only immutable custody" ;?
  Ok copied.
End staging.

(** ** The handler *)

(** [ae_cancel] is the sending end of the execution's cancel channel: the connection whose
    runner has the other end. *)
Record ActiveExecution : Type := {
  ae_request_id : string;
  ae_operation_id : string;
  ae_nonce : string;
  ae_facts_digest : string;
  ae_peer : PeerProcessBindV2;
  ae_cancel : Z
}.

#[export] Instance ActiveExecution_eq_dec : EqDecision ActiveExecution.
Proof. solve_decision. Defined.

(** An execution: the internal request with its capability, the peer, the private copy,
    and the time read before the reservation. *)
Record Execution : Type := {
  xn_request : BrokerRequestV2;
  xn_peer : PeerProcessBindV2;
  xn_image : string;
  xn_now : Z
}.

Record Cancellation : Type := {
  cn_cancel : CancelIntentV2;
  cn_accepted : AuthorizedPeer
}.

(** Where a connection's task is.  [ExecHungUp] is a runner that is awaited after the
    connection was closed; [CancelMarked] has the entry that passed the fence. *)
Inductive Task : Type :=
| ExecVerified (x : Execution)
| ExecReserved (x : Execution)
| ExecActive (x : Execution)
| ExecRunning (x : Execution)
| ExecHungUp (x : Execution)
| ExecFinished (x : Execution) (outcome : result unit string)
| ExecRemoved (x : Execution) (outcome : result unit string)
| CancelVerified (c : Cancellation)
| CancelReserved (c : Cancellation)
| CancelMarked (c : Cancellation) (target : ActiveExecution).

(** Why a tree is signalled: a cancellation, or the end of its own connection. *)
Inductive Cause : Type :=
| Cancelled (c : Cancellation)
| HungUp.

(** What leaves the broker: a staged image handed to the runner, the tree of an execution
    signalled through its cancel channel. *)
Inductive Effect : Type :=
| Spawn (x : Execution)
| Signal (x : Execution) (why : Cause).

Record Serving : Type := {
  sv_ledger : ReplayLedger;
  sv_active : gmap string ActiveExecution;
  sv_tasks : gmap Z Task
}.

#[export] Instance Serving_eta : Eta Serving := fun s =>
  {| sv_ledger := sv_ledger s; sv_active := sv_active s; sv_tasks := sv_tasks s |}.

(** The process, when it is up, and what outlives it.  [bk_times] are the times given to
    the reservations so far, the latest first. *)
Record Broker : Type := {
  bk_disk : LedgerDisk;
  bk_up : option Serving;
  bk_staged : gmap Z string;
  bk_effects : list Effect;
  bk_times : list Z;
  bk_replies : list (Z * result unit string)
}.

#[export] Instance Broker_eta : Eta Broker := fun b =>
  {| bk_disk := bk_disk b; bk_up := bk_up b; bk_staged := bk_staged b; bk_effects := bk_effects b;
     bk_times := bk_times b; bk_replies := bk_replies b |}.

Definition MAX_LEDGER_ENTRIES : Z := 16384.
Definition MAX_CONNECTIONS : Z := 16.

(** A new connection: what the system reports at accept and before execution, the bytes
    received, the two times read, the source of the executable, the fresh token id. *)
Record Arrival : Type := {
  ar_accepted : PeerView;
  ar_stream : string;
  ar_refreshed : PeerView;
  ar_auth_now : Z;
  ar_now : Z;
  ar_source : result SourceView string;
  ar_token_id : string
}.

Section serve.
Context {DG : Digests} {LC : LedgerCodec} {BK : BrokerKeys}.

Record Config : Type := {
  cf_secret : string;
  cf_signing_key : SigningKey;
  cf_socket_path : string;
  cf_policy : TrustedPeerPolicy
}.

Context (cf : Config).

Definition broker_key_id : string := hex_encode (sha256 (verifying_key_bytes (verifying_key (cf_signing_key cf)))).
Definition broker_instance_id : string := hex_encode (sha256 (broker_key_id +:+ cf_socket_path cf)).

Definition broker_error_text (e : BrokerError) : string :=
  match e with
  | InvalidToken => "invalid token"
  | Expired => "expired request"
  | BrokerReplay => "replay detected"
  | BadSignature => "signature mismatch"
  | Unauthorized => "unauthorized caller"
  | Protocol e => "protocol error: " +:+ e
  end.

Definition replay_error_text (e : ReplayLedgerError) : string :=
  match e with
  | Replay => "replay ledger nonce was already consumed"
  | DigestConflict => "replay ledger nonce conflicts with a different operation digest"
  | Full => "replay ledger is full; refusing to evict live or uncertain entries"
  | Corrupt e => "replay ledger is corrupt: " +:+ e
  | Custody e => "replay ledger custody failure: " +:+ e
  | Write e => "replay ledger durable write failure: " +:+ e
  | FailedClosed => "replay ledger is unavailable after a prior durable write failure"
  | Invalid e => "invalid replay reservation: " +:+ e
  end.

Definition replay_error (e : ReplayLedgerError) : string :=
  "replay ledger authorization denied: " +:+ replay_error_text e.

(** Between the frame and the reservation of an execution: the request with a fresh
    capability, and the copy that was staged, which an error after it leaves behind. *)
Definition prepare_execution (a : Arrival) (accepted : AuthorizedPeer) (execute : ExecuteIntentV2)
  : result Task string * option string :=
  match (map_err broker_error_text (verify_execute_intent_v2_message_auth (cf_secret cf) execute (ar_auth_now a)) ;?
         let? refreshed := authorize_unix_peer (cf_policy cf) (ar_refreshed a) in
         validate_refresh accepted refreshed ;?
         let? image := stage_linux_executable (into_unprepared_request execute) (ar_source a) in
         Ok (process_bind_v2 refreshed, image)) with
  | Err e => (Err e, None)
  | Ok (peer, image) =>
      let external := into_unprepared_request execute in
      let now := ar_now a in
      let capability :=
        issue (ar_token_id a) (cf_signing_key cf) broker_instance_id broker_key_id (of_principal_id (rq_facts external))
          (rq_operation_id external) (rq_facts external) (rq_nonce external) peer now
          (i64_saturating_sub (rq_expires_at_unix external) now) in
      let internal := external <| rq_capability := Some capability |> in
      (map_err broker_error_text
         (verify_capability_v2 (verifying_key (cf_signing_key cf)) internal broker_instance_id broker_key_id peer now) ;?
       Ok (ExecVerified {| xn_request := internal; xn_peer := peer; xn_image := image; xn_now := now |}), Some image)
  end.

(** The handler up to its first use of the ledger. *)
Definition prepare (a : Arrival) : result Task string * option string :=
  match (let? accepted := authorize_unix_peer (cf_policy cf) (ar_accepted a) in
         let? bytes := read_bounded_v2_frame (ar_stream a) in
         let? intent := map_err broker_error_text (parse_broker_wire_intent_v2 bytes) in
         Ok (accepted, intent)) with
  | Err e => (Err e, None)
  | Ok (accepted, Execute execute) => prepare_execution a accepted execute
  | Ok (accepted, Cancel cancel) =>
      (map_err broker_error_text (verify_cancel_intent_v2_message_auth (cf_secret cf) cancel (ar_auth_now a)) ;?
       Ok (CancelVerified {| cn_cancel := cancel; cn_accepted := accepted |}), None)
  end.

Definition CANCEL_LEDGER_DOMAIN : string := "ownmesh.broker.cancel-ledger.v2" +:+ String NUL "".

Definition cancel_digest (c : CancelIntentV2) : string :=
  hex_encode (sha256 (CANCEL_LEDGER_DOMAIN +:+ ci_request_id c +:+ ci_operation_id c +:+ ci_target_request_id c
                      +:+ ci_target_operation_id c +:+ ci_target_nonce c +:+ ci_target_facts_digest c)).

Definition exec_digest (x : Execution) : string := operation_facts_digest (rq_facts (xn_request x)).

Definition active_of (conn : Z) (x : Execution) : ActiveExecution :=
  {| ae_request_id := rq_request_id (xn_request x); ae_operation_id := rq_operation_id (xn_request x);
     ae_nonce := rq_nonce (xn_request x); ae_facts_digest := exec_digest x; ae_peer := xn_peer x; ae_cancel := conn |}.

(** The fence of a cancellation. *)
Definition find_target (active : gmap string ActiveExecution) (c : Cancellation) (peer : PeerProcessBindV2)
  : result ActiveExecution string :=
  let i := cn_cancel c in
  let? target := ok_or (active !! ci_target_nonce i) "cancel target is not an active prepared intent (fail-closed)" in
  guard_err (negb (String.eqb (ae_request_id target) (ci_target_request_id i))
             || negb (String.eqb (ae_operation_id target) (ci_target_operation_id i))
             || negb (String.eqb (ae_nonce target) (ci_target_nonce i))
             || negb (String.eqb (ae_facts_digest target) (ci_target_facts_digest i))
             || negb (bool_decide (ae_peer target = peer))) "cancel fence or OS peer identity mismatch (fail-closed)" ;?
  Ok target.

(** The receiving end of an execution's cancel channel lives while its runner does. *)
Definition receiving (t : Task) : option Execution :=
  match t with ExecActive x | ExecRunning x | ExecHungUp x => Some x | _ => None end.

(** Who is at the other end of an entry's channel: the task of that connection, as long as
    it is the execution that made the entry. *)
Definition receiver (tasks : gmap Z Task) (target : ActiveExecution) : option Execution :=
  match tasks !! ae_cancel target ≫= receiving with
  | Some x => if bool_decide (active_of (ae_cancel target) x = target) then Some x else None
  | None => None
  end.

(** The connection of an execution was closed: its entry's channel is signalled. *)
Definition hang_up (s : Serving) (x : Execution) : list Effect :=
  match sv_active s !! rq_nonce (xn_request x) ≫= receiver (sv_tasks s) with
  | Some y => [Signal y HungUp]
  | None => []
  end.

(** The environment of one step of a task: the faults of the ledger's writes, the clock,
    what the system reports of the peer, how the runner did, and whether the connection
    was closed, or sent more, before the runner was done. *)
Record StepEnv : Type := {
  se_faults : option PersistFault * option PersistFault;
  se_now : Z;
  se_refreshed : PeerView;
  se_started : bool;
  se_outcome : result unit string;
  se_hangup : bool
}.

(** What a step does to the process: the task it becomes, or the reply that ends it. *)
Inductive Outcome : Type :=
| Continue (t : Task)
| Reply (r : result unit string).

Record Stepped : Type := {
  sp_outcome : Outcome;
  sp_ledger : ReplayLedger;
  sp_active : gmap string ActiveExecution;
  sp_effects : list Effect;
  sp_times : list Z;
  sp_unstage : bool
}.

Definition step_task (conn : Z) (e : StepEnv) (t : Task) (s : Serving) : Stepped :=
  let l := sv_ledger s in
  let active := sv_active s in
  let done r l := {| sp_outcome := Reply r; sp_ledger := l; sp_active := active; sp_effects := []; sp_times := [];
                     sp_unstage := false |} in
  let go t l effects := {| sp_outcome := Continue t; sp_ledger := l; sp_active := active; sp_effects := effects;
                           sp_times := []; sp_unstage := false |} in
  match t with
  | ExecVerified x =>
      let r := xn_request x in
      let '(res, l) := reserve (se_faults e) (rq_nonce r) (exec_digest x) (rq_expires_at_unix r) (xn_now x) l in
      {| sp_outcome := match res with Err err => Reply (Err (replay_error err)) | Ok _ => Continue (ExecReserved x) end;
         sp_ledger := l; sp_active := active; sp_effects := []; sp_times := [xn_now x]; sp_unstage := false |}
  | ExecReserved x =>
      {| sp_outcome := Continue (ExecActive x); sp_ledger := l;
         sp_active := <[rq_nonce (xn_request x) := active_of conn x]> active;
         sp_effects := []; sp_times := []; sp_unstage := false |}
  | ExecActive x =>
      match mark_spawned (fst (se_faults e)) (rq_nonce (xn_request x)) (exec_digest x) None l with
      | (Err err, l) => done (Err (replay_error err)) l
      | (Ok _, l) => if se_started e then go (ExecRunning x) l [Spawn x] else go (ExecFinished x (se_outcome e)) l []
      end
  | ExecRunning x =>
      if se_hangup e then go (ExecHungUp x) l (hang_up s x) else go (ExecFinished x (se_outcome e)) l []
  | ExecHungUp x => go (ExecFinished x (se_outcome e)) l []
  | ExecFinished x r =>
      {| sp_outcome := Continue (ExecRemoved x r); sp_ledger := l;
         sp_active := delete (rq_nonce (xn_request x)) active; sp_effects := []; sp_times := []; sp_unstage := true |}
  | ExecRemoved x r =>
      match mark_completed (fst (se_faults e)) (rq_nonce (xn_request x)) (exec_digest x) l with
      | (Err err, l) => done (Err ("durable ledger finalize failed: " +:+ replay_error_text err)) l
      | (Ok _, l) => done r l
      end
  | CancelVerified c =>
      let i := cn_cancel c in
      let '(res, l) := reserve (se_faults e) (ci_nonce i) (cancel_digest i) (ci_expires_at_unix i) (se_now e) l in
      {| sp_outcome := match res with Err err => Reply (Err (replay_error err)) | Ok _ => Continue (CancelReserved c) end;
         sp_ledger := l; sp_active := active; sp_effects := []; sp_times := [se_now e]; sp_unstage := false |}
  | CancelReserved c =>
      match (let? refreshed := authorize_unix_peer (cf_policy cf) (se_refreshed e) in
             validate_refresh (cn_accepted c) refreshed ;?
             find_target active c (process_bind_v2 refreshed)) with
      | Err err => done (Err err) l
      | Ok target =>
          match mark_spawned (fst (se_faults e)) (ci_nonce (cn_cancel c)) (cancel_digest (cn_cancel c)) None l with
          | (Err err, l) => done (Err (replay_error err)) l
          | (Ok _, l) => go (CancelMarked c target) l []
          end
      end
  | CancelMarked c target =>
      match receiver (sv_tasks s) target with
      | None => done (Err "active process cancel watch unavailable") l
      | Some x =>
        let '(res, l) := mark_completed (fst (se_faults e)) (ci_nonce (cn_cancel c)) (cancel_digest (cn_cancel c)) l in
        {| sp_outcome := Reply (map_err replay_error res); sp_ledger := l; sp_active := active;
           sp_effects := [Signal x (Cancelled c)]; sp_times := []; sp_unstage := false |}
      end
  end.

(** ** The process and its environment *)

Inductive Event : Type :=
| Start (custody readable : result unit ReplayLedgerError) (fault : option PersistFault)
| Crash (power_lost : bool)
| Connect (conn : Z) (a : Arrival)
| Step (conn : Z) (e : StepEnv).

Definition reply (conn : Z) (r : result unit string) (b : Broker) : Broker :=
  b <| bk_replies := (conn, r) :: bk_replies b |>.

Definition connect (conn : Z) (a : Arrival) (s : Serving) (b : Broker) : Broker :=
  if MAX_CONNECTIONS <=? Z.of_nat (size (sv_tasks s)) then
    reply conn (Err "broker busy; bounded concurrency limit reached") b
  else
    let '(task, staged) := prepare a in
    let b := match staged with Some image => b <| bk_staged := <[conn := image]> (bk_staged b) |> | None => b end in
    match task with
    | Err e => reply conn (Err e) b
    | Ok t => b <| bk_up := Some (s <| sv_tasks := <[conn := t]> (sv_tasks s) |>) |>
    end.

Definition take_step (conn : Z) (e : StepEnv) (t : Task) (s : Serving) (b : Broker) : Broker :=
  let r := step_task conn e t s in
  let tasks := match sp_outcome r with Continue t => <[conn := t]> (sv_tasks s) | Reply _ => delete conn (sv_tasks s) end in
  let b := b <| bk_up := Some {| sv_ledger := sp_ledger r; sv_active := sp_active r; sv_tasks := tasks |} |>
             <| bk_effects := sp_effects r ++ bk_effects b |> <| bk_times := sp_times r ++ bk_times b |> in
  let b := if sp_unstage r then b <| bk_staged := delete conn (bk_staged b) |> else b in
  match sp_outcome r with Reply x => reply conn x b | Continue _ => b end.

Definition step (ev : Event) (b : Broker) : Broker :=
  match ev, bk_up b with
  | Start custody readable fault, None =>
      match open_ledger custody readable fault MAX_LEDGER_ENTRIES (bk_disk b) with
      | (Err _, d) => b <| bk_disk := d |>
      | (Ok l, d) => b <| bk_disk := d |> <| bk_up := Some {| sv_ledger := l; sv_active := ∅; sv_tasks := ∅ |} |>
      end
  | Crash power_lost, up =>
      let d := match up with Some s => rl_disk (sv_ledger s) | None => bk_disk b end in
      b <| bk_up := None |> <| bk_disk := if power_lost then d <| ld_file := ld_durable d |> else d |>
  | Connect conn a, Some s =>
      match sv_tasks s !! conn, bk_staged b !! conn with
      | None, None => connect conn a s b
      | _, _ => b
      end
  | Step conn e, Some s =>
      match sv_tasks s !! conn with Some t => take_step conn e t s b | None => b end
  | _, _ => b
  end.

Fixpoint run (evs : list Event) (b : Broker) : Broker :=
  match evs with [] => b | ev :: rest => run rest (step ev b) end.

(** A machine on which the broker has not run yet. *)
Definition installed (disk : LedgerDisk) : Broker :=
  {| bk_disk := disk; bk_up := None; bk_staged := ∅; bk_effects := []; bk_times := []; bk_replies := [] |}.
End serve.
