(* ===== verification/BrokerRun.v ===== *)
(** * The broker runs a request at most once

    All runs of [BrokerServe.v]: interleaved connections, failed writes, crashes and
    losses of power.  The history of spawns is compared with the entries of the ledger,
    in memory and in whatever the file is read as. *)

From stdpp Require Import base list strings gmap sorting.
From Stdlib Require Import ZArith Lia Ascii.
From S2P Require Import Prelude RustStr RustBytes Transfer BrokerLedger BrokerWire BrokerServe.

Open Scope Z_scope.

(** ** Entries and the history of spawns *)

Definition exec_key (x : Execution) : string * Z := (rq_nonce (xn_request x), rq_expires_at_unix (xn_request x)).

(** The nonces that were spent on a spawn, with the expiry of the request. *)
Definition spawned (effects : list Effect) : list (string * Z) :=
  omap (fun e => match e with Spawn x => Some (exec_key x) | Signal _ _ => None end) effects.

Definition not_after (now : option Z) (expires : Z) : Prop := forall t, now = Some t -> t <= expires.

(** The entries account for the history: what is still reserved was not spawned, what was
    spawned is recorded as such until it expires. *)
Definition accounts (log : list (string * Z)) (now : option Z) (m : gmap string LedgerEntry) : Prop :=
  (forall n e, m !! n = Some e -> le_state e = ReservedPreSpawn -> (n, le_expires_at_unix e) ∉ log)
  /\ (forall n x, (n, x) ∈ log -> not_after now x ->
        exists e, m !! n = Some e /\ le_expires_at_unix e = x /\ (le_state e = SpawnedUncertain \/ le_state e = Completed)).

Lemma not_after_mono now t x : (forall u, now = Some u -> u <= t) -> not_after (Some t) x -> not_after now x.
Proof. intros M N u ->. specialize (M u eq_refl). specialize (N t eq_refl). lia. Qed.

Lemma accounts_later log now t m : (forall u, now = Some u -> u <= t) -> accounts log now m -> accounts log (Some t) m.
Proof. intros M [A B]. split; [done |]. intros n x I N. apply B; [done | by eapply not_after_mono]. Qed.

Lemma accounts_pruned log t m : accounts log (Some t) m -> accounts log (Some t) (pruned t m).
Proof.
  intros [A B]. split.
  - intros n e E. apply map_lookup_filter_Some in E as [E _]. by apply A.
  - intros n x I N. destruct (B n x I N) as (e & E & Ex & S). exists e. split; [|done].
    apply map_lookup_filter_Some. split; [done |]. cbn. specialize (N t eq_refl). apply orb_true_iff. right. apply Z.leb_le. lia.
Qed.

(** A nonce without an entry was not spawned with an expiry that is still ahead. *)
Lemma accounts_free log now m n x : accounts log now m -> m !! n = None -> not_after now x -> (n, x) ∉ log.
Proof. intros [_ B] N T I. destruct (B n x I T) as (e & E & _). congruence. Qed.

Lemma accounts_reserve log t m n digest x :
  accounts log (Some t) m -> m !! n = None -> t <= x -> accounts log (Some t) (<[n := new_entry digest x t]> m).
Proof.
  intros G N T. pose proof G as [A B]. split.
  - intros k e. destruct (decide (k = n)) as [->|Ne].
    + rewrite lookup_insert_eq. intros [= <-] _. eapply accounts_free; [done | done |]. intros u [= <-]. done.
    + rewrite lookup_insert_ne by done. apply A.
  - intros k y I Ty. destruct (B k y I Ty) as (e & E & R). exists e. rewrite lookup_insert_ne; [done | congruence].
Qed.

(** A reserved nonce has no spawn that is still ahead of its expiry. *)
Lemma accounts_reserved log now m n e x :
  accounts log now m -> m !! n = Some e -> le_state e = ReservedPreSpawn -> (n, x) ∈ log -> ~ not_after now x.
Proof. intros [_ B] E S I T. destruct (B n x I T) as (e' & E' & _ & S'). simplify_eq. destruct S'; congruence. Qed.

Lemma accounts_mark log now m n e :
  accounts log now m -> m !! n = Some e -> le_state e = ReservedPreSpawn ->
  accounts log now (<[n := advance e SpawnedUncertain]> m).
Proof.
  intros G E S. pose proof G as [A B]. split.
  - intros k f. destruct (decide (k = n)) as [->|Ne]; [rewrite lookup_insert_eq; by intros [= <-] |].
    rewrite lookup_insert_ne by done. apply A.
  - intros k y I Ty. destruct (B k y I Ty) as (f & F & R). exists f. rewrite lookup_insert_ne; [done |].
    intros <-. exact (accounts_reserved _ _ _ _ _ _ G E S I Ty).
Qed.

Lemma accounts_complete log now m n e :
  accounts log now m -> m !! n = Some e -> le_state e = SpawnedUncertain -> accounts log now (<[n := advance e Completed]> m).
Proof.
  intros [A B] E S. split.
  - intros k f. destruct (decide (k = n)) as [->|Ne]; [rewrite lookup_insert_eq; by intros [= <-] |].
    rewrite lookup_insert_ne by done. apply A.
  - intros k y I Ty. destruct (B k y I Ty) as (f & F & X & St). destruct (decide (k = n)) as [->|Ne].
    + exists (advance e Completed). rewrite lookup_insert_eq. simplify_eq. split_and!; [done | done | by right].
    + exists f. by rewrite lookup_insert_ne.
Qed.

Lemma accounts_spawn log now m n e :
  accounts log now m -> m !! n = Some e -> le_state e = ReservedPreSpawn ->
  accounts ((n, le_expires_at_unix e) :: log) now (<[n := advance e SpawnedUncertain]> m).
Proof.
  intros G E S. destruct (accounts_mark _ _ _ _ _ G E S) as [A B]. split.
  - intros k f F Sf. rewrite not_elem_of_cons. split; [|by apply A]. intros [= -> _].
    rewrite lookup_insert_eq in F. by injection F as <-.
  - intros k y [[= -> ->]|I]%elem_of_cons Ty; [|by apply B].
    exists (advance e SpawnedUncertain). rewrite lookup_insert_eq. split_and!; [done | done | by left].
Qed.

(** ** Tasks and the entries they hold *)

Definition cancel_claim (c : Cancellation) (s : ReplayState) : option (string * Z * ReplayState) :=
  Some (ci_nonce (cn_cancel c), ci_expires_at_unix (cn_cancel c), s).

(** The nonce a task has reserved, with the request's expiry and the entry's state. *)
Definition claim (t : Task) : option (string * Z * ReplayState) :=
  match t with
  | ExecVerified _ | CancelVerified _ => None
  | ExecReserved x | ExecActive x => Some (exec_key x, ReservedPreSpawn)
  | ExecRunning x | ExecHungUp x | ExecFinished x _ | ExecRemoved x _ => Some (exec_key x, SpawnedUncertain)
  | CancelReserved c => cancel_claim c ReservedPreSpawn
  | CancelMarked c _ => cancel_claim c SpawnedUncertain
  end.

Definition holds_claim (m : gmap string LedgerEntry) (c : option (string * Z * ReplayState)) : Prop :=
  match c with
  | None => True
  | Some (n, x, s) => (exists e, m !! n = Some e /\ le_expires_at_unix e = x /\ le_state e = s)
                      /\ (s = ReservedPreSpawn \/ s = SpawnedUncertain)
  end.

Definition claims_nonce (t : Task) (n : string) : Prop := exists x s, claim t = Some (n, x, s).

Definition tasks_ok (m : gmap string LedgerEntry) (tasks : gmap Z Task) : Prop :=
  map_Forall (fun _ t => holds_claim m (claim t)) tasks
  /\ (forall c c' t t' n, tasks !! c = Some t -> tasks !! c' = Some t' -> claims_nonce t n -> claims_nonce t' n -> c = c').

(** Unsettled entries of other nonces stay. *)
Definition keeps (n : string) (m m' : gmap string LedgerEntry) : Prop :=
  forall k e, k <> n -> m !! k = Some e -> unsettled e = true -> m' !! k = Some e.

Lemma unsettled_claim e s : le_state e = s -> s = ReservedPreSpawn \/ s = SpawnedUncertain -> unsettled e = true.
Proof. unfold unsettled. by intros -> [-> | ->]. Qed.

Lemma tasks_ok_others n m m' c (tasks : gmap Z Task) :
  tasks_ok m tasks -> keeps n m m' ->
  (forall c' t, tasks !! c' = Some t -> claims_nonce t n -> c' = c) ->
  forall c' t, c' <> c -> tasks !! c' = Some t -> holds_claim m' (claim t).
Proof.
  intros [H _] K O c' t Ne T. specialize (H _ _ T). cbn in H. unfold holds_claim in *.
  destruct (claim t) as [[[k x] s]|] eqn:C; [|done]. destruct H as ((e & E & X & S) & St). split; [|done].
  exists e. split; [|done]. apply K; [|done | by eapply unsettled_claim].
  intros ->. apply Ne. eapply O; [done |]. by exists x, s.
Qed.

Lemma tasks_ok_delete n m m' c tasks :
  tasks_ok m tasks -> keeps n m m' -> (forall c' t, tasks !! c' = Some t -> claims_nonce t n -> c' = c) ->
  tasks_ok m' (delete c tasks).
Proof.
  intros T K O. split.
  - intros c' t. intros [Ne E]%lookup_delete_Some. exact (tasks_ok_others n m m' c tasks T K O c' t ltac:(congruence) E).
  - intros c1 c2 t1 t2 k [_ ?]%lookup_delete_Some [_ ?]%lookup_delete_Some. by apply (proj2 T).
Qed.

Lemma tasks_ok_insert n m m' c t tasks :
  tasks_ok m tasks -> keeps n m m' -> (forall c' t, tasks !! c' = Some t -> claims_nonce t n -> c' = c) ->
  holds_claim m' (claim t) -> (forall k, claims_nonce t k -> k = n) -> tasks_ok m' (<[c := t]> tasks).
Proof.
  intros T K O H N. split.
  - intros c' t' [[<- <-]|[Ne E]]%lookup_insert_Some; [done |].
    exact (tasks_ok_others n m m' c tasks T K O c' t' ltac:(congruence) E).
  - intros c1 c2 t1 t2 k E1 E2 C1 C2. apply lookup_insert_Some in E1 as [[<- <-]|[N1 E1]], E2 as [[<- <-]|[N2 E2]]; try done.
    + rewrite (N k C1) in C2. symmetry. by eapply O.
    + rewrite (N k C2) in C1. by eapply O.
    + by eapply (proj2 T).
Qed.

Lemma keeps_refl n m : keeps n m m.
Proof. intros k e _ E _. exact E. Qed.

Lemma keeps_insert n e m : keeps n m (<[n := e]> m).
Proof. intros k f Ne F _. by rewrite lookup_insert_ne. Qed.

Lemma pruned_unsettled t m k e : m !! k = Some e -> unsettled e = true -> pruned t m !! k = Some e.
Proof. intros E U. apply map_lookup_filter_Some. split; [done |]. cbn. by rewrite U. Qed.

Section runs.
Context {DG : Digests} {LC : LedgerCodec} {BK : BrokerKeys}.

(** ** What the ledger's operations do to the entries *)

Lemma prune_entries fault now l r l' :
  prune_completed fault now l = (r, l') -> rl_entries l' = pruned now (rl_entries l) /\ rl_max_entries l' = rl_max_entries l.
Proof.
  unfold prune_completed. fold (pruned now (rl_entries l)). destruct (Nat.eqb _ _); [by intros [= <- <-] |].
  intros H. by apply persist_or_close_spec in H as (E & M & _).
Qed.

Lemma reserve_entries faults n digest x now l r l' :
  reserve faults n digest x now l = (r, l') ->
  (forall k e, rl_entries l !! k = Some e -> unsettled e = true -> rl_entries l' !! k = Some e)
  /\ (r = Ok tt -> rl_entries l' !! n = Some (new_entry digest x now)
                   /\ forall e, rl_entries l !! n = Some e -> unsettled e = false).
Proof.
  unfold reserve. destruct (_ ;? _); [|by intros [= <- <-]].
  destruct (prune_completed _ now l) as [[u|e] l1] eqn:P; apply prune_entries in P as [E _].
  2:{ intros [= <- <-]. split; [|done]. rewrite E. intros. by apply pruned_unsettled. }
  destruct (rl_entries l1 !! n) as [e|] eqn:N.
  { intros [= <- <-]. split; [|done]. rewrite E. intros. by apply pruned_unsettled. }
  assert (forall k e, rl_entries l !! k = Some e -> unsettled e = true -> k <> n) as Ne.
  { intros k e K U ->. rewrite E, (pruned_unsettled now _ _ _ K U) in N. done. }
  destruct (_ <=? _).
  { intros [= <- <-]. split; [|done]. rewrite E. intros. by apply pruned_unsettled. }
  intros H. apply persist_or_close_spec in H as (E' & _). cbn in E'. rewrite E', E. split.
  - intros k e K U. rewrite lookup_insert_ne by (symmetry; eauto). by apply pruned_unsettled.
  - intros _. rewrite lookup_insert_eq. split; [done |]. intros e K. destruct (unsettled e) eqn:U; [|done].
    by destruct (Ne n e K U).
Qed.

Lemma mark_spawned_cases fault n digest l r l' :
  mark_spawned fault n digest None l = (r, l') ->
  (is_ok r = false /\ l' = l)
  \/ exists e, rl_entries l !! n = Some e /\ le_state e = ReservedPreSpawn /\ le_digest e = digest
       /\ rl_entries l' = <[n := advance e SpawnedUncertain]> (rl_entries l)
       /\ (is_ok r = true -> rl_disk l' = {| ld_file := Some (encoded (rl_entries l')); ld_durable := Some (encoded (rl_entries l')) |}).
Proof.
  unfold mark_spawned. destruct (entry_for _ _ _ l) as [e|] eqn:E; [|intros [= <- <-]; by left].
  apply entry_for_ok in E as (_ & E & D & S). intros H. right. exists e.
  apply persist_or_close_spec in H as (F & _ & _ & _ & R). cbn in F, R. split_and!; try done.
  intros O. destruct r; [|done]. destruct R as (_ & R & _). by rewrite R, F.
Qed.

Lemma mark_completed_cases fault n digest l r l' :
  mark_completed fault n digest l = (r, l') ->
  (is_ok r = false /\ l' = l)
  \/ exists e, rl_entries l !! n = Some e /\ le_state e = SpawnedUncertain
       /\ rl_entries l' = <[n := advance e Completed]> (rl_entries l).
Proof.
  unfold mark_completed. destruct (entry_for _ _ _ l) as [e|] eqn:E; [|intros [= <- <-]; by left].
  apply entry_for_ok in E as (_ & E & D & S). intros H. right. exists e.
  by apply persist_or_close_spec in H as (F & _).
Qed.

(** ** The invariant *)

Definition clock (b : Broker) : option Z := head (bk_times b).

Definition serving_ok (log : list (string * Z)) (now : option Z) (s : Serving) : Prop :=
  ledger_holds MAX_LEDGER_ENTRIES (accounts log now) (sv_ledger s) /\ tasks_ok (rl_entries (sv_ledger s)) (sv_tasks s).

Definition broker_ok (b : Broker) : Prop :=
  NoDup (spawned (bk_effects b))
  /\ match bk_up b with
     | None => disk_holds MAX_LEDGER_ENTRIES (accounts (spawned (bk_effects b)) (clock b)) (bk_disk b)
     | Some s => serving_ok (spawned (bk_effects b)) (clock b) s
     end.

Lemma disk_holds_impl (P Q : gmap string LedgerEntry -> Prop) d :
  (forall m, P m -> Q m) -> disk_holds MAX_LEDGER_ENTRIES P d -> disk_holds MAX_LEDGER_ENTRIES Q d.
Proof. intros I [F D]. split; [destruct (ld_file d) | destruct (ld_durable d)]; cbn in *; eauto. Qed.

Lemma ledger_holds_impl (P Q : gmap string LedgerEntry -> Prop) l :
  (forall m, P m -> Q m) -> ledger_holds MAX_LEDGER_ENTRIES P l -> ledger_holds MAX_LEDGER_ENTRIES Q l.
Proof. intros I [M D]. split; [by apply I | by eapply disk_holds_impl]. Qed.

(** The tasks after a step of [conn]. *)
Definition tasks_after (conn : Z) (s : Serving) (r : Stepped) : gmap Z Task :=
  match sp_outcome r with Continue t => <[conn := t]> (sv_tasks s) | Reply _ => delete conn (sv_tasks s) end.

(** What a step of [conn] leaves in the ledger, in memory and on disk. *)
Definition stepped_ok (log : list (string * Z)) (now : option Z) (r : Stepped) : Prop :=
  let log' := spawned (sp_effects r) ++ log in
  let now' := head (sp_times r ++ match now with Some t => [t] | None => [] end) in
  NoDup log' /\ ledger_holds MAX_LEDGER_ENTRIES (accounts log' now') (sp_ledger r).

(** Of the tasks, only [conn] has its nonce. *)
Lemma only_owner m tasks conn t n :
  tasks_ok m tasks -> tasks !! conn = Some t -> claims_nonce t n ->
  forall c t', tasks !! c = Some t' -> claims_nonce t' n -> c = conn.
Proof. intros [_ U] T C c t' T' C'. by eapply U. Qed.

Lemma no_owner m tasks n :
  tasks_ok m tasks -> (forall e, m !! n = Some e -> unsettled e = false) ->
  forall c t, tasks !! c = Some t -> ~ claims_nonce t n.
Proof.
  intros [H _] F c t T (x & st & C). specialize (H _ _ T). cbn in H. rewrite C in H. destruct H as ((e & E & _ & S) & St).
  pose proof (F e E). pose proof (unsettled_claim e st S St). congruence.
Qed.

(** A reservation, of an execution or of a cancellation. *)
Lemma reserve_tasks l (tasks : gmap Z Task) conn t1 faults n digest x t r l' :
  tasks_ok (rl_entries l) tasks -> claim t1 = Some (n, x, ReservedPreSpawn) ->
  reserve faults n digest x t l = (r, l') ->
  tasks_ok (rl_entries l') (if is_ok r then <[conn := t1]> tasks else delete conn tasks).
Proof.
  intros T C1 R. apply reserve_entries in R as [K O].
  assert (keeps n (rl_entries l) (rl_entries l')) as Kn by (intros k e _; apply K).
  destruct r as [[]|e]; cbn [is_ok].
  - destruct (O eq_refl) as [E F]. pose proof (no_owner _ _ n T F) as Fr.
    apply (tasks_ok_insert n (rl_entries l)); [done | done | intros c t' Tc Cc; by destruct (Fr c t' Tc) | |].
    + rewrite C1. split; [|by left]. eexists. split; [exact E | done].
    + intros k (y & st & C). rewrite C1 in C. by injection C.
  - destruct T as [T U]. split.
    + intros c t' [_ Tc]%lookup_delete_Some. specialize (T _ _ Tc). cbn in T. unfold holds_claim in *.
      destruct (claim t') as [[[k y] st]|]; [|done]. destruct T as ((f & F & Y & S) & St). split; [|done].
      exists f. split; [|done]. apply K; [done | by eapply unsettled_claim].
    + intros c1 c2 ? ? k [_ ?]%lookup_delete_Some [_ ?]%lookup_delete_Some. by apply U.
Qed.

Lemma reserve_accounts log now l faults n digest x t r l' :
  ledger_holds MAX_LEDGER_ENTRIES (accounts log now) l -> (forall u, now = Some u -> u <= t) ->
  reserve faults n digest x t l = (r, l') -> ledger_holds MAX_LEDGER_ENTRIES (accounts log (Some t)) l'.
Proof.
  intros L M R. eapply reserve_holds; [| | exact R |].
  - intros m. apply accounts_pruned.
  - intros m A N X. by apply accounts_reserve.
  - eapply ledger_holds_impl; [|exact L]. intros m. by apply accounts_later.
Qed.

(** Crossing the boundary to the side effect. *)
Lemma mark_tasks l tasks conn t0 t1 fault n digest x r l' :
  tasks_ok (rl_entries l) tasks -> tasks !! conn = Some t0 ->
  claim t0 = Some (n, x, ReservedPreSpawn) -> claim t1 = Some (n, x, SpawnedUncertain) ->
  mark_spawned fault n digest None l = (r, l') ->
  tasks_ok (rl_entries l') (if is_ok r then <[conn := t1]> tasks else delete conn tasks).
Proof.
  intros T T0 C0 C1 R.
  assert (forall c t, tasks !! c = Some t -> claims_nonce t n -> c = conn) as O
    by (eapply only_owner; [done | exact T0 |]; by exists x, ReservedPreSpawn).
  apply mark_spawned_cases in R as [[R ->]|(e & E & S & D & En & Di)].
  { rewrite R. eapply tasks_ok_delete; [done | apply keeps_refl | done]. }
  assert (keeps n (rl_entries l) (rl_entries l')) as K by (rewrite En; apply keeps_insert).
  destruct (is_ok r); [|by eapply tasks_ok_delete]. eapply tasks_ok_insert; [done | exact K | done | |].
  - pose proof (proj1 T _ _ T0) as H. cbn in H. rewrite C0 in H. destruct H as ((f & F & Xf & _) & _).
    rewrite C1, En. split; [|by right]. eexists. rewrite lookup_insert_eq. split; [done |]. split; [|done].
    cbn. congruence.
  - intros k (y & st & C). rewrite C1 in C. by injection C.
Qed.

Lemma mark_accounts log now l fault n digest r l' :
  ledger_holds MAX_LEDGER_ENTRIES (accounts log now) l -> mark_spawned fault n digest None l = (r, l') ->
  ledger_holds MAX_LEDGER_ENTRIES (accounts log now) l'.
Proof. intros L R. eapply mark_spawned_holds; [|exact R | exact L]. intros m e A E S. by apply accounts_mark. Qed.

(** The boundary of an execution: the spawn is new, and is accounted for. *)
Lemma spawn_accounts log now l tasks conn t0 fault n digest x l' :
  ledger_holds MAX_LEDGER_ENTRIES (accounts log now) l -> tasks_ok (rl_entries l) tasks -> tasks !! conn = Some t0 ->
  claim t0 = Some (n, x, ReservedPreSpawn) -> mark_spawned fault n digest None l = (Ok tt, l') ->
  ledger_holds MAX_LEDGER_ENTRIES (accounts ((n, x) :: log) now) l' /\ (n, x) ∉ log.
Proof.
  intros L T T0 C0 R. apply mark_spawned_cases in R as [[R _]|(e & E & S & D & En & Di)]; [done |].
  assert (le_expires_at_unix e = x) as <-.
  { pose proof (proj1 T _ _ T0) as H. cbn in H. rewrite C0 in H. destruct H as ((f & F & Xf & _) & _). congruence. }
  split; [|exact (proj1 (proj1 L) n e E S)]. specialize (Di eq_refl).
  assert (accounts ((n, le_expires_at_unix e) :: log) now (rl_entries l')) as A
    by (rewrite En; exact (accounts_spawn _ _ _ _ _ (proj1 L) E S)).
  split; [done |]. rewrite Di. split; by apply file_holds_encoded.
Qed.

(** The end of a task that was marked. *)
Lemma complete_tasks l tasks conn t0 fault n digest x r l' :
  tasks_ok (rl_entries l) tasks -> tasks !! conn = Some t0 -> claim t0 = Some (n, x, SpawnedUncertain) ->
  mark_completed fault n digest l = (r, l') -> tasks_ok (rl_entries l') (delete conn tasks).
Proof.
  intros T T0 C0 R.
  assert (forall c t, tasks !! c = Some t -> claims_nonce t n -> c = conn) as O
    by (eapply only_owner; [done | exact T0 |]; by exists x, SpawnedUncertain).
  apply mark_completed_cases in R as [[_ ->]|(e & _ & _ & En)].
  - by eapply tasks_ok_delete; [| apply keeps_refl |].
  - rewrite En. by eapply tasks_ok_delete; [| apply keeps_insert |].
Qed.

Lemma complete_accounts log now l fault n digest r l' :
  ledger_holds MAX_LEDGER_ENTRIES (accounts log now) l -> mark_completed fault n digest l = (r, l') ->
  ledger_holds MAX_LEDGER_ENTRIES (accounts log now) l'.
Proof. intros L R. eapply mark_completed_holds; [|exact R | exact L]. intros m e A E S. by apply accounts_complete. Qed.

(** A step that leaves the ledger alone and keeps the claim, or drops it. *)
Lemma quiet_insert m tasks conn t0 t1 :
  tasks_ok m tasks -> tasks !! conn = Some t0 -> claim t1 = claim t0 -> tasks_ok m (<[conn := t1]> tasks).
Proof.
  intros [T U] T0 E. split.
  - intros c t [[<- <-]|[_ Tc]]%lookup_insert_Some; [rewrite E; by apply (T _ _ T0) | by apply (T _ _ Tc)].
  - intros c1 c2 t1' t2' k. assert (forall c t, <[conn := t1]> tasks !! c = Some t -> claims_nonce t k ->
      exists t', tasks !! c = Some t' /\ claims_nonce t' k) as H.
    { intros c t [[<- <-]|[_ Tc]]%lookup_insert_Some; [|by exists t]. intros (x & st & C). exists t0. split; [done |].
      exists x, st. by rewrite <- E. }
    intros E1 E2 C1 C2. destruct (H _ _ E1 C1) as (? & ? & ?), (H _ _ E2 C2) as (? & ? & ?). by eapply U.
Qed.

Lemma quiet_delete m tasks conn : tasks_ok m tasks -> tasks_ok m (delete conn tasks).
Proof.
  intros [T U]. split; [by apply map_Forall_delete |].
  intros c1 c2 ? ? k [_ ?]%lookup_delete_Some [_ ?]%lookup_delete_Some. by apply U.
Qed.

(** The claims of the tasks stay exclusive and recorded, at whatever times. *)
Lemma step_task_tasks cf e conn t0 s :
  tasks_ok (rl_entries (sv_ledger s)) (sv_tasks s) -> sv_tasks s !! conn = Some t0 ->
  let r := step_task cf conn e t0 s in tasks_ok (rl_entries (sp_ledger r)) (tasks_after conn s r).
Proof.
  intros T T0. cbn zeta. unfold tasks_after. destruct t0 as [x|x|x|x|x|x o|x o|c|c|c target]; cbn [step_task].
  - destruct (reserve _ _ _ _ _ _) as [r l'] eqn:R.
    eapply (reserve_tasks _ _ conn (ExecReserved x)) in R; [|done..]. by destruct r.
  - by eapply quiet_insert.
  - destruct (mark_spawned _ _ _ _ _) as [r l'] eqn:R.
    eapply (mark_tasks _ _ conn (ExecActive x) (ExecRunning x)) in R; [|done..]. destruct r as [[]|]; [|done].
    destruct (se_started e); [done |]. cbn.
    rewrite <- (insert_insert_eq (sv_tasks s) conn (ExecFinished x (se_outcome e)) (ExecRunning x)).
    eapply quiet_insert; [exact R | apply lookup_insert_eq | done].
  - destruct (se_hangup e); by eapply quiet_insert.
  - by eapply quiet_insert.
  - by eapply quiet_insert.
  - destruct (mark_completed _ _ _ _) as [r l'] eqn:R.
    eapply (complete_tasks _ _ conn (ExecRemoved x o)) in R; [|done..]. by destruct r.
  - destruct (reserve _ _ _ _ _ _) as [r l'] eqn:R.
    eapply (reserve_tasks _ _ conn (CancelReserved c)) in R; [|done..]. by destruct r.
  - destruct (rbind _ _) as [target|]; [|by apply quiet_delete]. destruct (mark_spawned _ _ _ _ _) as [r l'] eqn:R.
    eapply (mark_tasks _ _ conn (CancelReserved c) (CancelMarked c target)) in R; [|done..]. by destruct r.
  - destruct (receiver _ _); [|by apply quiet_delete]. destruct (mark_completed _ _ _ _) as [r l'] eqn:R.
    eapply (complete_tasks _ _ conn (CancelMarked c target)) in R; [|done..]. by destruct r.
Qed.

Lemma spawned_hang_up s x : spawned (hang_up s x) = [].
Proof. unfold hang_up. by destruct (_ ≫= _). Qed.

Lemma step_task_ok cf e conn t0 log now s :
  NoDup log -> serving_ok log now s -> sv_tasks s !! conn = Some t0 ->
  (forall t u, t ∈ sp_times (step_task cf conn e t0 s) -> now = Some u -> u <= t) ->
  stepped_ok log now (step_task cf conn e t0 s).
Proof.
  intros N [L T] T0 Times. unfold stepped_ok.
  assert (head (match now with Some t => [t] | None => [] end) = now) as Hn by by destruct now.
  destruct t0 as [x|x|x|x|x|x o|x o|c|c|c target]; cbn [step_task] in *.
  1,8: destruct (reserve _ _ _ _ _ _) as [r l'] eqn:R; eapply reserve_accounts in R;
    [|exact L | intros u; apply Times; by left]; by split.
  - cbn. by rewrite Hn.
  - destruct (mark_spawned _ _ _ _ _) as [[[]|err] l'] eqn:R; [|cbn; rewrite Hn; split; [done | by eapply mark_accounts]].
    destruct (se_started e); cbn; rewrite Hn; [|split; [done | by eapply mark_accounts]].
    eapply spawn_accounts in R as [A F]; [|done | done | exact T0 | reflexivity]. split; [by constructor | done].
  - destruct (se_hangup e); cbn; rewrite ?spawned_hang_up, Hn; done.
  - cbn. by rewrite Hn.
  - cbn. by rewrite Hn.
  - destruct (mark_completed _ _ _ _) as [r l'] eqn:R. eapply complete_accounts in R; [|done]. destruct r; cbn; by rewrite Hn.
  - destruct (rbind _ _); [|cbn; by rewrite Hn]. destruct (mark_spawned _ _ _ _ _) as [r l'] eqn:R.
    eapply mark_accounts in R; [|done]. destruct r; cbn; by rewrite Hn.
  - destruct (receiver _ _); [|cbn; by rewrite Hn]. destruct (mark_completed _ _ _ _) as [r l'] eqn:R.
    eapply complete_accounts in R; [|done]. destruct r; cbn; by rewrite Hn.
Qed.

(** ** Runs *)

(** A new task has reserved nothing yet. *)
Lemma prepare_claims cf a t staged : prepare cf a = (Ok t, staged) -> claim t = None.
Proof.
  unfold prepare. destruct (rbind _ _) as [[acc [ex|ca]]|]; [| |done]; intros P.
  - unfold prepare_execution in P. destruct (rbind _ _) as [[p i]|]; [|done]. injection P as P _. res_inv. done.
  - injection P as P _. res_inv. done.
Qed.

Lemma connect_ok cf conn a s b :
  bk_up b = Some s -> sv_tasks s !! conn = None -> broker_ok b ->
  broker_ok (connect cf conn a s b) /\ bk_times (connect cf conn a s b) = bk_times b.
Proof.
  intros U F [N S]. rewrite U in S. unfold connect.
  destruct (_ <=? _); [split; [split; [done |] | done]; cbn; by rewrite U |].
  destruct (prepare cf a) as [task staged] eqn:P.
  destruct task as [t|e].
  - pose proof (prepare_claims _ _ _ _ P) as C. destruct S as [L [T O]].
    assert (tasks_ok (rl_entries (sv_ledger s)) (<[conn := t]> (sv_tasks s))) as T'.
    { split; [by apply map_Forall_insert_2; [rewrite C |] |]. intros c1 c2 t1 t2 k E1 E2 C1 C2.
      assert (~ claims_nonce t k) as Nc by (intros (y & st & Y); congruence).
      apply lookup_insert_Some in E1 as [[<- <-]|[_ E1]], E2 as [[<- <-]|[_ E2]]; try done. by eapply O. }
    destruct staged; split; done.
  - destruct staged; (split; [split; [done |] | done]); cbn; by rewrite U.
Qed.

Lemma step_ok cf ev b :
  broker_ok b -> StronglySorted Z.ge (bk_times (step cf ev b)) -> broker_ok (step cf ev b).
Proof.
  intros B Ti. pose proof B as [N S]. unfold step in *. destruct ev as [custody readable fault|power|conn a|conn e].
  - destruct (bk_up b) as [s|] eqn:U; [done |]. destruct (open_ledger _ _ _ _ _) as [[l|err] d] eqn:O;
      eapply open_holds in O as [D R]; [|exact S| |exact S]; (split; [done |]); cbn; [|by rewrite U].
    destruct R as [R _]. split; [done |]. by split.
  - split; [done |]. cbn. destruct (bk_up b) as [s|]; [destruct S as [[_ D] _] | rename S into D]; destruct power; try done;
      by split; apply D.
  - destruct (bk_up b) as [s|] eqn:U; [|done]. destruct (sv_tasks s !! conn) eqn:F; [done |].
    destruct (bk_staged b !! conn); [done |]. by apply connect_ok.
  - destruct (bk_up b) as [s|] eqn:U; [|done]. destruct (sv_tasks s !! conn) as [t|] eqn:F; [|done].
    assert (bk_times (take_step cf conn e t s b) = sp_times (step_task cf conn e t s) ++ bk_times b) as Et.
    { unfold take_step. destruct (sp_outcome _), (sp_unstage _); done. }
    rewrite Et in Ti. pose proof (step_task_tasks cf e conn t s (proj2 S) F) as T'.
    pose proof (step_task_ok cf e conn t _ _ s N S F) as (N' & L').
    { intros t' u I Hu. unfold clock in Hu. destruct (bk_times b) as [|u' us]; [done |]. injection Hu as ->.
      enough (t' >= u) by lia. eapply StronglySorted_app_lr; [exact Ti | done | by left]. }
    assert (head (sp_times (step_task cf conn e t s) ++ match clock b with Some t => [t] | None => [] end)
            = head (sp_times (step_task cf conn e t s) ++ bk_times b)) as Hc.
    { destruct (sp_times _); [|done]. unfold clock. by destruct (bk_times b). }
    rewrite Hc in L'. rewrite <- Et in L'.
    assert (spawned (sp_effects (step_task cf conn e t s)) ++ spawned (bk_effects b)
            = spawned (bk_effects (take_step cf conn e t s b))) as Es.
    { unfold take_step, spawned. rewrite <- omap_app. by destruct (sp_outcome _), (sp_unstage _). }
    rewrite Es in N', L'. split; [done |]. unfold clock.
    assert (bk_up (take_step cf conn e t s b) = Some {| sv_ledger := sp_ledger (step_task cf conn e t s);
      sv_active := sp_active (step_task cf conn e t s);
      sv_tasks := tasks_after conn s (step_task cf conn e t s) |}) as ->.
    { unfold take_step, tasks_after. destruct (sp_outcome _), (sp_unstage _); done. }
    by split.
Qed.

Lemma step_times cf ev b : exists new, bk_times (step cf ev b) = new ++ bk_times b.
Proof.
  unfold step. destruct ev as [custody readable fault|power|conn a|conn e]; destruct (bk_up b) as [s|]; try by exists [].
  - destruct (open_ledger _ _ _ _ _) as [[l|err] d]; by exists [].
  - destruct (sv_tasks s !! conn), (bk_staged b !! conn); try by exists []. unfold connect.
    destruct (_ <=? _); [by exists [] |]. destruct (prepare cf a) as [[t|err] [im|]]; by exists [].
  - destruct (sv_tasks s !! conn) as [t|]; [|by exists []]. exists (sp_times (step_task cf conn e t s)).
    unfold take_step. by destruct (sp_outcome _), (sp_unstage _).
Qed.

Lemma run_times cf evs b : exists new, bk_times (run cf evs b) = new ++ bk_times b.
Proof.
  revert b. induction evs as [|ev evs IH]; intros b; [by exists [] |]. cbn [run].
  destruct (IH (step cf ev b)) as (n1 & ->), (step_times cf ev b) as (n2 & ->). exists (n1 ++ n2). by rewrite <- app_assoc.
Qed.

Lemma run_ok cf evs b :
  broker_ok b -> StronglySorted Z.ge (bk_times (run cf evs b)) -> broker_ok (run cf evs b).
Proof.
  revert b. induction evs as [|ev evs IH]; intros b B S; [done |]. cbn [run] in *. apply IH; [|done].
  apply step_ok; [done |]. destruct (run_times cf evs (step cf ev b)) as (new & E). rewrite E in S.
  by eapply StronglySorted_app_1_r.
Qed.

Lemma installed_ok d : broker_ok (installed d).
Proof.
  split; [constructor |]. assert (forall m, accounts [] None m) as A.
  { intros m. split; [by intros ? ? ? ? ?%elem_of_nil | by intros ? ? ?%elem_of_nil]. }
  split; cbn; [destruct (ld_file d) | destruct (ld_durable d)]; cbn; intros; apply A.
Qed.

(** The ledger file of the machine. *)
Definition ledger_disk (b : Broker) : LedgerDisk :=
  match bk_up b with Some s => rl_disk (sv_ledger s) | None => bk_disk b end.

(** A file that was written, and that is only read as entries where the nonce is spent. *)
Definition on_record (n : string) (x : Z) (f : option string) : Prop :=
  exists bytes, f = Some bytes /\ forall m migrated, read_ledger MAX_LEDGER_ENTRIES bytes = Ok (m, migrated) ->
  exists e, m !! n = Some e /\ le_expires_at_unix e = x /\ (le_state e = SpawnedUncertain \/ le_state e = Completed).

Lemma file_on_record log now n x f :
  file_holds MAX_LEDGER_ENTRIES (accounts log now) f -> (n, x) ∈ log -> not_after now x -> on_record n x f.
Proof.
  destruct f as [bytes|]; cbn; intros H I N.
  - exists bytes. split; [done |]. intros m migrated R. by apply (proj2 (H m migrated R)).
  - by destruct (proj2 H n x I N) as (e & E & _).
Qed.

(** C5: a request to the broker is executed at most once.  In every run of the broker on
    whatever ledger file it finds, with connections interleaved in any way, writes of the
    ledger failing at any point, crashes and losses of power and restarts, no two spawns
    have the nonce and the expiry of one request; and until a spawned request expires, it
    is on record in the ledger file, also in the file that a loss of power leaves.  The
    reservations are given times that do not go backwards. *)
Theorem elevated_once cf evs d :
  let b := run cf evs (installed d) in
  StronglySorted Z.ge (bk_times b) ->
  NoDup (spawned (bk_effects b))
  /\ forall n x, (n, x) ∈ spawned (bk_effects b) -> not_after (clock b) x ->
     on_record n x (ld_file (ledger_disk b)) /\ on_record n x (ld_durable (ledger_disk b)).
Proof.
  intros b S. destruct (run_ok cf evs (installed d) (installed_ok d) S) as [N H]. split; [done |]. intros n x I T.
  assert (disk_holds MAX_LEDGER_ENTRIES (accounts (spawned (bk_effects b)) (clock b)) (ledger_disk b)) as [F D].
  { unfold ledger_disk. fold b in H. destruct (bk_up b); [apply H | done]. }
  split; by eapply file_on_record.
Qed.
End runs.
