(* ===== verification/BrokerAuth.v ===== *)
(** * What the broker authenticates, and what it runs

    The bytes under the request MAC determine the request; the capability the broker
    mints verifies; what a run of [BrokerServe.v] spawns or signals was asked for by an
    authenticated message of the trusted daemon. *)

From stdpp Require Import base list strings gmap.
From Stdlib Require Import ZArith Lia Ascii.
From S2P Require Import Prelude RustStr RustBytes RustPath Transfer BrokerLedger BrokerWire BrokerServe.

Open Scope Z_scope.

(** ** Canonical bytes *)

Lemma to_le_bytes_inj n a b x y :
  to_le_bytes n a +:+ x = to_le_bytes n b +:+ y -> a mod 256 ^ Z.of_nat n = b mod 256 ^ Z.of_nat n /\ x = y.
Proof.
  revert a b. induction n as [|n IH]; intros a b H; [by rewrite !Z.mod_1_r |].
  cbn [to_le_bytes] in H. change (String ?c ?s +:+ ?t) with (String c (s +:+ t)) in H.
  assert (byte_of (a mod 256) = byte_of (b mod 256) /\ to_le_bytes n (a / 256) +:+ x = to_le_bytes n (b / 256) +:+ y)
    as [C H'] by (split; congruence).
  apply IH in H' as [E ->]. split; [|done]. apply (f_equal code) in C.
  rewrite !code_byte_of in C by (apply Z.mod_pos_bound; lia).
  rewrite Nat2Z.inj_succ, Z.pow_succ_r by lia. rewrite !Z.rem_mul_r by lia. congruence.
Qed.

Lemma put_u64_inj a b x y : 0 <= a <= u64_max -> 0 <= b <= u64_max -> put_u64 a +:+ x = put_u64 b +:+ y -> a = b /\ x = y.
Proof.
  unfold u64_max. intros A B H. apply to_le_bytes_inj in H as [E ->].
  change (256 ^ Z.of_nat 8) with 18446744073709551616 in E. rewrite !Z.mod_small in E by lia. done.
Qed.

Lemma put_u32_inj a b x y : 0 <= a <= u32_max -> 0 <= b <= u32_max -> put_u32 a +:+ x = put_u32 b +:+ y -> a = b /\ x = y.
Proof.
  unfold u32_max. intros A B H. apply to_le_bytes_inj in H as [E ->].
  change (256 ^ Z.of_nat 4) with 4294967296 in E. rewrite !Z.mod_small in E by lia. done.
Qed.

Lemma put_i64_inj a b x y :
  i64_min <= a <= i64_max -> i64_min <= b <= i64_max -> put_i64 a +:+ x = put_i64 b +:+ y -> a = b /\ x = y.
Proof.
  unfold i64_min, i64_max. intros A B H. apply to_le_bytes_inj in H as [E ->]. split; [|done].
  change (256 ^ Z.of_nat 8) with 18446744073709551616 in E.
  Z.div_mod_to_equations. lia.
Qed.

Lemma put_bytes_inj a b x y :
  str_len a <= u32_max -> str_len b <= u32_max -> put_bytes a +:+ x = put_bytes b +:+ y -> a = b /\ x = y.
Proof.
  intros A B H. unfold put_bytes in H. rewrite <- !str_app_assoc in H. pose proof (str_len_nonneg a). pose proof (str_len_nonneg b).
  apply put_u32_inj in H as [E H]; [|done..]. apply str_app_inj_len in H; [done |]. unfold str_len in *. lia.
Qed.

Lemma put_strs_inj l k x y :
  Forall (fun s => str_len s <= u32_max) l -> Forall (fun s => str_len s <= u32_max) k -> length l = length k ->
  put_strs l +:+ x = put_strs k +:+ y -> l = k /\ x = y.
Proof.
  intros L. revert k. induction L as [|s l S L IH]; intros k K E H; destruct K as [|t k T K]; try done.
  cbn [put_strs] in H. rewrite <- !str_app_assoc in H. apply put_bytes_inj in H as [-> H]; [|done..].
  injection E as E. by destruct (IH k K E H) as [-> ->].
Qed.

Lemma put_cwd_inj c d x y :
  (forall s, c = Some s -> str_len s <= u32_max) -> (forall s, d = Some s -> str_len s <= u32_max) ->
  put_cwd c +:+ x = put_cwd d +:+ y -> c = d /\ x = y.
Proof.
  intros C D H. destruct c as [c|], d as [d|]; cbn [put_cwd] in H;
    change (String ?c ?s +:+ ?t) with (String c (s +:+ t)) in H; try discriminate H.
  - assert (put_str c +:+ x = put_str d +:+ y) as H' by congruence.
    by apply put_bytes_inj in H' as [-> ->]; [|by eauto..].
  - split; [done |]. by injection H.
Qed.

(** The machine integers of a request are in range. *)
Definition request_typed (r : BrokerRequestV2) : Prop :=
  let f := rq_facts r in
  0 <= rq_protocol_version r <= u32_max
  /\ i64_min <= rq_issued_at_unix r <= i64_max /\ i64_min <= rq_expires_at_unix r <= i64_max
  /\ 0 <= of_principal_credential_generation f <= u64_max /\ 0 <= of_timeout_ms f <= u64_max
  /\ 0 <= of_max_output_bytes f <= u64_max /\ 0 <= ex_image_len (of_executable f) <= u64_max.

Lemma bounded_field_ok name value :
  validate_bounded_field name value = Ok tt -> blank value = false /\ str_len value <= MAX_BROKER_FIELD_BYTES.
Proof. unfold validate_bounded_field. intros H. res_inv. bool_prop. done. Qed.

Lemma bounded_fields_ok l :
  validate_bounded_fields l = Ok tt -> Forall (fun p => blank (snd p) = false /\ str_len (snd p) <= MAX_BROKER_FIELD_BYTES) l.
Proof.
  induction l as [|[name value] l IH]; intros H; [constructor |]. cbn in H. res_inv. constructor; [|by apply IH].
  destruct t. by eapply bounded_field_ok.
Qed.

Lemma is_sha256_hex_len s : is_sha256_hex s = true -> str_len s = 64.
Proof. unfold is_sha256_hex. intros H. bool_prop. done. Qed.

(** What the shape check establishes. *)
Definition request_bounded (r : BrokerRequestV2) : Prop :=
  let f := rq_facts r in
  Forall (fun s => str_len s <= u32_max)
    [rq_request_id r; rq_operation_id r; rq_nonce r; of_operation f; of_remote_payload_sha256 f; of_principal_id f;
     of_tenant_id f; of_device_id f; of_workspace_id f; ex_canonical_path (of_executable f);
     ex_image_sha256 (of_executable f)]
  /\ zlen (of_argv f) <= u32_max /\ of_max_output_bytes f <= u32_max
  /\ Forall (fun s => str_len s <= u32_max) (of_argv f)
  /\ (forall s, of_canonical_cwd f = Some s -> str_len s <= u32_max)
  /\ of_sanitized_env f = ∅
  /\ head (of_argv f) = Some (ex_canonical_path (of_executable f)).

(** The parts of the check. *)
Lemma shape_parts r now :
  validate_v2_request_shape r now = Ok tt ->
  rq_issued_at_unix r <= now <= rq_expires_at_unix r
  /\ validate_bounded_fields
       [("request_id", rq_request_id r); ("operation_id", rq_operation_id r); ("nonce", rq_nonce r);
        ("facts.operation", of_operation (rq_facts r)); ("principal_id", of_principal_id (rq_facts r));
        ("tenant_id", of_tenant_id (rq_facts r)); ("device_id", of_device_id (rq_facts r));
        ("workspace_id", of_workspace_id (rq_facts r));
        ("executable path", ex_canonical_path (of_executable (rq_facts r)))] = Ok tt
  /\ bad_facts r = false
  /\ validate_bounded_fields (map (fun arg => ("argv", arg)) (of_argv (rq_facts r))) = Ok tt
  /\ (forall cwd, of_canonical_cwd (rq_facts r) = Some cwd -> validate_bounded_field "canonical cwd" cwd = Ok tt)
  /\ (forall cap, rq_capability r = Some cap -> validate_capability_shape cap = Ok tt).
Proof.
  unfold validate_v2_request_shape. intros H.
  do 8 (apply rbind_ok_inv in H as ([] & ? & H)).
  repeat match goal with E : guard_err ?b _ = Ok tt |- _ => destruct b eqn:?; [discriminate E | clear E] end. bool_prop.
  split_and!; try done; [|by intros cap Hc; rewrite Hc in H].
  intros cwd Hc. rewrite Hc in *. match goal with E : rbind _ _ = Ok tt |- _ => by apply rbind_ok_inv in E as ([] & ? & ?) end.
Qed.

Lemma shape_bounded r now : validate_v2_request_shape r now = Ok tt -> request_bounded r.
Proof.
  intros (_ & F1 & B & F2 & Fc & _)%shape_parts. apply bounded_fields_ok in F1, F2. unfold bad_facts in B. bool_prop.
  rewrite !Forall_cons in F1. cbn [snd] in F1. unfold MAX_BROKER_FIELD_BYTES in *. destruct_and! F1.
  repeat match goal with E : is_sha256_hex _ = true |- _ => apply is_sha256_hex_len in E end.
  unfold request_bounded, u32_max, MAX_BROKER_ARGV, MAX_BROKER_OUTPUT_BYTES in *. rewrite !Forall_cons. split_and!; try lia; try done.
  - apply Forall_map in F2. eapply Forall_impl; [exact F2 |]. cbn. lia.
  - intros s Hs. apply Fc, bounded_field_ok in Hs as [_ E]. unfold MAX_BROKER_FIELD_BYTES in E. lia.
  - apply map_size_empty_inv. by apply Nat.eqb_eq.
  - destruct (of_argv (rq_facts r)) as [|a l]; [done |]. bool_prop. cbn. f_equal. by apply String.eqb_eq.
Qed.

Lemma facts_bytes_inj r r' :
  request_typed r -> request_typed r' -> request_bounded r -> request_bounded r' ->
  canonical_operation_facts_v2_bytes (rq_facts r) = canonical_operation_facts_v2_bytes (rq_facts r') ->
  rq_facts r = rq_facts r'.
Proof.
  intros (_ & _ & _ & T1 & T2 & T3 & T4) (_ & _ & _ & U1 & U2 & U3 & U4).
  intros (B & B1 & B2 & B3 & B4 & B5 & _) (C & C1 & C2 & C3 & C4 & C5 & _). rewrite !Forall_cons in B, C.
  destruct_and! B. destruct_and! C. unfold canonical_operation_facts_v2_bytes. intros Q. apply str_app_inj_l in Q.
  assert (forall n : Z, n <= u32_max -> u32_or_max n = n) as Um by (intros n Hn; unfold u32_or_max; by rewrite (proj2 (Z.leb_le _ _)) by done).
  rewrite !Um in Q by done.
  do 4 (apply put_bytes_inj in Q as [? Q]; [|done..]). do 2 (apply put_u64_inj in Q as [? Q]; [|done..]).
  apply put_u32_inj in Q as [? Q]; [|lia..]. do 2 (apply put_bytes_inj in Q as [? Q]; [|done..]).
  apply put_u32_inj in Q as [En Q]; [|pose proof (zlen_nonneg (of_argv (rq_facts r))); lia |pose proof (zlen_nonneg (of_argv (rq_facts r'))); lia].
  apply put_strs_inj in Q as [? Q]; [|done|done|unfold zlen in En; lia]. apply put_cwd_inj in Q as [? Q]; [|done..].
  rewrite B5, C5 in Q. apply str_app_inj_l in Q. do 2 (apply put_bytes_inj in Q as [? Q]; [|done..]).
  rewrite <- (str_app_nil_r (put_u64 (ex_image_len (of_executable (rq_facts r))))), <- (str_app_nil_r (put_u64 (ex_image_len (of_executable (rq_facts r'))))) in Q.
  apply put_u64_inj in Q as [? _]; [|done..].
  destruct (rq_facts r) as [? ? ? ? ? ? ? ? ? ? ? ? []], (rq_facts r') as [? ? ? ? ? ? ? ? ? ? ? ? []]. cbn in *. by subst.
Qed.

Lemma str_app_inj_r (a b s : string) : a +:+ s = b +:+ s -> a = b.
Proof.
  intros H. apply str_app_inj_len in H as [-> _]; [done |]. apply (f_equal str_len) in H. rewrite !str_len_app in H.
  unfold str_len in *. lia.
Qed.

(** C8: the MAC of a request covers everything in it.  Two requests from the wire that pass
    the shape check and have the same authenticated bytes are the same request, up to the
    MAC itself: no field can be moved into a neighbouring one, and no field is left out. *)
Theorem request_mac_binds r r' now now' :
  request_typed r -> request_typed r' ->
  validate_v2_request_shape r now = Ok tt -> validate_v2_request_shape r' now' = Ok tt ->
  rq_capability r = None -> rq_capability r' = None ->
  canonical_request_v2_bytes r = canonical_request_v2_bytes r' ->
  r <| rq_mac := "" |> = r' <| rq_mac := "" |>.
Proof.
  intros T T' S S' K K' H. pose proof (shape_bounded r now S) as B. pose proof (shape_bounded r' now' S') as B'.
  unfold canonical_request_v2_bytes in H. rewrite K, K' in H. apply str_app_inj_l in H.
  pose proof T as (V & I & X & _). pose proof T' as (V' & I' & X' & _).
  pose proof B as (F & _). pose proof B' as (F' & _). rewrite !Forall_cons in F, F'. destruct_and! F. destruct_and! F'.
  apply put_u32_inj in H as [? H]; [|done..]. do 3 (apply put_bytes_inj in H as [? H]; [|done..]).
  do 2 (apply put_i64_inj in H as [? H]; [|done..]).
  apply str_app_inj_r in H. apply to_le_bytes_inj in H as [_ H]. apply facts_bytes_inj in H; [|done..].
  destruct r, r'. cbn in *. by subst.
Qed.

Section authorization.
Context {DG : Digests} {LC : LedgerCodec} {BK : BrokerKeys} (cf : Config).

(** The daemon the policy names: its path, an allowed user, the pinned file. *)
Definition trusted_peer (p : PeerProcessBindV2) : Prop :=
  pb_executable_path p = tp_trusted_executable (cf_policy cf) /\ pb_uid p ∈ tp_allowed_uids (cf_policy cf)
  /\ 0 < pb_pid p
  /\ exists id, tp_trusted_file_id (cf_policy cf) = Some id /\ pb_image_identity p = identity_text id.

(** What must be true of an execution. *)
Definition authorized (x : Execution) : Prop :=
  let r := xn_request x in
  let f := rq_facts r in
  constant_time_hex_eq (compute_mac_v2 (cf_secret cf) (r <| rq_capability := None |>)) (rq_mac r) = true
  /\ rq_issued_at_unix r <= xn_now x <= rq_expires_at_unix r
  /\ of_sanitized_env f = ∅ /\ of_canonical_cwd f = None
  /\ head (of_argv f) = Some (ex_canonical_path (of_executable f))
  /\ trusted_peer (xn_peer x)
  /\ str_len (xn_image x) = ex_image_len (of_executable f)
  /\ hex_encode (sha256 (xn_image x)) = ex_image_sha256 (of_executable f).

Definition same_process (a : AuthorizedPeer) (p : PeerProcessBindV2) : Prop :=
  pb_pid p = pr_pid (ap_peer a) /\ pb_uid p = pr_uid (ap_peer a) /\ pb_executable_path p = pr_exe_path (ap_peer a)
  /\ pb_process_birth_id p = ap_process_start_time a.

Definition cancel_authentic (c : Cancellation) : Prop :=
  constant_time_hex_eq (compute_cancel_intent_mac_v2 (cf_secret cf) (cn_cancel c)) (ci_mac (cn_cancel c)) = true.

(** The authentic cancellation [c] names the entry [target] and comes from its process. *)
Definition names (c : Cancellation) (target : ActiveExecution) : Prop :=
  let i := cn_cancel c in
  cancel_authentic c
  /\ ci_target_nonce i = ae_nonce target /\ ci_target_request_id i = ae_request_id target
  /\ ci_target_operation_id i = ae_operation_id target /\ ci_target_facts_digest i = ae_facts_digest target
  /\ same_process (cn_accepted c) (ae_peer target).

Lemma check_bind_ok policy peer :
  check_bind policy peer = Ok tt ->
  0 < pr_pid peer /\ pr_uid peer ∈ tp_allowed_uids policy /\ pr_exe_path peer = tp_trusted_executable policy.
Proof.
  unfold check_bind. intros H. res_inv. bool_prop.
  match goal with E : existsb _ _ = true |- _ => apply existsb_exists in E as (uid & I & ->%Z.eqb_eq) end.
  split_and!; [lia | by apply list_elem_of_In | by apply String.eqb_eq].
Qed.

Lemma authorize_process_ok policy v pid p :
  authorize_process policy v pid = Ok p ->
  check_bind policy (ap_peer p) = Ok tt
  /\ exists id, tp_trusted_file_id policy = Some id /\ ap_image_identity p = identity_text id.
Proof.
  unfold authorize_process. intros H. apply rbind_ok_inv in H as (pinned & F & H). apply ok_or_ok in F.
  apply rbind_ok_inv in H as (before & _ & H). apply rbind_ok_inv in H as ([] & _ & H).
  apply rbind_ok_inv in H as (resolved & _ & H). apply rbind_ok_inv in H as ([] & I & H).
  apply rbind_ok_inv in H as (after & _ & H). apply rbind_ok_inv in H as ([] & _ & H).
  apply rbind_ok_inv in H as ([] & C & H). injection H as <-. split; [done |]. exists pinned. split; [done |].
  destruct (bool_decide_reflect (rp_executable_file_id resolved = pinned)) as [E|]; [|done].
  cbn [ap_image_identity]. by rewrite E.
Qed.

Lemma authorize_trusted v p : authorize_unix_peer (cf_policy cf) v = Ok p -> trusted_peer (process_bind_v2 p).
Proof.
  unfold authorize_unix_peer. intros H. apply rbind_ok_inv in H as (peer & _ & H).
  apply rbind_ok_inv in H as (auth & A & H). apply rbind_ok_inv in H as ([] & _ & H). injection H as ->.
  apply authorize_process_ok in A as [C I]. apply check_bind_ok in C as (P & U & X). by split_and!.
Qed.

Lemma stage_pinned r source image :
  stage_linux_executable r source = Ok image ->
  of_canonical_cwd (rq_facts r) = None /\ str_len image = ex_image_len (of_executable (rq_facts r))
  /\ hex_encode (sha256 image) = ex_image_sha256 (of_executable (rq_facts r)).
Proof.
  unfold stage_linux_executable. intros H. res_inv. bool_prop.
  match goal with E : String.eqb _ _ = true |- _ => apply String.eqb_eq in E end.
  split_and!; try done. by destruct (of_canonical_cwd _).
Qed.

Lemma message_auth_parts secret r now :
  verify_request_v2_message_auth secret r now = Ok tt ->
  validate_v2_request_shape r now = Ok tt /\ constant_time_hex_eq (compute_mac_v2 secret r) (rq_mac r) = true.
Proof.
  unfold verify_request_v2_message_auth. intros H. apply rbind_ok_inv in H as ([] & S & H). split; [done |].
  destruct (constant_time_hex_eq _ _); done.
Qed.

Lemma map_err_ok {T E F} (f : E -> F) (r : result T E) t : map_err f r = Ok t -> r = Ok t.
Proof. destruct r; cbn; congruence. Qed.

Lemma prepare_execution_ok a accepted execute t staged :
  prepare_execution cf a accepted execute = (Ok t, staged) -> exists x, t = ExecVerified x /\ authorized x.
Proof.
  unfold prepare_execution. destruct (rbind _ _) as [[peer image]|] eqn:P; [|done]. intros H.
  assert (exists u, verify_capability_v2 (verifying_key (cf_signing_key cf))
    (into_unprepared_request execute <| rq_capability := Some (issue (ar_token_id a) (cf_signing_key cf) (broker_instance_id cf)
       (broker_key_id cf) (of_principal_id (ei_facts execute)) (ei_operation_id execute) (ei_facts execute) (ei_nonce execute)
       peer (ar_now a) (i64_saturating_sub (ei_expires_at_unix execute) (ar_now a))) |>)
    (broker_instance_id cf) (broker_key_id cf) peer (ar_now a) = Ok u) as ([] & C).
  { injection H as H _. apply rbind_ok_inv in H as (u & H & _). apply map_err_ok in H. by exists u. }
  unfold verify_capability_v2 in C. apply rbind_ok_inv in C as ([] & S & _).
  injection H as H _. apply rbind_ok_inv in H as (u & _ & H). injection H as <-.
  apply rbind_ok_inv in P as ([] & M & P). apply map_err_ok, message_auth_parts in M as [_ M].
  apply rbind_ok_inv in P as (refreshed & A & P). apply rbind_ok_inv in P as ([] & _ & P).
  apply rbind_ok_inv in P as (im & St & P). injection P as <- <-.
  apply authorize_trusted in A. apply stage_pinned in St as (Cwd & Len & Hash).
  pose proof (shape_parts _ _ S) as (Life & _). destruct (shape_bounded _ _ S) as (_ & _ & _ & _ & _ & Env & Arg).
  eexists. split; [reflexivity |].
  split; [exact M |]. split; [exact Life |]. split; [exact Env |]. split; [exact Cwd |]. split; [exact Arg |].
  split; [exact A |]. by split.
Qed.

Lemma prepare_ok a t staged :
  prepare cf a = (Ok t, staged) ->
  (exists x, t = ExecVerified x /\ authorized x) \/ (exists c, t = CancelVerified c /\ cancel_authentic c).
Proof.
  unfold prepare. destruct (rbind _ _) as [[accepted [execute|cancel]]|]; [| |done]; intros H.
  - left. by eapply prepare_execution_ok.
  - right. injection H as H _. apply rbind_ok_inv in H as ([] & M & H). injection H as <-. apply map_err_ok in M.
    eexists. split; [done |]. unfold verify_cancel_intent_v2_message_auth in M.
    apply rbind_ok_inv in M as ([] & _ & M). apply rbind_ok_inv in M as ([] & _ & M). unfold cancel_authentic. cbn.
    by destruct (constant_time_hex_eq _ _).
Qed.

(** ** Runs *)

Definition task_authorized (t : Task) : Prop :=
  match t with
  | ExecVerified x | ExecReserved x | ExecActive x | ExecRunning x | ExecHungUp x | ExecFinished x _ | ExecRemoved x _ => authorized x
  | CancelVerified c | CancelReserved c => cancel_authentic c
  | CancelMarked c target => names c target
  end.

Definition effect_authorized (e : Effect) : Prop :=
  match e with Spawn x | Signal x _ => authorized x end.

Definition serving_authorized (s : Serving) : Prop := map_Forall (fun _ => task_authorized) (sv_tasks s).

Definition broker_authorized (b : Broker) : Prop :=
  Forall effect_authorized (bk_effects b) /\ (forall s, bk_up b = Some s -> serving_authorized s).

Lemma find_target_names active c refreshed target :
  cancel_authentic c -> validate_refresh (cn_accepted c) refreshed = Ok tt ->
  find_target active c (process_bind_v2 refreshed) = Ok target -> names c target.
Proof.
  intros C R F. unfold find_target in F. apply rbind_ok_inv in F as (found & _ & F).
  apply rbind_ok_inv in F as ([] & G & [= ->]). destruct (_ || _) eqn:B; [done |]. bool_prop.
  repeat match goal with E : String.eqb _ _ = true |- _ => apply String.eqb_eq in E end.
  unfold validate_refresh in R. res_inv. bool_prop. unfold names, same_process.
  match goal with E : ae_peer target = _ |- _ => rewrite E end. cbn. split_and!; congruence.
Qed.

(** Who receives a signal has a task, and made the entry. *)
Lemma receiver_spec tasks target x :
  receiver tasks target = Some x ->
  exists t, tasks !! ae_cancel target = Some t /\ receiving t = Some x /\ active_of (ae_cancel target) x = target.
Proof.
  unfold receiver. destruct (tasks !! ae_cancel target) as [t|]; [|done]. cbn. destruct (receiving t) as [y|] eqn:R; [|done].
  case_bool_decide; [|done]. intros [= ->]. by exists t.
Qed.

Lemma receiver_authorized s target x :
  serving_authorized s -> receiver (sv_tasks s) target = Some x -> authorized x.
Proof.
  intros A (t & T & R & _)%receiver_spec. specialize (A _ _ T). destruct t; cbn in *; by simplify_eq.
Qed.

Lemma hang_up_authorized s x : serving_authorized s -> Forall effect_authorized (hang_up s x).
Proof.
  intros A. unfold hang_up. destruct (_ ≫= _) as [y|] eqn:E; [|constructor]. constructor; [|constructor].
  apply bind_Some in E as (target & _ & E). by eapply receiver_authorized.
Qed.

Lemma step_task_authorized conn e t s :
  serving_authorized s -> task_authorized t ->
  Forall effect_authorized (sp_effects (step_task cf conn e t s))
  /\ match sp_outcome (step_task cf conn e t s) with Continue t' => task_authorized t' | Reply _ => True end.
Proof.
  intros A T. destruct t as [x|x|x|x|x|x o|x o|c|c|c target]; cbn [step_task task_authorized] in *.
  - destruct (reserve _ _ _ _ _ _) as [[]]; cbn; by split_and!.
  - cbn. by split_and!.
  - destruct (mark_spawned _ _ _ _ _) as [[]]; [destruct (se_started e)|]; cbn; split_and!; try done; by constructor.
  - destruct (se_hangup e); cbn; split_and!; try done. by apply hang_up_authorized.
  - cbn. by split_and!.
  - cbn. by split_and!.
  - destruct (mark_completed _ _ _ _) as [[]]; cbn; by split_and!.
  - destruct (reserve _ _ _ _ _ _) as [[]]; cbn; by split_and!.
  - destruct (rbind _ _) as [target|] eqn:F; [|cbn; by split_and!].
    apply rbind_ok_inv in F as (refreshed & V & F). apply rbind_ok_inv in F as ([] & R & F).
    pose proof (find_target_names _ _ _ _ T R F). destruct (mark_spawned _ _ _ _ _) as [[]]; cbn; by split_and!.
  - destruct (receiver _ _) as [x|] eqn:R; [|cbn; by split_and!]. apply receiver_authorized in R; [|done].
    destruct (mark_completed _ _ _ _) as [[]]; cbn; split_and!; try done; by constructor.
Qed.

Lemma step_authorized ev b : broker_authorized b -> broker_authorized (step cf ev b).
Proof.
  intros [E U]. unfold step. destruct ev as [custody readable fault|power|conn a|conn e]; destruct (bk_up b) as [s|] eqn:Up;
    try (split; [done |]; cbn; rewrite ?Up; done).
  - destruct (open_ledger _ _ _ _ _) as [[l|err] d]; (split; [done |]); cbn; [|by rewrite Up].
    intros s [= <-]. apply map_Forall_empty.
  - specialize (U s eq_refl). destruct (sv_tasks s !! conn), (bk_staged b !! conn); try (split; [done |]; rewrite Up; by intros ? [= <-]).
    unfold connect. destruct (_ <=? _); [split; [done |]; cbn; rewrite Up; by intros ? [= <-] |].
    destruct (prepare cf a) as [[t|err] staged] eqn:P.
    + assert (task_authorized t) as T by (apply prepare_ok in P as [(x & -> & X)|(c & -> & C)]; done).
      destruct staged; (split; [done |]); intros ? [= <-]; by apply map_Forall_insert_2, U.
    + destruct staged; (split; [done |]); cbn; rewrite Up; by intros ? [= <-].
  - specialize (U s eq_refl). destruct (sv_tasks s !! conn) as [t|] eqn:T; [|split; [done |]; rewrite Up; by intros ? [= <-]].
    destruct (step_task_authorized conn e t s U (U _ _ T)) as (Fe & Ft).
    assert (bk_effects (take_step cf conn e t s b) = sp_effects (step_task cf conn e t s) ++ bk_effects b) as Ee.
    { unfold take_step. by destruct (sp_outcome _), (sp_unstage _). }
    split; [rewrite Ee; by apply Forall_app |]. intros s'. unfold take_step.
    destruct (sp_outcome (step_task cf conn e t s)), (sp_unstage (step_task cf conn e t s)); intros [= <-];
      cbn; (by apply map_Forall_insert_2, U) || (by apply map_Forall_delete, U).
Qed.

Lemma run_authorized evs b : broker_authorized b -> broker_authorized (run cf evs b).
Proof. revert b. induction evs as [|ev evs IH]; intros b B; [done |]. by apply IH, step_authorized. Qed.

Lemma installed_authorized d : broker_authorized (installed d).
Proof. split; [constructor | done]. Qed.

(** C6: what the broker runs was asked for by the trusted daemon and is what was pinned.  In
    every run, a spawned request carries a MAC under the broker's secret over exactly its
    fields, was within its lifetime when it was reserved, has no environment and no
    working directory, came over a socket of a process that runs the pinned daemon file
    as an allowed user, and the bytes handed to the runner have the length and the digest
    pinned in the request. *)
Theorem spawn_authorized evs d x : Spawn x ∈ bk_effects (run cf evs (installed d)) -> authorized x.
Proof.
  intros I. pose proof (proj1 (run_authorized evs _ (installed_authorized d))) as F. rewrite Forall_forall in F.
  exact (F _ I).
Qed.

End authorization.
