(* ===== verification/BrokerFence.v ===== *)
(** * Whom a signal of the broker reaches

    The table of active executions under interleaved connections: the entry at a nonce is
    the one its execution made, so that a signal, whether a cancellation or a closed
    connection sends it, goes to the one tree it is meant for. *)

From stdpp Require Import base list strings gmap.
From Stdlib Require Import ZArith Lia.
From S2P Require Import Prelude Transfer BrokerLedger BrokerWire BrokerServe BrokerRun BrokerAuth.

Open Scope Z_scope.

Section fence.
Context {DG : Digests} {LC : LedgerCodec} {BK : BrokerKeys} (cf : Config).

(** ** The table of active executions *)

(** The execution of a task that is in the table. *)
Definition listed (t : Task) : option Execution :=
  match t with ExecActive x | ExecRunning x | ExecHungUp x | ExecFinished x _ => Some x | _ => None end.

Definition table_ok (tasks : gmap Z Task) (active : gmap string ActiveExecution) : Prop :=
  forall k t x, tasks !! k = Some t -> listed t = Some x -> active !! rq_nonce (xn_request x) = Some (active_of k x).

Definition serving_fenced (s : Serving) : Prop :=
  tasks_ok (rl_entries (sv_ledger s)) (sv_tasks s) /\ table_ok (sv_tasks s) (sv_active s).

Definition broker_fenced (b : Broker) : Prop := forall s, bk_up b = Some s -> serving_fenced s.

Lemma listed_claims t x : listed t = Some x -> claims_nonce t (rq_nonce (xn_request x)).
Proof. destruct t; intros [= <-]; by do 2 eexists. Qed.

(** A task that leaves the table alone and stays who it is. *)
Lemma table_ok_insert tasks active conn t :
  table_ok tasks active -> (forall x, listed t = Some x -> active !! rq_nonce (xn_request x) = Some (active_of conn x)) ->
  table_ok (<[conn := t]> tasks) active.
Proof. intros A H k t' x [[<- <-]|[_ T]]%lookup_insert_Some L; [by apply H | by eapply A]. Qed.

Lemma table_ok_delete tasks active conn : table_ok tasks active -> table_ok (delete conn tasks) active.
Proof. intros A k t x [_ T]%lookup_delete_Some L. by eapply A. Qed.

(** Other connections have other nonces. *)
Lemma other_nonce m tasks conn t0 n k t x :
  tasks_ok m tasks -> tasks !! conn = Some t0 -> claims_nonce t0 n -> k <> conn -> tasks !! k = Some t ->
  listed t = Some x -> rq_nonce (xn_request x) <> n.
Proof.
  intros T T0 C Ne Tk L E. apply Ne. eapply (only_owner _ _ _ _ _ T T0 C); [exact Tk |]. rewrite <- E. by apply listed_claims.
Qed.

Lemma table_ok_enter m tasks active conn x :
  tasks_ok m tasks -> table_ok tasks active -> tasks !! conn = Some (ExecReserved x) ->
  table_ok (<[conn := ExecActive x]> tasks) (<[rq_nonce (xn_request x) := active_of conn x]> active).
Proof.
  intros T A T0 k t y [[<- <-]|[Ne Tk]]%lookup_insert_Some L.
  - injection L as <-. apply lookup_insert_eq.
  - rewrite lookup_insert_ne; [by eapply A |]. symmetry.
    eapply other_nonce; [exact T | exact T0 | by do 2 eexists | exact (not_eq_sym Ne) | exact Tk | exact L].
Qed.

Lemma table_ok_leave m tasks active conn x r :
  tasks_ok m tasks -> table_ok tasks active -> tasks !! conn = Some (ExecFinished x r) ->
  table_ok (<[conn := ExecRemoved x r]> tasks) (delete (rq_nonce (xn_request x)) active).
Proof.
  intros T A T0 k t y [[<- <-]|[Ne Tk]]%lookup_insert_Some L; [done |].
  rewrite lookup_delete_ne; [by eapply A |]. symmetry.
  eapply other_nonce; [exact T | exact T0 | by do 2 eexists | exact (not_eq_sym Ne) | exact Tk | exact L].
Qed.

(** A step that is neither leaves the table alone, and its task is the execution it was. *)
Lemma step_task_table conn e t s :
  serving_fenced s -> sv_tasks s !! conn = Some t ->
  let r := step_task cf conn e t s in table_ok (tasks_after conn s r) (sp_active r).
Proof.
  intros [T A] T0. cbn zeta. unfold tasks_after.
  assert (forall t', listed t' = listed t -> table_ok (<[conn := t']> (sv_tasks s)) (sv_active s)) as Same.
  { intros t' E. apply table_ok_insert; [exact A |]. intros x L. rewrite E in L. by eapply A. }
  assert (forall t', listed t' = None -> table_ok (<[conn := t']> (sv_tasks s)) (sv_active s)) as Out
    by (intros t' E; apply table_ok_insert; [exact A |]; congruence).
  pose proof (table_ok_delete _ _ conn A) as Gone.
  destruct t as [x|x|x|x|x|x o|x o|c|c|c target]; cbn [step_task].
  - destruct (reserve _ _ _ _ _ _) as [[]]; [by apply Out | done].
  - by eapply table_ok_enter.
  - destruct (mark_spawned _ _ _ _ _) as [[]]; [|done]. destruct (se_started e); by apply Same.
  - destruct (se_hangup e); by apply Same.
  - by apply Same.
  - by eapply table_ok_leave.
  - by destruct (mark_completed _ _ _ _) as [[]].
  - destruct (reserve _ _ _ _ _ _) as [[]]; [by apply Out | done].
  - destruct (rbind _ _); [|done]. destruct (mark_spawned _ _ _ _ _) as [[]]; [by apply Out | done].
  - destruct (receiver _ _); [|done]. by destruct (mark_completed _ _ _ _) as [[]].
Qed.

Lemma take_step_up conn e t s b :
  bk_up (take_step cf conn e t s b)
  = Some {| sv_ledger := sp_ledger (step_task cf conn e t s); sv_active := sp_active (step_task cf conn e t s);
            sv_tasks := tasks_after conn s (step_task cf conn e t s) |}.
Proof. unfold take_step, tasks_after. by destruct (sp_outcome _), (sp_unstage _). Qed.

Lemma take_step_effects conn e t s b :
  bk_effects (take_step cf conn e t s b) = sp_effects (step_task cf conn e t s) ++ bk_effects b.
Proof. unfold take_step. by destruct (sp_outcome _), (sp_unstage _). Qed.

(** A new connection's task is in no table. *)
Lemma connect_fenced conn a s b s' :
  bk_up b = Some s -> sv_tasks s !! conn = None -> serving_fenced s ->
  bk_up (connect cf conn a s b) = Some s' -> serving_fenced s'.
Proof.
  intros U F [[H O] A]. unfold connect. destruct (_ <=? _); [cbn; rewrite U; by intros [= <-] |].
  destruct (prepare cf a) as [[t|err] staged] eqn:P; [|destruct staged; cbn; rewrite U; by intros [= <-]].
  pose proof (prepare_claims _ _ _ _ P) as C.
  assert (serving_fenced (s <| sv_tasks := <[conn := t]> (sv_tasks s) |>)) as S; [|destruct staged; by intros [= <-]].
  assert (forall k, ~ claims_nonce t k) as Nc by (intros k (y & st & Y); congruence).
  split; cbn -[lookup insert table_ok]; [split |].
  - apply map_Forall_insert_2; [by rewrite C | done].
  - intros c1 c2 t1 t2 k E1 E2 C1 C2.
    apply lookup_insert_Some in E1 as [[<- <-]|[_ E1]], E2 as [[<- <-]|[_ E2]]; try done; try by destruct (Nc k).
    by eapply O.
  - apply table_ok_insert; [exact A |]. intros x L. by destruct (Nc _ (listed_claims _ _ L)).
Qed.

Lemma step_broker_fenced ev b : broker_fenced b -> broker_fenced (step cf ev b).
Proof.
  intros B s'. unfold step. destruct ev as [custody readable fault|power|conn a|conn e]; destruct (bk_up b) as [s|] eqn:U;
    try (cbn; rewrite ?U; done || (intros [= <-]; by apply B)).
  - destruct (open_ledger _ _ _ _ _) as [[l|err] d]; cbn; [|by rewrite U]. intros [= <-].
    split; [split; [apply map_Forall_empty | intros ? ? ? ? ? E] | intros ? ? ? E]; by destruct (lookup_empty_Some _ _ E).
  - destruct (sv_tasks s !! conn) eqn:F; [rewrite U; intros [= <-]; by apply B |].
    destruct (bk_staged b !! conn); [rewrite U; intros [= <-]; by apply B |].
    eapply connect_fenced; [exact U | exact F | by apply B].
  - destruct (sv_tasks s !! conn) as [t|] eqn:T; [|rewrite U; intros [= <-]; by apply B].
    rewrite take_step_up. intros [= <-]. split; [apply step_task_tasks; [by apply B | exact T] | by apply step_task_table; [apply B |]].
Qed.

Lemma run_broker_fenced evs b : broker_fenced b -> broker_fenced (run cf evs b).
Proof. revert b. induction evs as [|ev evs IH]; intros b B; [done |]. by apply IH, step_broker_fenced. Qed.

(** ** Signals *)

(** The cancellation [c] names the execution [x] and comes from its process. *)
Definition fenced (c : Cancellation) (x : Execution) : Prop :=
  let i := cn_cancel c in
  cancel_authentic cf c
  /\ ci_target_nonce i = rq_nonce (xn_request x) /\ ci_target_request_id i = rq_request_id (xn_request x)
  /\ ci_target_operation_id i = rq_operation_id (xn_request x) /\ ci_target_facts_digest i = exec_digest x
  /\ same_process (cn_accepted c) (xn_peer x).

(** The event [ev] in the state [b] is a reason to signal the execution [x]: [x] is
    authorized and in flight on a connection [k], and either a connection with a
    cancellation of [x] takes its last step, or [k] itself was closed. *)
Definition signal_due (b : Broker) (ev : Event) (x : Execution) (why : Cause) : Prop :=
  exists s k t conn e, bk_up b = Some s /\ sv_tasks s !! k = Some t /\ receiving t = Some x /\ authorized cf x
  /\ ev = Step conn e
  /\ match why with
     | Cancelled c => fenced c x /\ exists target, sv_tasks s !! conn = Some (CancelMarked c target)
     | HungUp => conn = k /\ t = ExecRunning x /\ se_hangup e = true
     end.

(** A closed connection finds the entry of its own execution. *)
Lemma hang_up_own s conn x :
  serving_fenced s -> sv_tasks s !! conn = Some (ExecRunning x) -> hang_up s x = [Signal x HungUp].
Proof.
  intros [_ A] T. unfold hang_up. rewrite (A _ _ _ T eq_refl). cbn. unfold receiver. cbn. rewrite T. cbn.
  by rewrite bool_decide_eq_true_2.
Qed.

Lemma take_step_signal conn e t s b x why :
  serving_authorized cf s -> serving_fenced s -> bk_up b = Some s -> sv_tasks s !! conn = Some t ->
  Signal x why ∈ sp_effects (step_task cf conn e t s) -> signal_due b (Step conn e) x why.
Proof.
  intros Au S U T. pose proof (Au _ _ T) as At. cbn in At.
  destruct t as [y|y|y|y|y|y o|y o|c|c|c target]; cbn [step_task].
  - destruct (reserve _ _ _ _ _ _) as [[]]; by intros ?%elem_of_nil.
  - by intros ?%elem_of_nil.
  - destruct (mark_spawned _ _ _ _ _) as [[]]; [destruct (se_started e)|]; cbn; [|by intros ?%elem_of_nil..].
    by intros ?%list_elem_of_singleton.
  - destruct (se_hangup e) eqn:H; [|by intros ?%elem_of_nil]. cbn. rewrite (hang_up_own _ _ _ S T).
    intros [= -> ->]%list_elem_of_singleton. by exists s, conn, (ExecRunning y), conn, e.
  - by intros ?%elem_of_nil.
  - by intros ?%elem_of_nil.
  - destruct (mark_completed _ _ _ _) as [[]]; by intros ?%elem_of_nil.
  - destruct (reserve _ _ _ _ _ _) as [[]]; by intros ?%elem_of_nil.
  - destruct (rbind _ _); [|by intros ?%elem_of_nil]. destruct (mark_spawned _ _ _ _ _) as [[]]; by intros ?%elem_of_nil.
  - destruct (receiver _ _) as [z|] eqn:R; [|by intros ?%elem_of_nil].
    destruct (mark_completed _ _ _ _) as [r l]. cbn. intros [= -> ->]%list_elem_of_singleton.
    pose proof (receiver_authorized _ _ _ _ Au R) as Az. apply receiver_spec in R as (t & Tk & Rt & E).
    exists s, (ae_cancel target), t, conn, e. split_and!; try done; [|by exists target]. clear - At E.
    revert At. rewrite <- E. by intros (C & N & Q & O & D & P).
Qed.

Lemma step_signal ev b x why :
  broker_authorized cf b -> broker_fenced b -> Signal x why ∈ bk_effects (step cf ev b) ->
  Signal x why ∈ bk_effects b \/ signal_due b ev x why.
Proof.
  intros [_ Au] B. unfold step. destruct ev as [custody readable fault|power|conn a|conn e]; destruct (bk_up b) as [s|] eqn:U;
    try (intros ?; by left).
  - destruct (open_ledger _ _ _ _ _) as [[l|err] d]; by left.
  - destruct (sv_tasks s !! conn), (bk_staged b !! conn); try by left. unfold connect. destruct (_ <=? _); [by left |].
    destruct (prepare cf a) as [[t|err] [im|]]; by left.
  - destruct (sv_tasks s !! conn) as [t|] eqn:T; [|by left]. rewrite take_step_effects. intros [I|I]%elem_of_app; [|by left].
    right. by eapply take_step_signal; [apply Au | apply B | exact U | exact T |].
Qed.

Lemma run_signal evs b x why :
  broker_authorized cf b -> broker_fenced b -> Signal x why ∈ bk_effects (run cf evs b) ->
  Signal x why ∈ bk_effects b
  \/ exists before ev after, evs = before ++ ev :: after /\ signal_due (run cf before b) ev x why.
Proof.
  revert b. induction evs as [|ev evs IH]; intros b Au B I; [by left |]. cbn [run] in I.
  apply IH in I as [I|(before & ev' & after & -> & D)]; [| |by apply step_authorized | by apply step_broker_fenced].
  - apply step_signal in I as [I|D]; [by left | | done | done]. right. by exists [], ev, evs.
  - right. by exists (ev :: before), ev', after.
Qed.

(** C7: a signal reaches only the execution it is meant for.  In every run, with connections
    interleaved in any way and crashes and restarts between them, each signal was sent at
    a moment when the execution it went to was in flight and authorized: either for an
    authentic cancellation with this execution's nonce, request, operation and digest of
    facts, whose sender is the very process that asked for the execution; or because the
    execution's own connection was closed.  And a running execution whose connection is
    closed is always signalled, it and no other one. *)
Theorem cancel_fenced evs d :
  let b := run cf evs (installed d) in
  (forall x why, Signal x why ∈ bk_effects b ->
     exists before ev after, evs = before ++ ev :: after /\ signal_due (run cf before (installed d)) ev x why)
  /\ (forall s conn x e, bk_up b = Some s -> sv_tasks s !! conn = Some (ExecRunning x) -> se_hangup e = true ->
        bk_effects (step cf (Step conn e) b) = Signal x HungUp :: bk_effects b).
Proof.
  intros b. split.
  - intros x why I. apply run_signal in I as [I|I]; [by apply elem_of_nil in I | done | apply installed_authorized | done].
  - intros s conn x e U T H. unfold step. rewrite U, T, take_step_effects. cbn [step_task]. rewrite H. cbn.
    rewrite (hang_up_own s conn x); [done | | exact T]. by eapply (run_broker_fenced evs (installed d)).
Qed.
End fence.
