(* ===== verification/BrokerReopen.v ===== *)
(** * The broker reads what it writes

    Whatever the broker does to its ledger, the file it leaves is one it opens again,
    with the same entries; and a slot that was reserved and abandoned is never freed. *)

From stdpp Require Import base list strings gmap.
From Stdlib Require Import ZArith Lia Ascii.
From S2P Require Import Prelude RustStr RustBytes Transfer BrokerLedger BrokerWire BrokerServe BrokerRun.

Open Scope Z_scope.

(** ** Well-formed entries *)

Definition entries_wf (m : gmap string LedgerEntry) : Prop :=
  map_Forall (fun n e => validate_entry n e = Ok tt) m /\ Z.of_nat (size m) <= MAX_LEDGER_ENTRIES.

Lemma validate_entries_ok l : Forall (fun p => validate_entry (fst p) (snd p) = Ok tt) l <-> validate_entries l = Ok tt.
Proof.
  induction l as [|[n e] l IH]; cbn; [done |]. rewrite Forall_cons, IH. cbn. split.
  - by intros [-> ->].
  - intros H. by apply rbind_ok_inv in H as ([] & ? & ?).
Qed.

Lemma validate_map m :
  map_Forall (fun n e => validate_entry n e = Ok tt) m <-> validate_entries (btree_iter m) = Ok tt.
Proof.
  rewrite <- validate_entries_ok. unfold btree_iter. rewrite sort_by_perm, map_Forall_to_list.
  split; intros H; (eapply Forall_impl; [exact H |]); by intros [].
Qed.

Lemma validate_new_entry n digest x now :
  i64_min <= now -> validate_reservation n digest x now = Ok tt -> validate_entry n (new_entry digest x now) = Ok tt.
Proof.
  unfold validate_entry, validate_reservation. intros N H. res_inv. bool_prop. cbn [new_entry le_digest le_expires_at_unix].
  repeat match goal with E : ?b = false |- context [guard_err ?b _] => rewrite E end.
  destruct (is_digest digest); [|done]. cbn. by rewrite (proj2 (Z.ltb_ge _ _)) by lia.
Qed.

Lemma validate_advance n e s : validate_entry n e = Ok tt -> validate_entry n (advance e s) = Ok tt.
Proof.
  unfold validate_entry. intros H. apply rbind_ok_inv in H as ([] & R & H). apply rbind_ok_inv in H as ([] & S & H).
  change (validate_reservation n (le_digest (advance e s)) (le_expires_at_unix (advance e s)) i64_min)
    with (validate_reservation n (le_digest e) (le_expires_at_unix e) i64_min). rewrite R. cbn [rbind].
  assert (N.eqb (le_transition_seq (advance e s)) 0 = false) as ->; [|exact H].
  apply N.eqb_neq. cbn. unfold u64_max. lia.
Qed.

Lemma pruned_wf now m : entries_wf m -> entries_wf (pruned now m).
Proof.
  intros [V S]. split.
  - intros n e E. apply map_lookup_filter_Some in E as [E _]. by apply V.
  - pose proof (map_size_filter (fun kv => unsettled (snd kv) || (now <=? le_expires_at_unix (snd kv)) = true) m).
    unfold pruned. lia.
Qed.

Section reopen.
Context {DG : Digests} {LC : LedgerCodec} {BK : BrokerKeys}.

Lemma read_own m :
  entries_wf m -> str_len (encoded m) <= MAX_LEDGER_BYTES -> read_ledger MAX_LEDGER_ENTRIES (encoded m) = Ok (m, false).
Proof.
  intros [V S] L. unfold read_ledger. rewrite (proj2 (Z.ltb_ge _ _)) by done. cbn [guard_err rbind].
  unfold encoded. rewrite ledger_version_to_vec. cbn [ok_or rbind lf_version]. change (LEDGER_VERSION =? 1) with false.
  change (LEDGER_VERSION =? LEDGER_VERSION) with true. cbn iota. rewrite ledger_from_to_vec. cbn [map_err rbind lf_entries].
  rewrite (proj2 (Z.ltb_ge _ _)) by done. cbn [guard_err rbind fst]. apply validate_map in V. by rewrite V.
Qed.

(** The ledger in memory is well-formed, and while it is available the file has it. *)
Definition ledger_wf (l : ReplayLedger) : Prop :=
  rl_max_entries l = MAX_LEDGER_ENTRIES /\ entries_wf (rl_entries l)
  /\ (rl_failed_closed l = false ->
      exists bytes, ld_file (rl_disk l) = Some bytes /\ read_ledger MAX_LEDGER_ENTRIES bytes = Ok (rl_entries l, false)).

Lemma persist_or_close_wf fault l r l' :
  persist_or_close fault l = (r, l') -> rl_max_entries l = MAX_LEDGER_ENTRIES -> entries_wf (rl_entries l) -> ledger_wf l'.
Proof.
  intros H M W. apply persist_or_close_spec in H as (E & M' & _ & _ & R). unfold ledger_wf. rewrite E, M'.
  split_and!; [done | apply W.. |]. destruct r; [|congruence]. destruct R as (_ & D & L). intros _.
  eexists. rewrite D. split; [done | by apply read_own].
Qed.

Lemma prune_wf fault now l r l' : prune_completed fault now l = (r, l') -> ledger_wf l -> ledger_wf l'.
Proof.
  unfold prune_completed. fold (pruned now (rl_entries l)). intros H (M & W & F). destruct (Nat.eqb _ _) eqn:S.
  - injection H as <- <-. assert (pruned now (rl_entries l) = rl_entries l) as E.
    { apply Nat.eqb_eq in S. apply map_subseteq_size_eq; [apply map_filter_subseteq | lia]. }
    unfold ledger_wf. cbn. rewrite E. done.
  - eapply persist_or_close_wf; [exact H | done | by apply pruned_wf].
Qed.

Lemma reserve_wf faults n digest x now l r l' :
  i64_min <= now -> reserve faults n digest x now l = (r, l') -> ledger_wf l -> ledger_wf l'.
Proof.
  intros N H W. unfold reserve in H. destruct (ensure_available l); [|by injection H as <- <-]. cbn [rbind] in H.
  destruct (validate_reservation n digest x now) as [[]|] eqn:V; [|by injection H as <- <-].
  destruct (prune_completed _ now l) as [[u|e] l1] eqn:P; apply prune_wf in P; try done; [|by injection H as <- <-].
  destruct (rl_entries l1 !! n) eqn:F; [by injection H as <- <- |]. destruct (Z.leb_spec (rl_max_entries l1) (Z.of_nat (size (rl_entries l1)))).
  { by injection H as <- <-. }
  destruct P as (M & [We Ws] & _). eapply persist_or_close_wf; [exact H | done |]. split; cbn.
  - apply map_Forall_insert_2; [by apply validate_new_entry | done].
  - rewrite map_size_insert_None by done. lia.
Qed.

Lemma update_wf fault n e s l r l' :
  ledger_wf l -> rl_entries l !! n = Some e ->
  persist_or_close fault (l <| rl_entries := <[n := advance e s]> (rl_entries l) |>) = (r, l') -> ledger_wf l'.
Proof.
  intros (M & [We Ws] & _) E H. eapply persist_or_close_wf; [exact H | done |]. split; cbn.
  - apply map_Forall_insert_2; [|done]. apply validate_advance. by apply We.
  - rewrite map_size_insert_Some; [done | by eexists].
Qed.

Lemma mark_spawned_wf fault n digest l r l' : mark_spawned fault n digest None l = (r, l') -> ledger_wf l -> ledger_wf l'.
Proof.
  unfold mark_spawned. intros H W. destruct (entry_for _ _ _ l) as [e|] eqn:E; [|by injection H as <- <-].
  apply entry_for_ok in E as (_ & E & _). by eapply update_wf.
Qed.

Lemma mark_completed_wf fault n digest l r l' : mark_completed fault n digest l = (r, l') -> ledger_wf l -> ledger_wf l'.
Proof.
  unfold mark_completed. intros H W. destruct (entry_for _ _ _ l) as [e|] eqn:E; [|by injection H as <- <-].
  apply entry_for_ok in E as (_ & E & _). by eapply update_wf.
Qed.

Lemma read_wf bytes m migrated : read_ledger MAX_LEDGER_ENTRIES bytes = Ok (m, migrated) -> entries_wf m.
Proof.
  unfold read_ledger. intros H. apply rbind_ok_inv in H as ([] & _ & H). apply rbind_ok_inv in H as (v & _ & H).
  apply rbind_ok_inv in H as ([m' mig] & R & H). apply rbind_ok_inv in H as ([] & V & H). injection H as -> ->.
  split; [by apply validate_map |]. destruct (v =? 1).
  - apply rbind_ok_inv in R as (legacy & _ & R). apply rbind_ok_inv in R as ([] & G & R). injection R as <- _.
    destruct (_ || _) eqn:B; [done |]. bool_prop. rewrite map_size_fmap. lia.
  - destruct (v =? LEDGER_VERSION); [|done]. apply rbind_ok_inv in R as (f & _ & R).
    apply rbind_ok_inv in R as ([] & G & R). injection R as <- _. destruct (_ <? _) eqn:B; [done |]. bool_prop. lia.
Qed.

Lemma open_wf custody readable fault disk l disk' :
  open_ledger custody readable fault MAX_LEDGER_ENTRIES disk = (Ok l, disk') -> ledger_wf l /\ rl_disk l = disk'.
Proof.
  unfold open_ledger. destruct (rbind _ _); [|done].
  assert (forall m, entries_wf m -> match persist fault {| rl_max_entries := MAX_LEDGER_ENTRIES; rl_entries := m; rl_failed_closed := false; rl_disk := disk |} with
    | (Err e, l) => (Err e, rl_disk l) | (Ok _, l) => (Ok l, rl_disk l) end = (Ok l, disk') -> ledger_wf l /\ rl_disk l = disk') as W.
  { intros m Hm. destruct (persist _ _) as [[[]|e] l1] eqn:P; [|done]. intros [= -> <-].
    apply persist_spec in P as (E & M & _ & _ & _ & R). destruct (R eq_refl) as [D L]. cbn in *. split; [|done].
    unfold ledger_wf. rewrite E, M. split_and!; [done | apply Hm.. |]. intros _. eexists. rewrite D. split; [done | by apply read_own]. }
  destruct (ld_file disk) as [bytes|] eqn:F; [|apply (W ∅); split; [apply map_Forall_empty | by rewrite map_size_empty]].
  destruct (rbind _ _) as [[m migrated]|] eqn:R; [|done]. apply rbind_ok_inv in R as ([] & _ & R). pose proof (read_wf _ _ _ R) as Hm.
  destruct migrated; [by apply W |]. intros [= <- <-]. split; [|done]. split_and!; [done | apply Hm.. |].
  intros _. exists bytes. split; [exact F | exact R].
Qed.

(** ** Runs *)

Definition broker_wf (b : Broker) : Prop := forall s, bk_up b = Some s -> ledger_wf (sv_ledger s).

Lemma step_task_wf cf conn e t s :
  ledger_wf (sv_ledger s) -> Forall (Z.le i64_min) (sp_times (step_task cf conn e t s)) -> ledger_wf (sp_ledger (step_task cf conn e t s)).
Proof.
  intros W T. destruct t; cbn [step_task] in *; try done.
  - destruct (reserve _ _ _ _ _ _) as [r l] eqn:R. apply Forall_cons in T as [T _]. cbn in *. by eapply reserve_wf.
  - destruct (mark_spawned _ _ _ _ _) as [r l] eqn:R. apply mark_spawned_wf in R; [|done].
    destruct r; [destruct (se_started e)|]; done.
  - by destruct (se_hangup e).
  - destruct (mark_completed _ _ _ _) as [r l] eqn:R. apply mark_completed_wf in R; [|done]. by destruct r.
  - destruct (reserve _ _ _ _ _ _) as [r l] eqn:R. apply Forall_cons in T as [T _]. cbn in *. by eapply reserve_wf.
  - destruct (rbind _ _); [|done]. destruct (mark_spawned _ _ _ _ _) as [r l] eqn:R. apply mark_spawned_wf in R; [|done].
    by destruct r.
  - destruct (receiver _ _); [|done]. destruct (mark_completed _ _ _ _) as [r l] eqn:R. by apply mark_completed_wf in R.
Qed.

Lemma step_wf cf ev b : broker_wf b -> Forall (Z.le i64_min) (bk_times (step cf ev b)) -> broker_wf (step cf ev b).
Proof.
  intros W T. unfold step in *. destruct ev as [custody readable fault|power|conn a|conn e]; destruct (bk_up b) as [s|] eqn:Up;
    try (intros s' H'; cbn in H'; simplify_eq; by apply W).
  - destruct (open_ledger _ _ _ _ _) as [[l|err] d] eqn:O; intros s; cbn; [|by rewrite Up].
    intros [= <-]. by apply open_wf in O as [O _].
  - specialize (W s Up). destruct (sv_tasks s !! conn), (bk_staged b !! conn); try (intros ? ?; by simplify_eq).
    unfold connect. destruct (_ <=? _); [intros ? ?; cbn in *; by simplify_eq |].
    destruct (prepare cf a) as [[t|err] staged]; destruct staged; intros ? ?; cbn in *; by simplify_eq.
  - specialize (W s Up). destruct (sv_tasks s !! conn) as [t|]; [|intros ? ?; by simplify_eq].
    pose proof (step_task_wf cf conn e t s W) as S. unfold take_step in *.
    destruct (sp_outcome (step_task cf conn e t s)), (sp_unstage (step_task cf conn e t s)); cbn in *;
      apply Forall_app in T as [T _]; intros ? [= <-]; by apply S.
Qed.

Lemma run_wf cf evs b : broker_wf b -> Forall (Z.le i64_min) (bk_times (run cf evs b)) -> broker_wf (run cf evs b).
Proof.
  revert b. induction evs as [|ev evs IH]; intros b W T; [done |]. cbn [run] in *. apply IH; [|done]. apply step_wf; [done |].
  destruct (run_times cf evs (step cf ev b)) as (new & E). rewrite E in T. by apply Forall_app in T as [_ T].
Qed.

(** C30: the broker can always read its ledger back.  In every run, the entries in memory pass
    the checks of the reader and stay within its limit, and while the ledger is
    available, a restart opens the file with exactly these entries. *)
Theorem ledger_reopens cf evs d s :
  let b := run cf evs (installed d) in
  bk_up b = Some s -> Forall (Z.le i64_min) (bk_times b) ->
  entries_wf (rl_entries (sv_ledger s))
  /\ (rl_failed_closed (sv_ledger s) = false ->
      open_ledger (Ok tt) (Ok tt) None MAX_LEDGER_ENTRIES (rl_disk (sv_ledger s)) = (Ok (sv_ledger s), rl_disk (sv_ledger s))).
Proof.
  intros b U T. destruct (run_wf cf evs (installed d) ltac:(done) T s U) as (M & W & F). split; [done |]. intros A.
  destruct (F A) as (bytes & D & R). unfold open_ledger. change (MAX_LEDGER_ENTRIES =? 0) with false. cbn [guard_err rbind].
  rewrite D. cbn [rbind]. rewrite R. destruct (sv_ledger s). cbn in *. by subst.
Qed.

(** ** Abandoned slots *)

(** The nonce is reserved, in memory and on disk, and no task will move it on. *)
Definition abandoned (n : string) (b : Broker) : Prop :=
  exists e, le_state e = ReservedPreSpawn
  /\ match bk_up b with
     | None => disk_holds MAX_LEDGER_ENTRIES (fun m => m !! n = Some e) (bk_disk b)
     | Some s => ledger_holds MAX_LEDGER_ENTRIES (fun m => m !! n = Some e) (sv_ledger s)
                 /\ map_Forall (fun _ t => ~ claims_nonce t n) (sv_tasks s)
     end.

Section abandoned.
Context (n : string) (e : LedgerEntry) (reserved : le_state e = ReservedPreSpawn).

Definition has : ReplayLedger -> Prop := ledger_holds MAX_LEDGER_ENTRIES (fun m => m !! n = Some e).

Lemma reserve_abandoned faults k digest x now l r l' :
  reserve faults k digest x now l = (r, l') -> has l -> has l' /\ (is_ok r = true -> k <> n).
Proof.
  intros R H. split.
  - eapply reserve_holds; [| | exact R | exact H].
    + intros m M. apply pruned_unsettled; [done |]. unfold unsettled. by rewrite reserved.
    + intros m M N _. rewrite lookup_insert_ne; [done | congruence].
  - apply reserve_entries in R as [K O]. intros Ok. destruct r as [[]|]; [|done]. intros ->.
    destruct (O eq_refl) as [_ F]. specialize (F e (proj1 H)). unfold unsettled in F. by rewrite reserved in F.
Qed.

Lemma insert_abandoned k f (m : gmap string LedgerEntry) : k <> n -> m !! n = Some e -> <[k := f]> m !! n = Some e.
Proof. intros Ne M. by rewrite lookup_insert_ne. Qed.

Lemma step_task_abandoned cf conn env t s :
  has (sv_ledger s) -> ~ claims_nonce t n ->
  has (sp_ledger (step_task cf conn env t s))
  /\ match sp_outcome (step_task cf conn env t s) with Continue t' => ~ claims_nonce t' n | Reply _ => True end.
Proof.
  intros H C. destruct t as [x|x|x|x|x|x o|x o|c|c|c target]; cbn [step_task].
  1,8: destruct (reserve _ _ _ _ _ _) as [r l] eqn:R; apply reserve_abandoned in R as [R O]; [|done];
    split; [done |]; destruct r; [|done]; intros (y & st & [= E _ _]); by apply O.
  1: split; [done |]; intros (y & st & E); apply C; by exists y, st.
  2: destruct (se_hangup env).
  2,3,4,5: split; [done |]; intros (y & st & E); apply C; by exists y, st.
  all: assert (forall y st, claim (ltac:(match goal with C : ~ claims_nonce ?t n |- _ => exact t end)) <> Some (n, y, st)) as N
    by (intros y st E; apply C; by exists y, st).
  - destruct (mark_spawned _ _ _ _ _) as [r l] eqn:R.
    assert (rq_nonce (xn_request x) <> n) as Ne by (intros E; eapply N; cbn; unfold exec_key; by rewrite E).
    eapply (mark_spawned_holds _ (fun m => m !! n = Some e)) in R; [|intros m f M _ _; by apply insert_abandoned | exact H].
    destruct r; [destruct (se_started env)|]; (split; [done |]); try done; intros (y & st & [= E _ _]); done.
  - destruct (mark_completed _ _ _ _) as [r l] eqn:R.
    assert (rq_nonce (xn_request x) <> n) as Ne by (intros E; eapply N; cbn; unfold exec_key; by rewrite E).
    eapply (mark_completed_holds _ (fun m => m !! n = Some e)) in R; [|intros m f M _ _; by apply insert_abandoned | exact H]. by destruct r.
  - destruct (rbind _ _); [|done]. destruct (mark_spawned _ _ _ _ _) as [r l] eqn:R.
    assert (ci_nonce (cn_cancel c) <> n) as Ne by (intros E; eapply N; cbn; unfold cancel_claim; by rewrite E).
    eapply (mark_spawned_holds _ (fun m => m !! n = Some e)) in R; [|intros m f M _ _; by apply insert_abandoned | exact H].
    destruct r; (split; [done |]); try done; intros (y & st & [= E _ _]); done.
  - destruct (receiver _ _); [|done]. destruct (mark_completed _ _ _ _) as [r l] eqn:R.
    assert (ci_nonce (cn_cancel c) <> n) as Ne by (intros E; eapply N; cbn; unfold cancel_claim; by rewrite E).
    by eapply (mark_completed_holds _ (fun m => m !! n = Some e)) in R; [|intros m f M _ _; by apply insert_abandoned | exact H].
Qed.
End abandoned.

Lemma step_abandoned cf ev n b : abandoned n b -> abandoned n (step cf ev b).
Proof.
  intros (e & S & H). pose proof (Up := eq_refl (bk_up b)). exists e. split; [done |]. unfold step.
  destruct ev as [custody readable fault|power|conn a|conn env]; destruct (bk_up b) as [s|] eqn:U; try by (rewrite U || cbn; rewrite ?U).
  - destruct (open_ledger _ _ _ _ _) as [[l|err] d] eqn:O; eapply open_holds in O as [D R]; [|exact H| |exact H]; cbn; [|by rewrite U].
    split; [apply R | apply map_Forall_empty].
  - cbn. destruct H as [[_ D] _], power; [split; apply D | done].
  - cbn. destruct power; [split; apply H | done].
  - destruct (sv_tasks s !! conn), (bk_staged b !! conn); try by rewrite U.
    unfold connect. destruct (_ <=? _); [cbn; by rewrite U |]. destruct (prepare cf a) as [[t|err] staged] eqn:P.
    + assert (~ claims_nonce t n) as C by (intros (y & st & E); apply prepare_claims in P; congruence).
      destruct H as [H T]. destruct staged; cbn; (split; [done |]); by apply map_Forall_insert_2.
    + destruct staged; cbn; by rewrite U.
  - destruct (sv_tasks s !! conn) as [t|] eqn:T; [|by rewrite U]. destruct H as [H N].
    pose proof (step_task_abandoned n e S cf conn env t s H (N _ _ T)) as [L C]. unfold take_step.
    destruct (sp_outcome (step_task cf conn env t s)), (sp_unstage (step_task cf conn env t s)); cbn; (split; [done |]);
      (by apply map_Forall_insert_2) || (by apply map_Forall_delete).
Qed.

(** A reservation that is not followed up is never freed.  Once a nonce is reserved in
    memory and on disk and no task is left to move it on, which is where a cancellation
    ends whose target has finished, it stays reserved in every continuation, through
    pruning, restarts and losses of power, and takes one of the ledger's slots. *)
Theorem abandoned_forever cf evs n b : abandoned n b -> abandoned n (run cf evs b).
Proof. revert b. induction evs as [|ev evs IH]; intros b A; [done |]. by apply IH, step_abandoned. Qed.
End reopen.
