(* ===== verification/BrokerLive.v ===== *)
(** * The broker serves what it should

    An authentic request of the trusted daemon, with a nonce that was not used and an
    executable that is the pinned one, is executed, completed in the ledger and answered,
    when the writes succeed. *)

From stdpp Require Import base list strings gmap.
From Stdlib Require Import ZArith Lia Ascii.
From S2P Require Import Prelude RustStr RustBytes RustPath Transfer BrokerLedger BrokerWire BrokerServe BrokerRun BrokerAuth.

Open Scope Z_scope.

(** ** The ledger without faults *)

Section ledger.
Context {LC : LedgerCodec}.

Lemma persist_or_close_ok l :
  str_len (encoded (rl_entries l)) <= MAX_LEDGER_BYTES ->
  persist_or_close None l
  = (Ok tt, l <| rl_disk := {| ld_file := Some (encoded (rl_entries l)); ld_durable := Some (encoded (rl_entries l)) |} |>).
Proof.
  intros L. unfold persist_or_close, persist. fold (encoded (rl_entries l)). rewrite (proj2 (Z.ltb_ge _ _)) by done.
  by destruct l.
Qed.

(** The ledger with other entries, on disk. *)
Definition with_entries (l : ReplayLedger) (m : gmap string LedgerEntry) : ReplayLedger :=
  l <| rl_entries := m |> <| rl_disk := {| ld_file := Some (encoded m); ld_durable := Some (encoded m) |} |>.

Lemma reserve_served l n digest x now :
  rl_failed_closed l = false -> validate_reservation n digest x now = Ok tt ->
  pruned now (rl_entries l) !! n = None -> Z.of_nat (size (pruned now (rl_entries l))) < rl_max_entries l ->
  str_len (encoded (pruned now (rl_entries l))) <= MAX_LEDGER_BYTES ->
  str_len (encoded (<[n := new_entry digest x now]> (pruned now (rl_entries l)))) <= MAX_LEDGER_BYTES ->
  reserve (None, None) n digest x now l
  = (Ok tt, with_entries l (<[n := new_entry digest x now]> (pruned now (rl_entries l)))).
Proof.
  intros A V F S L1 L2. unfold reserve, ensure_available. rewrite A, V. cbn [guard_err rbind fst snd].
  assert (exists d, prune_completed None now l = (Ok tt, l <| rl_entries := pruned now (rl_entries l) |> <| rl_disk := d |>)) as (d & ->).
  { unfold prune_completed. fold (pruned now (rl_entries l)). destruct (Nat.eqb _ _).
    - exists (rl_disk l). by destruct l.
    - rewrite persist_or_close_ok by done. eexists. by destruct l. }
  cbn. rewrite F, (proj2 (Z.leb_gt _ _)) by done. rewrite persist_or_close_ok by done. by destruct l.
Qed.

Lemma mark_spawned_served l n e digest :
  rl_failed_closed l = false -> rl_entries l !! n = Some e -> le_state e = ReservedPreSpawn -> le_digest e = digest ->
  str_len (encoded (<[n := advance e SpawnedUncertain]> (rl_entries l))) <= MAX_LEDGER_BYTES ->
  mark_spawned None n digest None l = (Ok tt, with_entries l (<[n := advance e SpawnedUncertain]> (rl_entries l))).
Proof.
  intros A E S D L. unfold mark_spawned, entry_for, ensure_available. rewrite A, E. cbn [guard_err rbind ok_or]. rewrite D, S.
  rewrite String.eqb_refl, bool_decide_eq_true_2 by done. cbn [negb guard_err rbind]. rewrite persist_or_close_ok by done. by destruct l.
Qed.

Lemma mark_completed_served l n e digest :
  rl_failed_closed l = false -> rl_entries l !! n = Some e -> le_state e = SpawnedUncertain -> le_digest e = digest ->
  str_len (encoded (<[n := advance e Completed]> (rl_entries l))) <= MAX_LEDGER_BYTES ->
  mark_completed None n digest l = (Ok tt, with_entries l (<[n := advance e Completed]> (rl_entries l))).
Proof.
  intros A E S D L. unfold mark_completed, entry_for, ensure_available. rewrite A, E. cbn [guard_err rbind ok_or]. rewrite D, S.
  rewrite String.eqb_refl, bool_decide_eq_true_2 by done. cbn [negb guard_err rbind]. rewrite persist_or_close_ok by done. by destruct l.
Qed.
End ledger.

(** ** The minted capability *)

Lemma shape_later r t t' :
  validate_v2_request_shape r t = Ok tt -> t <= t' <= rq_expires_at_unix r -> validate_v2_request_shape r t' = Ok tt.
Proof.
  unfold validate_v2_request_shape. intros H T. apply rbind_ok_inv in H as ([] & V & H). rewrite V. cbn [rbind].
  apply rbind_ok_inv in H as ([] & E & H). destruct (_ || _) eqn:B in E; [done |]. bool_prop.
  rewrite (proj2 (Z.ltb_ge (rq_expires_at_unix r) t')), (proj2 (Z.ltb_ge t' (rq_issued_at_unix r))) by lia. exact H.
Qed.

Lemma shape_capability r cap now :
  validate_v2_request_shape r now = Ok tt -> validate_capability_shape cap = Ok tt ->
  validate_v2_request_shape (r <| rq_capability := Some cap |>) now = Ok tt.
Proof.
  unfold validate_v2_request_shape. intros H C.
  repeat (apply rbind_ok_inv in H as ([] & ?E & H); match goal with E : ?a = Ok tt |- rbind ?b _ = Ok tt => change b with a; rewrite E; cbn [rbind]; clear E end).
  exact C.
Qed.

Section live.
Context {DG : Digests} {LC : LedgerCodec} {BK : BrokerKeys} (cf : Config).

Lemma minted_verifies token_id r peer now :
  validate_v2_request_shape r now = Ok tt -> 0 <= now -> rq_expires_at_unix r <= i64_max ->
  let cap := issue token_id (cf_signing_key cf) (broker_instance_id cf) (broker_key_id cf) (of_principal_id (rq_facts r))
               (rq_operation_id r) (rq_facts r) (rq_nonce r) peer now (i64_saturating_sub (rq_expires_at_unix r) now) in
  validate_capability_shape cap = Ok tt ->
  verify_capability_v2 (verifying_key (cf_signing_key cf)) (r <| rq_capability := Some cap |>) (broker_instance_id cf)
    (broker_key_id cf) peer now = Ok tt.
Proof.
  intros S N X cap C. pose proof (proj1 (shape_parts _ _ S)) as L.
  unfold verify_capability_v2. rewrite (shape_capability _ _ _ S C). cbn [rbind rq_capability update ok_or].
  assert (ct_expires_at_unix cap = rq_expires_at_unix r) as E.
  { unfold cap, issue, i64_saturating_add, i64_saturating_sub. cbn. unfold i64_min, i64_max in *. lia. }
  change (ok_or (rq_capability (r <| rq_capability := Some cap |>)) InvalidToken) with (@Ok _ BrokerError cap). cbn [rbind].
  rewrite E, (proj2 (Z.ltb_ge (rq_expires_at_unix r) now)) by lia.
  change (ct_issued_at_unix cap) with now. rewrite Z.ltb_irrefl. cbn [orb guard_err rbind].
  change (ct_scope cap) with ELEVATED_CAPABILITY_SCOPE. change (ct_operation_id cap) with (rq_operation_id r).
  change (ct_nonce cap) with (rq_nonce r). change (ct_broker_instance_id cap) with (broker_instance_id cf).
  change (ct_broker_key_id cap) with (broker_key_id cf). change (ct_peer cap) with peer.
  change (ct_operation_facts_digest cap) with (operation_facts_digest (rq_facts r)).
  change (rq_operation_id (r <| rq_capability := Some cap |>)) with (rq_operation_id r).
  change (rq_nonce (r <| rq_capability := Some cap |>)) with (rq_nonce r).
  change (rq_facts (r <| rq_capability := Some cap |>)) with (rq_facts r).
  rewrite !String.eqb_refl, bool_decide_eq_true_2 by done. cbn [negb orb guard_err rbind].
  change (ct_signature cap) with (hex_encode (ed25519_sign (cf_signing_key cf) (canonical_capability_v2_bytes cap))).
  rewrite hex_decode_encode. cbn [ok_or rbind]. unfold capability_verify.
  rewrite ed25519_sign_len, ed25519_sign_verifies. done.
Qed.

(** ** Service *)

(** An arrival that carries an authentic request of the trusted daemon. *)
Record authentic (a : Arrival) (execute : ExecuteIntentV2) (accepted refreshed : AuthorizedPeer) (image : string) : Prop := {
  au_accepted : authorize_unix_peer (cf_policy cf) (ar_accepted a) = Ok accepted;
  au_frame : exists bytes, read_bounded_v2_frame (ar_stream a) = Ok bytes
               /\ parse_broker_wire_intent_v2 bytes = Ok (Execute execute);
  au_message : verify_execute_intent_v2_message_auth (cf_secret cf) execute (ar_auth_now a) = Ok tt;
  au_refreshed : authorize_unix_peer (cf_policy cf) (ar_refreshed a) = Ok refreshed;
  au_same : validate_refresh accepted refreshed = Ok tt;
  au_staged : stage_linux_executable (into_unprepared_request execute) (ar_source a) = Ok image;
  au_times : 0 <= ar_auth_now a <= ar_now a /\ ar_now a <= ei_expires_at_unix execute <= i64_max
}.

(** The capability and the execution it becomes. *)
Definition minted (a : Arrival) (execute : ExecuteIntentV2) (refreshed : AuthorizedPeer) : CapabilityTokenV2 :=
  issue (ar_token_id a) (cf_signing_key cf) (broker_instance_id cf) (broker_key_id cf) (of_principal_id (ei_facts execute))
    (ei_operation_id execute) (ei_facts execute) (ei_nonce execute) (process_bind_v2 refreshed) (ar_now a)
    (i64_saturating_sub (ei_expires_at_unix execute) (ar_now a)).

Definition execution_of (a : Arrival) (execute : ExecuteIntentV2) (refreshed : AuthorizedPeer) (image : string) : Execution :=
  {| xn_request := into_unprepared_request execute <| rq_capability := Some (minted a execute refreshed) |>;
     xn_peer := process_bind_v2 refreshed; xn_image := image; xn_now := ar_now a |}.

Lemma prepare_authentic a execute accepted refreshed image :
  authentic a execute accepted refreshed image -> validate_capability_shape (minted a execute refreshed) = Ok tt ->
  prepare cf a = (Ok (ExecVerified (execution_of a execute refreshed image)), Some image).
Proof.
  intros [Ac (bytes & F & Pa) M R V St T] C. unfold prepare. rewrite Ac. cbn [rbind]. rewrite F. cbn [rbind]. rewrite Pa.
  cbn [map_err rbind]. unfold prepare_execution. rewrite M. cbn [map_err rbind]. rewrite R. cbn [rbind]. rewrite V. cbn [rbind].
  rewrite St. cbn [rbind]. f_equal.
  pose proof (minted_verifies (ar_token_id a) (into_unprepared_request execute) (process_bind_v2 refreshed) (ar_now a)) as K.
  cbn zeta in K. apply message_auth_parts in M as [S _].
  rewrite K; [done | | lia | cbn; lia | exact C]. eapply shape_later; [exact S |]. cbn. lia.
Qed.

(** The entry of a served request, from its reservation to its completion. *)
Definition lifecycle (digest : string) (x now : Z) : list LedgerEntry :=
  let e := new_entry digest x now in
  [e; advance e SpawnedUncertain; advance (advance e SpawnedUncertain) Completed].

(** A ledger with room for the nonce. *)
Record ready (l : ReplayLedger) (n digest : string) (x now : Z) : Prop := {
  rd_available : rl_failed_closed l = false;
  rd_valid : validate_reservation n digest x now = Ok tt;
  rd_fresh : pruned now (rl_entries l) !! n = None;
  rd_room : Z.of_nat (size (pruned now (rl_entries l))) < rl_max_entries l;
  rd_pruned : str_len (encoded (pruned now (rl_entries l))) <= MAX_LEDGER_BYTES;
  rd_size : Forall (fun e => str_len (encoded (<[n := e]> (pruned now (rl_entries l)))) <= MAX_LEDGER_BYTES)
              (lifecycle digest x now)
}.

(** The three uses of the ledger. *)
Lemma ledger_served l n digest x now :
  ready l n digest x now ->
  exists l1 l2 l3,
    reserve (None, None) n digest x now l = (Ok tt, l1) /\ mark_spawned None n digest None l1 = (Ok tt, l2)
    /\ mark_completed None n digest l2 = (Ok tt, l3)
    /\ exists e, rl_entries l3 !! n = Some e /\ le_state e = Completed.
Proof.
  intros [A V F Ro L Si]. unfold lifecycle in Si. rewrite !Forall_cons in Si. destruct Si as (S0 & S1 & S2 & _).
  do 3 eexists. split; [by apply reserve_served |]. split.
  { apply mark_spawned_served; [done | apply lookup_insert_eq | done | done |]. cbn [with_entries rl_entries update].
    by rewrite insert_insert_eq. }
  split.
  { apply mark_completed_served; [done | apply lookup_insert_eq | done | done |]. cbn [with_entries rl_entries update].
    by rewrite !insert_insert_eq. }
  eexists. split; [apply lookup_insert_eq | done].
Qed.

Definition calm (outcome : result unit string) (view : PeerView) : StepEnv :=
  {| se_faults := (None, None); se_now := 0; se_refreshed := view; se_started := true; se_outcome := outcome;
     se_hangup := false |}.

(** One step of the task of [conn]. *)
Lemma run_conn conn e t rest b s :
  bk_up b = Some s -> sv_tasks s !! conn = Some t ->
  run cf (Step conn e :: rest) b = run cf rest (take_step cf conn e t s b).
Proof. intros U T. cbn [run]. f_equal. unfold step. by rewrite U, T. Qed.

(** A verified execution whose ledger writes succeed, from its reservation to the answer. *)
Lemma execution_runs conn x s b l1 l2 l3 outcome view :
  let n := rq_nonce (xn_request x) in
  bk_up b = Some s -> sv_tasks s !! conn = Some (ExecVerified x) ->
  reserve (None, None) n (exec_digest x) (rq_expires_at_unix (xn_request x)) (xn_now x) (sv_ledger s) = (Ok tt, l1) ->
  mark_spawned None n (exec_digest x) None l1 = (Ok tt, l2) ->
  mark_completed None n (exec_digest x) l2 = (Ok tt, l3) ->
  let b' := run cf (repeat (Step conn (calm outcome view)) 6) b in
  bk_effects b' = Spawn x :: bk_effects b /\ bk_replies b' = (conn, outcome) :: bk_replies b
  /\ bk_staged b' = delete conn (bk_staged b)
  /\ exists s', bk_up b' = Some s' /\ sv_tasks s' = delete conn (sv_tasks s) /\ sv_ledger s' = l3.
Proof.
  cbn zeta. intros U T R1 R2 R3. cbn [repeat].
  erewrite run_conn; [|exact U | exact T]. unfold take_step, step_task. cbn [calm se_faults].
  rewrite R1. cbn -[run].
  do 5 (erewrite run_conn; [|reflexivity | cbn; apply lookup_insert_eq]; unfold take_step, step_task; cbn -[run];
      rewrite ?R2, ?R3; cbn -[run]).
  split_and!; try done. eexists. split_and!; [done | | done]. cbn. by rewrite !insert_insert_eq, delete_insert_eq.
Qed.

(** C9: an authentic request is served.  Let a trusted daemon send an authentic request within
    its lifetime to a running broker with a free connection slot, for the pinned executable
    and with a nonce that is not in the ledger; let the ledger be available, not failed
    closed and have room; and let the connection's task take its six steps with nothing in
    between, the connection staying open, its writes succeeding and the runner starting.  Then the handler hands the
    staged image to the runner once, records the completion and answers with the outcome;
    the private copy is removed and the connection's task ends. *)
Theorem request_served conn a s b execute accepted refreshed image outcome view :
  bk_up b = Some s -> sv_tasks s !! conn = None -> bk_staged b !! conn = None ->
  Z.of_nat (size (sv_tasks s)) < MAX_CONNECTIONS ->
  authentic a execute accepted refreshed image -> validate_capability_shape (minted a execute refreshed) = Ok tt ->
  ready (sv_ledger s) (ei_nonce execute) (operation_facts_digest (ei_facts execute)) (ei_expires_at_unix execute) (ar_now a) ->
  let b' := run cf (Connect conn a :: repeat (Step conn (calm outcome view)) 6) b in
  bk_effects b' = Spawn (execution_of a execute refreshed image) :: bk_effects b
  /\ bk_replies b' = (conn, outcome) :: bk_replies b
  /\ bk_staged b' = bk_staged b
  /\ exists s' e, bk_up b' = Some s' /\ sv_tasks s' = sv_tasks s
     /\ rl_entries (sv_ledger s') !! ei_nonce execute = Some e /\ le_state e = Completed.
Proof.
  intros U T St Sz A C R b'. pose proof (prepare_authentic _ _ _ _ _ A C) as P.
  set (x := execution_of a execute refreshed image) in *.
  destruct (ledger_served _ _ _ _ _ R) as (l1 & l2 & l3 & R1 & R2 & R3 & e & E & Se).
  assert (run cf (Connect conn a :: repeat (Step conn (calm outcome view)) 6) b
          = run cf (repeat (Step conn (calm outcome view)) 6) (b <| bk_staged := <[conn := image]> (bk_staged b) |>
              <| bk_up := Some (s <| sv_tasks := <[conn := ExecVerified x]> (sv_tasks s) |>) |>)) as S0.
  { cbn [run]. f_equal. unfold step. rewrite U, T, St. unfold connect. rewrite (proj2 (Z.leb_gt _ _)) by done. by rewrite P. }
  unfold b'. rewrite S0.
  destruct (execution_runs conn x (s <| sv_tasks := <[conn := ExecVerified x]> (sv_tasks s) |>)
              (b <| bk_staged := <[conn := image]> (bk_staged b) |>
                 <| bk_up := Some (s <| sv_tasks := <[conn := ExecVerified x]> (sv_tasks s) |>) |>) l1 l2 l3 outcome view)
    as (Q1 & Q2 & Q3 & s' & Q4 & Q5 & Q6); [done | apply lookup_insert_eq | done | done | done |].
  split_and!; [exact Q1 | exact Q2 | rewrite Q3; by apply delete_insert_id |].
  exists s', e. split_and!; [exact Q4 | rewrite Q5; by apply delete_insert_id | by rewrite Q6 | done].
Qed.
End live.
