(* ===== verification/BrokerSample.v ===== *)
(** * The broker on concrete inputs

    A codec for the ledger file and stand-ins for HMAC and Ed25519, with which the broker
    runs: an execution, its cancellation, a refused cancellation, and two connections that
    race on one message.  The theorems of the broker are applied to these runs. *)

From stdpp Require Import base list strings gmap sorting.
From Stdlib Require Import ZArith Lia Ascii.
From S2P Require Import Prelude RustStr RustBytes RustPath Transfer TransferPlain Items.
From S2P Require Import BrokerLedger BrokerWire BrokerServe BrokerRun BrokerAuth BrokerFence BrokerReopen BrokerLive.

Open Scope Z_scope.

(** ** The ledger file *)

Definition state_item (s : ReplayState) : item :=
  inl match s with ReservedPreSpawn => 0 | SpawnedUncertain => 1 | Completed => 2 | AbortedBeforeSpawn => 3 end.

Definition item_state (i : item) : option ReplayState :=
  match i with
  | inl 0 => Some ReservedPreSpawn | inl 1 => Some SpawnedUncertain
  | inl 2 => Some Completed | inl 3 => Some AbortedBeforeSpawn | _ => None
  end.

Lemma item_state_item s : item_state (state_item s) = Some s.
Proof. by destruct s. Qed.

Definition option_item (o : option Z) : list item := match o with Some z => [inl 1; inl z] | None => [inl 0; inl 0] end.

Definition item_option (present value : item) : option (option Z) :=
  match present, value with inl 1, inl z => Some (Some z) | inl 0, inl 0 => Some None | _, _ => None end.

Definition entry_items (kv : string * LedgerEntry) : list item :=
  let e := snd kv in
  [inr (fst kv); inr (le_digest e); inl (le_reserved_at_unix e); inl (le_expires_at_unix e);
   inl (Z.of_N (le_transition_seq e)); state_item (le_state e)]
  ++ option_item (le_process_pid e) ++ option_item (le_process_birth_id e)
  ++ match le_result_digest e with Some d => [inl 1; inr d] | None => [inl 0; inr ""] end
  ++ match le_reconciliation e with
     | Some r => [inl 1; inr (rr_actor r); inl (rr_at_unix r); state_item (rr_prior_state r); state_item (rr_new_state r)]
     | None => [inl 0; inr ""; inl 0; inl 0; inl 0]
     end.

Fixpoint items_entries (l : list item) : option (list (string * LedgerEntry)) :=
  match l with
  | [] => Some []
  | inr n :: inr d :: inl r :: inl x :: inl q :: s :: p :: pv :: b :: bv :: inl g :: inr gv
      :: inl c :: inr ca :: inl ct :: cp :: cn :: rest =>
      state ← item_state s; pid ← item_option p pv; birth ← item_option b bv;
      prior ← item_state cp; new ← item_state cn; entries ← items_entries rest;
      Some ((n, {| le_digest := d; le_reserved_at_unix := r; le_expires_at_unix := x; le_transition_seq := Z.to_N q;
                   le_state := state; le_process_pid := pid; le_process_birth_id := birth;
                   le_result_digest := if g =? 1 then Some gv else None;
                   le_reconciliation :=
                     if c =? 1 then Some {| rr_actor := ca; rr_at_unix := ct; rr_prior_state := prior; rr_new_state := new |}
                     else None |}) :: entries)
  | _ => None
  end.

Lemma items_entry_items kv l : items_entries (entry_items kv ++ l) = (fun r => kv :: r) <$> items_entries l.
Proof.
  destruct kv as [n [d r x q s p b g c]]. cbn -[item_state state_item item_option].
  destruct p, b, g, c as [[]|]; cbn -[item_state state_item]; rewrite ?item_state_item; cbn; rewrite N2Z.id;
    by destruct (items_entries l).
Qed.

Lemma items_entries_items l : items_entries (l ≫= entry_items) = Some l.
Proof. induction l as [|kv l IH]; [done |]. rewrite bind_cons, items_entry_items, IH. done. Qed.

Definition file_text (f : LedgerFile) : string :=
  write_items (inl (lf_version f) :: (map_to_list (lf_entries f) ≫= entry_items)).

Definition text_version (s : string) : option Z :=
  match text_items s with Some (inl v :: _) => Some v | _ => None end.

Definition text_file (s : string) : result LedgerFile string :=
  match text_items s with
  | Some (inl v :: l) =>
      match items_entries l with
      | Some entries => Ok {| lf_version := v; lf_entries := list_to_map entries |}
      | None => Err "entries"
      end
  | _ => Err "version"
  end.

Lemma text_items_file f : text_items (file_text f) = Some (inl (lf_version f) :: (map_to_list (lf_entries f) ≫= entry_items)).
Proof. apply text_items_write. Qed.

Lemma text_version_file f : text_version (file_text f) = Some (lf_version f).
Proof. unfold text_version. by rewrite text_items_file. Qed.

Lemma text_file_text f : text_file (file_text f) = Ok f.
Proof. unfold text_file. rewrite text_items_file, items_entries_items, list_to_map_to_list. by destruct f. Qed.

#[export] Instance items_ledger : LedgerCodec := {|
  ledger_to_vec := file_text; json_version := text_version; ledger_from_slice := text_file;
  legacy_from_slice _ := Err "legacy";
  ledger_version_to_vec := text_version_file; ledger_from_to_vec := text_file_text
|}.

(** ** Keys and messages *)

Definition sample_secret : string := "k".

Definition sample_hmac (secret data : string) : string := rolling_sha256 (secret +:+ data).

Definition sample_sign (key message : string) : string := to_be_bytes 64 (rolling 7 (key +:+ message)).

Definition sample_facts : OperationFactsV2 :=
  {| of_operation := "op"; of_remote_payload_sha256 := plain_hex (rolling_sha256 "q"); of_principal_id := "p";
     of_tenant_id := "t"; of_principal_credential_generation := 1; of_timeout_ms := 1; of_max_output_bytes := 1;
     of_device_id := "d"; of_workspace_id := "w"; of_argv := ["/x"]; of_canonical_cwd := None; of_sanitized_env := ∅;
     of_executable := {| ex_canonical_path := "/x"; ex_image_sha256 := plain_hex (rolling_sha256 "i"); ex_image_len := 1 |} |}.

Definition sample_request (nonce : string) (expires : Z) : BrokerRequestV2 :=
  {| rq_protocol_version := 2; rq_request_id := "r"; rq_operation_id := "op"; rq_nonce := nonce; rq_issued_at_unix := 10;
     rq_expires_at_unix := expires; rq_facts := sample_facts; rq_capability := None; rq_mac := "" |}.

Definition sample_execute (nonce : string) (expires : Z) : ExecuteIntentV2 :=
  {| ei_protocol_version := 2; ei_request_id := "r"; ei_operation_id := "op"; ei_nonce := nonce; ei_issued_at_unix := 10;
     ei_expires_at_unix := expires; ei_facts := sample_facts;
     ei_mac := plain_hex (sample_hmac sample_secret (canonical_request_v2_bytes (sample_request nonce expires))) |}.

Definition unsigned_cancel : CancelIntentV2 :=
  {| ci_protocol_version := 2; ci_request_id := "c"; ci_operation_id := "op"; ci_nonce := "c"; ci_issued_at_unix := 10;
     ci_expires_at_unix := 20; ci_target_request_id := "r"; ci_target_operation_id := "op"; ci_target_nonce := "m";
     ci_target_facts_digest := operation_facts_digest sample_facts; ci_mac := "" |}.

Definition sample_cancel : CancelIntentV2 :=
  {| ci_protocol_version := 2; ci_request_id := "c"; ci_operation_id := "op"; ci_nonce := "c"; ci_issued_at_unix := 10;
     ci_expires_at_unix := 20; ci_target_request_id := "r"; ci_target_operation_id := "op"; ci_target_nonce := "m";
     ci_target_facts_digest := operation_facts_digest sample_facts;
     ci_mac := plain_hex (sample_hmac sample_secret (canonical_cancel_intent_v2_bytes unsigned_cancel)) |}.

(** The request [n] expires at 10, the request [m] at 20; [c] cancels [m]. *)
Definition sample_intent (text : string) : result BrokerWireIntentV2 string :=
  if String.eqb text "n" then Ok (Execute (sample_execute "n" 10))
  else if String.eqb text "m" then Ok (Execute (sample_execute "m" 20))
  else if String.eqb text "c" then Ok (Cancel sample_cancel)
  else Err "text".

Lemma sample_sign_len k m : str_len (sample_sign k m) = 64.
Proof. apply (to_be_bytes_len 64). Qed.

#[export] Instance sample_keys : BrokerKeys := {|
  SigningKey := string; VerifyingKey := string; verifying_key k := k; verifying_key_bytes k := k;
  ed25519_sign := sample_sign; ed25519_verifies k m s := String.eqb (sample_sign k m) s; hmac_sha256 := sample_hmac;
  intent_from_slice := sample_intent;
  ed25519_sign_len := sample_sign_len; ed25519_sign_verifies k m := String.eqb_refl _
|}.

Definition sample_config : Config :=
  {| cf_secret := sample_secret; cf_signing_key := "s"; cf_socket_path := "/b";
     cf_policy := {| tp_trusted_executable := "/d"; tp_allowed_uids := [0];
                     tp_trusted_file_id := Some {| fi_device := 1; fi_inode := 2 |} |} |}.

Definition sample_view : PeerView :=
  let file := {| fi_device := 1; fi_inode := 2 |} in
  {| pv_socket_pid := Ok 7; pv_socket_uid := 0; pv_socket_exe := Ok "/d"; pv_trusted_before := Ok file;
     pv_start_before := Ok 9; pv_file_before := Ok file; pv_exe := Ok "/d"; pv_uid := Ok 0; pv_exe_after := Ok "/d";
     pv_file_after := Ok file; pv_start_after := Ok 9; pv_trusted_after := Ok file |}.

Definition sample_peer : AuthorizedPeer :=
  {| ap_peer := {| pr_pid := 7; pr_uid := 0; pr_exe_path := "/d" |}; ap_process_start_time := 9;
     ap_image_identity := "dev=1;ino=2" |}.

Definition sample_source : SourceView :=
  let file := {| fi_device := 3; fi_inode := 4 |} in
  {| sv_is_file := true; sv_identity_before := file; sv_len_before := 1; sv_reads := [Ok "i"]; sv_identity_after := file;
     sv_len_after := 1; sv_created := Ok tt; sv_written := Ok tt; sv_staged_custody := true |}.

Definition sample_arrival (text : string) (now : Z) : Arrival :=
  {| ar_accepted := sample_view; ar_stream := text +:+ String (byte_of 10) ""; ar_refreshed := sample_view; ar_auth_now := now;
     ar_now := now; ar_source := Ok sample_source; ar_token_id := "u" |}.

Definition sample_step (conn now : Z) : Event :=
  Step conn {| se_faults := (None, None); se_now := now; se_refreshed := sample_view; se_started := true; se_outcome := Ok tt;
                se_hangup := false |}.

(** The connection is closed while its execution runs. *)
Definition hung_up : StepEnv :=
  {| se_faults := (None, None); se_now := 10; se_refreshed := sample_view; se_started := true; se_outcome := Ok tt;
     se_hangup := true |}.

Definition empty_disk : LedgerDisk := {| ld_file := None; ld_durable := None |}.

Definition sample_execution (nonce : string) (expires : Z) : Execution :=
  execution_of sample_config (sample_arrival nonce 10) (sample_execute nonce expires) sample_peer "i".

(** ** Runs *)

Definition started : list Event := [Start (Ok tt) (Ok tt) None].

Definition executed (conn : Z) (text : string) (now : Z) : list Event :=
  Connect conn (sample_arrival text now) :: repeat (sample_step conn now) 6.

(** The request [m] runs and is cancelled by its own daemon. *)
Definition cancelled : list Event :=
  started ++ Connect 1 (sample_arrival "m" 10) :: repeat (sample_step 1 10) 3
  ++ Connect 2 (sample_arrival "c" 10) :: repeat (sample_step 2 10) 3.

(** The cancellation arrives when nothing runs. *)
Definition refused : list Event :=
  started ++ [Connect 2 (sample_arrival "c" 10); sample_step 2 10; sample_step 2 10].

(** The message [n] is executed; a second connection verifies it in its last second and
    waits; a third one reserves [m] a second later; the second one goes on. *)
Definition raced : list Event :=
  started ++ executed 1 "n" 10 ++ Connect 2 (sample_arrival "n" 10) :: executed 3 "m" 11 ++ repeat (sample_step 2 11) 6.

(** ** The theorems on these runs *)

Lemma elevated_once_witness :
  let b := run sample_config (started ++ executed 1 "n" 10) (installed empty_disk) in
  spawned (bk_effects b) = [("n", 10)] /\ NoDup (spawned (bk_effects b))
  /\ on_record "n" 10 (ld_durable (ledger_disk b)).
Proof.
  intros b. assert (bk_times b = [10]) as T by (vm_compute; reflexivity).
  assert (spawned (bk_effects b) = [("n", 10)]) as S by (vm_compute; reflexivity).
  pose proof (elevated_once sample_config (started ++ executed 1 "n" 10) empty_disk) as H. cbn zeta in H. fold b in H.
  destruct H as [N R]; [rewrite T; repeat constructor |]. split; [exact S |]. split; [exact N |]. apply R.
  - rewrite S. constructor.
  - intros t. unfold clock. rewrite T. cbn. intros [= <-]. lia.
Defined.

Lemma spawn_authorized_witness :
  bk_effects (run sample_config (started ++ executed 1 "n" 10) (installed empty_disk)) = [Spawn (sample_execution "n" 10)]
  /\ authorized sample_config (sample_execution "n" 10).
Proof.
  assert (bk_effects (run sample_config (started ++ executed 1 "n" 10) (installed empty_disk))
          = [Spawn (sample_execution "n" 10)]) as E by (vm_compute; reflexivity).
  split; [exact E |]. apply (spawn_authorized sample_config (started ++ executed 1 "n" 10) empty_disk).
  rewrite E. constructor.
Defined.

Definition sample_cancellation : Cancellation := {| cn_cancel := sample_cancel; cn_accepted := sample_peer |}.

Definition serving (b : Broker) : Serving :=
  default {| sv_ledger := {| rl_max_entries := 0; rl_entries := ∅; rl_failed_closed := true; rl_disk := empty_disk |};
             sv_active := ∅; sv_tasks := ∅ |} (bk_up b).

Lemma serving_up b : is_some (bk_up b) = true -> bk_up b = Some (serving b).
Proof. unfold serving. by destruct (bk_up b). Qed.

(** The request runs, its daemon cancels it, and hangs up. *)
Lemma cancel_fenced_witness :
  let b := run sample_config cancelled (installed empty_disk) in
  bk_effects b = [Signal (sample_execution "m" 20) (Cancelled sample_cancellation); Spawn (sample_execution "m" 20)]
  /\ (exists before ev after, cancelled = before ++ ev :: after
        /\ signal_due sample_config (run sample_config before (installed empty_disk)) ev (sample_execution "m" 20)
             (Cancelled sample_cancellation))
  /\ bk_effects (step sample_config (Step 1 hung_up) b) = Signal (sample_execution "m" 20) HungUp :: bk_effects b.
Proof.
  intros b.
  assert (bk_effects b = [Signal (sample_execution "m" 20) (Cancelled sample_cancellation); Spawn (sample_execution "m" 20)]) as E
    by (vm_compute; reflexivity).
  destruct (cancel_fenced sample_config cancelled empty_disk) as [S H]. fold b in S, H. split; [exact E |]. split.
  - apply S. rewrite E. constructor.
  - apply (H (serving b)); [apply serving_up; vm_compute; reflexivity | vm_compute; reflexivity | reflexivity].
Defined.

Lemma request_mac_binds_witness :
  let r := into_unprepared_request (sample_execute "n" 10) in
  r <| rq_mac := "" |> = sample_request "n" 10 <| rq_mac := "" |>.
Proof.
  apply (request_mac_binds _ _ 10 10); vm_compute; intuition (congruence || reflexivity).
Defined.

Lemma ledger_reopens_witness :
  let l := sv_ledger (serving (run sample_config (started ++ executed 1 "n" 10) (installed empty_disk))) in
  rl_entries l !! "n" <> None /\ open_ledger (Ok tt) (Ok tt) None MAX_LEDGER_ENTRIES (rl_disk l) = (Ok l, rl_disk l).
Proof.
  intros l. split; [vm_compute; discriminate |].
  apply (ledger_reopens sample_config (started ++ executed 1 "n" 10) empty_disk (serving (run sample_config (started ++ executed 1 "n" 10) (installed empty_disk)))).
  - apply serving_up. vm_compute. reflexivity.
  - assert (bk_times (run sample_config (started ++ executed 1 "n" 10) (installed empty_disk)) = [10]) as T by (vm_compute; reflexivity). rewrite T.
    repeat constructor. unfold i64_min. lia.
  - vm_compute. reflexivity.
Defined.

Lemma refused_abandoned : abandoned "c" (run sample_config refused (installed empty_disk)).
Proof.
  set (l := sv_ledger (serving (run sample_config refused (installed empty_disk)))).
  assert (exists e, rl_entries l !! "c" = Some e /\ le_state e = ReservedPreSpawn) as (e & E & R)
    by (eexists; split; [vm_compute; reflexivity | reflexivity]).
  exists e. split; [exact R |]. rewrite (serving_up (run sample_config refused (installed empty_disk))) by (vm_compute; reflexivity). split.
  - split; [exact E |]. split.
    + change (file_holds MAX_LEDGER_ENTRIES (fun m => m !! "c" = Some e) (ld_file (rl_disk l))).
      replace (ld_file (rl_disk l)) with (Some (encoded (rl_entries l))) by (vm_compute; reflexivity). by apply file_holds_encoded.
    + change (file_holds MAX_LEDGER_ENTRIES (fun m => m !! "c" = Some e) (ld_durable (rl_disk l))).
      replace (ld_durable (rl_disk l)) with (Some (encoded (rl_entries l))) by (vm_compute; reflexivity). by apply file_holds_encoded.
  - replace (sv_tasks (serving (run sample_config refused (installed empty_disk)))) with (∅ : gmap Z Task) by (vm_compute; reflexivity). apply map_Forall_empty.
Qed.

Lemma abandoned_forever_witness :
  abandoned "c" (run sample_config ([Crash true] ++ started ++ executed 3 "m" 11) (run sample_config refused (installed empty_disk))).
Proof. apply (abandoned_forever sample_config), refused_abandoned. Defined.

Lemma request_served_witness :
  let b := run sample_config started (installed empty_disk) in
  let b' := run sample_config (Connect 1 (sample_arrival "n" 10) :: repeat (Step 1 (calm (Ok tt) sample_view)) 6) b in
  bk_effects b' = [Spawn (sample_execution "n" 10)] /\ bk_replies b' = [(1, Ok tt)] /\ bk_staged b' = ∅.
Proof.
  intros b. set (s := serving b). destruct (request_served sample_config 1 (sample_arrival "n" 10) s b (sample_execute "n" 10)
    sample_peer sample_peer "i" (Ok tt) sample_view) as (E & R & S & _);
    [apply serving_up; vm_compute; reflexivity | vm_compute; reflexivity.. | | vm_compute; reflexivity | |].
  - constructor; try (vm_compute; reflexivity); [exists "n"; split; vm_compute; reflexivity |].
    cbn. unfold i64_max. lia.
  - constructor; [vm_compute; reflexivity.. | vm_compute; discriminate |].
    unfold lifecycle. repeat constructor; vm_compute; discriminate.
  - split_and!; [exact E | exact R | exact S].
Defined.

(** A request can be executed twice when its time is read early.  The handler of an
    execution reads the clock before it takes the lock of the ledger.  If the message [n]
    was executed, a second connection has verified it in its last second, and another
    connection's reservation of the next second prunes the completed entry, then the
    second connection reserves the same nonce again and the same message is spawned
    twice, by a broker that never restarted and whose writes all succeeded. *)
Theorem late_reservation_replays :
  let b := run sample_config raced (installed empty_disk) in
  spawned (bk_effects b) = [("n", 10); ("m", 20); ("n", 10)]
  /\ bk_replies b = [(2, Ok tt); (3, Ok tt); (1, Ok tt)] /\ bk_times b = [10; 11; 10].
Proof. vm_compute. auto. Qed.
