(* ===== verification/SupervisorSpool.v ===== *)
(** * Output of a hosted process

    From the child to the daemon: the ring a reader thread fills
    ([crates/ownmesh-session-host/src/pty_host.rs], [ByteRing]), the spool file it is drained
    into and the pages read from it ([supervisor_spool.rs], [OwnerSpool]).  A file is its
    bytes; reading or replacing it may fail, the latter before or after the replacement. *)

From stdpp Require Import base list strings.
From Stdlib Require Import ZArith Lia Ascii.
From S2P Require Import Prelude RustStr RustBytes.

Open Scope Z_scope.

Definition LIVE_OUTPUT_RING_BYTES : Z := 1024 * 1024.
Definition SUPERVISOR_SPOOL_MAX_BYTES : Z := 1024 * 1024.
Definition SPOOL_HEADER_BYTES : Z := 16.
Definition SPOOL_MAGIC : string := "OMSP001" +:+ String (byte_of 0) "".

(** ** The ring *)

Record ByteRing : Type := {
  rg_buf : string;
  rg_bytes : Z;
  rg_truncated : bool;
  rg_exited : bool;
  rg_sealed : bool
}.

#[export] Instance ByteRing_eta : Eta ByteRing := fun r =>
  {| rg_buf := rg_buf r; rg_bytes := rg_bytes r; rg_truncated := rg_truncated r; rg_exited := rg_exited r;
     rg_sealed := rg_sealed r |}.

Definition new_ring : ByteRing :=
  {| rg_buf := ""; rg_bytes := 0; rg_truncated := false; rg_exited := false; rg_sealed := false |}.

Definition usize_saturating_add (a b : Z) : Z := Z.min (a + b) u64_max.
Definition usize_saturating_sub (a b : Z) : Z := Z.max 0 (a - b).

(** [while self.bytes > LIVE_OUTPUT_RING_BYTES { pop_front }]. *)
Fixpoint pop_excess (buf : string) (bytes : Z) (truncated : bool) : string * Z * bool :=
  if LIVE_OUTPUT_RING_BYTES <? bytes then
    match buf with
    | EmptyString => (buf, bytes, truncated)
    | String _ rest => pop_excess rest (usize_saturating_sub bytes 1) true
    end
  else (buf, bytes, truncated).

Definition push (chunk : string) (r : ByteRing) : ByteRing :=
  if is_empty chunk then r
  else if rg_sealed r then r <| rg_truncated := true |>
  else
    let '(buf, bytes, truncated) :=
      pop_excess (rg_buf r +:+ chunk) (usize_saturating_add (rg_bytes r) (str_len chunk)) (rg_truncated r) in
    r <| rg_buf := buf |> <| rg_bytes := bytes |> <| rg_truncated := truncated |>.

(** The bytes, whether the ring had dropped some, and the ring without them. *)
Definition drain (max_bytes : Z) (r : ByteRing) : string * bool * ByteRing :=
  let n := Z.min max_bytes (rg_bytes r) in
  let out := take n (rg_buf r) in
  let bytes := usize_saturating_sub (rg_bytes r) (str_len out) in
  (out, rg_truncated r,
   r <| rg_buf := drop n (rg_buf r) |> <| rg_bytes := bytes |>
     <| rg_truncated := if bytes =? 0 then false else rg_truncated r |>).

(** [StreamEofGuard], and the end of a PTY. *)
Definition publish_eof (r : ByteRing) : ByteRing := r <| rg_exited := true |>.

(** [seal_streams], on one ring. *)
Definition seal_stream (r : ByteRing) : ByteRing :=
  let r := if rg_exited r then r else r <| rg_truncated := true |> in
  r <| rg_sealed := true |> <| rg_exited := true |>.

(** ** The file *)

(** How a call of the owner-only file primitives ends; a replacement may also fail after
    it is visible. *)
Inductive Io : Type := IoOk | IoEarly | IoLate.

Definition encode_spool (base_offset : Z) (payload : string) : string :=
  SPOOL_MAGIC +:+ to_le_bytes 8 base_offset +:+ payload.

Definition decode_spool (bytes : string) : result (Z * string) string :=
  guard_err ((str_len bytes <? SPOOL_HEADER_BYTES) || negb (String.eqb (take 8 bytes) SPOOL_MAGIC))
    "supervisor spool header is corrupt" ;?
  guard_err (SUPERVISOR_SPOOL_MAX_BYTES + SPOOL_HEADER_BYTES <? str_len bytes)
    "supervisor spool exceeds retained byte budget" ;?
  Ok (from_le_bytes (slice 8 SPOOL_HEADER_BYTES bytes), drop SPOOL_HEADER_BYTES bytes).

(** [read_owner_only_file_bounded]. *)
Definition read_bounded (io : Io) (max_bytes : Z) (file : option string) : result string string :=
  match io, file with
  | IoOk, Some bytes => guard_err (max_bytes <? str_len bytes) "owner-only file exceeds byte budget" ;? Ok bytes
  | _, _ => Err "owner-only file"
  end.

(** [atomic_write_owner_only]. *)
Definition replace_file (io : Io) (bytes : string) (file : option string) : result unit string * option string :=
  match io with
  | IoOk => (Ok tt, Some bytes)
  | IoEarly => (Err "owner-only write", file)
  | IoLate => (Err "owner-only write", Some bytes)
  end.

Definition read_state (io : Io) (file : option string) : result (Z * string) string :=
  let? bytes := map_err (fun e => "read supervisor spool: " +:+ e)
                  (read_bounded io (SUPERVISOR_SPOOL_MAX_BYTES + SPOOL_HEADER_BYTES) file) in
  decode_spool bytes.

Definition append (read write : Io) (bytes : string) (file : option string) : result unit string * option string :=
  match (guard_err (SUPERVISOR_SPOOL_MAX_BYTES <? str_len bytes) "supervisor output chunk exceeds spool budget" ;?
         let? state := read_state read file in
         let '(base, retained) := state in
         let drop_count := usize_saturating_sub (usize_saturating_add (str_len retained) (str_len bytes)) SUPERVISOR_SPOOL_MAX_BYTES in
         let? next_base := ok_or (u64_checked_add base drop_count) "supervisor offset overflow" in
         Ok (encode_spool next_base (drop drop_count retained +:+ bytes))) with
  | Err e => (Err e, file)
  | Ok next =>
      let '(r, file) := replace_file write next file in
      (map_err (fun e => "write supervisor spool: " +:+ e) r, file)
  end.

Record SpoolPage : Type := {
  sp_bytes : string;
  sp_next_offset : option Z;
  sp_total_bytes : Z;
  sp_page_truncated : bool
}.

#[export] Instance SpoolPage_eta : Eta SpoolPage := fun p =>
  {| sp_bytes := sp_bytes p; sp_next_offset := sp_next_offset p; sp_total_bytes := sp_total_bytes p;
     sp_page_truncated := sp_page_truncated p |}.

Definition read_page (io : Io) (offset max_bytes : Z) (file : option string) : result SpoolPage string :=
  guard_err ((max_bytes =? 0) || (SUPERVISOR_SPOOL_MAX_BYTES <? max_bytes)) "invalid supervisor spool page budget" ;?
  let? state := read_state io file in
  let '(base, retained) := state in
  let? tail := ok_or (u64_checked_add base (str_len retained)) "supervisor offset overflow" in
  if offset <? base then
    Ok {| sp_bytes := ""; sp_next_offset := Some base; sp_total_bytes := tail; sp_page_truncated := true |}
  else
    guard_err (tail <? offset) "supervisor spool cursor is beyond tail" ;?
    let start := offset - base in
    let end_ := Z.min (usize_saturating_add start max_bytes) (str_len retained) in
    let bytes := slice start end_ retained in
    let next := offset + str_len bytes in
    Ok {| sp_bytes := bytes; sp_next_offset := if next <? tail then Some next else None; sp_total_bytes := tail;
          sp_page_truncated := false |}.

(** What [SupervisorState::drain] does with one ring and its spool: drain, append, read a
    page.  [ios] are the outcomes of the read and the write of [append] and of the read of
    the page. *)
Definition drain_into (ios : Io * Io * Io) (offset max_bytes drain_max : Z) (ring : ByteRing) (file : option string)
  : result SpoolPage string * ByteRing * option string :=
  let '(r, w, p) := ios in
  let '(bytes, truncated, ring) := drain drain_max ring in
  match (if is_empty bytes then (Ok tt, file) else append r w bytes file) with
  | (Err e, file) => (Err e, ring, file)
  | (Ok _, file) =>
      (let? page := read_page p offset max_bytes file in
       Ok (page <| sp_page_truncated := sp_page_truncated page || truncated |>), ring, file)
  end.

(** ** One stream in time *)

(** The stream, all the child wrote to it, the pages handed out with their offsets, and
    whether a drain has failed. *)
Record Output : Type := {
  ou_ring : ByteRing;
  ou_file : option string;
  ou_written : string;
  ou_pages : list (Z * SpoolPage);
  ou_failed : bool
}.

#[export] Instance Output_eta : Eta Output := fun o =>
  {| ou_ring := ou_ring o; ou_file := ou_file o; ou_written := ou_written o; ou_pages := ou_pages o;
     ou_failed := ou_failed o |}.

(** The buffer of a reader thread. *)
Definition READER_BUFFER_BYTES : Z := 8192.

Inductive OutputEvent : Type :=
| ReaderRead (chunk : string)
| ReaderEof
| Sealed
| Drained (ios : Io * Io * Io) (offset max_bytes : Z).

Definition output_step (ev : OutputEvent) (o : Output) : Output :=
  match ev with
  | ReaderRead chunk =>
      if READER_BUFFER_BYTES <? str_len chunk then o
      else o <| ou_ring := push chunk (ou_ring o) |> <| ou_written := ou_written o +:+ chunk |>
  | ReaderEof => o <| ou_ring := publish_eof (ou_ring o) |>
  | Sealed => o <| ou_ring := seal_stream (ou_ring o) |>
  | Drained ios offset max_bytes =>
      let '(r, ring, file) := drain_into ios offset max_bytes (Z.max max_bytes 1) (ou_ring o) (ou_file o) in
      let o := o <| ou_ring := ring |> <| ou_file := file |> in
      match r with
      | Ok page => o <| ou_pages := (offset, page) :: ou_pages o |>
      | Err _ => o <| ou_failed := true |>
      end
  end.

Definition output_run (evs : list OutputEvent) (o : Output) : Output := fold_left (fun o ev => output_step ev o) evs o.

Definition fresh_output : Output :=
  {| ou_ring := new_ring; ou_file := Some (encode_spool 0 ""); ou_written := ""; ou_pages := []; ou_failed := false |}.

(** ** The file holds the end of the stream *)

Lemma magic_len : str_len SPOOL_MAGIC = 8.
Proof. reflexivity. Qed.

Lemma encode_len base payload : str_len (encode_spool base payload) = 16 + str_len payload.
Proof. unfold encode_spool. rewrite !str_len_app, magic_len, to_le_bytes_len. lia. Qed.

(** Round trip of the spool file. *)
Lemma decode_encode base payload :
  0 <= base <= u64_max -> str_len payload <= SUPERVISOR_SPOOL_MAX_BYTES ->
  decode_spool (encode_spool base payload) = Ok (base, payload).
Proof.
  intros B P. pose proof (str_len_nonneg payload). unfold decode_spool. rewrite encode_len.
  assert (take 8 (encode_spool base payload) = SPOOL_MAGIC) as -> by apply (take_app SPOOL_MAGIC).
  rewrite String.eqb_refl, (proj2 (Z.ltb_ge _ _)), (proj2 (Z.ltb_ge _ _)) by (unfold SPOOL_HEADER_BYTES in *; lia).
  cbn [orb negb guard_err rbind]. unfold slice.
  assert (drop 8 (encode_spool base payload) = to_le_bytes 8 base +:+ payload) as -> by apply (drop_app SPOOL_MAGIC).
  assert (drop 16 (encode_spool base payload) = payload) as D.
  { unfold encode_spool. rewrite str_app_assoc.
    replace 16 with (str_len (SPOOL_MAGIC +:+ to_le_bytes 8 base)) by (rewrite str_len_app, to_le_bytes_len; reflexivity).
    apply drop_app. }
  change SPOOL_HEADER_BYTES with 16. rewrite D. change (16 - 8) with (Z.of_nat 8).
  rewrite <- (to_le_bytes_len 8 base), take_app, from_to_le_bytes; [done |].
  unfold u64_max in B. change (256 ^ Z.of_nat 8) with 18446744073709551616. lia.
Qed.

Definition holds (stream : string) (file : option string) : Prop :=
  exists base, 0 <= base <= str_len stream /\ base <= u64_max
  /\ str_len stream - base <= SUPERVISOR_SPOOL_MAX_BYTES /\ file = Some (encode_spool base (drop base stream)).

Lemma holds_read stream file : holds stream file ->
  exists base, 0 <= base <= str_len stream /\ base <= u64_max /\ str_len stream - base <= SUPERVISOR_SPOOL_MAX_BYTES
  /\ read_state IoOk file = Ok (base, drop base stream).
Proof.
  intros (base & B & U & M & ->). exists base. split_and!; [lia..|]. unfold read_state, read_bounded.
  assert (str_len (drop base stream) <= SUPERVISOR_SPOOL_MAX_BYTES) as L by (rewrite drop_len; lia).
  rewrite encode_len, (proj2 (Z.ltb_ge _ _)) by (unfold SPOOL_HEADER_BYTES; lia). cbn [guard_err rbind map_err].
  apply decode_encode; [lia | done].
Qed.

Lemma read_state_holds io stream file base retained :
  holds stream file -> read_state io file = Ok (base, retained) ->
  0 <= base <= str_len stream /\ base <= u64_max /\ str_len stream - base <= SUPERVISOR_SPOOL_MAX_BYTES
  /\ retained = drop base stream.
Proof.
  intros H R. destruct io; [|done..]. destruct (holds_read _ _ H) as (b & B & U & M & E). rewrite R in E.
  injection E as -> ->. done.
Qed.

(** Appending extends the stream, or leaves it when it fails in time. *)
Lemma append_holds r w bytes stream file res file' :
  holds stream file -> append r w bytes file = (res, file') ->
  (holds (stream +:+ bytes) file' \/ (holds stream file' /\ is_ok res = false)).
Proof.
  intros H A. unfold append in A. destruct (guard_err _ _ ;? _) as [next|e] eqn:E; [|injection A as <- <-; by right].
  apply rbind_ok_inv in E as ([] & G & E). apply rbind_ok_inv in E as ([base retained] & R & E).
  apply rbind_ok_inv in E as (next_base & N & [= <-]). apply ok_or_ok in N.
  destruct (SUPERVISOR_SPOOL_MAX_BYTES <? str_len bytes) eqn:L; [done |]. bool_prop. clear G.
  destruct (read_state_holds _ _ _ _ _ H R) as (B & U & M & ->).
  pose proof (str_len_nonneg bytes). unfold u64_checked_add in N.
  set (n := usize_saturating_sub _ _) in *.
  assert (n = Z.max 0 (str_len stream - base + str_len bytes - SUPERVISOR_SPOOL_MAX_BYTES)) as En.
  { unfold n, usize_saturating_sub, usize_saturating_add. unfold SUPERVISOR_SPOOL_MAX_BYTES, u64_max in *. rewrite drop_len; lia. }
  destruct (_ <=? u64_max) eqn:O; [|done]. injection N as <-. bool_prop.
  assert (holds (stream +:+ bytes) (Some (encode_spool (base + n) (drop n (drop base stream) +:+ bytes)))) as H'.
  { exists (base + n). rewrite str_len_app. clearbody n. unfold SUPERVISOR_SPOOL_MAX_BYTES in *.
    split_and!; [lia..|]. do 2 f_equal. rewrite drop_drop by lia.
    destruct (Z.le_gt_cases (base + n) (str_len stream)) as [I|I].
    - rewrite <- (split_at_join (base + n) stream) at 2. rewrite <- str_app_assoc.
      assert (str_len (take (base + n) stream) = base + n) as T by (rewrite take_len; lia). rewrite <- T at 2. by rewrite drop_app.
    - exfalso. lia. }
  destruct w; cbn in A; injection A as <- <-; [by left | by right | by left].
Qed.

(** A page at an absolute offset of the stream. *)
Definition page_of (stream : string) (p : Z * SpoolPage) : Prop :=
  let '(offset, page) := p in
  sp_total_bytes page <= str_len stream
  /\ ((sp_bytes page = "" /\ sp_page_truncated page = true
       /\ exists base, sp_next_offset page = Some base /\ offset < base <= sp_total_bytes page)
      \/ (0 <= offset /\ offset + str_len (sp_bytes page) <= sp_total_bytes page
          /\ sp_bytes page = take (str_len (sp_bytes page)) (drop offset stream)
          /\ sp_next_offset page = (if offset + str_len (sp_bytes page) <? sp_total_bytes page
                                    then Some (offset + str_len (sp_bytes page)) else None))).

Lemma page_grow stream bytes p : page_of stream p -> page_of (stream +:+ bytes) p.
Proof.
  destruct p as [offset page]. intros [T H]. pose proof (str_len_nonneg bytes). split; [rewrite str_len_app; lia |].
  destruct H as [H|(O & L & B & N)]; [by left | right]. split_and!; [done..| |done].
  rewrite slice_grow; [done | done | apply str_len_nonneg | lia].
Qed.

Lemma read_page_of io offset max stream file page :
  holds stream file -> 0 <= max -> read_page io offset max file = Ok page ->
  page_of stream (offset, page) /\ sp_total_bytes page = str_len stream.
Proof.
  intros H Hm P. unfold read_page in P. apply rbind_ok_inv in P as ([] & _ & P).
  apply rbind_ok_inv in P as ([base retained] & R & P). apply rbind_ok_inv in P as (tail & T & P).
  destruct (read_state_holds _ _ _ _ _ H R) as (B & U & M & ->). apply ok_or_ok, u64_checked_add_Some in T as [-> Tu].
  rewrite drop_len in P, Tu by lia. replace (base + (str_len stream - base `min` str_len stream)) with (str_len stream) in * by lia.
  destruct (offset <? base) eqn:O; bool_prop.
  { injection P as <-. cbn. split; [|done]. split; [lia |]. left. split_and!; [done..|]. exists base. split; [done | lia]. }
  apply rbind_ok_inv in P as ([] & G & [= <-]). destruct (str_len stream <? offset) eqn:Q; [done |]. bool_prop. clear G.
  cbn -[Z.ltb]. split; [|done]. split; [cbn; lia |]. right. cbn -[Z.ltb].
  set (e := Z.min _ _). assert (0 <= e - (offset - base)) as E0.
  { unfold e, usize_saturating_add. unfold SUPERVISOR_SPOOL_MAX_BYTES, u64_max in *. lia. }
  assert (slice (offset - base) e (drop base stream) = take (e - (offset - base)) (drop offset stream)) as S.
  { unfold slice. rewrite drop_drop by lia. do 2 f_equal. lia. }
  rewrite S. set (n := e - (offset - base)) in *.
  assert (str_len (take n (drop offset stream)) = Z.min n (str_len stream - offset)) as L.
  { rewrite take_len, drop_len by lia. lia. }
  split_and!; [lia | lia | | done].
  rewrite L. destruct (Z.le_gt_cases n (str_len stream - offset)) as [I|I]; [by rewrite Z.min_l by lia |].
  rewrite Z.min_r by lia. by rewrite !take_all by (rewrite ?drop_len; lia).
Qed.

(** ** The ring holds what was not drained *)

Definition ring_ok (r : ByteRing) : Prop := rg_bytes r = str_len (rg_buf r) /\ rg_bytes r <= LIVE_OUTPUT_RING_BYTES.

Lemma pop_excess_spec buf bytes t buf' bytes' t' :
  bytes = str_len buf -> pop_excess buf bytes t = (buf', bytes', t') ->
  bytes' = str_len buf' /\ bytes' <= LIVE_OUTPUT_RING_BYTES /\ (t' = false -> t = false /\ buf' = buf).
Proof.
  revert bytes t. induction buf as [|c buf IH]; intros bytes t -> H; cbn [pop_excess] in H.
  - change (LIVE_OUTPUT_RING_BYTES <? str_len "") with false in H. by injection H as <- <- <-.
  - destruct (_ <? _) eqn:G; bool_prop; [|by injection H as <- <- <-].
    apply IH in H as (-> & L & T); [|unfold usize_saturating_sub; rewrite str_len_cons; pose proof (str_len_nonneg buf); lia].
    split_and!; [done | done |]. intros F. by destruct (T F).
Qed.

Lemma push_ok chunk r : ring_ok r -> str_len chunk <= READER_BUFFER_BYTES ->
  ring_ok (push chunk r)
  /\ (rg_truncated (push chunk r) = false -> rg_truncated r = false /\ rg_buf (push chunk r) = rg_buf r +:+ chunk).
Proof.
  intros [B M] L. unfold push. destruct (is_empty chunk) eqn:E.
  { apply is_empty_true in E as ->. by rewrite str_app_nil_r. }
  destruct (rg_sealed r); [done |]. destruct (pop_excess _ _ _) as [[buf bytes] t] eqn:P.
  apply pop_excess_spec in P as (Eb & Lb & T); [cbn; split; [done | exact T] |].
  rewrite str_len_app, B. unfold usize_saturating_add, READER_BUFFER_BYTES, LIVE_OUTPUT_RING_BYTES, u64_max in *. lia.
Qed.

Lemma drain_ok max r out t r' : ring_ok r -> 0 <= max -> drain max r = (out, t, r') ->
  ring_ok r' /\ rg_buf r = out +:+ rg_buf r' /\ t = rg_truncated r /\ (t = false -> rg_truncated r' = false).
Proof.
  intros [B M] Hm [= <- <- <-]. cbn. rewrite B. pose proof (str_len_nonneg (rg_buf r)).
  assert (str_len (take (max `min` str_len (rg_buf r)) (rg_buf r)) = max `min` str_len (rg_buf r)) as -> by (rewrite take_len; lia).
  split_and!; [| by rewrite split_at_join | done |].
  - unfold usize_saturating_sub. split; cbn; [rewrite drop_len by lia; lia | lia].
  - intros ->. by destruct (_ =? _).
Qed.

(** ** The invariant *)

Definition undisturbed (o : Output) : Prop :=
  ou_failed o = false /\ rg_truncated (ou_ring o) = false
  /\ Forall (fun p => sp_page_truncated (snd p) = false) (ou_pages o).

Definition output_ok (o : Output) : Prop :=
  ring_ok (ou_ring o) /\ exists stream, holds stream (ou_file o) /\ Forall (page_of stream) (ou_pages o)
  /\ (undisturbed o -> ou_written o = stream +:+ rg_buf (ou_ring o)).

Lemma fresh_output_ok : output_ok fresh_output.
Proof.
  split; [done |]. exists "". split_and!; [|constructor|done]. exists 0. unfold SUPERVISOR_SPOOL_MAX_BYTES, u64_max.
  cbn. split_and!; by try lia.
Qed.

Lemma drained_ok ios offset max o : 0 <= max -> output_ok o -> output_ok (output_step (Drained ios offset max) o).
Proof.
  intros Hm (R & stream & H & P & W). cbn [output_step]. unfold drain_into. destruct ios as [[r w] p].
  destruct (drain _ _) as [[out t] ring] eqn:D. apply drain_ok in D as (R' & B & -> & T'); [|done | lia].
  destruct (if is_empty out then _ else _) as [res file] eqn:A.
  assert ((holds (stream +:+ out) file \/ (holds stream file /\ is_ok res = false))) as H'.
  { destruct (is_empty out) eqn:E; [|by eapply append_holds].
    apply is_empty_true in E as ->. injection A as <- <-. left. by rewrite str_app_nil_r. }
  assert (Forall (page_of (stream +:+ out)) (ou_pages o)) as P' by (eapply Forall_impl; [exact P |]; intros; by apply page_grow).
  destruct res as [[]|e].
  - destruct H' as [H'|[_ ?]]; [|done]. destruct (read_page p offset max file) as [page|e] eqn:G; cbn.
    + destruct (read_page_of _ _ _ _ _ _ H' Hm G) as [Pg _]. split; [done |]. exists (stream +:+ out). split_and!; [done | |].
      * constructor; [|done]. destruct Pg as [Tl Pg]. split; [done |].
        destruct Pg as [(?&S&?)|?]; [left | by right]. cbn. by rewrite S.
      * intros (F & T & Q). cbn in *. inversion Q as [|? ? Q1 Q2]; subst. cbn in Q1. apply orb_false_iff in Q1 as [_ Q1].
        rewrite W by done. by rewrite B, str_app_assoc.
    + split; [done |]. exists (stream +:+ out). split_and!; [done | done |]. intros (F & _). done.
  - cbn. split; [done |]. destruct H' as [H'|[H' _]]; eexists; (split_and!; [exact H' | done | intros (F & _); done]).
Qed.

Lemma output_step_ok ev o :
  (forall ios offset max, ev = Drained ios offset max -> 0 <= max) -> output_ok o -> output_ok (output_step ev o).
Proof.
  intros Hm O. destruct ev as [chunk| | |ios offset max]; [| | |apply drained_ok; [by eapply Hm | done]];
    destruct O as (R & stream & H & P & W); cbn.
  - destruct (_ <? _) eqn:L; [by split; [|exists stream] |]. bool_prop. destruct (push_ok chunk _ R L) as [R' T].
    split; [done |]. exists stream. split_and!; [done..|]. intros (F & T' & Q). cbn in *. destruct (T T') as [T0 ->].
    rewrite W by done. by rewrite str_app_assoc.
  - split; [done |]. by exists stream.
  - split; [by destruct (rg_exited (ou_ring o)) eqn:X; unfold seal_stream; rewrite X |]. exists stream. split_and!; [done..|].
    intros (F & T' & Q). cbn in *. unfold seal_stream in *. destruct (rg_exited (ou_ring o)); [by apply W | done].
Qed.

Definition sized (ev : OutputEvent) : Prop := match ev with Drained _ _ max => 0 <= max | _ => True end.

Lemma output_run_ok evs o : Forall sized evs -> output_ok o -> output_ok (output_run evs o).
Proof.
  revert o. induction evs as [|ev evs IH]; intros o S O; [done |]. inversion S as [|? ? S1 S2]; subst.
  apply IH; [done |]. apply output_step_ok; [|done]. intros ios offset max ->. exact S1.
Qed.

(** C31: what the daemon reads is what the child wrote.  Whatever is read, pushed, sealed and
    drained, with reads and writes of the spool failing at any point, all pages are cut out of
    one stream at their absolute offsets, so no offset ever shows two different bytes, and
    each page says where to go on; and as long as no drain failed and neither a page nor the
    ring says that bytes were dropped, that stream, followed by what waits in the ring, is
    exactly what the child wrote. *)
Theorem pages_exact evs :
  Forall sized evs ->
  let o := output_run evs fresh_output in
  exists stream, Forall (page_of stream) (ou_pages o)
  /\ (undisturbed o -> ou_written o = stream +:+ rg_buf (ou_ring o)).
Proof.
  intros S o. destruct (output_run_ok evs _ S fresh_output_ok) as (_ & stream & _ & P & W). by exists stream.
Qed.

Definition all_ok : Io * Io * Io := (IoOk, IoOk, IoOk).

Lemma pages_exact_witness :
  let o := output_run [ReaderRead "abc"; Drained all_ok 0 2; ReaderRead "d"; Drained all_ok 1 9] fresh_output in
  ou_written o = "abcd" /\ exists stream, Forall (page_of stream) (ou_pages o) /\ ou_written o = stream +:+ "".
Proof.
  intros o. split; [vm_compute; reflexivity |].
  destruct (pages_exact [ReaderRead "abc"; Drained all_ok 0 2; ReaderRead "d"; Drained all_ok 1 9]) as (stream & P & W).
  - repeat constructor; cbn; lia.
  - exists stream. split; [exact P |]. change (rg_buf (ou_ring o)) with "" in W. apply W. split_and!; [reflexivity..|].
    vm_compute. repeat constructor.
Defined.

(** A drain that fails loses what it took.  The bytes leave the ring before they are in the
    spool; if the spool cannot be replaced, they are gone, and the next page neither has
    them nor says that anything was dropped. *)
Theorem failed_drain_loses_output :
  let o := output_run [ReaderRead "abc"; Drained (IoOk, IoEarly, IoOk) 0 9; ReaderRead "d"; Drained all_ok 0 9] fresh_output in
  ou_written o = "abcd"
  /\ ou_pages o = [(0, {| sp_bytes := "d"; sp_next_offset := None; sp_total_bytes := 1; sp_page_truncated := false |})].
Proof. vm_compute. auto. Qed.
