(* ===== verification/SupervisorState.v ===== *)
(** * The session supervisor

    [crates/ownmesh-session-host/src/supervisor_spool.rs] (manifests and receipts) and
    [supervisor_state.rs].  The supervisor holds hosted processes and the binding each may be
    reached with; the manifest and the terminal receipt of a host are files.  An operation
    is one step under the lock of the host map; a sweep and a liveness probe release it in
    between and are several steps.  The clock, fresh nonces, the outcomes of file
    operations and the answers of the operating system are arguments. *)

From stdpp Require Import base list strings gmap.
From Stdlib Require Import ZArith Lia Ascii.
From S2P Require Import Prelude RustStr RustBytes SupervisorSpool.

Open Scope Z_scope.

(** ** Manifests *)

Definition SUPERVISOR_BINDING_MAX_TTL_SECS : Z := 60 * 60.
Definition SUPERVISOR_HOST_MAX_TTL_SECS : Z := 24 * 60 * 60.
Definition MAX_MANIFEST_BYTES : Z := 16 * 1024.
Definition MAX_TRANSITION_ID_BYTES : Z := 128.
Definition MAX_TRANSITION_DIGEST_BYTES : Z := 128.
Definition MAX_STDIN_BYTES : Z := 64 * 1024.
Definition MAX_HOSTS : Z := 64.

Inductive HostIoMode : Type := Pty | StructuredPipes.

#[export] Instance HostIoMode_eq_dec : EqDecision HostIoMode.
Proof. solve_decision. Defined.

Record TransitionReceipt : Type := { tr_transition_id : string; tr_payload_digest : string }.

Record HostManifest : Type := {
  hm_session_id : string;
  hm_device_id : string;
  hm_workspace_id : string;
  hm_owner_principal : string;
  hm_io_mode : HostIoMode;
  hm_controller_attached : bool;
  hm_host_nonce : string;
  hm_controller_epoch : Z;
  hm_binding_expires_unix : Z;
  hm_host_expires_unix : Z;
  hm_last_transition : option TransitionReceipt
}.

#[export] Instance HostManifest_eta : Eta HostManifest := fun m =>
  {| hm_session_id := hm_session_id m; hm_device_id := hm_device_id m; hm_workspace_id := hm_workspace_id m;
     hm_owner_principal := hm_owner_principal m; hm_io_mode := hm_io_mode m;
     hm_controller_attached := hm_controller_attached m; hm_host_nonce := hm_host_nonce m;
     hm_controller_epoch := hm_controller_epoch m; hm_binding_expires_unix := hm_binding_expires_unix m;
     hm_host_expires_unix := hm_host_expires_unix m; hm_last_transition := hm_last_transition m |}.

Record TerminationReceipt : Type := {
  te_session_id : string;
  te_device_id : string;
  te_workspace_id : string;
  te_owner_principal : string;
  te_host_nonce : string;
  te_controller_epoch : Z;
  te_transition_id : string;
  te_payload_digest : string
}.

#[export] Instance TerminationReceipt_eq_dec : EqDecision TerminationReceipt.
Proof. solve_decision. Defined.

Record SupervisorBinding : Type := {
  bi_session_id : string;
  bi_device_id : string;
  bi_workspace_id : string;
  bi_owner_principal : string;
  bi_host_nonce : string;
  bi_controller_epoch : Z
}.

#[export] Instance SupervisorBinding_eq_dec : EqDecision SupervisorBinding.
Proof. solve_decision. Defined.

Definition valid_component (value : string) : bool :=
  negb (is_empty value) && (str_len value <=? 256)
  && negb (has_control value || contains_char "/" value || contains_char "\" value).

Fixpoint validate_components (l : list (string * string)) : result unit string :=
  match l with
  | [] => Ok tt
  | (field, value) :: rest => guard_err (negb (valid_component value)) ("invalid supervisor " +:+ field) ;? validate_components rest
  end.

Definition manifest_validate (m : HostManifest) : result unit string :=
  validate_components [("session_id", hm_session_id m); ("device_id", hm_device_id m); ("workspace_id", hm_workspace_id m);
                       ("owner_principal", hm_owner_principal m); ("host_nonce", hm_host_nonce m)] ;?
  guard_err ((hm_controller_epoch m =? 0) || (hm_binding_expires_unix m <=? 0) || (hm_host_expires_unix m <=? 0))
    "invalid supervisor epoch or expiry".

(** [HostManifest::new]; [nonce] is the fresh UUID. *)
Definition manifest_new (nonce session_id device_id workspace_id owner_principal : string)
    (controller_epoch binding_expires_unix host_expires_unix : Z) : result HostManifest string :=
  let manifest :=
    {| hm_session_id := session_id; hm_device_id := device_id; hm_workspace_id := workspace_id;
       hm_owner_principal := owner_principal; hm_io_mode := Pty; hm_controller_attached := true;
       hm_host_nonce := "host_" +:+ nonce; hm_controller_epoch := controller_epoch;
       hm_binding_expires_unix := binding_expires_unix; hm_host_expires_unix := host_expires_unix;
       hm_last_transition := None |} in
  manifest_validate manifest ;? Ok manifest.

Definition successor (nonce owner_principal : string) (controller_epoch binding_expires_unix : Z) (m : HostManifest)
  : result HostManifest string :=
  let? next := manifest_new nonce (hm_session_id m) (hm_device_id m) (hm_workspace_id m) owner_principal controller_epoch
                 binding_expires_unix (hm_host_expires_unix m) in
  let next := next <| hm_io_mode := hm_io_mode m |> in
  manifest_validate next ;? Ok next.

Definition validate_transition (transition_id payload_digest : string) : result unit string :=
  guard_err (is_empty transition_id || (MAX_TRANSITION_ID_BYTES <? str_len transition_id) || is_empty payload_digest
             || (MAX_TRANSITION_DIGEST_BYTES <? str_len payload_digest) || has_control transition_id
             || has_control payload_digest) "invalid supervisor transition receipt".

Definition matches_transition (transition_id payload_digest : string) (m : HostManifest) : result bool string :=
  validate_transition transition_id payload_digest ;?
  match hm_last_transition m with
  | Some receipt =>
      if String.eqb (tr_transition_id receipt) transition_id then
        if String.eqb (tr_payload_digest receipt) payload_digest then Ok true
        else Err "supervisor transition id payload conflict"
      else Ok false
  | None => Ok false
  end.

Definition record_transition (transition_id payload_digest : string) (m : HostManifest) : result HostManifest string :=
  validate_transition transition_id payload_digest ;?
  Ok (m <| hm_last_transition := Some {| tr_transition_id := transition_id; tr_payload_digest := payload_digest |} |>).

Definition validate_runtime_lifetimes (now : Z) (m : HostManifest) : result unit string :=
  guard_err ((hm_binding_expires_unix m <=? now) || (hm_host_expires_unix m <=? now))
    "supervisor binding or host expiry is in the past" ;?
  guard_err ((i64_saturating_add now SUPERVISOR_BINDING_MAX_TTL_SECS <? hm_binding_expires_unix m)
             || (i64_saturating_add now SUPERVISOR_HOST_MAX_TTL_SECS <? hm_host_expires_unix m)
             || (hm_host_expires_unix m <? hm_binding_expires_unix m)) "supervisor binding or host lifetime exceeds policy".

(** ** Bindings *)

Definition binding_of (m : HostManifest) : SupervisorBinding :=
  {| bi_session_id := hm_session_id m; bi_device_id := hm_device_id m; bi_workspace_id := hm_workspace_id m;
     bi_owner_principal := hm_owner_principal m; bi_host_nonce := hm_host_nonce m;
     bi_controller_epoch := hm_controller_epoch m |}.

Definition binding_matches (b : SupervisorBinding) (m : HostManifest) : bool :=
  String.eqb (bi_session_id b) (hm_session_id m) && String.eqb (bi_device_id b) (hm_device_id m)
  && String.eqb (bi_workspace_id b) (hm_workspace_id m) && String.eqb (bi_owner_principal b) (hm_owner_principal m)
  && String.eqb (bi_host_nonce b) (hm_host_nonce m) && (bi_controller_epoch b =? hm_controller_epoch m).

Definition exact_identity (now : Z) (b : SupervisorBinding) (m : HostManifest) : result unit string :=
  guard_err (hm_binding_expires_unix m <=? now) "supervisor binding expired" ;?
  guard_err (negb (binding_matches b m)) "supervisor binding mismatch".

Definition exact (now : Z) (b : SupervisorBinding) (m : HostManifest) : result unit string :=
  exact_identity now b m ;?
  guard_err (negb (hm_controller_attached m)) "supervisor controller is detached".

Definition rotate_epoch (current next : Z) : result unit string :=
  let? expected := ok_or (u64_checked_add current 1) "supervisor controller epoch overflow" in
  guard_err (negb (next =? expected)) "supervisor controller epoch must advance exactly once".

(** ** Files of a session *)

Record SessionDir : Type := {
  sd_claim : option string;
  sd_manifest : option string;
  sd_spool : option string;
  sd_stderr : option string;
  sd_termination : option string
}.

#[export] Instance SessionDir_eta : Eta SessionDir := fun d =>
  {| sd_claim := sd_claim d; sd_manifest := sd_manifest d; sd_spool := sd_spool d; sd_stderr := sd_stderr d;
     sd_termination := sd_termination d |}.

Definition empty_dir : SessionDir :=
  {| sd_claim := None; sd_manifest := None; sd_spool := None; sd_stderr := None; sd_termination := None |}.

(** The bytes of a receipt. *)
Definition receipt_size (r : TerminationReceipt) : Z :=
  str_len (te_session_id r) + str_len (te_device_id r) + str_len (te_workspace_id r) + str_len (te_owner_principal r)
  + str_len (te_host_nonce r) + str_len (te_transition_id r) + str_len (te_payload_digest r).

(** [serde_json] on the two files.  What is written reads back; a JSON string has at most
    six bytes for each of its own. *)
Class ManifestCodec : Type := {
  manifest_to_vec : HostManifest -> string;
  manifest_from_slice : string -> result HostManifest string;
  receipt_to_vec : TerminationReceipt -> string;
  receipt_from_slice : string -> result TerminationReceipt string;
  manifest_from_to_vec m : manifest_from_slice (manifest_to_vec m) = Ok m;
  receipt_from_to_vec r : receipt_from_slice (receipt_to_vec r) = Ok r;
  receipt_to_vec_len r : 0 <= te_controller_epoch r <= u64_max -> str_len (receipt_to_vec r) <= 1024 + 6 * receipt_size r
}.

(** [create_owner_only_file_new]. *)
Definition create_new (io : Io) (bytes : string) (file : option string) : result unit string * option string :=
  match io, file with
  | IoEarly, _ | _, Some _ => (Err "owner-only create", file)
  | IoOk, None => (Ok tt, Some bytes)
  | IoLate, None => (Err "owner-only create", Some bytes)
  end.

(** The outcomes of the file operations of a call, in their order. *)
Definition Ios : Type := nat -> Io.

Definition fallible (io : Io) (e : string) : result unit string := match io with IoOk => Ok tt | _ => Err e end.

Section supervisor.
Context {MC : ManifestCodec}.

Definition spool_create (ios : Ios) (manifest : HostManifest) (root : gmap string SessionDir) : result unit string * gmap string SessionDir :=
  match (manifest_validate manifest ;? fallible (ios 0%nat) "prepare spool root") with
  | Err e => (Err e, root)
  | Ok _ =>
      let sid := hm_session_id manifest in
      match root !! sid, ios 1%nat with
      | Some _, _ => (Err "supervisor spool already exists (duplicate host refused)", root)
      | None, IoOk =>
          match ios 2%nat with
          | IoOk =>
              let '(claimed, claim) := create_new (ios 3%nat) (hm_host_nonce manifest) None in
              let dir := empty_dir <| sd_claim := claim |> in
              match claimed with
              | Err e => (Err ("claim supervisor session spool: " +:+ e), <[sid := dir]> root)
              | Ok _ =>
                  let '(written, file) := create_new (ios 4%nat) (manifest_to_vec manifest) None in
                  let dir := dir <| sd_manifest := file |> in
                  match written with
                  | Err e => (Err ("write supervisor manifest: " +:+ e), <[sid := dir]> root)
                  | Ok _ =>
                      let '(created, file) := create_new (ios 5%nat) (encode_spool 0 "") None in
                      (map_err (fun e => "create supervisor spool: " +:+ e) created, <[sid := dir <| sd_spool := file |>]> root)
                  end
              end
          | _ => (Err "attest supervisor session spool", root)
          end
      | None, _ => (Err "create supervisor session spool", root)
      end
  end.

(** [OwnerSpool::open], on the outcomes from the seventh on. *)
Definition spool_open (ios : Ios) (session_id : string) (root : gmap string SessionDir) : result SessionDir string :=
  guard_err (negb (valid_component session_id)) "invalid supervisor session id" ;?
  fallible (ios 6%nat) "attest supervisor spool directory" ;?
  let? dir := ok_or (root !! session_id) "attest supervisor spool directory" in
  let? bytes := map_err (fun e => "read supervisor manifest: " +:+ e) (read_bounded (ios 7%nat) MAX_MANIFEST_BYTES (sd_manifest dir)) in
  let? manifest := map_err (fun e => "parse supervisor manifest: " +:+ e) (manifest_from_slice bytes) in
  manifest_validate manifest ;?
  guard_err (negb (String.eqb (hm_session_id manifest) session_id)) "supervisor manifest/session path mismatch" ;?
  read_state (ios 8%nat) (sd_spool dir) ;?
  Ok dir.

Definition create_stderr (ios : Ios) (session_id : string) (root : gmap string SessionDir) : result unit string * gmap string SessionDir :=
  match spool_open ios session_id root with
  | Err e => (Err e, root)
  | Ok dir =>
      match sd_stderr dir, ios 9%nat with
      | Some _, IoOk => (rbind (read_state (ios 10%nat) (sd_stderr dir)) (fun _ => Ok tt), root)
      | present, io =>
          let '(r, file) := create_new io (encode_spool 0 "") present in
          let root := <[session_id := dir <| sd_stderr := file |>]> root in
          match r with
          | Err e => (Err ("create stderr spool: " +:+ e), root)
          | Ok _ => (rbind (read_state (ios 10%nat) file) (fun _ => Ok tt), root)
          end
      end
  end.

Definition termination_receipt (attest read : Io) (session_id : string) (root : gmap string SessionDir)
  : result (option TerminationReceipt) string :=
  guard_err (negb (valid_component session_id)) "invalid supervisor session id" ;?
  match root !! session_id with
  | None => Ok None
  | Some dir =>
      fallible attest "attest supervisor termination directory" ;?
      match sd_termination dir with
      | None => Ok None
      | Some _ =>
          let? bytes := map_err (fun e => "read supervisor termination receipt: " +:+ e)
                          (read_bounded read MAX_MANIFEST_BYTES (sd_termination dir)) in
          let? receipt := map_err (fun e => "parse supervisor termination receipt: " +:+ e) (receipt_from_slice bytes) in
          guard_err (existsb (fun v => negb (valid_component v))
                       [te_session_id receipt; te_device_id receipt; te_workspace_id receipt; te_owner_principal receipt;
                        te_host_nonce receipt]) "invalid supervisor termination receipt identity" ;?
          validate_transition (te_transition_id receipt) (te_payload_digest receipt) ;?
          guard_err ((te_controller_epoch receipt =? 0) || negb (String.eqb (te_session_id receipt) session_id))
            "invalid supervisor termination receipt" ;?
          Ok (Some receipt)
      end
  end.

Definition receipt_of (m : HostManifest) (transition_id payload_digest : string) : TerminationReceipt :=
  {| te_session_id := hm_session_id m; te_device_id := hm_device_id m; te_workspace_id := hm_workspace_id m;
     te_owner_principal := hm_owner_principal m; te_host_nonce := hm_host_nonce m;
     te_controller_epoch := hm_controller_epoch m; te_transition_id := transition_id; te_payload_digest := payload_digest |}.

Definition record_termination (ios : Ios) (m : HostManifest) (transition_id payload_digest : string) (root : gmap string SessionDir)
  : result unit string * gmap string SessionDir :=
  match (validate_transition transition_id payload_digest ;?
         termination_receipt (ios 0%nat) (ios 1%nat) (hm_session_id m) root) with
  | Err e => (Err e, root)
  | Ok (Some existing) =>
      (if bool_decide (existing = receipt_of m transition_id payload_digest) then Ok tt
       else if String.eqb (te_transition_id existing) transition_id then Err "supervisor termination id payload conflict"
       else Err "supervisor host already terminated", root)
  | Ok None =>
      match root !! hm_session_id m with
      | None => (Err "write supervisor termination receipt", root)
      | Some dir =>
          let '(r, file) := replace_file (ios 2%nat) (receipt_to_vec (receipt_of m transition_id payload_digest)) (sd_termination dir) in
          (map_err (fun e => "write supervisor termination receipt: " +:+ e) r,
           <[hm_session_id m := dir <| sd_termination := file |>]> root)
      end
  end.

(** The replacement of the manifest file, and of the manifest in memory when it succeeds. *)
Definition write_manifest (io : Io) (next : HostManifest) (root : gmap string SessionDir) : result unit string * gmap string SessionDir :=
  match root !! hm_session_id next with
  | None => (Err "supervisor manifest directory", root)
  | Some dir =>
      let '(r, file) := replace_file io (manifest_to_vec next) (sd_manifest dir) in
      (r, <[hm_session_id next := dir <| sd_manifest := file |>]> root)
  end.

Definition same_host (next m : HostManifest) : bool :=
  String.eqb (hm_session_id next) (hm_session_id m) && String.eqb (hm_device_id next) (hm_device_id m)
  && String.eqb (hm_workspace_id next) (hm_workspace_id m) && bool_decide (hm_io_mode next = hm_io_mode m).

Definition rotate_manifest (io : Io) (m next : HostManifest) (root : gmap string SessionDir) : result unit string * gmap string SessionDir :=
  match (manifest_validate next ;?
         guard_err (negb (same_host next m)) "supervisor binding identity cannot change" ;?
         guard_err (hm_controller_epoch next <=? hm_controller_epoch m) "supervisor binding epoch must advance") with
  | Err e => (Err e, root)
  | Ok _ =>
      let '(r, root) := write_manifest io next root in
      (map_err (fun e => "rotate supervisor manifest: " +:+ e) r, root)
  end.

Definition renew_manifest (io : Io) (m next : HostManifest) (root : gmap string SessionDir) : result unit string * gmap string SessionDir :=
  match (manifest_validate next ;?
         guard_err (negb (same_host next m) || negb (String.eqb (hm_owner_principal next) (hm_owner_principal m))
                    || negb (hm_controller_epoch next =? hm_controller_epoch m) || negb (hm_controller_attached next))
           "supervisor renewal identity cannot change") with
  | Err e => (Err e, root)
  | Ok _ =>
      let '(r, root) := write_manifest io next root in
      (map_err (fun e => "renew supervisor manifest: " +:+ e) r, root)
  end.

(** ** Hosts *)

(** [HostedHost]: the variant, whether its input is still open, and its rings; a PTY has no
    second ring. *)
Record Host : Type := {
  hh_mode : HostIoMode;
  hh_stdin : bool;
  hh_stdout : ByteRing;
  hh_stderr : ByteRing
}.

#[export] Instance Host_eta : Eta Host := fun h =>
  {| hh_mode := hh_mode h; hh_stdin := hh_stdin h; hh_stdout := hh_stdout h; hh_stderr := hh_stderr h |}.

Definition new_host (mode : HostIoMode) : Host :=
  {| hh_mode := mode; hh_stdin := true; hh_stdout := new_ring; hh_stderr := new_ring |}.

Definition LF : string := String (byte_of 10) "".

Definition host_write (os : result unit string) (bytes : string) (h : Host) : result unit string :=
  match hh_mode h with
  | Pty => guard_err (negb (hh_stdin h)) "PTY stdin writer is unavailable" ;? os
  | StructuredPipes =>
      guard_err (is_empty bytes || (64 * 1024 <? str_len bytes) || negb (ends_with bytes LF))
        "structured frame must be LF terminated and <= 64KiB" ;?
      guard_err (negb (hh_stdin h)) "structured stdin closed" ;? os
  end.

Definition host_resize (os : result unit string) (h : Host) : result unit string :=
  match hh_mode h with Pty => os | StructuredPipes => Err "structured pipe hosts cannot resize" end.

(** [terminate]: input is closed first; when the tree is dead, a structured host whose
    readers do not finish in time has its streams sealed. *)
Definition host_terminate (os : result unit string) (parked : bool) (h : Host) : result unit string * Host :=
  let h := h <| hh_stdin := false |> in
  match os, hh_mode h with
  | Ok _, StructuredPipes =>
      (os, if parked then h <| hh_stdout := seal_stream (hh_stdout h) |> <| hh_stderr := seal_stream (hh_stderr h) |> else h)
  | _, _ => (os, h)
  end.

(** [Hosted].  The manifest of its spool is the same at all times. *)
Record Hosted : Type := { ho_manifest : HostManifest; ho_stderr_spool : bool; ho_host : Host }.

#[export] Instance Hosted_eta : Eta Hosted := fun h =>
  {| ho_manifest := ho_manifest h; ho_stderr_spool := ho_stderr_spool h; ho_host := ho_host h |}.

(** What happened to bindings: issued with a host, used on one, replaced. *)
Inductive Entry : Type :=
| Issued (b : SupervisorBinding)
| Used (b : SupervisorBinding)
| Replaced (previous next : SupervisorBinding).

(** [SupervisorState].  [su_sweeping] are the hosts a sweep has taken out of the map.
    [su_alive] are the sessions whose host, tracked or held by a sweep, was started and not
    yet killed.  [su_orphans] are the sessions with processes that no host stands for any
    more: left behind by a start that failed, by a kill that reported success, or by an
    exit of the supervisor.  [su_log] is the history of bindings. *)
Record Supervisor : Type := {
  su_hosts : gmap string Hosted;
  su_terminating : gset string;
  su_sweeping : gmap string Hosted;
  su_root : gmap string SessionDir;
  su_alive : gset string;
  su_orphans : gset string;
  su_log : list Entry
}.

#[export] Instance Supervisor_eta : Eta Supervisor := fun s =>
  {| su_hosts := su_hosts s; su_terminating := su_terminating s; su_sweeping := su_sweeping s; su_root := su_root s;
     su_alive := su_alive s; su_orphans := su_orphans s;
     su_log := su_log s |}.

Definition supervisor_new (root : gmap string SessionDir) : Supervisor :=
  {| su_hosts := ∅; su_terminating := ∅; su_sweeping := ∅; su_root := root;
     su_alive := ∅; su_orphans := ∅; su_log := [] |}.

(** The arguments of one call: clock, fresh nonce, file operations, the answer of the
    operating system, whether a dropped host dies, whether readers are parked, whether
    descendants outlive a kill that reports success. *)
Record Env : Type := {
  en_now : Z;
  en_nonce : string;
  en_ios : Ios;
  en_os : result unit string;
  en_dropped : bool;
  en_parked : bool;
  en_left : bool
}.

Definition logged (e : Entry) (s : Supervisor) : Supervisor := s <| su_log := e :: su_log s |>.

Definition orphaned (sid : string) (s : Supervisor) : Supervisor := s <| su_orphans := {[sid]} ∪ su_orphans s |>.

(** The kill of a host reported success: the errors of the signals to its group are
    ignored, and a descendant that left the group is not reached. *)
Definition tree_killed (env : Env) (sid : string) (s : Supervisor) : Supervisor :=
  s <| su_alive := su_alive s ∖ {[sid]} |>
    <| su_orphans := (if en_left env then {[sid]} else ∅) ∪ su_orphans s |>.

Definition put_host (sid : string) (h : Hosted) (s : Supervisor) : Supervisor :=
  s <| su_hosts := <[sid := h]> (su_hosts s) |>.

(** ** Operations *)

Definition spawn_with_io (env : Env) (manifest : HostManifest) (io_mode : HostIoMode) (s : Supervisor)
  : result SupervisorBinding string * Supervisor :=
  let sid := hm_session_id manifest in
  match (validate_runtime_lifetimes (en_now env) manifest ;?
         guard_err (MAX_HOSTS <=? Z.of_nat (size (su_hosts s))) "supervisor host quota reached" ;?
         guard_err (bool_decide (sid ∈ dom (su_hosts s))) "supervisor host already live" ;?
         en_os env) with
  | Err e => (Err e, s)
  | Ok _ =>
      let '(created, root) := spool_create (en_ios env) manifest (su_root s) in
      let '(opened, root) :=
        match created, io_mode with
        | Ok _, StructuredPipes => create_stderr (en_ios env) sid root
        | _, _ => (created, root)
        end in
      let s := s <| su_root := root |> in
      match opened with
      | Err e =>
          (Err e, if en_dropped env then s else orphaned sid s)
      | Ok _ =>
          let hosted := {| ho_manifest := manifest; ho_stderr_spool := bool_decide (io_mode = StructuredPipes);
                           ho_host := new_host io_mode |} in
          (Ok (binding_of manifest),
           logged (Issued (binding_of manifest)) (put_host sid hosted s <| su_alive := {[sid]} ∪ su_alive s |>))
      end
  end.

(** Lookup and check of a binding. *)
Definition with_host {A} (b : SupervisorBinding) (check : HostManifest -> result unit string) (s : Supervisor)
    (k : Hosted -> result A string * Supervisor) : result A string * Supervisor :=
  match su_hosts s !! bi_session_id b with
  | None => (Err "supervisor host unavailable", s)
  | Some hosted => match check (ho_manifest hosted) with Err e => (Err e, s) | Ok _ => k hosted end
  end.

(** [reattach]: the pending bytes of the two streams; the rest of the status is the system's. *)
Definition reattach (env : Env) (b : SupervisorBinding) (s : Supervisor) : result (Z * Z) string * Supervisor :=
  with_host b (exact_identity (en_now env) b) s (fun hosted =>
    (Ok (rg_bytes (hh_stdout (ho_host hosted)), rg_bytes (hh_stderr (ho_host hosted))), s)).

Definition write (env : Env) (b : SupervisorBinding) (bytes : string) (s : Supervisor) : result unit string * Supervisor :=
  if MAX_STDIN_BYTES <? str_len bytes then (Err "supervisor stdin frame exceeds budget", s)
  else with_host b (exact (en_now env) b) s (fun hosted =>
         (host_write (en_os env) bytes (ho_host hosted), logged (Used b) s)).

Definition resize (env : Env) (b : SupervisorBinding) (cols rows : Z) (s : Supervisor) : result unit string * Supervisor :=
  if (cols =? 0) || (rows =? 0) || (512 <? cols) || (512 <? rows) then (Err "invalid supervisor PTY size", s)
  else with_host b (exact (en_now env) b) s (fun hosted => (host_resize (en_os env) (ho_host hosted), logged (Used b) s)).

Definition drain_host (env : Env) (b : SupervisorBinding) (offset max_bytes : Z) (stderr : bool) (s : Supervisor)
  : result SpoolPage string * Supervisor :=
  with_host b (exact (en_now env) b) s (fun hosted =>
    let sid := bi_session_id b in
    let h := ho_host hosted in
    let dir := default empty_dir (su_root s !! sid) in
    let ios := (en_ios env 0%nat, en_ios env 1%nat, en_ios env 2%nat) in
    let drain_max := match hh_mode h with Pty => Z.max max_bytes 1 | StructuredPipes => Z.min (Z.max max_bytes 1) LIVE_OUTPUT_RING_BYTES end in
    if stderr then
      if ho_stderr_spool hosted then
        let '(r, ring, file) := drain_into ios offset max_bytes drain_max (hh_stderr h) (sd_stderr dir) in
        (r, logged (Used b) (put_host sid (hosted <| ho_host := h <| hh_stderr := ring |> |>)
              (s <| su_root := <[sid := dir <| sd_stderr := file |>]> (su_root s) |>)))
      else (Err "stderr stream unavailable", s)
    else
      let '(r, ring, file) := drain_into ios offset max_bytes drain_max (hh_stdout h) (sd_spool dir) in
      (r, logged (Used b) (put_host sid (hosted <| ho_host := h <| hh_stdout := ring |> |>)
            (s <| su_root := <[sid := dir <| sd_spool := file |>]> (su_root s) |>)))).

(** ** Transitions of a binding *)

Definition rotate_next (env : Env) (previous : SupervisorBinding) (owner : string) (epoch expires : Z) (m : HostManifest)
  : result HostManifest string :=
  exact (en_now env) previous m ;?
  rotate_epoch (bi_controller_epoch previous) epoch ;?
  let? next := successor (en_nonce env) owner epoch expires m in
  validate_runtime_lifetimes (en_now env) next ;? Ok next.

Definition reclaim_next (env : Env) (previous : SupervisorBinding) (owner : string) (epoch expires : Z) (m : HostManifest)
  : result HostManifest string :=
  guard_err (negb (binding_matches previous m)) "supervisor binding mismatch" ;?
  guard_err (en_now env <? hm_binding_expires_unix m) "supervisor binding has not expired" ;?
  rotate_epoch (bi_controller_epoch previous) epoch ;?
  let? next := successor (en_nonce env) owner epoch expires m in
  validate_runtime_lifetimes (en_now env) next ;? Ok next.

Definition detach_next (env : Env) (previous : SupervisorBinding) (epoch : Z) (m : HostManifest) : result HostManifest string :=
  exact (en_now env) previous m ;?
  rotate_epoch (bi_controller_epoch previous) epoch ;?
  let? next := successor (en_nonce env) (hm_owner_principal m) epoch (hm_binding_expires_unix m) m in
  Ok (next <| hm_controller_attached := false |>).

Definition claim_next (env : Env) (previous : SupervisorBinding) (owner : string) (epoch expires : Z) (m : HostManifest)
  : result HostManifest string :=
  exact_identity (en_now env) previous m ;?
  guard_err (hm_controller_attached m) "supervisor controller is still attached" ;?
  rotate_epoch (bi_controller_epoch previous) epoch ;?
  let? next := successor (en_nonce env) owner epoch expires m in
  validate_runtime_lifetimes (en_now env) next ;? Ok next.

Definition renew_next (env : Env) (previous : SupervisorBinding) (expires : Z) (m : HostManifest) : result HostManifest string :=
  exact (en_now env) previous m ;?
  let? next := successor (en_nonce env) (hm_owner_principal m) (hm_controller_epoch m) expires m in
  validate_runtime_lifetimes (en_now env) next ;? Ok next.

Inductive Transition : Type :=
| Rotate (owner : string) (epoch expires : Z)
| Reclaim (owner : string) (epoch expires : Z)
| Detach (epoch : Z)
| Claim (owner : string) (epoch expires : Z)
| Renew (expires : Z).

Definition transition_next (env : Env) (t : Transition) (previous : SupervisorBinding) (m : HostManifest)
  : result HostManifest string :=
  match t with
  | Rotate owner epoch expires => rotate_next env previous owner epoch expires m
  | Reclaim owner epoch expires => reclaim_next env previous owner epoch expires m
  | Detach epoch => detach_next env previous epoch m
  | Claim owner epoch expires => claim_next env previous owner epoch expires m
  | Renew expires => renew_next env previous expires m
  end.

Definition store_manifest (t : Transition) : Io -> HostManifest -> HostManifest -> gmap string SessionDir -> result unit string * gmap string SessionDir :=
  match t with Renew _ => renew_manifest | _ => rotate_manifest end.

(** The transitions with a receipt ([..._idempotent]) and without. *)
Definition transit (env : Env) (t : Transition) (receipt : option (string * string)) (previous : SupervisorBinding) (s : Supervisor)
  : result SupervisorBinding string * Supervisor :=
  match su_hosts s !! bi_session_id previous with
  | None => (Err "supervisor host unavailable", s)
  | Some hosted =>
      let m := ho_manifest hosted in
      match match receipt with Some (id, digest) => matches_transition id digest m | None => Ok false end with
      | Err e => (Err e, s)
      | Ok true => (Ok (binding_of m), s)
      | Ok false =>
          match (let? next := transition_next env t previous m in
                 match receipt with Some (id, digest) => record_transition id digest next | None => Ok next end) with
          | Err e => (Err e, s)
          | Ok next =>
              let '(r, root) := store_manifest t (en_ios env 0%nat) m next (su_root s) in
              let s := s <| su_root := root |> in
              match r with
              | Err e => (Err e, s)
              | Ok _ =>
                  (Ok (binding_of next),
                   logged (Replaced previous (binding_of next))
                     (put_host (bi_session_id previous) (hosted <| ho_manifest := next |>) s))
              end
          end
      end
  end.

(** ** Termination *)

Definition receipt_binding (r : TerminationReceipt) : SupervisorBinding :=
  {| bi_session_id := te_session_id r; bi_device_id := te_device_id r; bi_workspace_id := te_workspace_id r;
     bi_owner_principal := te_owner_principal r; bi_host_nonce := te_host_nonce r;
     bi_controller_epoch := te_controller_epoch r |}.

Definition terminate_idempotent (env : Env) (b : SupervisorBinding) (transition_id payload_digest : string) (s : Supervisor)
  : result unit string * Supervisor :=
  let sid := bi_session_id b in
  match su_hosts s !! sid with
  | Some hosted =>
      match exact (en_now env) b (ho_manifest hosted) with
      | Err e => (Err e, s)
      | Ok _ =>
          let '(killed, host) := host_terminate (en_os env) (en_parked env) (ho_host hosted) in
          let s := logged (Used b) (put_host sid (hosted <| ho_host := host |>) s) in
          match killed with
          | Err e => (Err e, s)
          | Ok _ =>
              let s := tree_killed env sid s in
              let '(r, root) := record_termination (en_ios env) (ho_manifest hosted) transition_id payload_digest (su_root s) in
              let s := s <| su_root := root |> in
              match r with
              | Err e => (Err e, s)
              | Ok _ => (Ok tt, s <| su_hosts := delete sid (su_hosts s) |>)
              end
          end
      end
  | None =>
      (let? found := termination_receipt (en_ios env 0%nat) (en_ios env 1%nat) sid (su_root s) in
       let? receipt := ok_or found "supervisor host unavailable" in
       guard_err (negb (bool_decide (receipt_binding receipt = b))) "supervisor termination binding mismatch" ;?
       if String.eqb (te_transition_id receipt) transition_id then
         if String.eqb (te_payload_digest receipt) payload_digest then Ok tt
         else Err "supervisor termination id payload conflict"
       else Err "supervisor host already terminated", s)
  end.

(** [sweep_expired], up to where it releases the locks: expired hosts leave the map and are
    marked as terminating. *)
Definition expired_hosts (now : Z) (s : Supervisor) : list (string * Hosted) :=
  firstn (Z.to_nat MAX_HOSTS)
    (filter (fun kv => hm_host_expires_unix (ho_manifest (snd kv)) <= now) (map_to_list (su_hosts s))).

Fixpoint take_out (l : list (string * Hosted)) (s : Supervisor) : Supervisor :=
  match l with
  | [] => s
  | (sid, hosted) :: rest =>
      take_out rest (s <| su_hosts := delete sid (su_hosts s) |> <| su_terminating := {[sid]} ∪ su_terminating s |>
                       <| su_sweeping := <[sid := hosted]> (su_sweeping s) |>)
  end.

Definition sweep_begin (now : Z) (s : Supervisor) : Supervisor := take_out (expired_hosts now s) s.

(** One host of the sweep: killed and forgotten, or tracked again. *)
Definition sweep_kill (env : Env) (sid : string) (s : Supervisor) : Supervisor :=
  match su_sweeping s !! sid with
  | None => s
  | Some hosted =>
      let '(killed, host) := host_terminate (en_os env) (en_parked env) (ho_host hosted) in
      let s := s <| su_sweeping := delete sid (su_sweeping s) |> in
      match killed with
      | Ok _ => tree_killed env sid (s <| su_terminating := su_terminating s ∖ {[sid]} |>)
      | Err _ =>
          put_host sid (hosted <| ho_host := host |>) s <| su_terminating := su_terminating s ∖ {[sid]} |>
      end
  end.

(** ** Runs *)

Inductive Event : Type :=
| EvSpawn (env : Env) (manifest : HostManifest) (io_mode : HostIoMode)
| EvReattach (env : Env) (b : SupervisorBinding)
| EvWrite (env : Env) (b : SupervisorBinding) (bytes : string)
| EvResize (env : Env) (b : SupervisorBinding) (cols rows : Z)
| EvDrain (env : Env) (b : SupervisorBinding) (offset max_bytes : Z) (stderr : bool)
| EvTransit (env : Env) (t : Transition) (receipt : option (string * string)) (previous : SupervisorBinding)
| EvTerminate (env : Env) (b : SupervisorBinding) (transition_id payload_digest : string)
| EvSweep (now : Z)
| EvKill (env : Env) (sid : string)
| EvOutput (sid : string) (stderr : bool) (chunk : string)
| EvExit (survivors : gset string).

(** The reader of a stream; hosts keep running while a sweep holds them. *)
Definition host_output (stderr : bool) (chunk : string) (hosted : Hosted) : Hosted :=
  let h := ho_host hosted in
  hosted <| ho_host := if stderr then h <| hh_stderr := push chunk (hh_stderr h) |> else h <| hh_stdout := push chunk (hh_stdout h) |> |>.

Definition step (ev : Event) (s : Supervisor) : Supervisor :=
  match ev with
  | EvSpawn env manifest io_mode => snd (spawn_with_io env manifest io_mode s)
  | EvReattach env b => snd (reattach env b s)
  | EvWrite env b bytes => snd (write env b bytes s)
  | EvResize env b cols rows => snd (resize env b cols rows s)
  | EvDrain env b offset max_bytes stderr => snd (drain_host env b offset max_bytes stderr s)
  | EvTransit env t receipt previous => snd (transit env t receipt previous s)
  | EvTerminate env b id digest => snd (terminate_idempotent env b id digest s)
  | EvSweep now => sweep_begin now s
  | EvKill env sid => sweep_kill env sid s
  | EvOutput sid stderr chunk =>
      s <| su_hosts := alter (host_output stderr chunk) sid (su_hosts s) |>
        <| su_sweeping := alter (host_output stderr chunk) sid (su_sweeping s) |>
  | EvExit survivors =>
      supervisor_new (su_root s) <| su_orphans := (su_alive s ∪ su_orphans s) ∩ survivors |> <| su_log := su_log s |>
  end.

Definition run (evs : list Event) (s : Supervisor) : Supervisor := fold_left (fun s ev => step ev s) evs s.

(** [host_live]: a look at the live map and then one at the terminations in flight;
    [between] happens after the first lock is released. *)
Definition host_live (sid : string) (between : list Event) (s : Supervisor) : bool :=
  bool_decide (sid ∈ dom (su_hosts s)) || bool_decide (sid ∈ su_terminating (run between s)).
End supervisor.
