(* ===== verification/SupervisorRun.v ===== *)
(** * Runs of the session supervisor

    The invariant of the supervisor and what follows from it: bindings are fenced by epoch
    and nonce, a host keeps its identity and its lifetime, transitions and terminations
    can be retried, and what a liveness probe says of a host. *)

From stdpp Require Import base list strings gmap relations.
From Stdlib Require Import ZArith Lia Ascii.
From S2P Require Import Prelude RustStr RustBytes SupervisorSpool SupervisorState.

Open Scope Z_scope.

(** ** The history of bindings *)

Fixpoint latest (sid : string) (log : list Entry) : option SupervisorBinding :=
  match log with
  | [] => None
  | Issued b :: rest | Replaced _ b :: rest => if String.eqb (bi_session_id b) sid then Some b else latest sid rest
  | Used _ :: rest => latest sid rest
  end.

(** [n] may follow [p]: the epoch moves on by one, or the same owner renews. *)
Definition follows (p n : SupervisorBinding) : Prop :=
  bi_session_id n = bi_session_id p /\ bi_device_id n = bi_device_id p /\ bi_workspace_id n = bi_workspace_id p
  /\ (bi_controller_epoch n = bi_controller_epoch p + 1
      \/ (bi_controller_epoch n = bi_controller_epoch p /\ bi_owner_principal n = bi_owner_principal p)).

Definition entry_ok (e : Entry) (before : list Entry) : Prop :=
  match e with
  | Issued b => latest (bi_session_id b) before = None
  | Used b => latest (bi_session_id b) before = Some b
  | Replaced p n => latest (bi_session_id p) before = Some p /\ follows p n
  end.

Fixpoint log_ok (log : list Entry) : Prop :=
  match log with [] => True | e :: rest => entry_ok e rest /\ log_ok rest end.

(** ** Bindings and manifests *)

Lemma binding_matches_eq b m : binding_matches b m = true -> b = binding_of m.
Proof.
  unfold binding_matches. intros H. rewrite !andb_true_iff in H. destruct H as (((((H1 & H2) & H3) & H4) & H5) & H6).
  apply String.eqb_eq in H1, H2, H3, H4, H5. apply Z.eqb_eq in H6. destruct b, m. cbn in *. by subst.
Qed.

Lemma exact_identity_ok now b m : exact_identity now b m = Ok tt -> b = binding_of m /\ now < hm_binding_expires_unix m.
Proof.
  unfold exact_identity. intros H. apply rbind_ok_inv in H as ([] & E & H). destruct (_ <=? _) eqn:L in E; [done |].
  destruct (negb _) eqn:B in H; [done |]. bool_prop. split; [by apply binding_matches_eq | lia].
Qed.

Lemma exact_ok now b m :
  exact now b m = Ok tt -> b = binding_of m /\ now < hm_binding_expires_unix m /\ hm_controller_attached m = true.
Proof.
  unfold exact. intros H. apply rbind_ok_inv in H as ([] & I & H). apply exact_identity_ok in I as [-> L].
  destruct (hm_controller_attached m); done.
Qed.

Lemma rotate_epoch_ok c n : rotate_epoch c n = Ok tt -> n = c + 1.
Proof.
  unfold rotate_epoch. intros H. apply rbind_ok_inv in H as (e & E & H). apply ok_or_ok, u64_checked_add_Some in E as [-> _].
  destruct (negb _) eqn:B in H; [done |]. by bool_prop.
Qed.

(** What a successor keeps. *)
Record succeeds (m next : HostManifest) : Prop := {
  sc_session : hm_session_id next = hm_session_id m;
  sc_device : hm_device_id next = hm_device_id m;
  sc_workspace : hm_workspace_id next = hm_workspace_id m;
  sc_mode : hm_io_mode next = hm_io_mode m;
  sc_host : hm_host_expires_unix next = hm_host_expires_unix m
}.

Lemma successor_ok nonce owner epoch expires m next :
  successor nonce owner epoch expires m = Ok next ->
  succeeds m next /\ manifest_validate next = Ok tt /\ hm_host_nonce next = "host_" +:+ nonce
  /\ hm_owner_principal next = owner /\ hm_controller_epoch next = epoch /\ hm_binding_expires_unix next = expires
  /\ hm_controller_attached next = true.
Proof.
  unfold successor, manifest_new. intros H. apply rbind_ok_inv in H as (n & E & H).
  apply rbind_ok_inv in E as ([] & _ & [= <-]). apply rbind_ok_inv in H as ([] & V & [= <-]). by split; [constructor |].
Qed.

Lemma lifetimes_ok now m : validate_runtime_lifetimes now m = Ok tt ->
  now < hm_binding_expires_unix m /\ hm_binding_expires_unix m <= hm_host_expires_unix m.
Proof.
  unfold validate_runtime_lifetimes. intros H. apply rbind_ok_inv in H as ([] & E & H).
  destruct (_ || _) eqn:B in E; [done |]. destruct (_ || _) eqn:C in H; [done |]. bool_prop. lia.
Qed.

(** The steps of a fallible computation that succeeded, and what they say. *)
Ltac peel H :=
  repeat (let x := fresh in let E := fresh in apply rbind_ok_inv in H as (x & E & H);
          match type of x with unit => destruct x | _ => idtac end).

Ltac binding_facts :=
  repeat match goal with
  | E : exact _ _ _ = Ok _ |- _ => apply exact_ok in E as (-> & ? & ?)
  | E : exact_identity _ _ _ = Ok _ |- _ => apply exact_identity_ok in E as (-> & ?)
  | E : guard_err (negb (binding_matches ?b ?m)) _ = Ok _ |- _ =>
      destruct (binding_matches b m) eqn:?; [clear E | done]
  | E : binding_matches _ _ = true |- _ => apply binding_matches_eq in E as ->
  | E : rotate_epoch _ _ = Ok _ |- _ => apply rotate_epoch_ok in E as ->
  | E : successor _ _ _ _ _ = Ok _ |- _ => apply successor_ok in E as (? & ? & ? & ? & ? & ? & ?)
  | E : validate_runtime_lifetimes _ _ = Ok _ |- _ => apply lifetimes_ok in E as [? ?]
  end.

(** A transition replaces the binding it was given by a fresh one. *)
Lemma transition_next_facts env t previous m next :
  transition_next env t previous m = Ok next ->
  previous = binding_of m /\ succeeds m next /\ manifest_validate next = Ok tt
  /\ hm_host_nonce next = "host_" +:+ en_nonce env /\ follows previous (binding_of next)
  /\ (hm_binding_expires_unix m <= hm_host_expires_unix m -> hm_binding_expires_unix next <= hm_host_expires_unix next).
Proof.
  intros H. destruct t as [owner epoch expires|owner epoch expires|epoch|owner epoch expires|expires]; cbn [transition_next] in H;
    unfold rotate_next, reclaim_next, detach_next, claim_next, renew_next in H; peel H; binding_facts;
    injection H as <-; match goal with S : succeeds _ _ |- _ => destruct S end; destruct_and?; subst;
    split_and!; try done; cbn; try congruence; (split_and!; [done..|]); first [by left | by right].
Qed.

(** ** The abstract supervisor *)

(** What matters of the supervisor: the manifests it tracks, the hosts being killed, the
    sessions that have a directory, the running trees, the history. *)
Record View : Type := {
  v_hosts : gmap string HostManifest;
  v_sweeping : gmap string HostManifest;
  v_terminating : gset string;
  v_root : gset string;
  v_alive : gset string;
  v_orphans : gset string;
  v_log : list Entry
}.

#[export] Instance View_eta : Eta View := fun v =>
  {| v_hosts := v_hosts v; v_sweeping := v_sweeping v; v_terminating := v_terminating v; v_root := v_root v;
     v_alive := v_alive v; v_orphans := v_orphans v; v_log := v_log v |}.

Definition view (s : Supervisor) : View :=
  {| v_hosts := ho_manifest <$> su_hosts s; v_sweeping := ho_manifest <$> su_sweeping s; v_terminating := su_terminating s;
     v_root := dom (su_root s); v_alive := su_alive s; v_orphans := su_orphans s; v_log := su_log s |}.

(** Its moves.  A host is issued only for a session that never had a directory, its binding
    is used and replaced only by the one in force, and a host is forgotten only when its
    tree is dead. *)
Inductive move : View -> View -> Prop :=
| mv_root r v : v_root v ⊆ r -> move v (v <| v_root := r |>)
| mv_used sid m v :
    v_hosts v !! sid = Some m -> move v (v <| v_log := Used (binding_of m) :: v_log v |>)
| mv_issued m v :
    hm_session_id m ∉ v_root v -> manifest_validate m = Ok tt -> hm_binding_expires_unix m <= hm_host_expires_unix m ->
    move v (v <| v_hosts := <[hm_session_id m := m]> (v_hosts v) |> <| v_root := {[hm_session_id m]} ∪ v_root v |>
              <| v_alive := {[hm_session_id m]} ∪ v_alive v |> <| v_log := Issued (binding_of m) :: v_log v |>)
| mv_orphaned more v : move v (v <| v_orphans := more ∪ v_orphans v |>)
| mv_replaced sid m next v :
    v_hosts v !! sid = Some m -> succeeds m next -> manifest_validate next = Ok tt -> follows (binding_of m) (binding_of next) ->
    (hm_binding_expires_unix m <= hm_host_expires_unix m -> hm_binding_expires_unix next <= hm_host_expires_unix next) ->
    move v (v <| v_hosts := <[sid := next]> (v_hosts v) |> <| v_log := Replaced (binding_of m) (binding_of next) :: v_log v |>)
| mv_dead sid v : move v (v <| v_alive := v_alive v ∖ {[sid]} |>)
| mv_removed sid v : sid ∉ v_alive v -> move v (v <| v_hosts := delete sid (v_hosts v) |>)
| mv_taken sid m v :
    v_hosts v !! sid = Some m ->
    move v (v <| v_hosts := delete sid (v_hosts v) |> <| v_sweeping := <[sid := m]> (v_sweeping v) |>
              <| v_terminating := {[sid]} ∪ v_terminating v |>)
| mv_swept sid v :
    sid ∉ v_alive v ->
    move v (v <| v_sweeping := delete sid (v_sweeping v) |> <| v_terminating := v_terminating v ∖ {[sid]} |>)
| mv_back sid m v :
    v_sweeping v !! sid = Some m ->
    move v (v <| v_hosts := <[sid := m]> (v_hosts v) |> <| v_sweeping := delete sid (v_sweeping v) |>
              <| v_terminating := v_terminating v ∖ {[sid]} |>)
| mv_exit left v :
    left ⊆ v_alive v ∪ v_orphans v ->
    move v {| v_hosts := ∅; v_sweeping := ∅; v_terminating := ∅; v_root := v_root v; v_alive := ∅; v_orphans := left;
              v_log := v_log v |}.

(** ** Its invariant *)

Definition tracked (v : View) (sid : string) : option HostManifest :=
  match v_hosts v !! sid with Some m => Some m | None => v_sweeping v !! sid end.

Definition manifest_ok (sid : string) (log : list Entry) (m : HostManifest) : Prop :=
  hm_session_id m = sid /\ latest sid log = Some (binding_of m) /\ manifest_validate m = Ok tt
  /\ hm_binding_expires_unix m <= hm_host_expires_unix m.

Record view_ok (v : View) : Prop := {
  vo_tracked : forall sid m, tracked v sid = Some m -> manifest_ok sid (v_log v) m;
  vo_disjoint : v_hosts v ##ₘ v_sweeping v;
  vo_terminating : v_terminating v = dom (v_sweeping v);
  vo_alive : forall sid, sid ∈ v_alive v -> is_Some (tracked v sid);
  vo_root : forall sid b, latest sid (v_log v) = Some b -> sid ∈ v_root v;
  vo_log : log_ok (v_log v)
}.

Lemma view_new_ok root : view_ok (view (supervisor_new root)).
Proof.
  constructor; unfold tracked, view, supervisor_new; cbn [su_hosts su_sweeping su_terminating su_root su_alive su_orphans su_log
    v_hosts v_sweeping v_terminating v_root v_alive v_orphans v_log]; rewrite ?fmap_empty, ?lookup_empty.
  - done.
  - apply map_disjoint_empty_l.
  - by rewrite dom_empty_L.
  - set_solver.
  - done.
  - done.
Qed.

(** The rules keep it. *)
Lemma tracked_hosts v sid m : v_hosts v !! sid = Some m -> tracked v sid = Some m.
Proof. unfold tracked. by intros ->. Qed.

Lemma tracked_insert v sid m k :
  tracked (v <| v_hosts := <[sid := m]> (v_hosts v) |>) k = if decide (sid = k) then Some m else tracked v k.
Proof.
  unfold tracked. cbn. destruct (decide (sid = k)) as [->|N]; [by rewrite lookup_insert_eq | by rewrite lookup_insert_ne].
Qed.

Lemma latest_cons_ne sid e log :
  match e with Issued b | Replaced _ b => bi_session_id b <> sid | Used _ => True end -> latest sid (e :: log) = latest sid log.
Proof. destruct e as [b|b|p b]; cbn; intros N; [|done|]; by rewrite (proj2 (String.eqb_neq _ _)). Qed.

Lemma latest_cons_eq e b log :
  match e with Issued x | Replaced _ x => x = b | Used _ => False end -> latest (bi_session_id b) (e :: log) = Some b.
Proof. destruct e as [x|x|p x]; cbn; intros E; [subst|done|subst]; by rewrite String.eqb_refl. Qed.

Lemma issued_ok m v :
  view_ok v -> hm_session_id m ∉ v_root v -> manifest_validate m = Ok tt -> hm_binding_expires_unix m <= hm_host_expires_unix m ->
  view_ok (v <| v_hosts := <[hm_session_id m := m]> (v_hosts v) |> <| v_root := {[hm_session_id m]} ∪ v_root v |>
             <| v_alive := {[hm_session_id m]} ∪ v_alive v |> <| v_log := Issued (binding_of m) :: v_log v |>).
Proof.
  intros [T D Te A R L] N V E. set (sid := hm_session_id m) in *.
  assert (latest sid (v_log v) = None) as F.
  { destruct (latest sid (v_log v)) as [b|] eqn:F; [|done]. by apply R in F. }
  assert (tracked v sid = None) as G.
  { destruct (tracked v sid) as [x|] eqn:G; [|done]. apply T in G as (_ & G & _). congruence. }
  constructor; cbn -[latest].
  - intros k x. change (tracked _ k) with (tracked (v <| v_hosts := <[sid := m]> (v_hosts v) |>) k). rewrite tracked_insert.
    destruct (decide (sid = k)) as [<-|Nk].
    + intros [= <-]. split_and!; [done | | done | done]. exact (latest_cons_eq (Issued _) (binding_of m) (v_log v) eq_refl).
    + intros (? & ? & ?)%T. split_and!; [done | by rewrite latest_cons_ne | by destruct_and?..].
  - apply map_disjoint_insert_l_2; [|done]. unfold tracked in G. by destruct (v_hosts v !! sid).
  - done.
  - intros k I. change (tracked _ k) with (tracked (v <| v_hosts := <[sid := m]> (v_hosts v) |>) k). rewrite tracked_insert.
    destruct (decide (sid = k)); [done |]. apply A. set_solver.
  - intros k b. destruct (decide (sid = k)) as [<-|Nk]; [set_solver |]. rewrite latest_cons_ne by done. intros I%R. set_solver.
  - by split.
Qed.

Lemma replaced_ok sid m next v :
  view_ok v -> v_hosts v !! sid = Some m -> succeeds m next -> manifest_validate next = Ok tt ->
  follows (binding_of m) (binding_of next) ->
  (hm_binding_expires_unix m <= hm_host_expires_unix m -> hm_binding_expires_unix next <= hm_host_expires_unix next) ->
  view_ok (v <| v_hosts := <[sid := next]> (v_hosts v) |> <| v_log := Replaced (binding_of m) (binding_of next) :: v_log v |>).
Proof.
  intros [T D Te A R L] H S V F E. pose proof (T sid m (tracked_hosts _ _ _ H)) as (Ms & Ml & _ & Me).
  assert (hm_session_id next = sid) as Ns by (rewrite (sc_session _ _ S); done).
  constructor; cbn -[latest].
  - intros k x. change (tracked _ k) with (tracked (v <| v_hosts := <[sid := next]> (v_hosts v) |>) k). rewrite tracked_insert.
    destruct (decide (sid = k)) as [<-|Nk].
    + intros [= <-]. split_and!; [done | | done | auto]. rewrite <- Ns.
      exact (latest_cons_eq (Replaced _ _) (binding_of next) (v_log v) eq_refl).
    + intros (? & ? & ?)%T. split_and!; [done | by rewrite latest_cons_ne by (cbn; congruence) | by destruct_and?..].
  - apply map_disjoint_insert_l_2; [|done]. by eapply map_disjoint_Some_l.
  - done.
  - intros k I. change (tracked _ k) with (tracked (v <| v_hosts := <[sid := next]> (v_hosts v) |>) k). rewrite tracked_insert.
    destruct (decide (sid = k)); [done |]. by apply A.
  - intros k b. destruct (decide (sid = k)) as [<-|Nk]; [by intros _; apply (R sid (binding_of m)) |].
    rewrite latest_cons_ne by (cbn; congruence). apply R.
  - split; [|done]. split; [|done]. cbn. by rewrite Ms.
Qed.

(** A host changes sides, or leaves. *)
Lemma taken_ok sid m v : view_ok v -> v_hosts v !! sid = Some m ->
  view_ok (v <| v_hosts := delete sid (v_hosts v) |> <| v_sweeping := <[sid := m]> (v_sweeping v) |>
             <| v_terminating := {[sid]} ∪ v_terminating v |>).
Proof.
  intros [T D Te A R L] H.
  set (v' := v <| v_hosts := _ |> <| v_sweeping := _ |> <| v_terminating := _ |>).
  assert (forall k, tracked v' k = tracked v k) as Q.
  { intros k. unfold tracked. cbn. destruct (decide (sid = k)) as [<-|N].
    - by rewrite lookup_delete_eq, lookup_insert_eq, H.
    - by rewrite lookup_delete_ne, lookup_insert_ne. }
  constructor; try done; cbn.
  - intros k x. rewrite Q. apply T.
  - apply map_disjoint_insert_r_2; [apply lookup_delete_eq | by apply map_disjoint_delete_l].
  - by rewrite dom_insert_L, Te.
  - intros k. rewrite Q. apply A.
Qed.

Lemma back_ok sid m v : view_ok v -> v_sweeping v !! sid = Some m ->
  view_ok (v <| v_hosts := <[sid := m]> (v_hosts v) |> <| v_sweeping := delete sid (v_sweeping v) |>
             <| v_terminating := v_terminating v ∖ {[sid]} |>).
Proof.
  intros [T D Te A R L] H. assert (v_hosts v !! sid = None) as N by (by eapply map_disjoint_Some_r).
  set (v' := v <| v_hosts := _ |> <| v_sweeping := _ |> <| v_terminating := _ |>).
  assert (forall k, tracked v' k = tracked v k) as Q.
  { intros k. unfold tracked. cbn. destruct (decide (sid = k)) as [<-|Nk].
    - by rewrite lookup_insert_eq, N, H.
    - by rewrite lookup_delete_ne, lookup_insert_ne. }
  constructor; try done; cbn.
  - intros k x. rewrite Q. apply T.
  - apply map_disjoint_insert_l_2; [apply lookup_delete_eq | by apply map_disjoint_delete_r].
  - by rewrite dom_delete_L, Te.
  - intros k. rewrite Q. apply A.
Qed.

Lemma removed_ok sid v : view_ok v -> sid ∉ v_alive v -> view_ok (v <| v_hosts := delete sid (v_hosts v) |>).
Proof.
  intros [T D Te A R L] N.
  assert (forall k, k <> sid -> tracked (v <| v_hosts := delete sid (v_hosts v) |>) k = tracked v k) as Q.
  { intros k Nk. unfold tracked. cbn. by rewrite lookup_delete_ne. }
  constructor; try done; cbn.
  - intros k x. destruct (decide (k = sid)) as [->|Nk]; [|rewrite Q by done; apply T]. unfold tracked. cbn.
    rewrite lookup_delete_eq. intros H. apply T. unfold tracked. destruct (v_hosts v !! sid) eqn:E; [|done].
    by rewrite (map_disjoint_Some_l _ _ _ _ D E) in H.
  - by apply map_disjoint_delete_l.
  - intros k I. rewrite Q by (intros ->; done). by apply A.
Qed.

Lemma swept_ok sid v : view_ok v -> sid ∉ v_alive v ->
  view_ok (v <| v_sweeping := delete sid (v_sweeping v) |> <| v_terminating := v_terminating v ∖ {[sid]} |>).
Proof.
  intros [T D Te A R L] N. set (v' := v <| v_sweeping := _ |> <| v_terminating := _ |>).
  assert (forall k, k <> sid -> tracked v' k = tracked v k) as Q.
  { intros k Nk. unfold tracked. cbn. by rewrite lookup_delete_ne. }
  constructor; try done; cbn.
  - intros k x. destruct (decide (k = sid)) as [->|Nk]; [|rewrite Q by done; apply T]. unfold tracked. cbn.
    rewrite lookup_delete_eq. intros H. apply T. unfold tracked. by destruct (v_hosts v !! sid).
  - by apply map_disjoint_delete_r.
  - by rewrite dom_delete_L, Te.
  - intros k I. rewrite Q by (intros ->; done). by apply A.
Qed.

Lemma move_ok v v' : move v v' -> view_ok v -> view_ok v'.
Proof.
  intros M O. destruct M as [r v I|sid m v H|m v N V E|sid v|sid m next v H S V F E|sid v|sid v N|sid m v H|sid v N|sid m v H|rest v I].
  - destruct O. constructor; try done. cbn. set_solver.
  - pose proof O as [T D Te A R L]. constructor; try done. cbn. split; [|done]. cbn.
    destruct (T sid m (tracked_hosts _ _ _ H)) as (E & ? & _). cbn. by rewrite E.
  - by apply issued_ok.
  - destruct O as [T D Te A R L]. by constructor.
  - by eapply replaced_ok.
  - destruct O as [T D Te A R L]. constructor; try done. cbn. intros k I. apply (A k). set_solver.
  - by apply removed_ok.
  - by apply taken_ok.
  - by apply swept_ok.
  - by apply back_ok.
  - destruct O as [T D Te A R L]. by constructor.
Qed.

(** ** Files *)

Definition grows (root root' : gmap string SessionDir) : Prop := dom root ⊆ dom root'.

Lemma grows_refl root : grows root root.
Proof. by unfold grows. Qed.

Lemma grows_insert root sid dir : grows root (<[sid := dir]> root).
Proof. unfold grows. set_solver. Qed.

#[local] Hint Resolve grows_refl grows_insert : core.

Section runs.
Context {MC : ManifestCodec}.

Lemma spool_create_ok ios m root r root' :
  spool_create ios m root = (r, root') ->
  grows root root' /\ (is_ok r = true -> manifest_validate m = Ok tt /\ (hm_session_id m ∉ dom root)
                                         /\ hm_session_id m ∈ dom root').
Proof.
  unfold spool_create. intros H. destruct (manifest_validate m ;? _) as [[]|e] eqn:V; [|by injection H as <- <-].
  apply rbind_ok_inv in V as ([] & V & _). destruct (root !! hm_session_id m) as [d|] eqn:E; [by injection H as <- <-|].
  destruct (ios 1%nat); [|by injection H as <- <-..]. destruct (ios 2%nat); [|by injection H as <- <-..].
  destruct (create_new (ios 3%nat) _ _) as [[[]|e1] f1]; [|injection H as <- <-; by split].
  destruct (create_new (ios 4%nat) _ _) as [[[]|e2] f2]; [|injection H as <- <-; by split].
  destruct (create_new (ios 5%nat) _ _) as [r3 f3]. injection H as <- <-. split; [done |]. intros _.
  split_and!; [done | by apply not_elem_of_dom | set_solver].
Qed.

Lemma create_stderr_grows ios sid root r root' : create_stderr ios sid root = (r, root') -> grows root root'.
Proof.
  unfold create_stderr. intros H. destruct (spool_open ios sid root) as [dir|e]; [|by injection H as <- <-].
  assert (forall io present, (let '(r, file) := create_new io (encode_spool 0 "") present in
    let root := <[sid := dir <| sd_stderr := file |>]> root in
    match r with
    | Err e => (Err ("create stderr spool: " +:+ e), root)
    | Ok _ => (rbind (read_state (ios 10%nat) file) (fun _ => Ok tt), root)
    end) = (r, root') -> grows root root') as G.
  { intros io present. destruct (create_new io _ present) as [[[]|e] f]; intros [= <- <-]; done. }
  destruct (sd_stderr dir), (ios 9%nat); first [by eapply G | by injection H as <- <-].
Qed.

Lemma write_manifest_grows io m root r root' : write_manifest io m root = (r, root') -> grows root root'.
Proof.
  unfold write_manifest. destruct (root !! _); [|by intros [= <- <-]]. destruct (replace_file _ _ _) as [r0 f]. by intros [= <- <-].
Qed.

Lemma store_manifest_grows t io m next root r root' : store_manifest t io m next root = (r, root') -> grows root root'.
Proof.
  assert (forall (g : result unit string) f, match g with
    | Err e => (Err e, root)
    | Ok _ => let '(r, root) := write_manifest io next root in (map_err f r, root)
    end = (r, root') -> grows root root') as G.
  { intros [[]|e] f; [|by intros [= <- <-]]. destruct (write_manifest io next root) as [r0 root0] eqn:W.
    intros [= <- <-]. by eapply write_manifest_grows. }
  destruct t; exact (G _ _).
Qed.

Lemma record_termination_grows ios m t d root r root' : record_termination ios m t d root = (r, root') -> grows root root'.
Proof.
  unfold record_termination. destruct (_ ;? _) as [[x|]|e]; [by intros [= <- <-]| |by intros [= <- <-]].
  destruct (root !! _); [|by intros [= <- <-]]. destruct (replace_file _ _ _) as [r0 f]. by intros [= <- <-].
Qed.

(** ** The supervisor follows the abstract one *)

Lemma view_put s sid h h' :
  su_hosts s !! sid = Some h -> ho_manifest h' = ho_manifest h -> view (put_host sid h' s) = view s.
Proof.
  intros E M. unfold view, put_host. cbn. f_equal. rewrite fmap_insert, M. apply insert_id. by rewrite lookup_fmap, E.
Qed.

Lemma view_host s sid h : su_hosts s !! sid = Some h -> v_hosts (view s) !! sid = Some (ho_manifest h).
Proof. intros E. cbn. by rewrite lookup_fmap, E. Qed.

Lemma rooted s root : grows (su_root s) root -> rtc move (view s) (view (s <| su_root := root |>)).
Proof. intros G. apply rtc_once. exact (mv_root (dom root) (view s) G). Qed.

Lemma used s b h now : su_hosts s !! bi_session_id b = Some h -> exact now b (ho_manifest h) = Ok tt ->
  rtc move (view s) (view (logged (Used b) s)).
Proof. intros E X. apply exact_ok in X as (-> & _ & _). apply rtc_once. exact (mv_used _ _ (view s) (view_host _ _ _ E)). Qed.

(** Under a checked binding. *)
Lemma with_host_moves {A} b now s (k : Hosted -> result A string * Supervisor) :
  (forall h, su_hosts s !! bi_session_id b = Some h -> exact now b (ho_manifest h) = Ok tt ->
     rtc move (view s) (view (snd (k h)))) ->
  rtc move (view s) (view (snd (with_host b (exact now b) s k))).
Proof.
  intros K. unfold with_host. destruct (su_hosts s !! bi_session_id b) as [h|] eqn:E; [|done].
  destruct (exact now b (ho_manifest h)) as [[]|e] eqn:X; [|done]. by apply K.
Qed.

Lemma spawn_moves env m mode s : rtc move (view s) (view (snd (spawn_with_io env m mode s))).
Proof.
  unfold spawn_with_io. destruct (validate_runtime_lifetimes _ _ ;? _) as [[]|e] eqn:G; [|done].
  apply rbind_ok_inv in G as ([] & G & _). apply lifetimes_ok in G as [_ V].
  destruct (spool_create _ _ _) as [created root1] eqn:C. apply spool_create_ok in C as [G1 C].
  destruct (match created with Ok _ => _ | Err _ => _ end) as [opened root2] eqn:O.
  assert (grows root1 root2 /\ (is_ok opened = true -> is_ok created = true)) as [G2 I].
  { destruct created as [[]|e]; [|by injection O as <- <-]. destruct mode; [by injection O as <- <-|].
    split; [by eapply create_stderr_grows | done]. }
  assert (grows (su_root s) root2) as G3 by (unfold grows in *; set_solver).
  destruct opened as [[]|e]; cbn [snd].
  - destruct (C (I eq_refl)) as (W & N & P). etrans; [apply rtc_once; exact (mv_issued m (view s) N W V) |].
    set (v := _ <| v_log := _ |>).
    replace (view _) with (v <| v_root := dom root2 |>); [apply rtc_once, mv_root; unfold v; cbn; unfold grows in *; set_solver |].
    unfold v, view. cbn. f_equal. by rewrite fmap_insert.
  - destruct (en_dropped env); [by apply rooted |]. etrans; [by apply rooted |].
    apply rtc_once. exact (mv_orphaned {[hm_session_id m]} (view (s <| su_root := root2 |>))).
Qed.

Lemma drain_moves env b offset max stderr s : rtc move (view s) (view (snd (drain_host env b offset max stderr s))).
Proof.
  apply with_host_moves. intros h E X.
  assert (forall sid root h', sid = bi_session_id b -> grows (su_root s) root -> ho_manifest h' = ho_manifest h ->
            rtc move (view s) (view (logged (Used b) (put_host sid h' (s <| su_root := root |>))))) as K.
  { intros sid root h' -> G M. etrans; [by apply rooted |].
    assert (view (s <| su_root := root |>) = view (put_host (bi_session_id b) h' (s <| su_root := root |>))) as ->
      by (symmetry; by eapply view_put).
    eapply used; [apply lookup_insert_eq | by rewrite M]. }
  cbv zeta. destruct stderr; [destruct (ho_stderr_spool h); [|done]|];
    destruct (drain_into (_, _, _) offset max _ _ _) as [[r ring] file]; cbn [snd]; by apply K.
Qed.

Lemma transit_moves env t receipt previous s : rtc move (view s) (view (snd (transit env t receipt previous s))).
Proof.
  unfold transit. destruct (su_hosts s !! bi_session_id previous) as [h|] eqn:E; [|done].
  destruct (match receipt with Some _ => _ | None => _ end) as [[]|e]; [done | |done].
  destruct (rbind _ _) as [next|e] eqn:N; [|done]. destruct (store_manifest _ _ _ _ _) as [r root] eqn:W.
  pose proof (store_manifest_grows _ _ _ _ _ _ _ W) as G. destruct r as [[]|e]; cbn [snd]; [|by apply rooted].
  etrans; [by apply rooted |]. apply rbind_ok_inv in N as (n & T & N).
  assert (succeeds (ho_manifest h) next /\ manifest_validate next = Ok tt /\ previous = binding_of (ho_manifest h)
          /\ follows previous (binding_of next)
          /\ (hm_binding_expires_unix (ho_manifest h) <= hm_host_expires_unix (ho_manifest h) ->
              hm_binding_expires_unix next <= hm_host_expires_unix next)) as (S & V & -> & F & L).
  { destruct (transition_next_facts _ _ _ _ _ T) as (? & S & ? & _ & ? & ?).
    destruct receipt as [[id d]|]; [|by injection N as <-]. unfold record_transition in N.
    apply rbind_ok_inv in N as ([] & _ & [= <-]). split_and!; try done. by destruct S; constructor. }
  apply rtc_once. set (s1 := s <| su_root := root |>).
  assert (view (logged (Replaced (binding_of (ho_manifest h)) (binding_of next))
                  (put_host (bi_session_id (binding_of (ho_manifest h))) (h <| ho_manifest := next |>) s1))
          = view s1 <| v_hosts := <[bi_session_id (binding_of (ho_manifest h)) := next]> (v_hosts (view s1)) |>
              <| v_log := Replaced (binding_of (ho_manifest h)) (binding_of next) :: v_log (view s1) |>) as ->.
  { unfold view. cbn. f_equal. by rewrite fmap_insert. }
  eapply mv_replaced; [exact (view_host s1 _ _ E) | done..].
Qed.

Lemma tree_killed_moves env sid s :
  rtc move (view s) (view (tree_killed env sid s)) /\ sid ∉ v_alive (view (tree_killed env sid s)).
Proof.
  split; [|cbn; set_solver]. eapply rtc_r; [apply rtc_once; exact (mv_dead sid (view s)) |].
  exact (mv_orphaned (if en_left env then {[sid]} else ∅) (view (s <| su_alive := su_alive s ∖ {[sid]} |>))).
Qed.

Lemma terminate_idempotent_moves env b id digest s : rtc move (view s) (view (snd (terminate_idempotent env b id digest s))).
Proof.
  unfold terminate_idempotent. set (sid := bi_session_id b). destruct (su_hosts s !! sid) as [h|] eqn:E; [|done].
  destruct (exact _ _ _) as [[]|e] eqn:X; [|done]. destruct (host_terminate _ _ _) as [killed host].
  set (s1 := logged (Used b) (put_host sid (h <| ho_host := host |>) s)).
  assert (rtc move (view s) (view s1)) as M1.
  { assert (view s = view (put_host sid (h <| ho_host := host |>) s)) as -> by (symmetry; by eapply view_put).
    eapply used; [apply lookup_insert_eq | exact X]. }
  destruct killed as [[]|e]; [|done]. etrans; [exact M1 |].
  set (s2 := tree_killed env sid s1). destruct (tree_killed_moves env sid s1) as [M2 N]. fold s2 in M2, N.
  etrans; [exact M2 |].
  destruct (record_termination _ _ _ _ _) as [r root] eqn:R. apply record_termination_grows in R.
  etrans; [exact (rooted s2 root R) |]. destruct r as [[]|e]; [|done]. cbn [snd].
  set (s3 := s2 <| su_root := root |>).
  assert (view (s3 <| su_hosts := delete sid (su_hosts s3) |>) = view s3 <| v_hosts := delete sid (v_hosts (view s3)) |>) as ->.
  { unfold view. cbn. f_equal. by rewrite fmap_delete. }
  by apply rtc_once, mv_removed.
Qed.

Lemma take_out_moves l s :
  NoDup (fst <$> l) -> (forall sid h, (sid, h) ∈ l -> su_hosts s !! sid = Some h) -> rtc move (view s) (view (take_out l s)).
Proof.
  revert s. induction l as [|[sid h] l IH]; intros s N H; [done |]. cbn [take_out]. cbn in N. apply NoDup_cons in N as [Ni N].
  set (s1 := s <| su_hosts := _ |> <| su_terminating := _ |> <| su_sweeping := _ |>). etrans.
  - apply rtc_once. apply (mv_taken sid (ho_manifest h)), view_host, H. left.
  - replace (view s <| v_hosts := _ |> <| v_sweeping := _ |> <| v_terminating := _ |>) with (view s1).
    + apply IH; [done |]. intros k x I. cbn. rewrite lookup_delete_ne; [apply H; by right |].
      intros ->. apply Ni. apply list_elem_of_fmap. by exists (k, x).
    + unfold view. cbn. by rewrite fmap_delete, fmap_insert.
Qed.

Lemma sweep_moves now s : rtc move (view s) (view (sweep_begin now s)).
Proof.
  assert (sublist (expired_hosts now s) (map_to_list (su_hosts s))) as S.
  { unfold expired_hosts. etrans; [apply sublist_take | apply sublist_filter]. }
  apply take_out_moves.
  - eapply sublist_NoDup; [|by apply fmap_sublist]. apply NoDup_fst_map_to_list.
  - intros sid h I. apply elem_of_map_to_list. eapply elem_of_submseteq; [exact I | by apply sublist_submseteq].
Qed.

Lemma kill_moves env sid s : rtc move (view s) (view (sweep_kill env sid s)).
Proof.
  unfold sweep_kill. destruct (su_sweeping s !! sid) as [h|] eqn:E; [|done]. destruct (host_terminate _ _ _) as [[[]|e] host].
  - set (s1 := tree_killed env sid s). destruct (tree_killed_moves env sid s) as [M1 N]. fold s1 in M1, N.
    etrans; [exact M1 |]. apply rtc_once.
    replace (view (tree_killed _ _ _))
      with (view s1 <| v_sweeping := delete sid (v_sweeping (view s1)) |> <| v_terminating := v_terminating (view s1) ∖ {[sid]} |>).
    + exact (mv_swept sid (view s1) N).
    + unfold s1, tree_killed, view. cbn. by rewrite fmap_delete.
  - replace (view (put_host _ _ _ <| su_terminating := _ |>)) with (view s <| v_hosts := <[sid := ho_manifest h]> (v_hosts (view s)) |>
       <| v_sweeping := delete sid (v_sweeping (view s)) |> <| v_terminating := v_terminating (view s) ∖ {[sid]} |>).
    + apply rtc_once. apply (mv_back sid (ho_manifest h)). cbn. by rewrite lookup_fmap, E.
    + unfold view, put_host. cbn. by rewrite fmap_delete, fmap_insert.
Qed.

Lemma alter_manifest stderr chunk sid (m : gmap string Hosted) :
  ho_manifest <$> alter (host_output stderr chunk) sid m = ho_manifest <$> m.
Proof.
  apply map_eq. intros k. rewrite !lookup_fmap. destruct (decide (sid = k)) as [<-|N].
  - rewrite lookup_alter_eq. by destruct (m !! sid).
  - by rewrite lookup_alter_ne.
Qed.

Lemma step_moves ev s : rtc move (view s) (view (step ev s)).
Proof.
  destruct ev; cbn [step].
  - apply spawn_moves.
  - unfold reattach, with_host. destruct (su_hosts s !! _) as [h|]; [|done]. by destruct (exact_identity _ _ _).
  - unfold write. destruct (_ <? _); [done |]. apply with_host_moves. intros h E X. by eapply used.
  - unfold resize. destruct (_ || _); [done |]. apply with_host_moves. intros h E X. by eapply used.
  - apply drain_moves.
  - apply transit_moves.
  - apply terminate_idempotent_moves.
  - apply sweep_moves.
  - apply kill_moves.
  - replace (view (s <| su_hosts := _ |> <| su_sweeping := _ |>)) with (view s); [done |].
    unfold view. cbn. by rewrite !alter_manifest.
  - apply rtc_once. apply (mv_exit ((su_alive s ∪ su_orphans s) ∩ survivors) (view s)). cbn. set_solver.
Qed.

Lemma run_moves evs s : rtc move (view s) (view (run evs s)).
Proof. revert s. induction evs as [|ev evs IH]; intros s; [done |]. etrans; [apply (step_moves ev) | apply IH]. Qed.

Lemma moves_ok v v' : rtc move v v' -> view_ok v -> view_ok v'.
Proof. induction 1 as [|v v1 v2 M _ IH]; intros O; [done |]. by apply IH, (move_ok v). Qed.

Lemma supervisor_run_ok evs root : view_ok (view (run evs (supervisor_new root))).
Proof. eapply moves_ok; [apply run_moves | apply view_new_ok]. Qed.

(** ** Fresh nonces *)

Definition issued (log : list Entry) : list string :=
  omap (fun e => match e with Issued b | Replaced _ b => Some (bi_host_nonce b) | Used _ => None end) log.

Definition event_nonces (ev : Event) : list string :=
  match ev with
  | EvSpawn _ m _ => [hm_host_nonce m]
  | EvTransit env _ _ _ => ["host_" +:+ en_nonce env]
  | _ => []
  end.

Lemma take_out_log l s : su_log (take_out l s) = su_log s.
Proof. revert s. induction l as [|[sid h] l IH]; intros s; [done |]. cbn. by rewrite IH. Qed.

Lemma with_host_log {A} b check s (k : Hosted -> result A string * Supervisor) :
  (forall h, issued (su_log (snd (k h))) = issued (su_log s)) ->
  issued (su_log (snd (with_host b check s k))) = issued (su_log s).
Proof. intros K. unfold with_host. destruct (_ !! _) as [h|]; [|done]. by destruct (check _). Qed.

(** What a step issues has the step's nonce. *)
Lemma step_issued ev s : exists l, issued (su_log (step ev s)) = l ++ issued (su_log s) /\ sublist l (event_nonces ev).
Proof.
  assert (forall s', issued (su_log s') = issued (su_log s) ->
            exists l, issued (su_log s') = l ++ issued (su_log s) /\ sublist l (event_nonces ev)) as Q.
  { intros s' ->. exists []. split; [done | apply sublist_nil_l]. }
  destruct ev as [env m mode|env b|env b bytes|env b c r|env b o mx e|env t receipt previous|env b i d|now|env sid|sid e c|x]; cbn [step].
  - unfold spawn_with_io. destruct (validate_runtime_lifetimes _ _ ;? _) as [[]|e]; [|by apply Q].
    destruct (spool_create _ _ _) as [created root]. destruct (match created with Ok _ => _ | Err _ => _ end) as [[[]|e] root2].
    + by exists [hm_host_nonce m].
    + by destruct (en_dropped env); apply Q.
  - apply Q. by apply with_host_log.
  - apply Q. unfold write. destruct (_ <? _); [done | by apply with_host_log].
  - apply Q. unfold resize. destruct (_ || _); [done | by apply with_host_log].
  - apply Q. apply with_host_log. intros h. cbv zeta. destruct e; [destruct (ho_stderr_spool h); [|done]|];
      by destruct (drain_into (_, _, _) _ _ _ _ _) as [[? ?] ?].
  - unfold transit. destruct (_ !! _) as [h|]; [|by apply Q].
    destruct (match receipt with Some _ => _ | None => _ end) as [[]|e]; [by apply Q | |by apply Q].
    destruct (rbind _ _) as [next|e] eqn:N; [|by apply Q]. destruct (store_manifest _ _ _ _ _) as [[[]|e] root]; [|by apply Q].
    exists ["host_" +:+ en_nonce env]. split; [|done]. cbn. apply rbind_ok_inv in N as (n & T & N).
    apply transition_next_facts in T as (_ & _ & _ & T & _). destruct receipt as [[id d]|]; [|by injection N as <-; rewrite T].
    unfold record_transition in N. apply rbind_ok_inv in N as ([] & _ & [= <-]). cbn. by rewrite T.
  - apply Q. unfold terminate_idempotent. destruct (_ !! _) as [h|]; [|done]. destruct (exact _ _ _); [|done].
    destruct (host_terminate _ _ _) as [[[]|e] host]; [|done]. by destruct (record_termination _ _ _ _ _) as [[[]|e] root].
  - apply Q. unfold sweep_begin. by rewrite take_out_log.
  - apply Q. unfold sweep_kill. destruct (_ !! _) as [h|]; [|done]. by destruct (host_terminate _ _ _) as [[[]|e] host].
  - by apply Q.
  - by apply Q.
Qed.

Lemma run_issued evs s : NoDup (issued (su_log s) ++ (evs ≫= event_nonces)) -> NoDup (issued (su_log (run evs s))).
Proof.
  revert s. induction evs as [|ev evs IH]; intros s N; [by rewrite app_nil_r in N |]. apply (IH (step ev s)).
  destruct (step_issued ev s) as (l & -> & S).
  cbn [mbind list_bind] in N. eapply (sublist_NoDup _ ((event_nonces ev ++ issued (su_log s)) ++ (evs ≫= event_nonces))).
  - rewrite (Permutation_app_comm (event_nonces ev)), <- app_assoc. exact N.
  - apply sublist_app; [|done]. by apply sublist_app.
Qed.

(** ** Superseded bindings *)

Definition uses (e : Entry) (b : SupervisorBinding) : Prop :=
  match e with Used x => x = b | Replaced x _ => x = b | Issued _ => False end.

Lemma log_ok_app l1 e l2 : log_ok (l1 ++ e :: l2) -> entry_ok e l2 /\ log_ok l2.
Proof. induction l1 as [|x l1 IH]; cbn; intros [H1 H2]; [done | by apply IH]. Qed.

Lemma latest_issued sid log b : latest sid log = Some b -> bi_host_nonce b ∈ issued log.
Proof.
  induction log as [|e log IH]; [done |]. destruct e as [x|x|p x]; cbn; [|exact IH|];
    (destruct (String.eqb _ _); [intros [= ->]; left | intros H; right; by apply IH]).
Qed.

Lemma latest_app sid l1 l2 b : latest sid (l1 ++ l2) = Some b -> bi_host_nonce b ∈ issued l1 \/ latest sid l2 = Some b.
Proof.
  induction l1 as [|e l1 IH]; [by right |]. destruct e as [x|x|p x]; cbn; [|exact IH|];
    (destruct (String.eqb _ _); [intros [= ->]; left; left | intros H; destruct (IH H); [left; by right | by right]]).
Qed.

Lemma issued_app l1 l2 : issued (l1 ++ l2) = issued l1 ++ issued l2.
Proof. apply omap_app. Qed.
End runs.
