(* ===== verification/SupervisorFence.v ===== *)
(** * What the session supervisor promises

    Bindings are fenced, a host keeps its identity and lifetime, a transition and a
    termination can be retried after a lost reply, and what a liveness probe tells the
    daemon. *)

From stdpp Require Import base list strings gmap relations.
From Stdlib Require Import ZArith Lia Ascii.
From S2P Require Import Prelude RustStr RustBytes SupervisorSpool SupervisorState SupervisorRun.

Open Scope Z_scope.

(** ** A host over time *)

Lemma move_log v v1 : move v v1 -> exists l, v_log v1 = l ++ v_log v.
Proof. intros M. destruct M; cbn; first [by exists [] | by eexists [_]]. Qed.

Lemma moves_log v v' : rtc move v v' -> exists l, v_log v' = l ++ v_log v.
Proof.
  induction 1 as [|v v1 v2 M _ (l & IH)]; [by exists [] |]. destruct (move_log _ _ M) as (k & E). exists (l ++ k).
  by rewrite IH, E, app_assoc.
Qed.

(** A tracked manifest was there, or replaces one that was, or is new. *)
Lemma move_tracked v v1 sid m1 :
  move v v1 -> view_ok v -> tracked v1 sid = Some m1 ->
  tracked v sid = Some m1
  \/ (exists m n, tracked v sid = Some m /\ succeeds m m1 /\ hm_controller_epoch m <= hm_controller_epoch m1
        /\ v_log v1 = Replaced (binding_of m) n :: v_log v)
  \/ latest sid (v_log v) = None.
Proof.
  intros M O T. destruct M as [r v I|k m v H|m v N V E|k v|k m next v H S V F E|k v|k v N|k m v H|k v N|k m v H|rest v I];
    try (left; exact T).
  - destruct (decide (hm_session_id m = sid)) as [<-|Ns].
    + right; right. destruct (latest _ _) as [b|] eqn:L; [|done]. by apply (vo_root _ O) in L.
    + left. unfold tracked in *. cbn in T. by rewrite lookup_insert_ne in T.
  - destruct (decide (k = sid)) as [<-|Ns].
    + right; left. unfold tracked in T. cbn in T. rewrite lookup_insert_eq in T. injection T as <-.
      exists m, (binding_of next). split_and!; [by apply tracked_hosts | done | | done]. destruct F as (_ & _ & _ & [F|[F _]]); cbn in F; lia.
    + left. unfold tracked in *. cbn in T. by rewrite lookup_insert_ne in T.
  - left. unfold tracked in *. cbn in T. destruct (decide (k = sid)) as [<-|Ns]; [|by rewrite lookup_delete_ne in T].
    rewrite lookup_delete_eq in T. by rewrite (map_disjoint_Some_r _ _ _ _ (vo_disjoint _ O) T).
  - left. unfold tracked in *. cbn in T. destruct (decide (k = sid)) as [<-|Ns].
    + by rewrite lookup_delete_eq, lookup_insert_eq in T; rewrite H.
    + by rewrite lookup_delete_ne, lookup_insert_ne in T.
  - left. unfold tracked in *. cbn in T. destruct (v_hosts v !! sid); [done |]. destruct (decide (k = sid)) as [<-|Ns].
    + by rewrite lookup_delete_eq in T.
    + by rewrite lookup_delete_ne in T.
  - left. unfold tracked in *. cbn in T. destruct (decide (k = sid)) as [<-|Ns].
    + rewrite lookup_insert_eq in T. by rewrite (map_disjoint_Some_r _ _ _ _ (vo_disjoint _ O) H), H.
    + by rewrite lookup_insert_ne, lookup_delete_ne in T.
  - done.
Qed.

(** Once issued, a session has one host, and it changes only by replacements. *)
Lemma latest_more sid l log b : latest sid log = Some b -> exists b', latest sid (l ++ log) = Some b'.
Proof.
  intros H. induction l as [|e l (b' & IH)]; [by exists b |]. destruct e as [x|x|p x]; cbn; eauto;
    destruct (String.eqb _ _); eauto.
Qed.

Lemma moves_tracked v v' sid m' :
  rtc move v v' -> view_ok v -> is_Some (latest sid (v_log v)) -> tracked v' sid = Some m' ->
  exists m, tracked v sid = Some m /\ succeeds m m' /\ hm_controller_epoch m <= hm_controller_epoch m'
  /\ (m = m' \/ exists l p n, v_log v' = l ++ v_log v /\ Replaced p n ∈ l /\ bi_session_id p = sid).
Proof.
  intros R. induction R as [v|v v1 v2 M R IH]; intros O I T; [exists m'; split_and!; [done | by constructor | lia | by left] |].
  destruct (move_log _ _ M) as (k & Ek). pose proof (move_ok _ _ M O) as O1.
  destruct IH as (m1 & T1 & S1 & L1 & C1); [done | rewrite Ek; destruct I as [b I]; by eapply latest_more | done |].
  destruct (move_tracked _ _ _ _ M O T1) as [T0|[(m & n & T0 & S0 & L0 & E0)|N]]; [| |by rewrite N in I; destruct I].
  - exists m1. split_and!; [done..|]. destruct C1 as [->|(l & p & n & El & Ip & Sp)]; [by left | right].
    exists (l ++ k), p, n. rewrite El, Ek, app_assoc. split_and!; [done | set_solver | done].
  - exists m. split_and!; [done | destruct S0, S1; constructor; congruence | lia |]. right.
    destruct (moves_log _ _ R) as (l & El). exists (l ++ [Replaced (binding_of m) n]), (binding_of m), n.
    rewrite El, E0, <- app_assoc. split_and!; [done | set_solver |]. by destruct (vo_tracked _ O _ _ T0).
Qed.

Section promises.
Context {MC : ManifestCodec}.

(** C11: a superseded binding reaches nothing.  Over every run of the supervisor, with failing
    writes, sweeps, exits and restarts, a host is touched, and its binding replaced, only with
    the binding issued last for its session; each replacement moves the controller epoch on
    by one or renews it for the same owner; and if nonces are fresh, a binding that was
    replaced is never used again. *)
Theorem superseded_never_used evs root :
  NoDup (evs ≫= event_nonces) ->
  let log := su_log (run evs (supervisor_new root)) in
  (forall l1 e l2, log = l1 ++ e :: l2 -> entry_ok e l2)
  /\ (forall l1 e l2 b n l3, log = l1 ++ e :: l2 ++ Replaced b n :: l3 -> ~ uses e b).
Proof.
  intros N log. pose proof (vo_log _ (supervisor_run_ok evs root)) as L. change (v_log _) with log in L.
  pose proof (run_issued evs (supervisor_new root) N) as I. fold log in I. split.
  - intros l1 e l2 E. rewrite E in L. by apply log_ok_app in L as [? _].
  - intros l1 e l2 b n l3 E U. rewrite E in L, I. pose proof L as L0. apply log_ok_app in L as [Oe L].
    apply log_ok_app in L as [[Ol [Sn _]] _]. apply latest_issued in Ol.
    assert (latest (bi_session_id b) (l2 ++ Replaced b n :: l3) = Some b) as F.
    { destruct e as [x|x|x y]; cbn in U; [done | by subst | by subst; destruct Oe]. }
    change (e :: l2 ++ Replaced b n :: l3) with ([e] ++ l2 ++ Replaced b n :: l3) in I.
    rewrite !issued_app in I. cbn [issued omap list_omap] in I. apply NoDup_app in I as (_ & _ & I).
    apply NoDup_app in I as (_ & _ & I). apply NoDup_app in I as (_ & D & I). apply NoDup_cons in I as [Nn _].
    apply latest_app in F as [F|F]; [by apply (D _ F), list_elem_of_further |].
    cbn in F. rewrite Sn, String.eqb_refl in F. by injection F as ->.
Qed.

(** C32: no controller changes what a host is or how long it may run.  Whatever happens between
    two moments at which a session's host is tracked, its device, workspace, input mode
    and hard expiry are the same, its controller epoch has not gone back, and no binding
    is valid beyond the host's expiry. *)
Theorem host_life_fixed evs evs' root sid m m' :
  let s := run evs (supervisor_new root) in
  tracked (view s) sid = Some m -> tracked (view (run evs' s)) sid = Some m' ->
  succeeds m m' /\ hm_controller_epoch m <= hm_controller_epoch m' /\ hm_binding_expires_unix m' <= hm_host_expires_unix m.
Proof.
  intros s T T'. pose proof (supervisor_run_ok evs root) as O. fold s in O. pose proof (moves_ok _ _ (run_moves evs' s) O) as O'.
  destruct (vo_tracked _ O _ _ T) as (_ & L & _). destruct (vo_tracked _ O' _ _ T') as (_ & _ & _ & E').
  destruct (moves_tracked _ _ sid m' (run_moves evs' s) O) as (m0 & T0 & S & L0 & _); [by rewrite L | done |].
  rewrite T in T0. injection T0 as <-. split_and!; [done | done |]. by rewrite <- (sc_host _ _ S).
Qed.

(** The receipt of a transition is in the manifest it leaves. *)
Lemma transit_receipt env t id digest previous s b s1 :
  transit env t (Some (id, digest)) previous s = (Ok b, s1) ->
  exists m, tracked (view s1) (bi_session_id previous) = Some m /\ b = binding_of m
  /\ hm_last_transition m = Some {| tr_transition_id := id; tr_payload_digest := digest |}
  /\ validate_transition id digest = Ok tt.
Proof.
  unfold transit. destruct (su_hosts s !! _) as [h|] eqn:H; [|done].
  destruct (matches_transition id digest (ho_manifest h)) as [[]|e] eqn:Mt; [| |done].
  - intros [= <- <-]. exists (ho_manifest h). split_and!; [apply tracked_hosts, view_host, H | done | |];
      unfold matches_transition in Mt; apply rbind_ok_inv in Mt as ([] & V & Mt); [|done].
    destruct (hm_last_transition _) as [[i d]|]; [|done]. cbn in Mt. destruct (String.eqb_spec i id); [|done].
    destruct (String.eqb_spec d digest); [by subst | done].
  - destruct (rbind _ _) as [next|e] eqn:N; [|done]. destruct (store_manifest _ _ _ _ _) as [[[]|e] root']; [|done].
    intros [= <- <-]. exists next. apply rbind_ok_inv in N as (n & _ & N). unfold record_transition in N.
    apply rbind_ok_inv in N as ([] & V & [= <-]). split_and!; try done. apply tracked_hosts. cbn.
    by rewrite lookup_fmap, lookup_insert_eq.
Qed.

(** An interrupted transition can be retried.  After a transition with a receipt has
    succeeded, and until another one replaces the binding, every retry with its id and
    digest, by whatever stale binding and at whatever time, returns the binding that was
    issued and changes nothing; and its id with another digest is refused. *)
Theorem transition_retried evs root env t id digest previous b s1 evs' l :
  let s := run evs (supervisor_new root) in
  transit env t (Some (id, digest)) previous s = (Ok b, s1) ->
  let s2 := run evs' s1 in
  su_log s2 = l ++ su_log s1 -> (forall p n, Replaced p n ∈ l -> bi_session_id p <> bi_session_id previous) ->
  is_Some (su_hosts s2 !! bi_session_id previous) ->
  forall env' t' stale, bi_session_id stale = bi_session_id previous ->
  transit env' t' (Some (id, digest)) stale s2 = (Ok b, s2)
  /\ forall other, other <> digest -> exists e, transit env' t' (Some (id, other)) stale s2 = (Err e, s2).
Proof.
  intros s Tr s2 El Nr [h2 H2] env' t' stale St. pose proof (supervisor_run_ok evs root) as O. fold s in O.
  assert (s1 = step (EvTransit env t (Some (id, digest)) previous) s) as E1 by (cbn; by rewrite Tr).
  assert (view_ok (view s1)) as O1 by (rewrite E1; eapply moves_ok; [apply step_moves | exact O]).
  set (sid := bi_session_id previous) in *.
  destruct (transit_receipt _ _ _ _ _ _ _ _ Tr) as (m & T1 & -> & Lm & V). fold sid in T1.
  destruct (vo_tracked _ O1 _ _ T1) as (_ & Lt & _).
  destruct (moves_tracked _ _ sid (ho_manifest h2) (run_moves evs' s1) O1) as (m0 & T0 & _ & _ & C);
    [by rewrite Lt | by apply tracked_hosts, view_host |].
  rewrite T1 in T0. injection T0 as <-.
  assert (ho_manifest h2 = m) as Em.
  { destruct C as [->|(l' & p & n & El' & Ip & Sp)]; [done |]. exfalso. apply (Nr p n); [|done].
    change (v_log (view s1)) with (su_log s1) in El'. change (v_log (view (run evs' s1))) with (su_log s2) in El'.
    rewrite El in El'. by apply app_inv_tail in El' as ->. }
  unfold transit. rewrite St. fold sid. rewrite H2, Em. unfold matches_transition. rewrite V, Lm. cbn [rbind tr_transition_id tr_payload_digest].
  rewrite !String.eqb_refl. split; [done |]. intros other Ne. destruct (validate_transition id other) as [[]|e]; cbn [rbind]; [|by eexists].
  rewrite (proj2 (String.eqb_neq digest other)) by congruence. by eexists.
Qed.

(** ** Sessions without a host *)

(** What a step of others leaves to a session that has a directory and no host in the map. *)
Definition apart (sid : string) (s s' : Supervisor) : Prop :=
  su_hosts s' !! sid = None /\ (is_Some (su_sweeping s' !! sid) <-> is_Some (su_sweeping s !! sid))
  /\ su_root s' !! sid = su_root s !! sid.

Lemma take_out_apart l s sid : (forall k h, (k, h) ∈ l -> k <> sid) -> su_hosts s !! sid = None -> apart sid s (take_out l s).
Proof.
  revert s. induction l as [|[k h] l IH]; intros s N H; [done |]. cbn [take_out].
  set (s1 := s <| su_hosts := _ |> <| su_terminating := _ |> <| su_sweeping := _ |>).
  assert (k <> sid) as Nk by (apply (N k h); left).
  destruct (IH s1) as (A & B & C); [intros k' h' I; apply (N k' h'); by right | cbn; by rewrite lookup_delete_ne |].
  split_and!; [done | rewrite B | done]. cbn. by rewrite lookup_insert_ne.
Qed.

Lemma write_manifest_apart io next root r root' sid :
  write_manifest io next root = (r, root') -> hm_session_id next <> sid -> root' !! sid = root !! sid.
Proof.
  unfold write_manifest. destruct (root !! _); [|by intros [= <- <-]]. destruct (replace_file _ _ _) as [r0 f].
  intros [= <- <-] N. by rewrite lookup_insert_ne.
Qed.

Lemma store_manifest_apart t io m next root r root' sid :
  store_manifest t io m next root = (r, root') -> hm_session_id next <> sid -> root' !! sid = root !! sid.
Proof.
  intros H N. assert (forall (g : result unit string) f, match g with
    | Err e => (Err e, root)
    | Ok _ => let '(r, root) := write_manifest io next root in (map_err f r, root)
    end = (r, root') -> root' !! sid = root !! sid) as G.
  { intros [[]|e] f; [|by intros [= <- <-]]. destruct (write_manifest io next root) as [r0 root0] eqn:W.
    intros [= <- <-]. by eapply write_manifest_apart. }
  destruct t; exact (G _ _ H).
Qed.

Lemma record_termination_apart ios m id d root r root' sid :
  record_termination ios m id d root = (r, root') -> hm_session_id m <> sid -> root' !! sid = root !! sid.
Proof.
  unfold record_termination. destruct (_ ;? _) as [[x|]|e]; [by intros [= <- <-]| |by intros [= <- <-]].
  destruct (root !! _); [|by intros [= <- <-]]. destruct (replace_file _ _ _) as [r0 f]. intros [= <- <-] N.
  by rewrite lookup_insert_ne.
Qed.

Lemma spool_create_apart ios m root r root' sid :
  spool_create ios m root = (r, root') -> is_Some (root !! sid) -> root' !! sid = root !! sid.
Proof.
  intros H I. unfold spool_create in H. destruct (manifest_validate m ;? _) as [[]|e]; [|by injection H as <- <-].
  destruct (root !! hm_session_id m) as [d|] eqn:E; [by injection H as <- <-|].
  assert (hm_session_id m <> sid) as N by (intros <-; rewrite E in I; by destruct I).
  destruct (ios 1%nat); [|by injection H as <- <-..]. destruct (ios 2%nat); [|by injection H as <- <-..].
  destruct (create_new (ios 3%nat) _ _) as [[[]|e1] f1]; [|injection H as <- <-; by rewrite lookup_insert_ne].
  destruct (create_new (ios 4%nat) _ _) as [[[]|e2] f2]; [|injection H as <- <-; by rewrite lookup_insert_ne].
  destruct (create_new (ios 5%nat) _ _) as [r3 f3]. injection H as <- <-. by rewrite lookup_insert_ne.
Qed.

Lemma create_stderr_apart ios k root r root' sid :
  create_stderr ios k root = (r, root') -> k <> sid -> root' !! sid = root !! sid.
Proof.
  unfold create_stderr. intros H N. destruct (spool_open ios k root) as [dir|e]; [|by injection H as <- <-].
  assert (forall io present, (let '(r, file) := create_new io (encode_spool 0 "") present in
    let root := <[k := dir <| sd_stderr := file |>]> root in
    match r with
    | Err e => (Err ("create stderr spool: " +:+ e), root)
    | Ok _ => (rbind (read_state (ios 10%nat) file) (fun _ => Ok tt), root)
    end) = (r, root') -> root' !! sid = root !! sid) as G.
  { intros io present. destruct (create_new io _ present) as [[[]|e] f]; intros [= <- <-]; by rewrite lookup_insert_ne. }
  destruct (sd_stderr dir), (ios 9%nat); first [by eapply G | by injection H as <- <-].
Qed.

Lemma with_host_apart {A} b now s (k : Hosted -> result A string * Supervisor) sid :
  su_hosts s !! sid = None ->
  (forall h, su_hosts s !! bi_session_id b = Some h -> bi_session_id b <> sid -> apart sid s (snd (k h))) ->
  apart sid s (snd (with_host b (exact now b) s k)).
Proof.
  intros N K. unfold with_host. destruct (su_hosts s !! bi_session_id b) as [h|] eqn:E; [|done].
  destruct (exact now b (ho_manifest h)); [|done]. apply K; [done |]. intros <-. congruence.
Qed.

Lemma spawn_apart env m mode s sid :
  su_hosts s !! sid = None -> is_Some (su_root s !! sid) -> apart sid s (snd (spawn_with_io env m mode s)).
Proof.
  intros N I. unfold spawn_with_io. destruct (validate_runtime_lifetimes _ _ ;? _) as [[]|e]; [|done].
  destruct (spool_create _ _ _) as [created root1] eqn:C. pose proof (spool_create_apart _ _ _ _ _ _ C I) as R1.
  destruct (spool_create_ok _ _ _ _ _ C) as [_ F].
  assert (is_ok created = true -> hm_session_id m <> sid) as Nm.
  { intros Oc <-. apply F in Oc as (_ & Oc & _). by apply Oc, elem_of_dom. }
  destruct (match created with Ok _ => _ | Err _ => _ end) as [opened root2] eqn:O.
  assert (root2 !! sid = su_root s !! sid /\ (is_ok opened = true -> is_ok created = true)) as [R2 Io].
  { destruct created as [[]|e]; [|by injection O as <- <-]. destruct mode; [by injection O as <- <-|].
    rewrite (create_stderr_apart _ _ _ _ _ sid O); [done | by apply Nm]. }
  destruct opened as [[]|e]; [|by destruct (en_dropped env)]. split_and!; [|done | done]. cbn.
  rewrite lookup_insert_ne; [done | by apply Nm, Io].
Qed.

Lemma transit_apart env t receipt previous s sid :
  su_hosts s !! sid = None -> apart sid s (snd (transit env t receipt previous s)).
Proof.
  intros N. unfold transit. destruct (su_hosts s !! bi_session_id previous) as [h|] eqn:E; [|done].
  assert (bi_session_id previous <> sid) as Np by (intros <-; congruence).
  destruct (match receipt with Some _ => _ | None => _ end) as [[]|e]; [done | |done].
  destruct (rbind _ _) as [next|e] eqn:Nx; [|done]. apply rbind_ok_inv in Nx as (n & T & Nx).
  apply transition_next_facts in T as (-> & [Sn _ _ _ _] & _).
  assert (hm_session_id next = hm_session_id (ho_manifest h)) as Sx.
  { destruct receipt as [[id d]|]; [|by injection Nx as <-]. unfold record_transition in Nx.
    by apply rbind_ok_inv in Nx as ([] & _ & [= <-]). }
  destruct (store_manifest _ _ _ _ _) as [r root] eqn:W. pose proof (store_manifest_apart _ _ _ _ _ _ _ sid W) as R.
  cbn in Np. rewrite Sx in R. specialize (R Np). destruct r as [[]|e]; [|done]. split_and!; [|done | done]. cbn.
  by rewrite lookup_insert_ne.
Qed.

Lemma terminate_apart env b id d s sid :
  su_hosts s !! sid = None -> apart sid s (snd (terminate_idempotent env b id d s)).
Proof.
  intros N. unfold terminate_idempotent. destruct (su_hosts s !! bi_session_id b) as [h|] eqn:E; [|done].
  assert (bi_session_id b <> sid) as Nb by (intros <-; congruence).
  destruct (exact _ _ _) as [[]|e] eqn:X; [|done]. apply exact_ok in X as (-> & _ & _). cbn in Nb.
  destruct (host_terminate _ _ _) as [[[]|e] host]; [|split_and!; [|done | done]; cbn; by rewrite lookup_insert_ne].
  destruct (record_termination _ _ _ _ _) as [r root] eqn:W. pose proof (record_termination_apart _ _ _ _ _ _ _ sid W Nb) as R.
  destruct r as [[]|e]; split_and!; try done; cbn; [rewrite lookup_delete_ne by done|]; by rewrite lookup_insert_ne.
Qed.

Lemma step_apart ev s sid :
  su_hosts s !! sid = None -> is_Some (su_root s !! sid) -> (forall env, ev <> EvKill env sid) -> (forall x, ev <> EvExit x) ->
  apart sid s (step ev s).
Proof.
  intros N I Nk Nx.
  destruct ev as [env m mode|env b|env b bytes|env b c r|env b o mx e|env t receipt previous|env b i d|now|env k|k e c|x]; cbn [step].
  - by apply spawn_apart.
  - unfold reattach, with_host. destruct (su_hosts s !! bi_session_id b); [|done]. by destruct (exact_identity _ _ _).
  - unfold write. destruct (_ <? _); [done |]. by apply with_host_apart.
  - unfold resize. destruct (_ || _); [done |]. by apply with_host_apart.
  - apply with_host_apart; [done |]. intros h E Nb. cbv zeta. destruct e; [destruct (ho_stderr_spool h); [|done]|];
      destruct (drain_into (_, _, _) _ _ _ _ _) as [[? ?] ?]; split_and!; try done; cbn; by rewrite lookup_insert_ne.
  - by apply transit_apart.
  - by apply terminate_apart.
  - apply take_out_apart; [|done]. intros k h Ik <-. unfold expired_hosts in Ik.
    assert ((k, h) ∈ map_to_list (su_hosts s)) as M.
    { eapply elem_of_submseteq; [exact Ik |]. apply sublist_submseteq. etrans; [apply sublist_take | apply sublist_filter]. }
    apply elem_of_map_to_list in M. congruence.
  - assert (k <> sid) as Nks by (intros ->; by apply (Nk env)). unfold sweep_kill. destruct (su_sweeping s !! k) as [h|]; [|done].
    destruct (host_terminate _ _ _) as [[[]|e] host]; split_and!; cbn; rewrite ?lookup_delete_ne, ?lookup_insert_ne by done; done.
  - assert (forall m : gmap string Hosted, is_Some (alter (host_output e c) k m !! sid) <-> is_Some (m !! sid)) as A.
    { intros m. destruct (decide (k = sid)) as [->|Ne]; [rewrite lookup_alter_eq, fmap_is_Some | rewrite lookup_alter_ne by done]; done. }
    split_and!; cbn; [|apply A | done]. apply eq_None_not_Some. rewrite A. by apply eq_None_not_Some.
  - by destruct (Nx x).
Qed.

(** A kill of this session, the end of the supervisor, or anything else. *)
Lemma event_cases ev sid :
  (exists env, ev = EvKill env sid) \/ (exists x, ev = EvExit x)
  \/ ((forall env, ev <> EvKill env sid) /\ (forall x, ev <> EvExit x)).
Proof.
  destruct ev as [| | | | | | | |env k| |x]; try (right; right; split; intros; discriminate); [|right; left; by exists x].
  destruct (decide (k = sid)) as [->|N]; [left; by exists env | right; right]. split; intros; [congruence | discriminate].
Qed.

(** ** Termination *)

(** The session has a directory and no host anywhere. *)
Definition gone (sid : string) (dir : SessionDir) (s : Supervisor) : Prop :=
  su_hosts s !! sid = None /\ su_sweeping s !! sid = None /\ su_root s !! sid = Some dir.

Lemma step_gone ev s sid dir : gone sid dir s -> gone sid dir (step ev s).
Proof.
  intros (H & W & R).
  destruct (event_cases ev sid) as [[env ->]|[[x ->]|[Nk Nx]]].
  - cbn. unfold sweep_kill. by rewrite W.
  - done.
  - destruct (step_apart ev s sid H ltac:(by rewrite R) Nk Nx) as (A & B & C). split_and!; [done | | congruence].
    apply eq_None_not_Some. rewrite B. by apply eq_None_not_Some.
Qed.

Lemma run_gone evs s sid dir : gone sid dir s -> gone sid dir (run evs s).
Proof. revert s. induction evs as [|ev evs IH]; intros s G; [done |]. by apply (IH (step ev s)), step_gone. Qed.

Lemma receipt_found a r sid root x :
  termination_receipt a r sid root = Ok (Some x) -> termination_receipt IoOk IoOk sid root = Ok (Some x).
Proof.
  unfold termination_receipt. destruct (guard_err _ _ ); [|done]. cbn [rbind]. destruct (root !! sid) as [dir|]; [|done].
  destruct a; [|done..]. cbn [fallible rbind]. destruct (sd_termination dir); [|done]. by destruct r.
Qed.

Lemma receipt_local sid root root' : root !! sid = root' !! sid -> termination_receipt IoOk IoOk sid root = termination_receipt IoOk IoOk sid root'.
Proof. unfold termination_receipt. by intros ->. Qed.

Lemma valid_len v : valid_component v = true -> str_len v <= 256.
Proof. unfold valid_component. intros H. rewrite !andb_true_iff in H. destruct H as [[_ H] _]. by apply Z.leb_le. Qed.

Lemma manifest_parts m : manifest_validate m = Ok tt ->
  Forall (fun v => valid_component v = true) [hm_session_id m; hm_device_id m; hm_workspace_id m; hm_owner_principal m; hm_host_nonce m]
  /\ hm_controller_epoch m <> 0.
Proof.
  unfold manifest_validate. intros H. apply rbind_ok_inv in H as ([] & V & H). cbn [validate_components] in V.
  repeat (apply rbind_ok_inv in V as ([] & ?E & V)). split.
  - repeat constructor; match goal with |- valid_component ?v = true => destruct (valid_component v); [done | discriminate] end.
  - intros Z0. by rewrite Z0 in H.
Qed.

(** A receipt that was written is found. *)
Lemma receipt_written m id d root dir :
  manifest_validate m = Ok tt -> 0 <= hm_controller_epoch m <= u64_max -> validate_transition id d = Ok tt ->
  root !! hm_session_id m = Some dir -> sd_termination dir = Some (receipt_to_vec (receipt_of m id d)) ->
  termination_receipt IoOk IoOk (hm_session_id m) root = Ok (Some (receipt_of m id d)).
Proof.
  intros V E T R D. destruct (manifest_parts _ V) as [F N]. rewrite !Forall_cons in F. destruct F as (F1 & F2 & F3 & F4 & F5 & _).
  assert (str_len id <= 128 /\ str_len d <= 128) as [Li Ld].
  { unfold validate_transition in T. destruct (_ || _) eqn:B in T; [done |]. unfold MAX_TRANSITION_ID_BYTES, MAX_TRANSITION_DIGEST_BYTES in *.
    bool_prop. lia. }
  unfold termination_receipt. rewrite F1, R. cbn [negb guard_err rbind fallible]. rewrite D. unfold read_bounded.
  pose proof (receipt_to_vec_len (receipt_of m id d) E) as L. unfold receipt_size in L. cbn in L.
  pose proof (valid_len _ F1). pose proof (valid_len _ F2). pose proof (valid_len _ F3). pose proof (valid_len _ F4). pose proof (valid_len _ F5).
  rewrite (proj2 (Z.ltb_ge _ _)) by (unfold MAX_MANIFEST_BYTES; lia). cbn [guard_err rbind map_err].
  rewrite receipt_from_to_vec. cbn [map_err rbind existsb receipt_of te_session_id te_device_id te_workspace_id te_owner_principal te_host_nonce].
  rewrite F1, F2, F3, F4, F5. cbn [negb orb guard_err rbind receipt_of te_transition_id te_payload_digest].
  rewrite T. cbn [rbind receipt_of te_controller_epoch].
  rewrite (proj2 (Z.eqb_neq _ _)), String.eqb_refl by done. done.
Qed.

Lemma record_termination_found ios m id d root root' :
  manifest_validate m = Ok tt -> 0 <= hm_controller_epoch m <= u64_max ->
  record_termination ios m id d root = (Ok tt, root') ->
  termination_receipt IoOk IoOk (hm_session_id m) root' = Ok (Some (receipt_of m id d)).
Proof.
  intros V E. unfold record_termination. destruct (_ ;? _) as [[x|]|e] eqn:G; [| |done];
    apply rbind_ok_inv in G as ([] & T & G).
  - destruct (bool_decide _) eqn:B; [|by destruct (String.eqb _ _)]. apply bool_decide_eq_true in B as ->. intros [= <-].
    by eapply receipt_found.
  - destruct (root !! hm_session_id m) as [dir|]; [|done]. destruct (ios 2%nat); cbn; intros [= <-].
    by eapply receipt_written; [done | done | done | apply lookup_insert_eq | done].
Qed.

(** What a successful termination of a hosted session leaves. *)
Lemma terminated_leaves env b id d s s1 :
  view_ok (view s) -> is_Some (su_hosts s !! bi_session_id b) -> 0 <= bi_controller_epoch b <= u64_max ->
  terminate_idempotent env b id d s = (Ok tt, s1) ->
  exists dir m, gone (bi_session_id b) dir s1 /\ b = binding_of m
  /\ termination_receipt IoOk IoOk (bi_session_id b) (su_root s1) = Ok (Some (receipt_of m id d)).
Proof.
  intros O [h H] E Tr. set (sid := bi_session_id b) in *.
  pose proof (tracked_hosts _ _ _ (view_host _ _ _ H)) as T. destruct (vo_tracked _ O _ _ T) as (Ms & _ & V & _).
  unfold terminate_idempotent in Tr. fold sid in Tr. rewrite H in Tr. destruct (exact _ _ _) as [[]|e] eqn:X; [|done].
  apply exact_ok in X as (Eb & _ & _). destruct (host_terminate _ _ _) as [[[]|e] host]; [|done].
  destruct (record_termination _ _ _ _ _) as [[[]|e] root'] eqn:W; [|done]. injection Tr as <-.
  assert (termination_receipt IoOk IoOk sid root' = Ok (Some (receipt_of (ho_manifest h) id d))) as F.
  { rewrite <- Ms. eapply record_termination_found; [done | | exact W]. by rewrite Eb in E. }
  destruct (root' !! sid) as [dir|] eqn:R; [|unfold termination_receipt in F; rewrite R in F; by destruct (guard_err _ _)].
  exists dir, (ho_manifest h). split_and!; [|done | done]. split_and!; [apply lookup_delete_eq | | done]. cbn.
  pose proof (map_disjoint_Some_l _ _ _ _ (vo_disjoint _ O) (view_host _ _ _ H)) as D. cbn in D.
  rewrite lookup_fmap in D. by destruct (su_sweeping s !! sid).
Qed.

(** Nothing stands for the session: it has no host, tracked or held by a sweep, and no
    process of a host that was not killed. *)
Definition hostless (sid : string) (s : Supervisor) : Prop :=
  su_hosts s !! sid = None /\ su_sweeping s !! sid = None /\ sid ∉ su_alive s.

Lemma view_hostless s sid :
  view_ok (view s) -> su_hosts s !! sid = None -> su_sweeping s !! sid = None -> hostless sid s.
Proof.
  intros O H W. split_and!; [done | done |]. intros A. destruct (vo_alive _ O sid A) as [m T].
  unfold tracked in T. cbn in T. by rewrite !lookup_fmap, H, W in T.
Qed.

(** A session that has a directory is not started again. *)
Lemma refused_spawn env m mode s r s' :
  spawn_with_io env m mode s = (r, s') -> is_Some (su_root s !! hm_session_id m) ->
  is_ok r = false /\ su_log s' = su_log s /\ su_hosts s' = su_hosts s /\ su_sweeping s' = su_sweeping s.
Proof.
  unfold spawn_with_io. intros H I. destruct (validate_runtime_lifetimes _ _ ;? _) as [[]|e]; [|by injection H as <- <-].
  destruct (spool_create _ _ _) as [created root1] eqn:C. destruct (spool_create_ok _ _ _ _ _ C) as [_ P].
  destruct created as [[]|e]; [destruct (P eq_refl) as (_ & P2 & _); exfalso; by apply P2, elem_of_dom |].
  destruct mode; injection H as <- <-; by destruct (en_dropped env).
Qed.

(** C13: a termination is remembered.  After a host was terminated under a binding, an id and
    a digest, whatever follows, exits and restarts of the supervisor included, the same
    request succeeds again without effect and any other request to terminate the session
    is refused without effect, whenever the two reads of the receipt succeed; and every
    request to spawn the session again is refused, issues no binding and leaves the
    session without a host (the process that [spawn_with_io] started before it was refused
    is dropped with its handle). *)
Theorem termination_remembered evs root env b id d s1 evs' :
  let s := run evs (supervisor_new root) in
  is_Some (su_hosts s !! bi_session_id b) -> 0 <= bi_controller_epoch b <= u64_max ->
  terminate_idempotent env b id d s = (Ok tt, s1) ->
  let s2 := run evs' s1 in
  (forall env', en_ios env' 0%nat = IoOk -> en_ios env' 1%nat = IoOk ->
     terminate_idempotent env' b id d s2 = (Ok tt, s2)
     /\ forall b' id' d', bi_session_id b' = bi_session_id b -> (b', id', d') <> (b, id, d) ->
        exists e, terminate_idempotent env' b' id' d' s2 = (Err e, s2))
  /\ forall env' m mode, hm_session_id m = bi_session_id b ->
     let '(r, s3) := spawn_with_io env' m mode s2 in
     is_ok r = false /\ su_log s3 = su_log s2 /\ hostless (bi_session_id b) s3.
Proof.
  intros s H E Tr s2. set (sid := bi_session_id b) in *.
  destruct (terminated_leaves _ _ _ _ _ _ (supervisor_run_ok evs root) H E Tr) as (dir & m & G & Eb & F). fold sid in G, F.
  destruct (run_gone evs' _ _ _ G) as (H2 & W2 & R2). fold s2 in H2, W2, R2. split.
  - intros env' I0 I1. destruct G as (_ & _ & G). rewrite (receipt_local sid _ (su_root s2)) in F by congruence.
    assert (receipt_binding (receipt_of m id d) = b) as Rb by (rewrite Eb; done).
    unfold terminate_idempotent. fold sid. rewrite H2, I0, I1, F. cbn [rbind ok_or]. rewrite Rb.
    rewrite bool_decide_eq_true_2 by done. cbn [negb guard_err rbind te_transition_id te_payload_digest receipt_of].
    rewrite !String.eqb_refl. split; [done |]. intros b' id' d' Sb Ne. rewrite Sb. fold sid. rewrite H2, F. cbn [rbind ok_or].
    rewrite Rb. destruct (bool_decide (b = b')) eqn:Bb; cbn [negb guard_err rbind]; [|by eexists].
    apply bool_decide_eq_true in Bb as <-. cbn [te_transition_id te_payload_digest receipt_of].
    destruct (String.eqb_spec id id') as [<-|]; [|by eexists]. destruct (String.eqb_spec d d') as [<-|]; [done | by eexists].
  - intros env' n mode Sn. destruct (spawn_with_io env' n mode s2) as [r s3] eqn:Sp.
    assert (view_ok (view s3)) as O3.
    { change s3 with (snd (r, s3)). rewrite <- Sp. eapply moves_ok; [apply spawn_moves |].
      eapply moves_ok; [apply run_moves |]. replace s1 with (step (EvTerminate env b id d) s) by (cbn; by rewrite Tr).
      eapply moves_ok; [apply step_moves | apply supervisor_run_ok]. }
    destruct (refused_spawn _ _ _ _ _ _ Sp) as (? & ? & Hh & Hw); [rewrite Sn; fold sid; by rewrite R2 |].
    split_and!; [done | done |]. apply view_hostless; [done | by rewrite Hh | by rewrite Hw].
Qed.

(** ** Liveness probes *)

(** A host that a sweep holds leaves it only by its kill, or with the supervisor. *)
Lemma step_swept ev s sid :
  view_ok (view s) -> su_hosts s !! sid = None -> is_Some (su_sweeping s !! sid) ->
  (forall env, ev = EvKill env sid -> is_ok (en_os env) = true) ->
  let s' := step ev s in
  su_hosts s' !! sid = None /\ (su_sweeping s' !! sid = None \/ is_Some (su_sweeping s' !! sid)).
Proof.
  intros O H W K. cbv zeta.
  assert (is_Some (su_root s !! sid)) as R.
  { destruct W as [h W]. assert (tracked (view s) sid = Some (ho_manifest h)) as T.
    { unfold tracked. cbn. by rewrite !lookup_fmap, H, W. }
    destruct (vo_tracked _ O _ _ T) as (_ & L & _). apply (vo_root _ O) in L. cbn in L. by apply elem_of_dom. }
  destruct (event_cases ev sid) as [[env ->]|[[x ->]|[Nk Nx]]].
  - cbn [step]. unfold sweep_kill. destruct W as [h ->]. specialize (K env eq_refl). unfold host_terminate, tree_killed.
    destruct (en_os env) as [[]|e]; [|done]. destruct (hh_mode _), (en_left env); cbn; (split; [done | left; apply lookup_delete_eq]).
  - split; [apply lookup_empty | left; apply lookup_empty].
  - destruct (step_apart ev s sid H R Nk Nx) as (A & B & _). split; [done |]. right. by apply B.
Qed.

(** A liveness probe is right unless a kill fails while it looks: if it answers that a
    session has no host, and no kill of that host failed in between, then at some moment
    in between nothing stood for the session. *)
Lemma probe_sound evs root between sid :
  let s := run evs (supervisor_new root) in
  host_live sid between s = false ->
  (forall env, EvKill env sid ∈ between -> is_ok (en_os env) = true) ->
  exists before after, between = before ++ after /\ hostless sid (run before s).
Proof.
  intros s L K. unfold host_live in L. apply orb_false_iff in L as [H T]. apply bool_decide_eq_false in H, T.
  apply not_elem_of_dom in H. assert (view_ok (view s)) as O by apply supervisor_run_ok. clearbody s. revert s O H T K.
  induction between as [|ev evs' IH]; intros s O H T K.
  - exists [], []. split; [done |]. apply view_hostless; [done | done |]. apply not_elem_of_dom. intros I. apply T. cbn.
    assert (su_terminating s = dom (v_sweeping (view s))) as -> by exact (vo_terminating _ O). cbn. by rewrite dom_fmap_L.
  - destruct (su_sweeping s !! sid) as [h|] eqn:W; [|exists [], (ev :: evs'); split; [done | by apply view_hostless]].
    destruct (step_swept ev s sid O H) as [H' _]; [by rewrite W | intros env ->; apply K; left |].
    destruct (IH (step ev s)) as (bf & af & -> & D); [eapply moves_ok; [apply step_moves | exact O] | done | done | |].
    + intros env I. apply K. by right.
    + by exists (ev :: bf), af.
Qed.
End promises.
