(* ===== verification/SupervisorSample.v ===== *)
(** * The session supervisor on concrete inputs

    A codec for manifests and receipts, with which the supervisor runs; its theorems are
    applied to these runs. *)

From stdpp Require Import base list strings gmap.
From Stdlib Require Import ZArith Lia Ascii.
From S2P Require Import Prelude RustStr RustBytes Transfer TransferPlain Items.
From S2P Require Import SupervisorSpool SupervisorState SupervisorRun SupervisorFence.

Open Scope Z_scope.

(** ** The files *)

Definition mode_item (m : HostIoMode) : item := inl match m with Pty => 0 | StructuredPipes => 1 end.

Definition receipt_items (o : option TransitionReceipt) : list item :=
  match o with Some r => [inl 1; inr (tr_transition_id r); inr (tr_payload_digest r)] | None => [inl 0; inr ""; inr ""] end.

Definition manifest_text (m : HostManifest) : string :=
  write_items ([inr (hm_session_id m); inr (hm_device_id m); inr (hm_workspace_id m); inr (hm_owner_principal m);
                mode_item (hm_io_mode m); inl (Z.b2z (hm_controller_attached m)); inr (hm_host_nonce m);
                inl (hm_controller_epoch m); inl (hm_binding_expires_unix m); inl (hm_host_expires_unix m)]
               ++ receipt_items (hm_last_transition m)).

Definition text_manifest (s : string) : result HostManifest string :=
  match text_items s with
  | Some [inr sid; inr dev; inr ws; inr owner; inl mode; inl attached; inr nonce; inl epoch; inl bx; inl hx;
          inl present; inr id; inr digest] =>
      Ok {| hm_session_id := sid; hm_device_id := dev; hm_workspace_id := ws; hm_owner_principal := owner;
            hm_io_mode := if mode =? 0 then Pty else StructuredPipes; hm_controller_attached := attached =? 1;
            hm_host_nonce := nonce; hm_controller_epoch := epoch; hm_binding_expires_unix := bx; hm_host_expires_unix := hx;
            hm_last_transition :=
              if present =? 1 then Some {| tr_transition_id := id; tr_payload_digest := digest |} else None |}
  | _ => Err "manifest"
  end.

Lemma text_manifest_text m : text_manifest (manifest_text m) = Ok m.
Proof.
  unfold text_manifest, manifest_text. rewrite text_items_write.
  by destruct m as [? ? ? ? [] [] ? ? ? ? [[]|]].
Qed.

Definition termination_items (r : TerminationReceipt) : list item :=
  [inr (te_session_id r); inr (te_device_id r); inr (te_workspace_id r); inr (te_owner_principal r);
   inr (te_host_nonce r); inl (te_controller_epoch r); inr (te_transition_id r); inr (te_payload_digest r)].

Definition text_termination (s : string) : result TerminationReceipt string :=
  match text_items s with
  | Some [inr sid; inr dev; inr ws; inr owner; inr nonce; inl epoch; inr id; inr digest] =>
      Ok {| te_session_id := sid; te_device_id := dev; te_workspace_id := ws; te_owner_principal := owner;
            te_host_nonce := nonce; te_controller_epoch := epoch; te_transition_id := id; te_payload_digest := digest |}
  | _ => Err "receipt"
  end.

Lemma text_termination_text r : text_termination (write_items (termination_items r)) = Ok r.
Proof. unfold text_termination. rewrite text_items_write. by destruct r. Qed.

Lemma bits_length p : 2 ^ Z.of_nat (String.length (bits p)) <= Zpos p.
Proof.
  induction p as [p IH|p IH|]; cbn [bits String.length]; [| |done]; rewrite Nat2Z.inj_succ, Z.pow_succ_r by lia; lia.
Qed.

Lemma number_text_length z : 0 <= z <= u64_max -> str_len (number_text z) <= 65.
Proof.
  intros H. unfold str_len. destruct z as [|p|p]; [done | | by destruct H]. pose proof (bits_length p) as B.
  cbn [number_text String.length]. destruct (Z.le_gt_cases (Z.of_nat (String.length (bits p))) 64) as [|G]; [lia |].
  assert (2 ^ 64 <= 2 ^ Z.of_nat (String.length (bits p))) by (apply Z.pow_le_mono_r; lia). unfold u64_max in H. lia.
Qed.

Lemma termination_text_length r :
  0 <= te_controller_epoch r <= u64_max -> str_len (write_items (termination_items r)) <= 1024 + 6 * receipt_size r.
Proof.
  intros H%number_text_length. unfold receipt_size, termination_items, str_len in *. cbn -[Z.mul Z.add].
  rewrite !quote_length. cbn -[Z.mul Z.add]. repeat (rewrite !quote_length; cbn -[Z.mul Z.add]). lia.
Qed.

#[export] Instance items_manifest : ManifestCodec := {|
  manifest_to_vec := manifest_text; manifest_from_slice := text_manifest;
  receipt_to_vec r := write_items (termination_items r); receipt_from_slice := text_termination;
  manifest_from_to_vec := text_manifest_text; receipt_from_to_vec := text_termination_text;
  receipt_to_vec_len := termination_text_length
|}.

(** ** A host and its controllers *)

(** At [now], with a fresh nonce, where the operating system answers [os] and files work. *)
Definition at_time (now : Z) (nonce : string) (os : result unit string) : Env :=
  {| en_now := now; en_nonce := nonce; en_ios := fun _ => IoOk; en_os := os; en_dropped := true; en_parked := false; en_left := false |}.

Definition sample_manifest : HostManifest :=
  {| hm_session_id := "ses_u1"; hm_device_id := "d"; hm_workspace_id := "w"; hm_owner_principal := "alice";
     hm_io_mode := Pty; hm_controller_attached := true; hm_host_nonce := "host_1"; hm_controller_epoch := 1;
     hm_binding_expires_unix := 500; hm_host_expires_unix := 900; hm_last_transition := None |}.

Definition spawned : Event := EvSpawn (at_time 100 "" (Ok tt)) sample_manifest Pty.

Definition first_binding : SupervisorBinding := binding_of sample_manifest.

(** [bob] takes over from [alice]. *)
Definition handover : Transition := Rotate "bob" 2 800.

Definition handed_over : Event := EvTransit (at_time 200 "2" (Ok tt)) handover (Some ("t1", "x")) first_binding.

Definition second_binding : SupervisorBinding :=
  {| bi_session_id := "ses_u1"; bi_device_id := "d"; bi_workspace_id := "w"; bi_owner_principal := "bob";
     bi_host_nonce := "host_2"; bi_controller_epoch := 2 |}.

(** After the handover only [bob]'s input arrives. *)
Definition taken_over : list Event :=
  [spawned; handed_over; EvWrite (at_time 210 "" (Ok tt)) first_binding "a"; EvWrite (at_time 220 "" (Ok tt)) second_binding "b"].

Lemma superseded_never_used_witness :
  su_log (run taken_over (supervisor_new ∅)) = [Used second_binding; Replaced first_binding second_binding; Issued first_binding]
  /\ ~ uses (Used second_binding) first_binding.
Proof.
  assert (su_log (run taken_over (supervisor_new ∅))
          = [Used second_binding; Replaced first_binding second_binding; Issued first_binding]) as E by (vm_compute; reflexivity).
  split; [exact E |].
  assert (NoDup (taken_over ≫= event_nonces)) as N.
  { change (taken_over ≫= event_nonces) with ["host_1"; "host_2"]. apply (bool_decide_unpack _). vm_compute. exact I. }
  destruct (superseded_never_used taken_over ∅ N) as [_ H]. exact (H [] _ [] _ _ _ E).
Defined.

Lemma host_life_fixed_witness :
  exists m, tracked (view (run [handed_over] (run [spawned] (supervisor_new ∅)))) "ses_u1" = Some m
  /\ hm_owner_principal m = "bob" /\ succeeds sample_manifest m.
Proof.
  eexists. split; [vm_compute; reflexivity |]. split; [reflexivity |].
  refine (proj1 (host_life_fixed [spawned] [handed_over] ∅ "ses_u1" _ _ _ _)); vm_compute; reflexivity.
Defined.

(** The reply to the handover was lost, and it is retried long after the first binding. *)
Lemma transition_retried_witness :
  let s := run [] (step handed_over (run [spawned] (supervisor_new ∅))) in
  transit (at_time 790 "3" (Ok tt)) handover (Some ("t1", "x")) first_binding s = (Ok second_binding, s).
Proof.
  refine (proj1 (transition_retried [spawned] ∅ (at_time 200 "2" (Ok tt)) handover "t1" "x" first_binding second_binding
    (step handed_over (run [spawned] (supervisor_new ∅))) [] [] _ eq_refl _ _ _ _ first_binding eq_refl)).
  - vm_compute. reflexivity.
  - intros p n H. by apply not_elem_of_nil in H.
  - vm_compute. by eexists.
Defined.

(** A termination, retried after the supervisor was started again. *)
Lemma termination_remembered_witness :
  let s := run [EvExit ∅] (snd (terminate_idempotent (at_time 200 "" (Ok tt)) first_binding "t9" "x" (run [spawned] (supervisor_new ∅)))) in
  terminate_idempotent (at_time 990 "" (Err "no such process")) first_binding "t9" "x" s = (Ok tt, s).
Proof.
  refine (proj1 (proj1 (termination_remembered [spawned] ∅ (at_time 200 "" (Ok tt)) first_binding "t9" "x" _ [EvExit ∅] _ _ _)
    (at_time 990 "" (Err "no such process")) eq_refl eq_refl)).
  - vm_compute. by eexists.
  - vm_compute. by split.
  - vm_compute. reflexivity.
Defined.
