(* ===== verification/SupervisorRecovery.v ===== *)
(** * Recovery on the supervisor's word

    The daemon clears an expired transition record when the session supervisor answers that
    the session has no host.  Here the answer that [Recovery.v] takes from the world is
    the one that the supervisor of [SupervisorState.v] gives. *)

From stdpp Require Import base list strings gmap.
From Stdlib Require Import ZArith Lia Ascii.
From S2P Require Import Prelude RustStr RustBytes Session TransitionJournal Recovery.
From S2P Require Import SupervisorSpool SupervisorState SupervisorRun SupervisorFence SupervisorSample.

Open Scope Z_scope.

Section composed.
Context {MC : ManifestCodec} {Bytes : Type} `{!Codec Bytes}.

(** C12: an expired record is cleared only over hosts that are gone.  Let the daemon reconcile
    an expired record with the answer of the supervisor's liveness probe, while other calls
    and sweeps run between the two looks of the probe.  If no kill of the session's host
    failed in between and the record is cleared, then the operating system knows every
    process of the record to be gone, or at some moment of the probe the session had no
    host, neither tracked nor held by a sweep, and every host it ever had was killed by a
    kill that reported success, or ended with its supervisor.  What may still run of the
    session then are processes the supervisor does not know of any more: descendants that
    outlived a successful kill, a start that was refused and dropped, or trees that
    outlived an exit of the supervisor. *)
Theorem record_cleared_over_dead evs root between w record (rt : Runtime Bytes) :
  let s := run evs (supervisor_new root) in
  let sid := TransitionJournal.tr_session_id record in
  w_host_live w = Ok (host_live sid between s) ->
  (forall env, EvKill env sid ∈ between -> is_ok (en_os env) = true) ->
  fst (reconcile_expired_transition_record w record rt) = Ok tt ->
  Forall (fun b => binding_proof w b = Some true) (record_bindings record)
  \/ exists before after, between = before ++ after /\ hostless sid (run before s).
Proof.
  intros s sid A K R. destruct (host_live sid between s) eqn:L.
  - left. pose proof (expired_ends w record rt) as C. unfold cleared_or_retained in C. rewrite R in C.
    destruct C as (_ & _ & C & _). eapply Forall_impl; [exact C |]. intros b [? | [_ H]]; [done | congruence].
  - right. by eapply probe_sound.
Qed.
End composed.

(** ** The window of the probe *)

Definition untracked_world (live : bool) : World :=
  {| w_now := 1001; w_supervisor := true; w_replay := Err "expired"; w_terminate := Ok tt; w_host_live := Ok live;
     w_process_birth := fun _ => Err "denied"; w_mark := Written; w_commit := Ok tt; w_clear := Written |}.

(** The daemon holds a record of a session it no longer has. *)
Definition moot : Runtime Disk :=
  {| rt_sessions := new_manager;
     rt_journal := snd (begin_ (Codec0 := plain_codec) Written sample_record empty_journal) |}.

Definition killed (os : result unit string) : Event := EvKill (at_time 1000 "" os) "ses_u1".

(** The host expires, a sweep takes it, and its kill succeeds while the probe looks. *)
Lemma record_cleared_over_dead_witness :
  host_live "ses_u1" [killed (Ok tt)] (run [spawned; EvSweep 1000] (supervisor_new ∅)) = false
  /\ exists before after, [killed (Ok tt)] = before ++ after
     /\ hostless "ses_u1" (run before (run [spawned; EvSweep 1000] (supervisor_new ∅))).
Proof.
  assert (host_live "ses_u1" [killed (Ok tt)] (run [spawned; EvSweep 1000] (supervisor_new ∅)) = false) as L
    by (vm_compute; reflexivity).
  split; [exact L |].
  destruct (record_cleared_over_dead (Codec0 := plain_codec) [spawned; EvSweep 1000] ∅ [killed (Ok tt)] (untracked_world false) sample_record moot)
    as [F|D].
  - change (TransitionJournal.tr_session_id sample_record) with "ses_u1". rewrite L. reflexivity.
  - intros env H%list_elem_of_singleton. injection H as ->. reflexivity.
  - vm_compute. reflexivity.
  - by inversion F.
  - exact D.
Defined.

(** A kill that fails during the probe defeats it.  The host of an expired session is
    taken by a sweep, the probe finds no host in the live map, the kill fails and the
    host is tracked again, and the probe finds no termination in flight: it answers that
    there is no host although its tree is running and it is tracked before and after the
    failed kill, and the daemon clears the record. *)
Theorem failed_kill_hides_host :
  let s := run [spawned; EvSweep 1000] (supervisor_new ∅) in
  let between := [killed (Err "still running")] in
  let live := host_live "ses_u1" between s in
  let out := reconcile_expired_transition_record (Codec0 := plain_codec) (untracked_world live) sample_record moot in
  live = false
  /\ "ses_u1" ∈ su_terminating s
  /\ "ses_u1" ∈ dom (su_hosts (run between s))
  /\ "ses_u1" ∈ su_alive (run between s)
  /\ fst out = Ok tt /\ j_entries (rt_journal (snd out)) = ∅ /\ j_entries (rt_journal moot) = {["t1" := sample_record]}.
Proof.
  cbv zeta. split_and!; first [by apply (bool_decide_unpack _); vm_compute | by vm_compute].
Qed.
