(* ===== verification/AgentProtocol.v ===== *)
(** * Envelopes of the device protocol

    [crates/ownmesh-protocol/src/envelope.rs] and [operation.rs], with the identifiers and
    expiries of [crates/ownmesh-domain/src]: what the agent and the control plane send each
    other, and the checks on it.  Texts of JSON values and of dates are the class
    [AgentText]; a derived reader is written out field by field. *)

From stdpp Require Import base list strings gmap.
From Stdlib Require Import ZArith Lia Ascii.
From S2P Require Import Prelude RustStr Json TransferPump.

Open Scope Z_scope.

(** ** Texts *)

(** The members of an object in the order of their keys. *)
Definition key_order (a b : string * string) : comparison := String.compare (fst a) (fst b).

Definition object_text (members : list (string * string)) : string :=
  "{" +:+ join "," (map (fun m => fst m +:+ ":" +:+ snd m) members) +:+ "}".

(** [serde_json] and [time].  A text that [serde_json] wrote it reads back; an object that
    repeats a member is no struct; compact text has no spaces and sorted members.  A date
    is its nanosecond. *)
Class AgentText : Type := {
  agent_serde :: Serde;
  repeats_member : string -> bool;
  parse_rfc3339 : string -> option Z;
  to_rfc3339 : Z -> string;
  serde_roundtrip v : serde_from_str (serde_to_string v) = Some v;
  serde_null : serde_to_string Null = "null";
  serde_bool b : serde_to_string (JBool b) = if b then "true" else "false";
  serde_array l : serde_to_string (Array l) = "[" +:+ join "," (map serde_to_string l) +:+ "]";
  serde_object ms :
    serde_to_string (Object ms)
    = object_text (map (fun m => (serde_to_string (JString (fst m)), snd m))
        (sort_by key_order (map (prod_map id serde_to_string) (map_to_list ms))))
}.

(** ** Identifiers *)

Definition MAX_ID_LEN : Z := 128.

Definition id_char (c : ascii) : bool :=
  is_ascii_alphanumeric c || Ascii.eqb c "." || Ascii.eqb c "_" || Ascii.eqb c "-".

Definition validate_body (body : string) : result unit string :=
  match body with
  | EmptyString => Err "id body must not be empty"
  | String first rest =>
      guard_err (negb (is_ascii_alphanumeric first)) "id body must start with an ASCII alphanumeric character" ;?
      guard_err (negb (str_all id_char rest)) "id body contains illegal character"
  end.

Definition parse_prefixed_id (prefix raw : string) : result string string :=
  guard_err (MAX_ID_LEN <? str_len raw) "id exceeds maximum length" ;?
  guard_err (is_empty raw) "id must not be empty" ;?
  match strip_prefix prefix raw with
  | None => Err "unexpected id prefix"
  | Some body => validate_body body ;? Ok raw
  end.

(** ** Expiry *)

Definition NANOS : Z := 1000000000.
Definition DEFAULT_CLOCK_SKEW : Z := 60 * NANOS.

(** The last nanosecond of the year 9999. *)
Definition date_max : Z := 253402300800 * NANOS - 1.

Definition ts_checked_add (t d : Z) : option Z := if t + d <=? date_max then Some (t + d) else None.

Definition is_expired_at_with_skew (now skew at_ : Z) : bool :=
  match ts_checked_add at_ skew with Some deadline => deadline <=? now | None => at_ <=? now end.

(** ** Envelopes *)

Definition PROTOCOL_DEVICE_V1 : string := "ownmesh.device/1.0".
Definition OPERATION_CONTRACT_V1 : string := "ownmesh.operation/1.0".
Definition MAX_ENVELOPE_BYTES : Z := 1024 * 1024.
Definition MAX_SAFE_JSON_INTEGER : Z := 9007199254740991.

Record Envelope : Type := {
  en_protocol : string;
  en_message_id : string;
  en_message_type : string;
  en_device_id : string;
  en_correlation_id : option string;
  en_seq : Z;
  en_sent_at : Z;
  en_expires_at : option Z;
  en_payload : Value
}.

Definition ENVELOPE_KEYS : list string :=
  ["protocol"; "message_id"; "type"; "device_id"; "correlation_id"; "seq"; "sent_at"; "expires_at"; "payload"].

(** Members that a derived reader requires, or may find absent or null. *)
Definition need {A} (o : gmap string Value) (key : string) (read : Value -> option A) : result A string :=
  ok_or (o !! key ≫= read) ("missing or invalid field " +:+ key).

Definition may {A} (o : gmap string Value) (key : string) (read : Value -> option A) : result (option A) string :=
  match o !! key with
  | None | Some Null => Ok None
  | Some v => let? x := ok_or (read v) ("invalid field " +:+ key) in Ok (Some x)
  end.

Definition knows (keys : list string) (o : gmap string Value) : bool :=
  forallb (fun m => existsb (String.eqb (fst m)) keys) (map_to_list o).

Definition as_id (prefix : string) (v : Value) : option string :=
  s ← as_str v; match parse_prefixed_id prefix s with Ok id => Some id | Err _ => None end.

Section protocol.
Context {AT : AgentText}.

Definition as_date (v : Value) : option Z := s ← as_str v; parse_rfc3339 s.

(** The derived [Deserialize] of [Envelope]. *)
Definition envelope_of_value (v : Value) : result Envelope string :=
  let? o := ok_or (as_object v) "expected struct Envelope" in
  let? protocol := need o "protocol" as_str in
  let? message_id := need o "message_id" (as_id "msg_") in
  let? message_type := need o "type" as_str in
  let? device_id := need o "device_id" (as_id "dev_") in
  let? correlation_id := may o "correlation_id" as_str in
  let? seq := need o "seq" as_u64 in
  let? sent_at := need o "sent_at" as_date in
  let? expires_at := may o "expires_at" as_date in
  let? payload := need o "payload" Some in
  Ok {| en_protocol := protocol; en_message_id := message_id; en_message_type := message_type;
        en_device_id := device_id; en_correlation_id := correlation_id; en_seq := seq; en_sent_at := sent_at;
        en_expires_at := expires_at; en_payload := payload |}.

(** The derived [Serialize]. *)
Definition envelope_value (e : Envelope) : Value :=
  json_object
    ([("protocol", JString (en_protocol e)); ("message_id", JString (en_message_id e));
      ("type", JString (en_message_type e)); ("device_id", JString (en_device_id e));
      ("seq", json_u64 (en_seq e)); ("sent_at", JString (to_rfc3339 (en_sent_at e))); ("payload", en_payload e)]
     ++ match en_correlation_id e with Some c => [("correlation_id", JString c)] | None => [] end
     ++ match en_expires_at e with Some t => [("expires_at", JString (to_rfc3339 t))] | None => [] end).

Definition envelope_to_vec (e : Envelope) : string := serde_to_string (envelope_value e).

Definition validate_structure (e : Envelope) : result unit string :=
  guard_err (negb (String.eqb (en_protocol e) PROTOCOL_DEVICE_V1)) "unsupported protocol" ;?
  guard_err (blank (en_message_type e)) "message type must not be empty" ;?
  guard_err (negb (is_object (en_payload e))) "payload must be a JSON object".

Definition parse_envelope (data : string) : result Envelope string :=
  guard_err (is_empty data) "envelope is empty" ;?
  guard_err (MAX_ENVELOPE_BYTES <? str_len data) "envelope exceeds maximum bytes" ;?
  guard_err (repeats_member data) "invalid envelope JSON: duplicate field" ;?
  let? v := ok_or (serde_from_str data) "invalid envelope JSON" in
  let? e := envelope_of_value v in
  validate_structure e ;? Ok e.

(** [validate_expiry_now]: the only error is [Expired]. *)
Definition envelope_expired (now : Z) (e : Envelope) : bool :=
  match en_expires_at e with Some at_ => is_expired_at_with_skew now DEFAULT_CLOCK_SKEW at_ | None => false end.

(** ** Operations *)

Record OperationRequestPayload : Type := {
  rq_operation_id : string;
  rq_capability : string;
  rq_workspace_id : option string;
  rq_idempotency_key : string;
  rq_payload_hash : option string;
  rq_bound_action : option Value;
  rq_arguments : Value
}.

Inductive OperationResultStatus : Type := RCompleted | RFailed | RCancelled | RTimedOut | RDeviceOffline.

Record OperationError : Type := { oe_code : string; oe_message : string; oe_retryable : bool; oe_details : option Value }.

Record OperationResultPayload : Type := {
  rs_operation_id : string;
  rs_status : OperationResultStatus;
  rs_result : option Value;
  rs_error : option OperationError
}.

(** The two payloads of the agent's conversations; progress and events are never read. *)
Inductive OperationPayload : Type :=
| Request (p : OperationRequestPayload)
| Result (p : OperationResultPayload).

Definition as_contract (v : Value) : option unit :=
  s ← as_str v; if String.eqb s OPERATION_CONTRACT_V1 then Some tt else None.

Definition as_binding (v : Value) : option Value :=
  o ← as_object v; if knows ["bound_action"] o then o !! "bound_action" else None.

Definition request_of_value (v : Value) : result OperationRequestPayload string :=
  let? o := ok_or (as_object v) "expected struct OperationRequestPayload" in
  guard_err (negb (knows ["operation_contract"; "operation_id"; "capability"; "workspace_id"; "idempotency_key";
                          "payload_hash"; "authorization"; "arguments"] o)) "unknown field" ;?
  need o "operation_contract" as_contract ;?
  let? operation_id := need o "operation_id" (as_id "op_") in
  let? capability := need o "capability" as_str in
  let? workspace_id := may o "workspace_id" (as_id "ws_") in
  let? idempotency_key := need o "idempotency_key" as_str in
  let? payload_hash := may o "payload_hash" as_str in
  let? authorization := may o "authorization" as_binding in
  let? arguments := need o "arguments" Some in
  Ok {| rq_operation_id := operation_id; rq_capability := capability; rq_workspace_id := workspace_id;
        rq_idempotency_key := idempotency_key; rq_payload_hash := payload_hash; rq_bound_action := authorization;
        rq_arguments := arguments |}.

Definition as_status (v : Value) : option OperationResultStatus :=
  s ← as_str v;
  if String.eqb s "completed" then Some RCompleted
  else if String.eqb s "failed" then Some RFailed
  else if String.eqb s "cancelled" then Some RCancelled
  else if String.eqb s "timed_out" then Some RTimedOut
  else if String.eqb s "device_offline" then Some RDeviceOffline
  else None.

(** [deserialize_optional_json_value] keeps an explicit null. *)
Definition as_error (v : Value) : option OperationError :=
  o ← as_object v;
  code ← o !! "code" ≫= as_str; message ← o !! "message" ≫= as_str; retryable ← o !! "retryable" ≫= as_bool;
  if knows ["code"; "message"; "retryable"; "details"] o
  then Some {| oe_code := code; oe_message := message; oe_retryable := retryable; oe_details := o !! "details" |}
  else None.

Definition result_of_value (v : Value) : result OperationResultPayload string :=
  let? o := ok_or (as_object v) "expected struct OperationResultPayload" in
  guard_err (negb (knows ["operation_contract"; "operation_id"; "status"; "result"; "error"] o)) "unknown field" ;?
  need o "operation_contract" as_contract ;?
  let? operation_id := need o "operation_id" (as_id "op_") in
  let? status := need o "status" as_status in
  let? body := may o "result" Some in
  let? error := may o "error" as_error in
  Ok {| rs_operation_id := operation_id; rs_status := status; rs_result := body; rs_error := error |}.

Definition reject_explicit_nulls (fields : list string) (payload : Value) : result unit string :=
  let? o := ok_or (as_object payload) "operation payload must be a JSON object" in
  guard_err (existsb (fun f => match o !! f with Some Null => true | _ => false end) fields) "field must not be null".

Definition validate_request (p : OperationRequestPayload) : result unit string :=
  guard_err (blank (rq_capability p) || (128 <? chars_count (rq_capability p)) || blank (rq_idempotency_key p)
             || (256 <? chars_count (rq_idempotency_key p)) || negb (is_object (rq_arguments p)))
    "operation.request requires non-empty capability/idempotency_key and object arguments" ;?
  match rq_payload_hash p with
  | Some h => guard_err (negb ((str_len h =? 64) && str_all is_ascii_hexdigit h))
                "operation.request payload_hash must be a 64-char hex SHA-256 digest"
  | None => Ok tt
  end ;?
  match rq_bound_action p with
  | Some bound =>
      guard_err (negb (is_object bound)) "operation.request authorization.bound_action must be an object" ;?
      guard_err (match rq_payload_hash p with None => true | Some _ => false end)
        "operation.request authorization requires payload_hash"
  | None => Ok tt
  end.

Definition valid_error (e : OperationError) : bool :=
  negb (blank (oe_code e)) && (chars_count (oe_code e) <=? 128)
  && negb (blank (oe_message e)) && (chars_count (oe_message e) <=? 4096).

Definition validate_result (p : OperationResultPayload) : result unit string :=
  match rs_status p with
  | RCompleted =>
      guard_err (negb (match rs_result p with Some v => is_object v | None => false end)
                 || match rs_error p with Some _ => true | None => false end)
        "completed operation.result requires object result and forbids error"
  | RFailed | RTimedOut | RDeviceOffline =>
      guard_err (negb (match rs_error p with Some e => valid_error e | None => false end)
                 || match rs_result p with Some _ => true | None => false end)
        "failed operation.result requires error and forbids result"
  | RCancelled =>
      guard_err (match rs_result p with Some _ => true | None => false end) "cancelled operation.result forbids result" ;?
      guard_err (match rs_error p with Some e => negb (valid_error e) | None => false end)
        "cancelled operation.result error fields must not be empty"
  end.

Definition payload_type (p : OperationPayload) : string :=
  match p with Request _ => "operation.request" | Result _ => "operation.result" end.

Definition payload_operation (p : OperationPayload) : string :=
  match p with Request r => rq_operation_id r | Result r => rs_operation_id r end.

Definition validate_contract (e : Envelope) (p : OperationPayload) : result unit string :=
  guard_err (negb (String.eqb (en_message_type e) (payload_type p))) "operation payload does not match envelope type" ;?
  let? correlation := ok_or (en_correlation_id e) "operation envelope requires correlation_id" in
  guard_err (negb (String.eqb correlation (payload_operation p))) "correlation_id must equal payload operation_id" ;?
  guard_err (MAX_SAFE_JSON_INTEGER <? en_seq e) "operation envelope seq exceeds the JSON safe-integer range" ;?
  match p with
  | Request r =>
      guard_err (match en_expires_at e with None => true | Some _ => false end) "operation.request requires expires_at" ;?
      validate_request r
  | Result r => validate_result r
  end.

(** [OperationEnvelope::parse_slice] for the two kinds. *)
Definition parse_operation (data : string) : result (Envelope * OperationPayload) string :=
  let? e := parse_envelope data in
  let? raw := ok_or (serde_from_str data) "invalid operation envelope JSON" in
  let? o := ok_or (as_object raw) "operation envelope must be a JSON object" in
  guard_err (negb (knows ENVELOPE_KEYS o)) "operation envelope contains unknown field" ;?
  guard_err (match o !! "expires_at" with Some Null => true | _ => false end) "operation envelope expires_at must not be null" ;?
  let? p := (if String.eqb (en_message_type e) "operation.request" then
               reject_explicit_nulls ["workspace_id"] (en_payload e) ;?
               rbind (request_of_value (en_payload e)) (fun p => Ok (Request p))
             else if String.eqb (en_message_type e) "operation.result" then
               reject_explicit_nulls ["result"; "error"] (en_payload e) ;?
               rbind (result_of_value (en_payload e)) (fun p => Ok (Result p))
             else Err "unsupported operation envelope type") in
  validate_contract e p ;? Ok (e, p).
End protocol.
