(* ===== verification/AgentBinding.v ===== *)
(** * Exact-action binding

    [crates/ownmeshd/src/agent_transport.rs]: a remote operation carries the action that the
    control plane authorized and its digest; before any effect the agent recomputes the
    digest over a canonical text and compares the action with the request. *)

From stdpp Require Import base list strings gmap.
From Stdlib Require Import ZArith Lia Ascii.
From S2P Require Import Prelude RustStr Json Transfer TransferPump AgentProtocol.

Open Scope Z_scope.

(** ** Values *)

#[export] Instance JNumber_eq_dec : EqDecision JNumber.
Proof. solve_decision. Defined.

#[export] Instance Value_eq_dec : EqDecision Value.
Proof.
  refine (fix go v w :=
    let _ : EqDecision Value := @go in
    match v, w with
    | Null, Null => left eq_refl
    | JBool a, JBool b => cast_if (decide (a = b))
    | Number a, Number b => cast_if (decide (a = b))
    | JString a, JString b => cast_if (decide (a = b))
    | Array a, Array b => cast_if (decide (a = b))
    | Object a, Object b => cast_if (decide (a = b))
    | _, _ => right _
    end); abstract congruence.
Defined.

Fixpoint value_size (v : Value) : nat :=
  match v with
  | Array l => S (fold_right (fun x n => value_size x + n)%nat 0%nat l)
  | Object m => S (map_fold (fun _ x n => value_size x + n)%nat 0%nat m)
  | _ => 1%nat
  end.

Lemma member_size m k x :
  m !! k = Some x -> (value_size x <= map_fold (fun (_ : string) x n => value_size x + n)%nat 0%nat m)%nat.
Proof.
  revert k. apply (map_fold_weak_ind (fun r m => forall k, m !! k = Some x -> (value_size x <= r)%nat)); [done |].
  intros j y m' r Hj IH k. destruct (decide (j = k)) as [->|N].
  - rewrite lookup_insert_eq. intros [= ->]. lia.
  - rewrite lookup_insert_ne by done. intros H%IH. lia.
Qed.

Lemma Value_ind (P : Value -> Prop) :
  P Null -> (forall b, P (JBool b)) -> (forall n, P (Number n)) -> (forall s, P (JString s)) ->
  (forall l, Forall P l -> P (Array l)) -> (forall m, map_Forall (fun _ v => P v) m -> P (Object m)) ->
  forall v, P v.
Proof.
  intros Hn Hb Hu Hs Ha Ho v. remember (value_size v) as n eqn:E. revert v E.
  induction (lt_wf n) as [n _ IH]. intros [|b|u|s|l|m] ->; [done | done | done | done | |].
  - apply Ha. cbn in IH. clear -IH. induction l as [|x l IHl]; constructor.
    + eapply IH; [|done]. cbn. lia.
    + apply IHl. intros y Hy v ->. eapply IH; [|done]. cbn. lia.
  - apply Ho. intros k x Hk. eapply IH; [|done]. apply member_size in Hk. cbn. lia.
Qed.

(** ** The canonical text *)

Section binding.
Context {AT : AgentText} {DG : Digests}.

Fixpoint stable_stringify (v : Value) : string :=
  match v with
  | Null => "null"
  | JBool b => if b then "true" else "false"
  | Number _ | JString _ => serde_to_string v
  | Array items => "[" +:+ join "," (map stable_stringify items) +:+ "]"
  | Object ms =>
      object_text (map (fun m => (serde_to_string (JString (fst m)), snd m))
        (sort_by key_order (map_fold (fun k v l => (k, stable_stringify v) :: l) [] ms)))
  end.

Definition sha256_hex_str (input : string) : string := plain_hex (sha256 input).

(** ** The facts of an action *)

Definition ignored_arguments : list string :=
  ["action"; "device_id"; "async"; "tool"; "operation_id"; "_client_hints"; "force_allow"; "bypass_policy";
   "skip_approval"; "allow"; "approved"; "intent_summary"; "risk_note"; "principal"; "principal_id"; "tenant_id";
   "policy_result"; "payload_hash"; "risk_level"; "idempotency_key"; "workspace_id"].

Definition MAX_ENV_ENTRIES : Z := 32.
Definition MAX_ENV_KEY_BYTES : Z := 128.
Definition MAX_ENV_VALUE_BYTES : Z := 4096.
Definition MAX_ENV_TOTAL_BYTES : Z := 16384.
Definition NUL : ascii := byte_of 0.

Definition value_order (a b : string * Value) : comparison := String.compare (fst a) (fst b).

Fixpoint env_entries (l : list (string * Value)) (total : Z) (out : gmap string Value) : result (gmap string Value) string :=
  match l with
  | [] => Ok out
  | (key, value) :: rest =>
      guard_err (is_empty key || (MAX_ENV_KEY_BYTES <? str_len key) || contains_char NUL key || contains_char "=" key)
        "env key is empty, too long, or contains NUL/=" ;?
      let? raw := ok_or (as_str value) "env values must be strings" in
      guard_err ((MAX_ENV_VALUE_BYTES <? str_len raw) || contains_char NUL raw) "env value is too long or contains NUL" ;?
      let total := u64_saturating_add (u64_saturating_add total (str_len key)) (str_len raw) in
      guard_err (MAX_ENV_TOTAL_BYTES <? total) "env exceeds total bytes" ;?
      env_entries rest total (<[key := JString raw]> out)
  end.

Definition normalize_env_fact (value : Value) : result Value string :=
  let? obj := ok_or (as_object value) "env must be an object of string values" in
  guard_err (MAX_ENV_ENTRIES <? Z.of_nat (size obj)) "env exceeds entries" ;?
  let? out := env_entries (sort_by value_order (map_to_list obj)) 0 ∅ in
  Ok (Object out).

(** The loop over the arguments, in the order of their keys. *)
Fixpoint action_facts (l : list (string * Value)) (facts : gmap string Value) : result (gmap string Value) string :=
  match l with
  | [] => Ok facts
  | (key, value) :: rest =>
      if existsb (String.eqb key) ignored_arguments then action_facts rest facts
      else if String.eqb key "content" && is_string value then
        let text := default "" (as_str value) in
        action_facts rest (<["content_bytes" := json_u64 (str_len text)]>
                             (<["content_sha256" := JString (sha256_hex_str text)]> facts))
      else if String.eqb key "env" then
        let? env := normalize_env_fact value in
        action_facts rest (<["env" := env]> facts)
      else action_facts rest (<[key := value]> facts)
  end.

Definition recompute_action_facts (arguments : gmap string Value) : result (gmap string Value) string :=
  action_facts (sort_by value_order (map_to_list arguments)) ∅.

(** ** Verification *)

Definition MAX_TRANSFER_TICKET_WIRE_BYTES : Z := 16 * 1024.

Definition action_of (r : OperationRequestPayload) : string := default "" (get_str (rq_arguments r) "action").

Definition args_object (r : OperationRequestPayload) : gmap string Value := default ∅ (as_object (rq_arguments r)).

Definition bound_str (o : gmap string Value) (key : string) : string := default "" (get_text o key).

Definition check_expiry (envelope_expires_at : option string) (bound_expires : string) : result unit string :=
  match envelope_expires_at with
  | Some env_exp =>
      let? bound_ts := ok_or (parse_rfc3339 bound_expires) "bound expires_at is not a valid timestamp" in
      let? env_ts := ok_or (parse_rfc3339 env_exp) "envelope expires_at is not a valid timestamp" in
      guard_err (negb (bound_ts =? env_ts)) "bound expires_at does not match envelope expires_at"
  | None => guard_err (negb (is_empty bound_expires)) "envelope missing expires_at required by binding"
  end.

Definition check_workspace (r : OperationRequestPayload) (bound : gmap string Value) : result unit string :=
  let bound_workspace := default Null (bound !! "workspace_id") in
  let request_workspace := match rq_workspace_id r with Some w => JString w | None => Null end in
  guard_err (negb (bool_decide (bound_workspace = request_workspace))) "bound workspace_id mismatch" ;?
  let version := default Null (bound !! "workspace_version") in
  match rq_workspace_id r with
  | Some _ => guard_err (match as_u64 version with Some n => n =? 0 | None => true end)
                "bound workspace_version is required for a workspace-bound request"
  | None => guard_err (negb (is_null version)) "unbound request cannot claim a workspace_version"
  end.

(** The arguments without the ticket of a transfer. *)
Definition bound_arguments (r : OperationRequestPayload) : result (gmap string Value) string :=
  let args := args_object r in
  if String.eqb (rq_capability r) "transfer.start" then
    let? ticket := ok_or (opt_filter (fun t => negb (is_empty t) && (str_len t <=? MAX_TRANSFER_TICKET_WIRE_BYTES))
                            (get_text args "ticket")) "transfer.start requires a bounded string ticket" in
    Ok (delete "ticket" args)
  else Ok args.

Definition verify_exact_action_binding (device_id : string) (r : OperationRequestPayload) (envelope_expires_at : option string)
  : result unit string :=
  let? bound := ok_or (rq_bound_action r) "remote side-effect operations require authorization.bound_action and payload_hash" in
  let? payload_hash := ok_or (rq_payload_hash r) "authorization binding requires payload_hash" in
  let? o := ok_or (as_object bound) "authorization.bound_action must be an object" in
  guard_err (negb (eq_ignore_ascii_case (sha256_hex_str (stable_stringify bound)) payload_hash))
    "payload_hash does not match authorization.bound_action" ;?
  guard_err (negb (String.eqb (bound_str o "operation_id") (rq_operation_id r))) "bound operation_id mismatch" ;?
  guard_err (negb (String.eqb (bound_str o "device_id") device_id)) "bound device_id mismatch" ;?
  guard_err (negb (String.eqb (bound_str o "capability") (rq_capability r))) "bound capability mismatch" ;?
  guard_err (negb (is_empty (action_of r)) && negb (String.eqb (bound_str o "action") (action_of r))) "bound action mismatch" ;?
  check_expiry envelope_expires_at (bound_str o "expires_at") ;?
  check_workspace r o ;?
  let? args := bound_arguments r in
  let? live_facts := recompute_action_facts args in
  guard_err (negb (bool_decide (live_facts = default ∅ (o !! "facts" ≫= as_object))))
    "bound action facts do not match request arguments" ;?
  guard_err (existsb (fun key => negb (bool_decide (is_Some (o !! key)))) ["principal_id"; "tenant_id"; "claim_version"; "tool"])
    "bound_action missing required field".

(** ** The text determines the action *)

Lemma fold_members {A} (g : Value -> A) (ms : gmap string Value) :
  map_fold (fun k v l => (k, g v) :: l) [] ms = map (prod_map id g) (map_to_list ms).
Proof. rewrite map_fold_foldr. by induction (map_to_list ms) as [|[k v] l IH]; cbn; [|rewrite IH]. Qed.

(** The canonical text is the compact text of [serde_json]. *)
Lemma stable_compact v : stable_stringify v = serde_to_string v.
Proof.
  induction v as [|b|n|s|l IH|m IH] using Value_ind; cbn [stable_stringify].
  - by rewrite serde_null.
  - by rewrite serde_bool.
  - done.
  - done.
  - rewrite serde_array. do 3 f_equal. induction IH as [|x l E _ IHl]; cbn; [done |]. by rewrite E, IHl.
  - rewrite serde_object, fold_members. do 3 f_equal. apply map_ext_in. intros [k v] H%list_elem_of_In%elem_of_map_to_list.
    unfold prod_map. cbn. f_equal. by apply (IH k v).
Qed.

(** Two different texts with one digest. *)
Definition collide (a b : string) : Prop := a <> b /\ sha256 a = sha256 b.

Lemma sha256_apart a b : sha256 a = sha256 b -> a = b \/ collide a b.
Proof. intros H. destruct (decide (a = b)) as [->|N]; [by left | by right]. Qed.

Lemma hex_str_apart a b : sha256_hex_str a = sha256_hex_str b -> a = b \/ collide a b.
Proof.
  unfold sha256_hex_str. intros H. apply sha256_apart.
  assert (plain_unhex (plain_hex (sha256 a)) = plain_unhex (plain_hex (sha256 b))) as E by congruence.
  rewrite !plain_unhex_hex in E. congruence.
Qed.

Lemma to_lower_lower s : str_all lower_hex s = true -> to_ascii_lowercase s = s.
Proof.
  unfold to_ascii_lowercase. induction s as [|c s IH]; cbn; [done |]. intros [H T]%andb_prop. rewrite IH by done. f_equal.
  unfold lower_hex in H. apply andb_prop in H as [_ H]. apply negb_true_iff in H.
  unfold to_ascii_lowercase_char. unfold is_ascii_uppercase in *. by rewrite H.
Qed.

Lemma hash_once a b h :
  eq_ignore_ascii_case (sha256_hex_str a) h = true -> eq_ignore_ascii_case (sha256_hex_str b) h = true -> a = b \/ collide a b.
Proof.
  unfold eq_ignore_ascii_case. rewrite !String.eqb_eq. intros Ha Hb. apply hex_str_apart.
  unfold sha256_hex_str in *. rewrite to_lower_lower in Ha, Hb by apply plain_hex_lower. congruence.
Qed.

(** ** The facts determine the arguments *)

Lemma env_entries_id l total out out' :
  NoDup l.*1 -> env_entries l total out = Ok out' -> out' = list_to_map l ∪ out.
Proof.
  revert total out. induction l as [|[k v] l IH]; intros total out N H; cbn [env_entries] in H.
  { injection H as <-. by rewrite list_to_map_nil, map_empty_union. }
  cbn in N. apply NoDup_cons in N as [Nk N]. destruct (guard_err _ _); [cbn [rbind] in H | done].
  destruct v as [| | |raw| |]; try done. cbn [ok_or as_str rbind] in H. destruct (guard_err _ _); [cbn [rbind] in H | done].
  destruct (guard_err _ _); [cbn [rbind] in H | done]. apply IH in H as ->; [|done].
  rewrite list_to_map_cons, <- insert_union_l, insert_union_r; [done |]. by apply not_elem_of_list_to_map_1.
Qed.

Lemma sorted_members (m : gmap string Value) :
  NoDup (sort_by value_order (map_to_list m)).*1 /\ list_to_map (sort_by value_order (map_to_list m)) = m.
Proof.
  assert (sort_by value_order (map_to_list m) ≡ₚ map_to_list m) as E by apply sort_by_perm. split.
  - rewrite E. apply NoDup_fst_map_to_list.
  - rewrite (list_to_map_proper _ (map_to_list m)); [apply list_to_map_to_list | | done].
    rewrite E. apply NoDup_fst_map_to_list.
Qed.

Lemma normalize_env_id v v' : normalize_env_fact v = Ok v' -> v' = v.
Proof.
  unfold normalize_env_fact. destruct v as [| | | | |obj]; try done. cbn [as_object ok_or rbind].
  destruct (guard_err _ _); [cbn [rbind] | done]. destruct (env_entries _ _ _) as [out|] eqn:E; [|done].
  intros [= <-]. f_equal. destruct (sorted_members obj) as [N L]. apply env_entries_id in E; [|done].
  by rewrite E, L, map_union_empty.
Qed.

(** What the facts say of a key, when no argument has the name of the digest.  The length
    is left out: it may be an argument as well. *)
Definition fact (args : gmap string Value) (k : string) : option Value :=
  if existsb (String.eqb k) ignored_arguments then None
  else if String.eqb k "content_sha256" then
    match args !! "content" with Some (JString t) => Some (JString (sha256_hex_str t)) | _ => None end
  else if String.eqb k "content" then match args !! "content" with Some (JString _) => None | x => x end
  else args !! k.

Definition unshadowed (args : gmap string Value) : Prop := args !! "content_sha256" = None.

(** One more argument. *)
Lemma fact_insert args key value k :
  args !! key = None -> key <> "content_sha256" ->
  fact (<[key := value]> args) k =
  if existsb (String.eqb key) ignored_arguments then fact args k
  else if String.eqb key "content" && is_string value then
    if String.eqb k "content_sha256" then Some (JString (sha256_hex_str (default "" (as_str value)))) else fact args k
  else if String.eqb k key then Some value else fact args k.
Proof.
  intros Nk N1. unfold fact. destruct (String.eqb_spec k key) as [->|Nkk].
  - rewrite lookup_insert_eq, Nk. destruct (existsb (String.eqb key) ignored_arguments) eqn:I; [done |].
    rewrite (proj2 (String.eqb_neq _ _) N1).
    destruct (String.eqb_spec key "content") as [->|Nc]; cbn [andb]; [|done].
    rewrite lookup_insert_eq, Nk. by destruct value.
  - rewrite !(lookup_insert_ne _ key k) by done. destruct (existsb (String.eqb key) ignored_arguments) eqn:I.
    + assert (key <> "content") as Nc by (intros ->; done). by rewrite !lookup_insert_ne.
    + destruct (String.eqb_spec key "content") as [->|Nc]; cbn [andb]; [|by rewrite !lookup_insert_ne].
      rewrite lookup_insert_eq, Nk. rewrite (proj2 (String.eqb_neq k "content") Nkk).
      destruct (String.eqb_spec k "content_sha256") as [->|]; [by destruct value |].
      by destruct (existsb _ _), (is_string value).
Qed.

Lemma action_facts_lookup l facts out k :
  NoDup l.*1 -> "content_sha256" ∉ l.*1 -> k <> "content_bytes" -> action_facts l facts = Ok out ->
  out !! k = match fact (list_to_map l) k with Some v => Some v | None => facts !! k end.
Proof.
  revert facts. induction l as [|[key value] l IH]; intros facts N N1 Kb H; cbn [action_facts] in H.
  { injection H as <-. unfold fact. rewrite list_to_map_nil, !lookup_empty. by repeat case_match. }
  cbn in N, N1. apply NoDup_cons in N as [Nk N]. apply not_elem_of_cons in N1 as [K1 N1].
  rewrite list_to_map_cons, fact_insert by (try done; by apply not_elem_of_list_to_map_1).
  pose proof (not_elem_of_list_to_map_1 l key Nk) as Nl. destruct (existsb (String.eqb key) ignored_arguments) eqn:I; [by apply IH |].
  assert (forall v facts, action_facts l (<[key := v]> facts) = Ok out ->
    out !! k = match (if String.eqb k key then Some v else fact (list_to_map l) k) with Some v => Some v | None => facts !! k end) as Put.
  { intros v facts' E. rewrite (IH _ N N1 Kb E). destruct (String.eqb_spec k key) as [->|Nkk]; [|by rewrite lookup_insert_ne by done].
    rewrite lookup_insert_eq. unfold fact. rewrite I, (proj2 (String.eqb_neq key "content_sha256")) by congruence.
    destruct (String.eqb_spec key "content") as [->|]; by rewrite Nl. }
  destruct (String.eqb_spec key "content") as [->|Nc]; cbn [andb] in H |- *.
  - destruct (is_string value) eqn:Sv; cbn [andb] in H |- *; [|by apply Put].
    rewrite (IH _ N N1 Kb H), (lookup_insert_ne _ "content_bytes") by done.
    destruct (String.eqb_spec k "content_sha256") as [->|M1]; [|by rewrite lookup_insert_ne by done].
    unfold fact. change (existsb _ _) with false. by rewrite Nl, lookup_insert_eq.
  - destruct (String.eqb_spec key "env") as [->|Ne]; [|by apply Put].
    destruct (normalize_env_fact value) as [env|] eqn:E; [|done]. apply normalize_env_id in E as ->. by apply Put.
Qed.

Lemma recomputed args out k :
  unshadowed args -> k <> "content_bytes" -> recompute_action_facts args = Ok out -> out !! k = fact args k.
Proof.
  intros U Kb H. unfold recompute_action_facts in H. destruct (sorted_members args) as [N L].
  rewrite <- L. apply action_facts_lookup with (facts := ∅) (k := k) in H; [|done | | done].
  - rewrite H, lookup_empty. by destruct (fact _ _).
  - apply (not_elem_of_list_to_map_2 (M := gmap string)). by rewrite L.
Qed.

(** The content and the names of the two facts that are computed from it. *)
Definition content_keys : list string := ["content"; "content_bytes"; "content_sha256"].

(** Any other argument is its own fact. *)
Lemma action_facts_plain l facts out k :
  NoDup l.*1 -> existsb (String.eqb k) ignored_arguments = false -> k ∉ content_keys -> action_facts l facts = Ok out ->
  out !! k = match (list_to_map l : gmap string Value) !! k with Some v => Some v | None => facts !! k end.
Proof.
  intros N Ik Kc. assert (k <> "content" /\ k <> "content_bytes" /\ k <> "content_sha256") as (K1 & K2 & K3)
    by (unfold content_keys in Kc; split_and!; intros ->; apply Kc; set_solver).
  revert facts N. induction l as [|[key value] l IH]; intros facts N H; cbn [action_facts] in H.
  { injection H as <-. by rewrite list_to_map_nil, lookup_empty. }
  cbn in N. apply NoDup_cons in N as [Nk N]. rewrite list_to_map_cons.
  pose proof (not_elem_of_list_to_map_1 (M := gmap string) l key Nk) as Nl.
  destruct (existsb (String.eqb key) ignored_arguments) eqn:I.
  { rewrite lookup_insert_ne by congruence. by apply IH. }
  assert (forall v facts, action_facts l (<[key := v]> facts) = Ok out ->
    out !! k = match (<[key := v]> (list_to_map l : gmap string Value)) !! k with Some v => Some v | None => facts !! k end) as Put.
  { intros v facts' E. rewrite (IH _ N E). destruct (decide (key = k)) as [->|Nkk]; [|by rewrite !lookup_insert_ne by done].
    by rewrite !lookup_insert_eq, Nl. }
  destruct (String.eqb_spec key "content") as [->|Nc]; cbn [andb] in H.
  - destruct (is_string value); cbn [andb] in H; [|by apply Put].
    rewrite (IH _ N H), !lookup_insert_ne by done. done.
  - destruct (String.eqb_spec key "env") as [->|Ne]; [|by apply Put].
    destruct (normalize_env_fact value) as [env|] eqn:E; [|done]. apply normalize_env_id in E as ->. by apply Put.
Qed.

(** The arguments that count. *)
Definition counts (key : string) : Prop := (key ∉ ignored_arguments) /\ (key ∉ content_keys).

Definition contents_collide (a b : gmap string Value) : Prop :=
  exists t t', a !! "content" = Some (JString t) /\ b !! "content" = Some (JString t') /\ collide t t'.

Lemma recomputed_plain args out key : counts key -> recompute_action_facts args = Ok out -> out !! key = args !! key.
Proof.
  intros [I K] H. assert (existsb (String.eqb key) ignored_arguments = false) as Ig.
  { apply not_true_iff_false. rewrite existsb_exists. intros (x & Hx & E). apply String.eqb_eq in E as <-. by apply I, list_elem_of_In. }
  unfold recompute_action_facts in H. destruct (sorted_members args) as [N L].
  rewrite (action_facts_plain _ _ _ _ N Ig K H), L, lookup_empty. by destruct (args !! key).
Qed.

(** Equal facts come from equal arguments. *)
Lemma facts_arguments a b out :
  recompute_action_facts a = Ok out -> recompute_action_facts b = Ok out ->
  (forall key, counts key -> a !! key = b !! key)
  /\ (unshadowed a -> unshadowed b -> a !! "content" = b !! "content" \/ contents_collide a b).
Proof.
  intros Ha Hb. split.
  { intros key K. by rewrite <- (recomputed_plain a out), <- (recomputed_plain b out). }
  intros Ua Ub. assert (forall k, k <> "content_bytes" -> fact a k = fact b k) as F.
  { intros k Kb. by rewrite <- (recomputed a out), <- (recomputed b out). }
  pose proof (F "content") as Fc. pose proof (F "content_sha256") as Fs. unfold fact in Fc, Fs.
  change (existsb _ _) with false in Fc, Fs. cbn in Fc, Fs. specialize (Fc ltac:(done)). specialize (Fs ltac:(done)).
  unfold contents_collide.
  destruct (a !! "content") as [[]|], (b !! "content") as [[]|]; try done; try (by left; congruence).
  injection Fs as E. destruct (hex_str_apart _ _ E) as [->|]; [by left | right; eauto].
Qed.

(** What a verified request has in common with the bound action. *)
Lemma verified device r expiry :
  verify_exact_action_binding device r expiry = Ok tt ->
  exists o h args facts, rq_bound_action r = Some (Object o) /\ rq_payload_hash r = Some h
  /\ eq_ignore_ascii_case (sha256_hex_str (stable_stringify (Object o))) h = true
  /\ rq_operation_id r = bound_str o "operation_id" /\ device = bound_str o "device_id"
  /\ rq_capability r = bound_str o "capability" /\ (action_of r = "" \/ action_of r = bound_str o "action")
  /\ check_expiry expiry (bound_str o "expires_at") = Ok tt
  /\ match rq_workspace_id r with Some w => JString w | None => Null end = default Null (o !! "workspace_id")
  /\ bound_arguments r = Ok args /\ recompute_action_facts args = Ok facts
  /\ facts = default ∅ (o !! "facts" ≫= as_object).
Proof.
  unfold verify_exact_action_binding. intros H.
  destruct (rq_bound_action r) as [b|]; [|done]. destruct (rq_payload_hash r) as [h|]; [|done]. cbn [ok_or rbind] in H.
  destruct b as [| | | | |o]; try done. cbn [as_object ok_or rbind] in H.
  repeat match type of H with rbind (guard_err ?c _) _ = _ => destruct c eqn:?; [done |]; cbn [guard_err rbind] in H end.
  destruct (check_expiry _ _) as [[]|] eqn:X; [|done]. destruct (check_workspace r o) as [[]|] eqn:W; [|done]. cbn [rbind] in H.
  destruct (bound_arguments r) as [args|] eqn:A; [|done]. cbn [rbind] in H.
  destruct (recompute_action_facts args) as [facts|] eqn:F; [|done]. cbn [rbind] in H.
  destruct (negb (bool_decide (facts = _))) eqn:Q in H; [done |]. exists o, h, args, facts. bool_prop.
  split_and!; try done; try (by symmetry; apply String.eqb_eq).
  - destruct (String.eqb_spec (bound_str o "action") (action_of r)) as [->|]; [by right | left].
    destruct (action_of r); [done |]. naive_solver.
  - unfold check_workspace in W. destruct (bool_decide _) eqn:Bw in W; [|done]. by apply bool_decide_eq_true in Bw.
Qed.

Lemma bound_arguments_ok r args :
  bound_arguments r = Ok args ->
  (forall key, (rq_capability r = "transfer.start" -> key <> "ticket") -> args !! key = args_object r !! key)
  /\ (unshadowed (args_object r) -> unshadowed args).
Proof.
  unfold bound_arguments. destruct (String.eqb_spec (rq_capability r) "transfer.start") as [E|]; [|by intros [= <-]].
  destruct (ok_or _ _); [|done]. intros [= <-]. split.
  - intros key N. rewrite lookup_delete_ne; [done |]. intros <-. by apply N.
  - intros U. unfold unshadowed. by rewrite lookup_delete_ne.
Qed.

(** C25: an authorized digest fixes the action.  Two requests that pass verification with the
    same digest, in whatever case it is written, name the same operation, device,
    capability and workspace, expire at the same time, and have the same value for every
    argument that counts, the transfer ticket apart; unless the two bound actions at hand
    differ and have one SHA-256 digest.  Their contents are the same too, or differ and
    have one digest, if neither request has an argument [content_sha256]: such an argument
    takes the place of the digest computed from the content, which is then not fixed. *)
Theorem digest_fixes_action device r expiry device' r' expiry' h h' :
  verify_exact_action_binding device r expiry = Ok tt -> verify_exact_action_binding device' r' expiry' = Ok tt ->
  rq_payload_hash r = Some h -> rq_payload_hash r' = Some h' -> eq_ignore_ascii_case h h' = true ->
  (exists o o', rq_bound_action r = Some o /\ rq_bound_action r' = Some o' /\ collide (stable_stringify o) (stable_stringify o'))
  \/ (rq_operation_id r = rq_operation_id r' /\ device = device' /\ rq_capability r = rq_capability r'
      /\ rq_workspace_id r = rq_workspace_id r'
      /\ (forall e e', expiry = Some e -> expiry' = Some e' -> parse_rfc3339 e = parse_rfc3339 e')
      /\ (forall key, counts key -> (rq_capability r = "transfer.start" -> key <> "ticket") ->
          args_object r !! key = args_object r' !! key)
      /\ (unshadowed (args_object r) -> unshadowed (args_object r') ->
          args_object r !! "content" = args_object r' !! "content" \/ contents_collide (args_object r) (args_object r'))).
Proof.
  intros V V' Hh Hh' Eh. apply verified in V as (o & ? & a & f & B1 & Hh1 & D & O1 & D1 & C1 & _ & X1 & W1 & A1 & F1 & ->).
  apply verified in V' as (o' & ? & a' & f' & B2 & Hh2 & D' & O2 & D2 & C2 & _ & X2 & W2 & A2 & F2 & ->).
  rewrite Hh in Hh1. rewrite Hh' in Hh2. injection Hh1 as <-. injection Hh2 as <-.
  assert (eq_ignore_ascii_case (sha256_hex_str (stable_stringify (Object o'))) h = true) as D0.
  { unfold eq_ignore_ascii_case in *. rewrite !String.eqb_eq in *. congruence. }
  destruct (hash_once _ _ _ D D0) as [E|]; [|left; eauto]. rewrite !stable_compact in E.
  assert (Some (Object o) = Some (Object o')) as S by (rewrite <- !serde_roundtrip; by rewrite E). injection S as <-.
  apply bound_arguments_ok in A1 as [K1 S1], A2 as [K2 S2].
  destruct (facts_arguments a a' _ F1 F2) as [K Kc]. right.
  split_and!; [congruence | congruence | congruence | | | |].
  - rewrite <- W2 in W1. destruct (rq_workspace_id r), (rq_workspace_id r'); congruence.
  - intros e e' -> ->. cbn in X1, X2. destruct (parse_rfc3339 (bound_str o "expires_at")) as [t|]; [|done]. cbn in X1, X2.
    destruct (parse_rfc3339 e) as [t1|], (parse_rfc3339 e') as [t2|]; try done. cbn in X1, X2.
    destruct (Z.eqb_spec t t1), (Z.eqb_spec t t2); try done. congruence.
  - intros key I T. rewrite <- K1, <- K2 by (intros ?; apply T; congruence). by apply K.
  - intros U U'. unfold contents_collide in *. rewrite <- K1, <- K2 by done. by apply Kc; auto.
Qed.
End binding.
