(* ===== verification/AgentLink.v ===== *)
(** * The agent's connection to the control plane

    [crates/ownmeshd/src/agent_transport.rs]: the durable state of the connection (sequence
    numbers, messages seen, accepted operations, replies), the handshake, the live loop and
    the tasks that run operations.  Everything the agent cannot decide (whether a write or a
    send succeeds, the clock, what the daemon's runtime answers, what tasks do while the
    loop waits) is read from a [World]; each effect uses the next moment of it. *)

From stdpp Require Import base list strings gmap.
From Stdlib Require Import ZArith Lia Ascii.
From S2P Require Import Prelude RustStr RustBytes Json Transfer TransferPump SupervisorSpool AgentProtocol AgentBinding.

Open Scope Z_scope.

Definition TRANSPORT_STATE_VERSION : Z := 1.
Definition MAX_REPLAY_ENTRIES : Z := 4096.
Definition MAX_COMPLETED_REPLIES : Z := 1024.
Definition MAX_COMPLETED_REPLIES_BYTES : Z := 4 * 1024 * 1024.
Definition MAX_COMPLETED_REPLY_PAYLOAD_BYTES : Z := 64 * 1024.
Definition MAX_PAYLOAD_BYTES : Z := 1000000.
Definition MAX_TRANSPORT_STATE_FILE_BYTES : Z := 8 * 1024 * 1024.
Definition MAX_COMPLETION_QUEUE : Z := 8.
Definition MAX_IN_FLIGHT_REMOTE_OPS : Z := 32.
Definition MAX_PENDING_DISPATCHES : Z := 64.
Definition MAX_PENDING_RAW_BYTES : Z := MAX_PAYLOAD_BYTES + 64 * 1024.

(** ** The durable state *)

Record CompletedReply : Type := { cr_correlation_id : string; cr_operation_id : string; cr_payload : Value }.

Record PendingDispatch : Type := {
  pd_message_id : string;
  pd_correlation_id : string;
  pd_operation_id : string;
  pd_raw : string;
  pd_accepted_at : string;
  pd_transfer_session_lost : bool;
  pd_expires_at : option string;
  pd_dispatch_started : option bool
}.

#[export] Instance PendingDispatch_eta : Eta PendingDispatch := fun p =>
  {| pd_message_id := pd_message_id p; pd_correlation_id := pd_correlation_id p; pd_operation_id := pd_operation_id p;
     pd_raw := pd_raw p; pd_accepted_at := pd_accepted_at p; pd_transfer_session_lost := pd_transfer_session_lost p;
     pd_expires_at := pd_expires_at p; pd_dispatch_started := pd_dispatch_started p |}.

Record AgentTransportState : Type := {
  ts_version : Z;
  ts_issuer : string;
  ts_device_id : string;
  ts_next_outbound_seq : Z;
  ts_last_server_seq : Z;
  ts_seen_message_ids : list string;
  ts_completed_replies : list CompletedReply;
  ts_pending_dispatches : list PendingDispatch
}.

#[export] Instance AgentTransportState_eta : Eta AgentTransportState := fun s =>
  {| ts_version := ts_version s; ts_issuer := ts_issuer s; ts_device_id := ts_device_id s;
     ts_next_outbound_seq := ts_next_outbound_seq s; ts_last_server_seq := ts_last_server_seq s;
     ts_seen_message_ids := ts_seen_message_ids s; ts_completed_replies := ts_completed_replies s;
     ts_pending_dispatches := ts_pending_dispatches s |}.

(** [serde_json] on the state: pretty text that reads back, also with a line feed. *)
Class StateCodec : Type := {
  state_to_vec_pretty : AgentTransportState -> string;
  state_from_slice : string -> result AgentTransportState string;
  state_from_to_vec s : state_from_slice (state_to_vec_pretty s +:+ String (byte_of 10) "") = Ok s
}.

Record AgentTransportConfig : Type := { cf_issuer : string; cf_device_id : string; cf_runtime : bool; cf_version : string }.

(** [trim_front]. *)
Definition trim_front {A} (maximum : Z) (l : list A) : list A := skipn (length l - Z.to_nat maximum) l.

Definition fresh (cfg : AgentTransportConfig) : AgentTransportState :=
  {| ts_version := TRANSPORT_STATE_VERSION; ts_issuer := cf_issuer cfg; ts_device_id := cf_device_id cfg;
     ts_next_outbound_seq := 0; ts_last_server_seq := 0; ts_seen_message_ids := []; ts_completed_replies := [];
     ts_pending_dispatches := [] |}.

Definition has_seen_message (id : string) (s : AgentTransportState) : bool := existsb (String.eqb id) (ts_seen_message_ids s).

Definition remember_message (id : string) (s : AgentTransportState) : AgentTransportState :=
  s <| ts_seen_message_ids := trim_front MAX_REPLAY_ENTRIES (ts_seen_message_ids s ++ [id]) |>.

Definition completed (c : string) (s : AgentTransportState) : option CompletedReply :=
  List.find (fun r => String.eqb (cr_correlation_id r) c) (ts_completed_replies s).

Definition pending_by_correlation (c : string) (s : AgentTransportState) : option PendingDispatch :=
  List.find (fun p => String.eqb (pd_correlation_id p) c) (ts_pending_dispatches s).

Definition without_pending (c : string) (l : list PendingDispatch) : list PendingDispatch :=
  List.filter (fun p => negb (String.eqb (pd_correlation_id p) c)) l.

Definition clear_pending_by_correlation (c : string) (s : AgentTransportState) : AgentTransportState :=
  s <| ts_pending_dispatches := without_pending c (ts_pending_dispatches s) |>.

Definition raw_total (l : list PendingDispatch) : Z := fold_right (fun p n => str_len (pd_raw p) + n) 0 l.

(** [remember_pending]: on an error an earlier entry of the same correlation is gone. *)
Definition remember_pending (p : PendingDispatch) (s : AgentTransportState) : result unit string * AgentTransportState :=
  match (guard_err (MAX_PENDING_RAW_BYTES <? str_len (pd_raw p)) "pending operation envelope exceeds byte budget" ;?
         guard_err (is_empty (pd_correlation_id p) || is_empty (pd_message_id p))
           "pending dispatch requires message_id and correlation_id") with
  | Err e => (Err e, s)
  | Ok _ =>
      let s := clear_pending_by_correlation (pd_correlation_id p) s in
      if MAX_PENDING_DISPATCHES <=? zlen (ts_pending_dispatches s)
      then (Err "pending dispatch outbox full; no live eviction", s)
      else if MAX_COMPLETED_REPLIES_BYTES / 2 <? u64_saturating_add (raw_total (ts_pending_dispatches s)) (str_len (pd_raw p))
      then (Err "pending dispatch outbox byte budget exhausted; no live eviction", s)
      else (Ok tt, s <| ts_pending_dispatches := ts_pending_dispatches s ++ [p] |>)
  end.

Fixpoint mark_first (c : string) (l : list PendingDispatch) : option (list PendingDispatch) :=
  match l with
  | [] => None
  | p :: rest =>
      if String.eqb (pd_correlation_id p) c then Some (p <| pd_dispatch_started := Some true |> :: rest)
      else cons p <$> mark_first c rest
  end.

Definition mark_dispatch_started (c : string) (s : AgentTransportState) : result AgentTransportState string :=
  let? l := ok_or (mark_first c (ts_pending_dispatches s)) "cannot mark a missing pending dispatch as started" in
  Ok (s <| ts_pending_dispatches := l |>).

(** The loop of [enforce_pending_dispatch_budgets] over bytes. *)
Fixpoint drop_oldest (total : Z) (l : list PendingDispatch) : list PendingDispatch :=
  match l with
  | [] => []
  | p :: rest =>
      if MAX_COMPLETED_REPLIES_BYTES / 2 <? total then drop_oldest (usize_saturating_sub total (str_len (pd_raw p))) rest else l
  end.

Definition enforce_pending_dispatch_budgets (s : AgentTransportState) : AgentTransportState :=
  let l := trim_front MAX_PENDING_DISPATCHES (ts_pending_dispatches s) in
  s <| ts_pending_dispatches := drop_oldest (raw_total l) l |>.

Section agent.
Context {AT : AgentText} {DG : Digests} {SC : StateCodec}.
Context (sign : string -> string).

(** ** Replies *)

Definition reply_bytes (r : CompletedReply) : Z :=
  str_len (serde_to_string (cr_payload r)) + str_len (cr_correlation_id r) + str_len (cr_operation_id r).

Definition completed_replies_bytes (l : list CompletedReply) : Z := fold_right (fun r n => reply_bytes r + n) 0 l.

Definition receipt_note : string :=
  "full result exceeded durable Agent reply budget; completion retained for exact-once replay".

Definition completion_receipt (r : CompletedReply) : CompletedReply :=
  let payload :=
    json_object
      [("operation_contract", JString OPERATION_CONTRACT_V1); ("operation_id", JString (cr_operation_id r));
       ("status", JString (default "completed" (get_str (cr_payload r) "status"))); ("durable_receipt", JBool true);
       ("truncated", JBool true); ("note", JString receipt_note)] in
  {| cr_correlation_id := cr_correlation_id r; cr_operation_id := cr_operation_id r;
     cr_payload := match get (cr_payload r) "error" with Some e => insert_member "error" e payload | None => payload end |}.

Definition compact_completed_reply (r : CompletedReply) : CompletedReply :=
  if str_len (serde_to_string (cr_payload r)) <=? MAX_COMPLETED_REPLY_PAYLOAD_BYTES then r else completion_receipt r.

Definition already_receipt (r : CompletedReply) : bool :=
  match get (cr_payload r) "durable_receipt" with Some (JBool true) => true | _ => false end.

(** The second loop of [enforce_completed_reply_budgets]. *)
Fixpoint shrink_replies (l : list CompletedReply) : list CompletedReply :=
  match l with
  | [] => []
  | oldest :: rest =>
      if completed_replies_bytes l <=? MAX_COMPLETED_REPLIES_BYTES then l
      else if already_receipt oldest then shrink_replies rest
      else let receipt := completion_receipt oldest in
           if completed_replies_bytes (receipt :: rest) <=? MAX_COMPLETED_REPLIES_BYTES then receipt :: rest
           else shrink_replies rest
  end.

Definition enforce_completed_reply_budgets (s : AgentTransportState) : AgentTransportState :=
  s <| ts_completed_replies :=
         trim_front MAX_COMPLETED_REPLIES (shrink_replies (map compact_completed_reply (ts_completed_replies s))) |>.

Definition without_reply (c : string) (l : list CompletedReply) : list CompletedReply :=
  List.filter (fun r => negb (String.eqb (cr_correlation_id r) c)) l.

Definition remember_completed (r : CompletedReply) (s : AgentTransportState) : AgentTransportState :=
  let s := clear_pending_by_correlation (cr_correlation_id r) s in
  let compact := compact_completed_reply r in
  let replies := without_reply (cr_correlation_id compact) (ts_completed_replies s) ++ [compact] in
  enforce_completed_reply_budgets (s <| ts_completed_replies := trim_front MAX_COMPLETED_REPLIES replies |>).

(** ** The agent *)

(** Where the connection is; [Disabled] after a state file that was refused. *)
Inductive Phase : Type := Disabled | Offline | AwaitChallenge | AwaitAccepted | AwaitReadyAck (reconcile : bool) | Live.

Record Task : Type := { tk_correlation : string; tk_operation_id : string; tk_session : Z; tk_sent : bool }.

#[export] Instance Task_eta : Eta Task := fun t =>
  {| tk_correlation := tk_correlation t; tk_operation_id := tk_operation_id t; tk_session := tk_session t; tk_sent := tk_sent t |}.

Record OperationReconcileScan : Type := { sc_enabled : bool; sc_after : option string; sc_request : option string }.

(** Why a reply is recorded for an operation or its entry in the outbox is dropped. *)
Inductive Outcome : Type :=
| Executed | Orphaned | ExpiredBefore | OutcomeUnknown | SessionLost | DispatchLost | RefusedCancel | Cancelled
| Unsupported | Backpressure | SettledRemotely | CancelTarget.

Inductive Entry : Type :=
| Sent (seq : Z) (e : Envelope)
| Handled (seq : Z) (message_id : string)
| Spawned (correlation : string)
| Settled (correlation : string) (why : Outcome)
| Evicted (correlation : string)
| Signalled (operation_id : string).

(** The connection's state in memory and on disk, the tasks with what they share with the
    loop, and the history. [ag_queue] is the channel of the current session. *)
Record Agent : Type := {
  ag_state : AgentTransportState;
  ag_file : option string;
  ag_phase : Phase;
  ag_session : Z;
  ag_queue : list CompletedReply;
  ag_orphans : list CompletedReply;
  ag_tasks : list Task;
  ag_active : gset string;
  ag_registry : gset string;
  ag_scan : OperationReconcileScan;
  ag_dirty : bool;
  ag_moment : nat;
  ag_log : list Entry
}.

#[export] Instance Agent_eta : Eta Agent := fun a =>
  {| ag_state := ag_state a; ag_file := ag_file a; ag_phase := ag_phase a; ag_session := ag_session a;
     ag_queue := ag_queue a; ag_orphans := ag_orphans a; ag_tasks := ag_tasks a; ag_active := ag_active a;
     ag_registry := ag_registry a; ag_scan := ag_scan a; ag_dirty := ag_dirty a; ag_moment := ag_moment a;
     ag_log := ag_log a |}.

(** What a task does: it has its result, or it has handed it over and ends. *)
Inductive TaskStep : Type := TaskSend (k : nat) (payload : Value) | TaskEnd (k : nat).

Record World : Type := {
  wd_io : nat -> Io;
  wd_sent : nat -> bool;
  wd_now : nat -> Z;
  wd_uuid : nat -> string;
  wd_meanwhile : nat -> list TaskStep;
  wd_candidates : nat -> option string -> list string;
  wd_acknowledge : nat -> list string -> result unit string;
  wd_registry : nat -> bool * Value
}.

Context (cfg : AgentTransportConfig) (w : World).

Definition load (a : Agent) : result AgentTransportState string :=
  match ag_file a with
  | None => Ok (fresh cfg)
  | Some bytes =>
      guard_err (MAX_TRANSPORT_STATE_FILE_BYTES <? str_len bytes) "transport state exceeds byte budget" ;?
      let? s := map_err (fun e => "transport state is corrupt: " +:+ e) (state_from_slice bytes) in
      guard_err (negb (ts_version s =? TRANSPORT_STATE_VERSION)) "unsupported transport state version" ;?
      if negb (String.eqb (ts_issuer s) (cf_issuer cfg)) || negb (String.eqb (ts_device_id s) (cf_device_id cfg))
      then Ok (fresh cfg)
      else
        guard_err ((MAX_SAFE_JSON_INTEGER <? ts_next_outbound_seq s) || (MAX_SAFE_JSON_INTEGER <? ts_last_server_seq s))
          "transport state sequence exceeds JSON safe-integer range" ;?
        let s := s <| ts_seen_message_ids := trim_front MAX_REPLAY_ENTRIES (ts_seen_message_ids s) |>
                   <| ts_completed_replies := trim_front MAX_COMPLETED_REPLIES (ts_completed_replies s) |> in
        Ok (enforce_pending_dispatch_budgets (enforce_completed_reply_budgets s))
  end.

(** ** Tasks *)

Definition is_live (p : Phase) : bool := match p with Live => true | _ => false end.

(** The receiving end of a task's channel exists while the loop of its session runs. *)
Definition attached (t : Task) (a : Agent) : bool := is_live (ag_phase a) && (tk_session t =? ag_session a).

(** [remember_orphan_completion]. *)
Definition park (r : CompletedReply) (l : list CompletedReply) : list CompletedReply :=
  let compact := compact_completed_reply r in
  let l := without_reply (cr_correlation_id compact) l in
  (if MAX_COMPLETED_REPLIES <=? zlen l then tl l else l) ++ [compact].

Definition set_task (k : nat) (t : Task) (a : Agent) : Agent := a <| ag_tasks := <[k := t]> (ag_tasks a) |>.

Definition remove_nth {A} (k : nat) (l : list A) : list A := firstn k l ++ skipn (S k) l.

Definition task_step (ts : TaskStep) (a : Agent) : Agent :=
  match ts with
  | TaskSend k payload =>
      match ag_tasks a !! k with
      | Some t =>
          if tk_sent t then a
          else
            let r := {| cr_correlation_id := tk_correlation t; cr_operation_id := tk_operation_id t; cr_payload := payload |} in
            if attached t a then
              let a := a <| ag_registry := ag_registry a ∖ {[tk_operation_id t]} |> in
              if MAX_COMPLETION_QUEUE <=? zlen (ag_queue a) then a
              else set_task k (t <| tk_sent := true |>) (a <| ag_queue := ag_queue a ++ [r] |>)
            else set_task k (t <| tk_sent := true |>) (a <| ag_orphans := park r (ag_orphans a) |>)
      | None => a
      end
  | TaskEnd k =>
      match ag_tasks a !! k with
      | Some t =>
          if tk_sent t
          then a <| ag_tasks := remove_nth k (ag_tasks a) |> <| ag_active := ag_active a ∖ {[tk_correlation t]} |>
          else a
      | None => a
      end
  end.

(** ** Effects *)

Definition Act (A : Type) : Type := Agent -> result A string * Agent.

#[export] Instance Act_ret : MRet Act := fun A x a => (Ok x, a).
#[export] Instance Act_bind : MBind Act := fun A B k m a =>
  match m a with (Ok x, a) => k x a | (Err e, a) => (Err e, a) end.

Definition fail {A} (e : string) : Act A := fun a => (Err e, a).
Definition ofres {A} (r : result A string) : Act A := fun a => (r, a).
Definition modify (f : Agent -> Agent) : Act unit := fun a => (Ok tt, f a).
Definition gets {A} (f : Agent -> A) : Act A := fun a => (Ok (f a), a).
Definition on_state (f : AgentTransportState -> AgentTransportState) : Act unit := modify (fun a => a <| ag_state := f (ag_state a) |>).
Definition note (e : Entry) : Act unit := modify (fun a => a <| ag_log := e :: ag_log a |>).
Definition moment : Act nat := fun a => (Ok (ag_moment a), a <| ag_moment := S (ag_moment a) |>).

Fixpoint for_all {A} (f : A -> Act unit) (l : list A) : Act unit :=
  match l with [] => mret tt | x :: l => f x ;; for_all f l end.

(** A point where the loop waits and tasks run. *)
Definition yield : Act unit := t ← moment; modify (fun a => fold_left (fun a s => task_step s a) (wd_meanwhile w t) a).

Definition now : Act Z := t ← moment; mret (wd_now w t).

Definition LF : string := String (byte_of 10) "".

(** [save], with [atomic_write]. *)
Definition save : Act unit :=
  t ← moment; s ← gets ag_state;
  let bytes := state_to_vec_pretty s in
  if MAX_TRANSPORT_STATE_FILE_BYTES <? str_len bytes then fail "transport state serialize exceeds byte budget"
  else fun a =>
    let '(r, file) := replace_file (wd_io w t) (bytes +:+ LF) (ag_file a) in
    (map_err (fun e => "persist transport state: " +:+ e) r, a <| ag_file := file |>).

(** A reply is recorded; the outbox entry of its correlation is dropped. *)
Definition record_completed (why : Outcome) (r : CompletedReply) : Act unit :=
  on_state (remember_completed r) ;; note (Settled (cr_correlation_id r) why).

Definition drop_pending (why : Outcome) (c : string) : Act unit :=
  on_state (clear_pending_by_correlation c) ;; note (Settled c why).

Definition next_seq : Act Z :=
  s ← gets ag_state;
  if MAX_SAFE_JSON_INTEGER <=? ts_next_outbound_seq s then fail "outbound sequence exhausted JSON safe-integer range"
  else on_state (fun s => s <| ts_next_outbound_seq := ts_next_outbound_seq s + 1 |>) ;;
       mret (ts_next_outbound_seq s + 1).

Definition next_envelope (message_type : string) (payload : Value) (correlation_id : option string) : Act Envelope :=
  seq ← next_seq; save ;;
  t ← moment; message_id ← ofres (parse_prefixed_id "msg_" ("msg_" +:+ wd_uuid w t)); sent_at ← now;
  mret {| en_protocol := PROTOCOL_DEVICE_V1; en_message_id := message_id; en_message_type := message_type;
          en_device_id := cf_device_id cfg; en_correlation_id := correlation_id; en_seq := seq; en_sent_at := sent_at;
          en_expires_at := None; en_payload := payload |}.

Definition transmit (e : Envelope) : Act unit :=
  yield ;; t ← moment;
  if wd_sent w t then note (Sent (en_seq e) e) else fail "send Agent envelope".

Definition send_envelope (message_type : string) (payload : Value) (correlation_id : option string) : Act unit :=
  e ← next_envelope message_type payload correlation_id; transmit e.

Definition send_cached_result (r : CompletedReply) : Act unit :=
  e ← next_envelope "operation.result" (cr_payload r) (Some (cr_correlation_id r));
  match parse_operation (envelope_to_vec e) with
  | Err error => fail ("refusing to send invalid operation.result: " +:+ error)
  | Ok _ => transmit e
  end.

Definition reply_now (why : Outcome) (r : CompletedReply) : Act unit :=
  record_completed why r ;; save ;; send_cached_result r.

Definition absorb_orphan_completions : Act (list CompletedReply) :=
  drained ← gets ag_orphans; modify (fun a => a <| ag_orphans := [] |>) ;;
  match drained with
  | [] => mret []
  | _ => for_all (record_completed Orphaned) drained ;; save ;; mret drained
  end.

Definition publish_orphan_completions : Act (list CompletedReply) :=
  drained ← absorb_orphan_completions; for_all send_cached_result drained ;; mret drained.

(** ** Inbound frames *)

Inductive InboundFrame : Type := New (raw : string) (e : Envelope) | Duplicate (e : Envelope).

(** The outbox entry of an accepted request. *)
Definition accept_request (raw : string) (e : Envelope) : Act unit :=
  let c := default (en_message_id e) (en_correlation_id e) in
  s ← gets ag_state;
  match completed c s with
  | Some _ => mret tt
  | None =>
      let started := match pending_by_correlation c s with Some p => pd_dispatch_started p | None => Some false end in
      let lost := bool_decide (get_str (en_payload e) "capability" = Some "transfer.start") in
      t ← now;
      let p := {| pd_message_id := en_message_id e; pd_correlation_id := c;
                  pd_operation_id := default "" (get_str (en_payload e) "operation_id");
                  pd_raw := if lost then "" else raw; pd_accepted_at := to_rfc3339 t; pd_transfer_session_lost := lost;
                  pd_expires_at := (fun t => "expires_at=" +:+ to_rfc3339 t) <$> en_expires_at e;
                  pd_dispatch_started := started |} in
      s ← gets ag_state;
      let '(r, s') := remember_pending p s in
      on_state (fun _ => s') ;;
      match r with
      | Ok _ => mret tt
      | Err error =>
          (match pending_by_correlation c s, pending_by_correlation c s' with
           | Some _, None => note (Evicted c)
           | _, _ => mret tt
           end) ;; fail error
      end
  end.

Definition parse_and_record_inbound (raw : string) : Act InboundFrame :=
  original ← ofres (ok_or (serde_from_str raw) "invalid control-plane envelope JSON");
  object ← ofres (ok_or (as_object original) "control-plane envelope must be an object");
  ofres (guard_err (negb (knows ENVELOPE_KEYS object)) "control-plane envelope contains unknown field") ;;
  ofres (guard_err (match object !! "expires_at" with Some Null => true | _ => false end)
           "control-plane envelope expires_at must not be null") ;;
  e ← ofres (parse_envelope raw);
  ofres (guard_err (negb (String.eqb (en_device_id e) (cf_device_id cfg))) "control-plane envelope device_id mismatch") ;;
  ofres (guard_err (MAX_SAFE_JSON_INTEGER <? en_seq e) "control-plane envelope seq exceeds JSON safe-integer range") ;;
  s ← gets ag_state;
  if has_seen_message (en_message_id e) s then mret (Duplicate e)
  else if en_seq e <=? ts_last_server_seq s then fail "control-plane envelope seq did not advance"
  else
    on_state (fun s => remember_message (en_message_id e) (s <| ts_last_server_seq := en_seq e |>)) ;;
    (if String.eqb (en_message_type e) "operation.request" then accept_request raw e else mret tt) ;;
    save ;; note (Handled (en_seq e) (en_message_id e)) ;; mret (New raw e).

(** ** The live loop *)

Definition failed_reply (c operation_id code message : string) (more : list (string * Value)) : CompletedReply :=
  {| cr_correlation_id := c; cr_operation_id := operation_id;
     cr_payload := json_object
       [("operation_contract", JString OPERATION_CONTRACT_V1); ("operation_id", JString operation_id); ("status", JString "failed");
        ("error", json_object ([("code", JString code); ("message", JString message)] ++ more))] |}.

Definition retryable (b : bool) : string * Value := ("retryable", JBool b).

Definition transfer_session_lost_reply (c operation_id : string) : CompletedReply :=
  failed_reply c operation_id "OWNMESH_E_TRANSFER_SESSION_LOST"
    "transfer session was interrupted; obtain fresh preflight and ticket" [retryable true].

Definition dispatch_lost_reply (c operation_id : string) : CompletedReply :=
  failed_reply c operation_id "OWNMESH_E_DISPATCH_LOST"
    "operation was accepted but the durable dispatch outbox entry is gone; retry with a new operation id" [retryable false].

Definition operation_expired_reply (c operation_id : string) : CompletedReply :=
  failed_reply c operation_id "OWNMESH_E_OPERATION_EXPIRED" "operation request expired before device execution" [retryable false].

Definition dispatch_outcome_unknown_reply (c operation_id : string) : CompletedReply :=
  failed_reply c operation_id "OWNMESH_E_DISPATCH_OUTCOME_UNKNOWN"
    "legacy dispatch outcome is unknown; the operation was not replayed"
    [retryable false; ("details", json_object [("category", JString "dispatch_outcome_unknown")])].

Definition unsupported_surface_payload (c operation_id : string) : CompletedReply :=
  failed_reply c operation_id "OWNMESH_E_UNSUPPORTED_SURFACE"
    "remote operation routing is unavailable without a local runtime handle" [retryable false].

Definition agent_backpressure_payload (c operation_id : string) : CompletedReply :=
  failed_reply c operation_id "OWNMESH_E_AGENT_BACKPRESSURE"
    "agent in-flight remote operation limit reached (32); retry after drain"
    [retryable true; ("details", json_object [("max_in_flight", json_u64 MAX_IN_FLIGHT_REMOTE_OPS);
                                              ("max_completion_queue", json_u64 MAX_COMPLETION_QUEUE)])].

Definition binding_mismatch_reply (c operation_id message : string) : CompletedReply :=
  failed_reply c operation_id "OWNMESH_E_ACTION_BINDING_MISMATCH" message [retryable false].

Definition cancel_reply (c operation_id target : string) (signalled : bool) : CompletedReply :=
  {| cr_correlation_id := c; cr_operation_id := operation_id;
     cr_payload := json_object
       [("operation_contract", JString OPERATION_CONTRACT_V1); ("operation_id", JString operation_id);
        ("status", JString "completed");
        ("result", json_object
           [("cancelled", JBool signalled); ("target_operation_id", JString target); ("signal_delivered", JBool signalled);
            ("note", JString (if signalled then "cancel delivered to in-flight process tree"
                              else "no matching in-flight operation; target may have already finished"))])] |}.

Definition is_cancel (r : OperationRequestPayload) : bool :=
  String.eqb (rq_capability r) "operation.cancel" || String.eqb (action_of r) "cancel"
  || String.eqb (action_of r) "ownmesh_cancel_operation".

(** The marker of a started dispatch, durable before anything runs. *)
Definition start_dispatch (c : string) : Act unit :=
  s ← gets ag_state; s' ← ofres (mark_dispatch_started c s); on_state (fun _ => s') ;; save.

Definition on_cancel (c : string) (e : Envelope) (r : OperationRequestPayload) : Act unit :=
  let id := rq_operation_id r in
  match verify_exact_action_binding (cf_device_id cfg) r (to_rfc3339 <$> en_expires_at e) with
  | Err message => reply_now RefusedCancel (binding_mismatch_reply c id message)
  | Ok _ =>
      start_dispatch c ;;
      let target := default "" (get_str (rq_arguments r) "target_operation_id") in
      yield ;;
      registered ← gets (fun a => bool_decide (target ∈ ag_registry a));
      let signalled := negb (is_empty target) && registered in
      (if signalled then note (Signalled target) else mret tt) ;;
      (if is_empty target then mret tt else drop_pending CancelTarget target) ;;
      reply_now Cancelled (cancel_reply c id target signalled)
  end.

Definition in_flight (a : Agent) : Z := zlen (List.filter (fun t => tk_session t =? ag_session a) (ag_tasks a)).

Definition spawn (c operation_id : string) : Act unit :=
  modify (fun a => a <| ag_registry := {[operation_id]} ∪ ag_registry a |>
                     <| ag_tasks := ag_tasks a ++ [{| tk_correlation := c; tk_operation_id := operation_id;
                                                      tk_session := ag_session a; tk_sent := false |}] |>) ;;
  note (Spawned c).

Definition dispatch (c operation_id : string) : Act unit :=
  if negb (cf_runtime cfg) then reply_now Unsupported (unsupported_surface_payload c operation_id)
  else
    running ← gets in_flight;
    if MAX_IN_FLIGHT_REMOTE_OPS <=? running then reply_now Backpressure (agent_backpressure_payload c operation_id)
    else
      yield ;;
      active ← gets (fun a => bool_decide (c ∈ ag_active a));
      if (active : bool) then mret tt
      else
        modify (fun a => a <| ag_active := {[c]} ∪ ag_active a |>) ;;
        start_dispatch c ;; yield ;; spawn c operation_id.

(** The request's text: the frame's own, or that of the outbox when the frame was seen. *)
Definition request_text (c : string) (raw : option string) (e : Envelope) : Act (option string) :=
  match raw with
  | Some raw => mret (Some raw)
  | None =>
      s ← gets ag_state;
      match pending_by_correlation c s with
      | Some p =>
          if pd_transfer_session_lost p
          then reply_now SessionLost (transfer_session_lost_reply c (pd_operation_id p)) ;; mret None
          else mret (Some (pd_raw p))
      | None =>
          reply_now DispatchLost (dispatch_lost_reply c (default c (get_str (en_payload e) "operation_id"))) ;; mret None
      end
  end.

Definition run_request (c raw : string) : Act unit :=
  parsed ← ofres (parse_operation raw);
  match parsed with
  | (e, Request r) =>
      t ← now; s ← gets ag_state;
      let id := rq_operation_id r in
      let go := if is_cancel r then on_cancel c e r else dispatch c id in
      if envelope_expired t e then
        match pending_by_correlation c s ≫= pd_dispatch_started with
        | Some false => reply_now ExpiredBefore (operation_expired_reply c id)
        | Some true => go
        | None => reply_now OutcomeUnknown (dispatch_outcome_unknown_reply c id)
        end
      else go
  | _ => fail "operation.request parsed as a different payload type"
  end.

Definition on_request (raw : option string) (e : Envelope) : Act unit :=
  c ← ofres (ok_or (en_correlation_id e) "operation.request requires correlation_id");
  absorbed ← publish_orphan_completions; s ← gets ag_state;
  match completed c s with
  | Some r => if existsb (fun x => String.eqb (cr_correlation_id x) c) absorbed then mret tt else send_cached_result r
  | None =>
      text ← request_text c raw e;
      match text with Some raw => run_request c raw | None => mret tt end
  end.

(** ** Reconciliation *)

Fixpoint validated_ids (l : list Value) (seen : list string) : result (list string) string :=
  match l with
  | [] => Ok []
  | v :: rest =>
      let? raw := ok_or (as_str v) "operation.reconcile correlation must be a string" in
      let? id := map_err (fun _ => "operation.reconcile correlation is not a valid operation id") (parse_prefixed_id "op_" raw) in
      guard_err (existsb (String.eqb id) seen) "operation.reconcile contains a duplicate correlation" ;?
      let? ids := validated_ids rest (id :: seen) in
      Ok (id :: ids)
  end.

Definition validated_operation_ids (v : Value) : result (list string) string :=
  match v with
  | Array l =>
      guard_err (MAX_PENDING_DISPATCHES <? zlen l) "operation.reconcile exceeds correlations" ;? validated_ids l []
  | _ => Err "operation.reconcile must be an array"
  end.

Definition authoritative_terminal_correlations (payload : Value) : result (list string * option (list string)) string :=
  let? o := ok_or (as_object payload) "operation.reconcile payload must be an object" in
  guard_err (negb (knows ["terminal_correlations"; "checked_correlations"] o))
    "operation.reconcile payload contains an unknown field" ;?
  let? field := ok_or (o !! "terminal_correlations") "operation.reconcile requires terminal_correlations" in
  let? terminal := validated_operation_ids field in
  match o !! "checked_correlations" with
  | None => Ok (terminal, None)
  | Some field =>
      let? checked := validated_operation_ids field in
      guard_err (existsb (fun id => negb (existsb (String.eqb id) checked)) terminal)
        "operation.reconcile terminal correlation was not checked" ;?
      Ok (terminal, Some checked)
  end.

Definition max_id (l : list string) : option string :=
  fold_left (fun m id => match m with Some x => if String.leb x id then Some id else Some x | None => Some id end) l None.

Definition on_reconcile (e : Envelope) : Act unit :=
  ack ← ofres (authoritative_terminal_correlations (en_payload e));
  let '(terminal, checked) := ack in
  before ← gets (fun a => zlen (ts_pending_dispatches (ag_state a)));
  for_all (drop_pending SettledRemotely) terminal ;;
  after ← gets (fun a => zlen (ts_pending_dispatches (ag_state a)));
  (if negb (after =? before) then save else mret tt) ;;
  (if cf_runtime cfg then yield ;; t ← moment; ofres (wd_acknowledge w t terminal) else mret tt) ;;
  match checked with
  | None => mret tt
  | Some checked =>
      scan ← gets ag_scan;
      if bool_decide (en_correlation_id e = sc_request scan) then
        let after := max_id checked in
        modify (fun a => a <| ag_scan := {| sc_enabled := match after with Some _ => sc_enabled scan | None => false end;
                                            sc_after := after; sc_request := None |} |>)
      else mret tt
  end.

Definition validate_workspace_registry_ack (payload : Value) : result unit string :=
  let? o := ok_or (as_object payload) "workspace.registry.ack payload must be an object" in
  guard_err (negb (Nat.eqb (size o) 1 && bool_decide (o !! "ok" = Some (JBool true)))) "workspace.registry.ack requires ok".

Definition agent_time : Act Value := t ← now; mret (json_object [("agent_time", JString (to_rfc3339 t))]).

Definition handle_live_frame (frame : InboundFrame) : Act unit :=
  let '(raw, e) := match frame with New raw e => (Some raw, e) | Duplicate e => (None, e) end in
  let kind t := String.eqb (en_message_type e) t in
  if kind "pong" then mret tt
  else if kind "workspace.registry.ack" then ofres (validate_workspace_registry_ack (en_payload e))
  else if kind "ping" then v ← agent_time; send_envelope "pong" v (en_correlation_id e)
  else if kind "operation.reconcile" then on_reconcile e
  else if kind "operation.request" then on_request raw e
  else if kind "error" then
    if bool_decide (get_str (en_payload e) "code" = Some "OWNMESH_E_RESULT_REJECTED") then mret tt
    else fail "control plane returned an Agent protocol error"
  else fail "unsupported control-plane message type".

(** The workspaces as they are known at some moment, whichever: the code reads those of
    [ready] when it connects. *)
Definition registry_payload : Act Value :=
  t ← moment;
  let '(enforce, workspaces) := wd_registry w t in
  mret (json_object [("enforce_workspace", JBool enforce); ("workspaces", workspaces)]).

(** The top of a turn of [live_loop]. *)
Definition loop_top : Act unit :=
  publish_orphan_completions ;;
  scan ← gets ag_scan;
  (if sc_enabled scan && match sc_request scan with None => true | Some _ => false end then
     yield ;; t ← moment;
     let candidates := if cf_runtime cfg then wd_candidates w t (sc_after scan) else [] in
     match last candidates with
     | None => modify (fun a => a <| ag_scan := {| sc_enabled := false; sc_after := sc_after scan; sc_request := None |} |>)
     | Some c =>
         send_envelope "operation.reconcile.request" (json_object [("operation_ids", Array (map JString candidates))]) (Some c) ;;
         modify (fun a => a <| ag_scan := {| sc_enabled := true; sc_after := sc_after scan; sc_request := Some c |} |>)
     end
   else mret tt) ;;
  dirty ← gets ag_dirty;
  if (dirty : bool) then
    modify (fun a => a <| ag_dirty := false |>) ;;
    (if cf_runtime cfg then yield ;; v ← registry_payload; send_envelope "workspace.registry" v None else mret tt)
  else mret tt.

(** ** The handshake *)

Definition set_phase (p : Phase) : Act unit := modify (fun a => a <| ag_phase := p |>).

Definition hello : Act unit :=
  s ← gets ag_state;
  let recent := firstn 64 (rev (map cr_correlation_id (ts_completed_replies s))) in
  send_envelope "hello"
    (json_object
       [("protocols", Array [JString PROTOCOL_DEVICE_V1]); ("operation_contracts", Array [JString OPERATION_CONTRACT_V1]);
        ("agent_version", JString (cf_version cfg));
        ("resume", json_object [("last_server_seq", json_u64 (ts_last_server_seq s));
                                ("next_outbound_seq", json_u64 (ts_next_outbound_seq s));
                                ("completed_correlations", Array (map JString recent))])]) None ;;
  set_phase AwaitChallenge.

Definition on_challenge (e : Envelope) : Act unit :=
  message ← ofres (ok_or (opt_filter (fun m => negb (is_empty m)) (get_str (en_payload e) "message"))
                     "challenge omitted its signed message");
  let proof := json_object [("signature", JString (plain_hex (sign message)))] in
  let proof := match get (en_payload e) "connection_id" with Some id => insert_member "connection_id" id proof | None => proof end in
  send_envelope "proof" proof None ;; set_phase AwaitAccepted.

Definition on_accepted (e : Envelope) : Act unit :=
  ofres (guard_err (negb (bool_decide (get_str (en_payload e) "selected_protocol" = Some PROTOCOL_DEVICE_V1)))
           "control plane selected an unsupported device protocol") ;;
  let parameters := default Null (get (en_payload e) "session_parameters") in
  let reconcile := default false (get parameters "operation_commit_reconcile" ≫= as_bool) in
  s ← gets ag_state;
  let capabilities := if cf_runtime cfg
    then [JString "filesystem.read"; JString "filesystem.write"; JString "command.run"; JString "operation.cancel"] else [] in
  let ready := json_object
    [("capabilities", Array capabilities); ("operation_contracts", Array [JString OPERATION_CONTRACT_V1]);
     ("agent_version", JString (cf_version cfg)); ("protocol_version", JString PROTOCOL_DEVICE_V1);
     ("remote_routing_enabled", JBool (cf_runtime cfg));
     ("pending_correlations", Array (map (fun p => JString (pd_correlation_id p)) (ts_pending_dispatches s)))] in
  ready ← (if cf_runtime cfg then v ← registry_payload; mret (insert_member "workspace_registry" v ready) else mret ready);
  send_envelope "ready" ready None ;; set_phase (AwaitReadyAck reconcile).

(** The session is live: parked replies first, then the first turn of the loop. *)
Definition on_ready (reconcile : bool) : Act unit :=
  publish_orphan_completions ;;
  modify (fun a => a <| ag_phase := Live |> <| ag_queue := [] |> <| ag_registry := ∅ |> <| ag_dirty := false |>
                     <| ag_scan := {| sc_enabled := reconcile && cf_runtime cfg; sc_after := None; sc_request := None |} |>) ;;
  loop_top.

(** [wait_for_type]. *)
Definition awaiting (expected : string) (raw : string) (k : Envelope -> Act unit) : Act unit :=
  frame ← parse_and_record_inbound raw;
  match frame with
  | Duplicate _ => mret tt
  | New _ e =>
      if String.eqb (en_message_type e) expected then k e
      else fail "unexpected handshake message"
  end.

Definition receive (raw : string) : Act unit :=
  phase ← gets ag_phase;
  match phase with
  | Disabled | Offline => mret tt
  | AwaitChallenge => awaiting "challenge" raw on_challenge
  | AwaitAccepted => awaiting "accepted" raw on_accepted
  | AwaitReadyAck reconcile => awaiting "ready.ack" raw (fun _ => on_ready reconcile)
  | Live => frame ← parse_and_record_inbound raw; handle_live_frame frame ;; loop_top
  end.

(** ** Runs *)

Inductive Event : Type :=
| Connect
| Receive (raw : string)
| Heartbeat
| Finished
| Wake (registry_changed : bool)
| Disconnect
| TaskEvent (s : TaskStep)
| Restart.

Definition session_end (a : Agent) : Agent :=
  match ag_phase a with
  | Disabled => a
  | _ => a <| ag_phase := Offline |> <| ag_queue := [] |> <| ag_registry := ∅ |>
  end.

(** A turn of the connection: an error ends the session. *)
Definition turn (m : Act unit) (a : Agent) : Agent :=
  match m a with (Ok _, a) => a | (Err _, a) => session_end a end.

Definition connect : Act unit :=
  modify (fun a => a <| ag_session := ag_session a + 1 |>) ;; hello.

Definition finished : Act unit :=
  queue ← gets ag_queue;
  match queue with
  | [] => mret tt
  | r :: rest =>
      modify (fun a => a <| ag_queue := rest |>) ;; reply_now Executed r ;; loop_top
  end.

Definition started (s : AgentTransportState) (phase : Phase) (a : Agent) : Agent :=
  {| ag_state := s; ag_file := ag_file a; ag_phase := phase; ag_session := ag_session a; ag_queue := []; ag_orphans := [];
     ag_tasks := []; ag_active := ∅; ag_registry := ∅;
     ag_scan := {| sc_enabled := false; sc_after := None; sc_request := None |}; ag_dirty := false;
     ag_moment := ag_moment a; ag_log := ag_log a |}.

(** The daemon starts (again): memory and tasks are gone, the state is read from its file.
    Without it the connection is disabled, and its state plays no part. *)
Definition restart (a : Agent) : Agent :=
  match load a with
  | Ok s => started s Offline a
  | Err _ => started (ag_state a) Disabled a
  end.

Definition when_live (m : Act unit) (a : Agent) : Agent := if is_live (ag_phase a) then turn m a else a.

Definition step (ev : Event) (a : Agent) : Agent :=
  match ev with
  | Connect => match ag_phase a with Offline => turn connect a | _ => a end
  | Receive raw => turn (receive raw) a
  | Heartbeat => when_live (v ← agent_time; send_envelope "ping" v None ;; loop_top) a
  | Finished => when_live finished a
  | Wake changed => when_live (modify (fun a => a <| ag_dirty := ag_dirty a || changed |>) ;; loop_top) a
  | Disconnect => session_end a
  | TaskEvent s => task_step s a
  | Restart => restart a
  end.

Definition run (evs : list Event) (a : Agent) : Agent := fold_left (fun a ev => step ev a) evs a.

Definition installed : Agent :=
  {| ag_state := fresh cfg; ag_file := None; ag_phase := Offline; ag_session := 0; ag_queue := []; ag_orphans := [];
     ag_tasks := []; ag_active := ∅; ag_registry := ∅;
     ag_scan := {| sc_enabled := false; sc_after := None; sc_request := None |}; ag_dirty := false; ag_moment := 0; ag_log := [] |}.
End agent.
