(* ===== verification/AgentRun.v ===== *)
(** * Runs of the agent's connection

    An invariant of every run of [AgentLink.v], with failing writes and sends, lost
    sessions, restarts and tasks that run between any two effects of the loop: sequence
    numbers on the wire only grow, a started operation is marked in memory and on disk
    until it is settled, and no two tasks run one operation. *)

From stdpp Require Import base list strings gmap sorting.
From Stdlib Require Import ZArith Lia Ascii.
From S2P Require Import Prelude RustStr RustBytes Json Transfer TransferPump SupervisorSpool AgentProtocol AgentBinding AgentLink.

Open Scope Z_scope.

(** ** The history *)

Definition sent_seqs (l : list Entry) : list Z := omap (fun e => match e with Sent n _ => Some n | _ => None end) l.
Definition handled_seqs (l : list Entry) : list Z := omap (fun e => match e with Handled n _ => Some n | _ => None end) l.

(** A busy reply settles nothing: it may be recorded while the operation runs. *)
Definition settles (why : Outcome) : bool := match why with Backpressure => false | _ => true end.

(** The operation was started and has not been settled since. *)
Fixpoint unsettled (c : string) (l : list Entry) : bool :=
  match l with
  | [] => false
  | Spawned d :: l => String.eqb d c || unsettled c l
  | Settled d why :: l => negb (String.eqb d c && settles why) && unsettled c l
  | _ :: l => unsettled c l
  end.

(** Since the operation was started its entry was dropped without settling it: the outbox
    was full when its request came again, or a busy reply was recorded for it. *)
Fixpoint mark_lost (c : string) (l : list Entry) : bool :=
  match l with
  | [] => false
  | Spawned d :: l => negb (String.eqb d c) && mark_lost c l
  | Settled d why :: l => (String.eqb d c && negb (settles why)) || mark_lost c l
  | Evicted d :: l => String.eqb d c || mark_lost c l
  | _ :: l => mark_lost c l
  end.

(** Neither settled nor lost since it was started. *)
Fixpoint fenced (c : string) (l : list Entry) : bool :=
  match l with
  | [] => false
  | Spawned d :: l => String.eqb d c || fenced c l
  | Settled d _ :: l | Evicted d :: l => negb (String.eqb d c) && fenced c l
  | _ :: l => fenced c l
  end.

Lemma fenced_spec c l : fenced c l = unsettled c l && negb (mark_lost c l).
Proof.
  induction l as [|e l IH]; [done |]. destruct e as [| |d|d why|d|]; cbn [fenced unsettled mark_lost]; try exact IH;
    rewrite IH; destruct (String.eqb d c), (unsettled c l), (mark_lost c l); try done; by destruct (settles why).
Qed.

(** Replies that say that an operation was not run, or that nothing is known of it. *)
Definition denies (why : Outcome) : bool :=
  match why with ExpiredBefore | OutcomeUnknown | DispatchLost => true | _ => false end.

Definition entry_ok (e : Entry) (before : list Entry) : Prop :=
  match e with
  | Sent n _ => Forall (fun m => m < n) (sent_seqs before)
  | Handled n _ => Forall (fun m => m < n) (handled_seqs before)
  | Settled c why => denies why = true -> fenced c before = false
  | _ => True
  end.

Fixpoint log_ok (l : list Entry) : Prop := match l with [] => True | e :: l => entry_ok e l /\ log_ok l end.

(** ** Entries of the outbox *)

Definition correlations (l : list PendingDispatch) : list string := map pd_correlation_id l.

Lemma correlations_elem p l : p ∈ l -> pd_correlation_id p ∈ correlations l.
Proof. intros H. apply list_elem_of_In, in_map. by apply list_elem_of_In. Qed.

(** The mark of a started dispatch. *)
Definition marked (c : string) (s : AgentTransportState) : Prop :=
  exists p, p ∈ ts_pending_dispatches s /\ pd_correlation_id p = c /\ pd_dispatch_started p = Some true.

Lemma find_pending c s p :
  pending_by_correlation c s = Some p -> p ∈ ts_pending_dispatches s /\ pd_correlation_id p = c.
Proof. intros [H E]%find_some. apply String.eqb_eq in E. split; [by apply list_elem_of_In | done]. Qed.

Lemma marked_find c s :
  NoDup (correlations (ts_pending_dispatches s)) -> marked c s ->
  exists p, pending_by_correlation c s = Some p /\ pd_dispatch_started p = Some true.
Proof.
  unfold pending_by_correlation, marked. intros N (p & H & E & M). revert N H.
  induction (ts_pending_dispatches s) as [|q l IH]; intros N H; [by apply not_elem_of_nil in H |].
  cbn in N |- *. apply NoDup_cons in N as [Nq N]. apply elem_of_cons in H as [<-|H].
  - rewrite E, String.eqb_refl. by exists p.
  - destruct (String.eqb_spec (pd_correlation_id q) c) as [Eq|]; [|by apply IH].
    destruct Nq. rewrite Eq, <- E. by apply list_elem_of_fmap_2.
Qed.

Lemma without_marked c d s :
  c <> d -> marked c s -> marked c (clear_pending_by_correlation d s).
Proof.
  intros N (p & H & E & M). exists p. split_and!; [|done | done]. cbn. apply list_elem_of_In, filter_In.
  split; [by apply list_elem_of_In |]. apply negb_true_iff, String.eqb_neq. congruence.
Qed.

Lemma without_nodup d l : NoDup (correlations l) -> NoDup (correlations (without_pending d l)).
Proof.
  unfold correlations, without_pending. induction l as [|p l IH]; cbn; [done |]. intros [Np N]%NoDup_cons.
  destruct (negb _); [|by apply IH]. cbn. constructor; [|by apply IH]. intros (q & E & H)%list_elem_of_fmap. apply Np.
  rewrite E. apply list_elem_of_fmap_2. apply list_elem_of_In, filter_In in H as [H _]. by apply list_elem_of_In.
Qed.

Lemma without_fresh d l : d ∉ correlations (without_pending d l).
Proof.
  intros (q & -> & H)%list_elem_of_fmap. apply list_elem_of_In, filter_In in H as [_ H]. by rewrite String.eqb_refl in H.
Qed.

Lemma without_smaller d l : zlen (without_pending d l) <= zlen l /\ raw_total (without_pending d l) <= raw_total l.
Proof.
  unfold zlen, without_pending, raw_total. induction l as [|p l [IH1 IH2]]; [done |]. cbn [List.filter fold_right].
  pose proof (str_len_nonneg (pd_raw p)). destruct (negb _); cbn [length fold_right]; lia.
Qed.

Lemma raw_total_app l k : raw_total (l ++ k) = raw_total l + raw_total k.
Proof. unfold raw_total. induction l as [|p l IH]; cbn [app fold_right]; lia. Qed.

Lemma raw_total_nonneg l : 0 <= raw_total l.
Proof. unfold raw_total. induction l as [|p l IH]; cbn [fold_right]; [done |]. pose proof (str_len_nonneg (pd_raw p)). lia. Qed.

(** Marking keeps the entries and their texts. *)
Lemma mark_first_ok c l l' :
  mark_first c l = Some l' ->
  correlations l' = correlations l /\ raw_total l' = raw_total l
  /\ (exists p, p ∈ l' /\ pd_correlation_id p = c /\ pd_dispatch_started p = Some true)
  /\ forall d p, p ∈ l -> pd_correlation_id p = d -> pd_dispatch_started p = Some true ->
     exists q, q ∈ l' /\ pd_correlation_id q = d /\ pd_dispatch_started q = Some true.
Proof.
  revert l'. induction l as [|p l IH]; intros l' H; cbn in H; [done |].
  destruct (String.eqb_spec (pd_correlation_id p) c) as [E|].
  - injection H as <-. split_and!; [done | done | |].
    + eexists. split_and!; [left | done | done].
    + intros d q [->|Hq]%elem_of_cons Ed M; [|exists q; split_and!; [by right | done | done]].
      eexists. split_and!; [left | done | done].
  - destruct (mark_first c l) as [k|]; [|done]. injection H as <-. destruct (IH k eq_refl) as (C & R & (q & Hq & Eq & Mq) & K).
    unfold correlations, raw_total in *.
    split_and!; [cbn [map]; by rewrite C | cbn [fold_right]; by rewrite R | exists q; split_and!; [by right | done | done] |].
    intros d x [->|Hx]%elem_of_cons Ed M; [exists p; split_and!; [left | done | done] |].
    destruct (K d x Hx Ed M) as (y & Hy & ?). exists y. split; [by right | done].
Qed.

Section runs.
Context {AT : AgentText} {DG : Digests} {SC : StateCodec}.
Context (sign : string -> string) (cfg : AgentTransportConfig) (w : World).

(** ** The invariant *)

(** The state that a restart finds. *)
Definition stored (a : Agent) : AgentTransportState :=
  match ag_file a with
  | Some bytes => match state_from_slice bytes with Ok s => s | Err _ => fresh cfg end
  | None => fresh cfg
  end.

Record good (s : AgentTransportState) : Prop := {
  gd_version : ts_version s = TRANSPORT_STATE_VERSION;
  gd_issuer : ts_issuer s = cf_issuer cfg;
  gd_device : ts_device_id s = cf_device_id cfg;
  gd_nodup : NoDup (correlations (ts_pending_dispatches s));
  gd_count : zlen (ts_pending_dispatches s) <= MAX_PENDING_DISPATCHES;
  gd_bytes : raw_total (ts_pending_dispatches s) <= MAX_COMPLETED_REPLIES_BYTES / 2
}.

(** A state accounts for a history. *)
Record covers (l : list Entry) (s : AgentTransportState) : Prop := {
  cv_good : good s;
  cv_sent : Forall (fun n => n <= ts_next_outbound_seq s) (sent_seqs l);
  cv_handled : Forall (fun n => n <= ts_last_server_seq s) (handled_seqs l);
  cv_marked c : fenced c l = true -> marked c s
}.

Record Inv (a : Agent) : Prop := {
  iv_memory : covers (ag_log a) (ag_state a);
  iv_stored : covers (ag_log a) (stored a);
  iv_log : log_ok (ag_log a);
  iv_tasks : NoDup (map tk_correlation (ag_tasks a));
  iv_active c : c ∈ map tk_correlation (ag_tasks a) -> c ∈ ag_active a
}.

Lemma fresh_good : good (fresh cfg).
Proof. split; try done. apply NoDup_nil_2. Qed.

Lemma installed_inv : Inv (installed cfg).
Proof.
  assert (covers [] (fresh cfg)) as C by (split; [apply fresh_good | constructor | constructor | discriminate]).
  split; [exact C | exact C | done | constructor |]. intros c H. by apply not_elem_of_nil in H.
Qed.

(** ** Programs that keep it *)

(** From states with [E], a program keeps the invariant, also when it fails, and ends with
    [F]. *)
Definition holds {A} (E : Agent -> Prop) (m : Act A) (F : A -> Agent -> Prop) : Prop :=
  forall a, Inv a -> E a -> Inv (snd (m a)) /\ match fst (m a) with Ok x => F x (snd (m a)) | Err _ => True end.

Definition any : Agent -> Prop := fun _ => True.
Definition keeps {A} (m : Act A) : Prop := holds any m (fun _ => any).

Lemma holds_bind {A B} E F G (m : Act A) (k : A -> Act B) :
  holds E m F -> (forall x, holds (F x) (k x) G) -> holds E (m ≫= k) G.
Proof.
  intros Hm Hk a I Ea. destruct (Hm a I Ea) as [Ia Fa]. unfold mbind, Act_bind.
  destruct (m a) as [[x|e] a']; cbn in *; [by apply Hk | done].
Qed.

Lemma holds_weaken {A} (E E' : Agent -> Prop) (F F' : A -> Agent -> Prop) m :
  holds E' m F' -> (forall a, E a -> E' a) -> (forall x a, F' x a -> F x a) -> holds E m F.
Proof. intros H HE HF a I Ea. destruct (H a I (HE a Ea)) as [? K]. split; [done |]. destruct (fst (m a)); [by apply HF | done]. Qed.

Lemma holds_pre {A} (E E' : Agent -> Prop) (F : A -> Agent -> Prop) m :
  holds E' m F -> (forall a, Inv a -> E a -> E' a) -> holds E m F.
Proof. intros H HE a I Ea. by apply H, HE. Qed.

Lemma holds_ret {A} E (x : A) : holds E (mret x) (fun y a => y = x /\ E a).
Proof. intros a I Ea. done. Qed.

Lemma holds_fail {A} E (F : A -> Agent -> Prop) e : holds E (fail e) F.
Proof. intros a I Ea. done. Qed.

Lemma holds_ofres {A} E (r : result A string) : holds E (ofres r) (fun x a => r = Ok x /\ E a).
Proof. intros a I Ea. destruct r; done. Qed.

Lemma holds_gets {A} E (f : Agent -> A) : holds E (gets f) (fun x a => x = f a /\ E a).
Proof. intros a I Ea. done. Qed.

(** ** Tasks *)

Definition core (a : Agent) : AgentTransportState * option string * list Entry := (ag_state a, ag_file a, ag_log a).

Lemma inv_core a a' :
  core a' = core a -> NoDup (map tk_correlation (ag_tasks a')) ->
  (forall c, c ∈ map tk_correlation (ag_tasks a') -> c ∈ ag_active a') -> Inv a -> Inv a'.
Proof.
  intros E N A [Im Is Il _ _]. unfold core in E. injection E as Es Ef El.
  assert (stored a' = stored a) as Et by (unfold stored; by rewrite Ef).
  split; rewrite ?Et, ?Es, ?El; done.
Qed.

Lemma map_insert_same k t t' (l : list Task) :
  l !! k = Some t -> tk_correlation t' = tk_correlation t -> map tk_correlation (<[k := t']> l) = map tk_correlation l.
Proof.
  intros H E. change (tk_correlation <$> <[k := t']> l = tk_correlation <$> l). rewrite list_fmap_insert, E.
  apply list_insert_id. by rewrite list_lookup_fmap, H.
Qed.

Lemma remove_nth_split {A} k (l : list A) x : l !! k = Some x -> l ≡ₚ x :: remove_nth k l.
Proof. intros H. rewrite <- (take_drop_middle l k x H) at 1. unfold remove_nth. by rewrite Permutation_middle. Qed.

(** Tasks change neither the state nor the history. *)
Lemma task_step_inv s a : Inv a -> Inv (task_step s a) /\ core (task_step s a) = core a.
Proof.
  intros I. destruct s as [k payload|k]; cbn [task_step]; destruct (ag_tasks a !! k) as [t|] eqn:T; try done.
  - destruct (tk_sent t); [done |]. cbv zeta.
    assert (forall b, core b = core a -> ag_tasks b = ag_tasks a -> ag_active b = ag_active a ->
            Inv (set_task k (t <| tk_sent := true |>) b) /\ core (set_task k (t <| tk_sent := true |>) b) = core a) as S.
    { intros b Eb Et Ea. split; [|done]. apply (inv_core a); [done | | |done];
        change (ag_tasks (set_task k (t <| tk_sent := true |>) b)) with (<[k := t <| tk_sent := true |>]> (ag_tasks b));
        change (ag_active (set_task k (t <| tk_sent := true |>) b)) with (ag_active b);
        rewrite ?Et, ?Ea, (map_insert_same k t) by done; apply I. }
    destruct (attached t a); [|by apply S]. destruct (_ <=? _); [|by apply S].
    split; [|done]. apply (inv_core a); [done | apply I | apply I | done].
  - destruct (tk_sent t); [|done]. split; [|done]. pose proof (remove_nth_split _ _ _ T) as P.
    assert (map tk_correlation (ag_tasks a) ≡ₚ tk_correlation t :: map tk_correlation (remove_nth k (ag_tasks a))) as Pm
      by exact (Permutation_map tk_correlation P).
    pose proof (iv_tasks _ I) as N. rewrite Pm in N. apply NoDup_cons in N as [Nt N].
    apply (inv_core a); [done | exact N | | done]. cbn. intros c Hc. apply elem_of_difference. split.
    + apply (iv_active _ I). rewrite Pm. by right.
    + intros ->%elem_of_singleton. by apply Nt.
Qed.

(** What tasks and the passing of time do not touch. *)
Definition stable (E : Agent -> Prop) : Prop :=
  (forall a s, Inv a -> E a -> E (task_step s a)) /\ (forall a n, E a -> E (a <| ag_moment := n |>)).

Lemma stable_core (P : AgentTransportState * option string * list Entry -> Prop) : stable (fun a => P (core a)).
Proof. split; [|done]. intros a s I H. by destruct (task_step_inv s a I) as [_ ->]. Qed.

Lemma stable_any : stable any.
Proof. done. Qed.

Lemma stable_and E F : stable E -> stable F -> stable (fun a => E a /\ F a).
Proof. intros [E1 E2] [F1 F2]. split; [intros a s I [H K]; split; [by apply E1 | by apply F1] |]. intros a n [H K]. split; [by apply E2 | by apply F2]. Qed.

Lemma inv_moment a n : Inv a -> Inv (a <| ag_moment := n |>).
Proof. intros I. apply (inv_core a); [done | apply I | apply I | done]. Qed.

Lemma holds_moment E : stable E -> holds E moment (fun _ => E).
Proof. intros [_ S] a I Ea. split; [by apply inv_moment | by apply S]. Qed.

Lemma holds_now E : stable E -> holds E (now w) (fun _ => E).
Proof.
  intros S. eapply holds_bind; [by apply holds_moment |]. intros t. eapply holds_weaken; [apply holds_ret | done |].
  by intros x a [_ ?].
Qed.

Lemma holds_yield E : stable E -> holds E (yield w) (fun _ => E).
Proof.
  intros S. eapply holds_bind; [by apply holds_moment |]. intros t a I Ea. unfold modify. cbn.
  revert a I Ea. induction (wd_meanwhile w t) as [|s l IH]; intros a I Ea; [done |]. cbn.
  apply IH; [by apply task_step_inv | by apply S].
Qed.

(** ** Saving *)

(** What does not depend on the file. *)
Definition unfiled (E : Agent -> Prop) : Prop := forall a f, E a -> E (a <| ag_file := f |>).

Lemma stored_save a : stored (a <| ag_file := Some (state_to_vec_pretty (ag_state a) +:+ LF) |>) = ag_state a.
Proof. unfold stored. cbn. unfold LF. by rewrite state_from_to_vec. Qed.

Lemma holds_save E : stable E -> unfiled E -> holds E (save w) (fun _ a => E a /\ stored a = ag_state a).
Proof.
  intros S U. eapply holds_bind; [by apply holds_moment |]. intros t. eapply holds_bind; [apply holds_gets |]. intros s.
  cbv zeta. destruct (_ <? _); [apply holds_fail |]. intros a I [-> Ea].
  assert (Inv (a <| ag_file := Some (state_to_vec_pretty (ag_state a) +:+ LF) |>)) as J.
  { destruct I as [Im Is Il It Ia]. split; try done. rewrite stored_save. done. }
  unfold replace_file. destruct (wd_io w t); cbn [fst snd map_err].
  - split; [exact J |]. split; [exact (U a _ Ea) | exact (stored_save a)].
  - split; [|done]. destruct I. by split.
  - done.
Qed.

(** ** Settling an operation *)

(** A state whose outbox has lost the entry of one operation, and nothing else. *)
Record clears (c : string) (s s' : AgentTransportState) : Prop := {
  cl_version : ts_version s' = ts_version s;
  cl_issuer : ts_issuer s' = ts_issuer s;
  cl_device : ts_device_id s' = ts_device_id s;
  cl_next : ts_next_outbound_seq s' = ts_next_outbound_seq s;
  cl_last : ts_last_server_seq s' = ts_last_server_seq s;
  cl_pending : ts_pending_dispatches s' = without_pending c (ts_pending_dispatches s)
}.

Lemma clear_clears c s : clears c s (clear_pending_by_correlation c s).
Proof. done. Qed.

Lemma remember_clears r s : clears (cr_correlation_id r) s (remember_completed r s).
Proof. done. Qed.

Lemma clears_good c s s' : clears c s s' -> good s -> good s'.
Proof.
  intros [V Is D _ _ P] G. destruct (without_smaller c (ts_pending_dispatches s)) as [L R]. destruct G.
  split; rewrite ?P; try congruence; [by apply without_nodup | lia | lia].
Qed.

Lemma clears_marked c d s s' : clears c s s' -> c <> d -> marked d s -> marked d s'.
Proof. intros C N (p & H)%(without_marked d c); [|done]. exists p. by rewrite (cl_pending _ _ _ C). Qed.

Lemma covers_settled l s c e s' :
  e = Evicted c \/ (exists why, e = Settled c why) -> clears c s s' -> covers l s -> covers (e :: l) s'.
Proof.
  intros He C [G Fs Fh M]. destruct He as [->|[why ->]]; (split; [by eapply clears_good | cbn; by rewrite (cl_next _ _ _ C) | cbn; by rewrite (cl_last _ _ _ C) |]);
    intros d H; cbn in H; apply andb_prop in H as [N%negb_true_iff%String.eqb_neq H]; eapply clears_marked; eauto.
Qed.

Lemma covers_kept l s c e : e = Evicted c \/ (exists why, e = Settled c why) -> covers l s -> covers (e :: l) s.
Proof.
  intros He [G Fs Fh M]. destruct He as [->|[why ->]]; (split; try done); intros d H; cbn in H;
    apply andb_prop in H as [_ H]; by apply M.
Qed.

Definition deniable (c : string) (why : Outcome) (a : Agent) : Prop := denies why = true -> fenced c (ag_log a) = false.

Lemma holds_settle f c why :
  (forall s, clears c s (f s)) -> holds (deniable c why) (on_state f ;; note (Settled c why)) (fun _ => any).
Proof.
  intros C a [Im Is Il It Ia] D. split; [|done]. cbn. split; cbn [ag_state ag_log ag_file ag_tasks ag_active]; try done.
  - refine (covers_settled _ _ _ _ _ _ (C (ag_state a)) Im). eauto.
  - refine (covers_kept _ (stored a) c _ _ Is). eauto.
Qed.

Lemma holds_completed why r : holds (deniable (cr_correlation_id r) why) (record_completed why r) (fun _ => any).
Proof. apply holds_settle. apply remember_clears. Qed.

Lemma keeps_drop why c : denies why = false -> keeps (drop_pending why c).
Proof.
  intros N. eapply holds_weaken; [apply holds_settle; apply clear_clears | | done]. intros a _. unfold deniable. by rewrite N.
Qed.

Lemma holds_for_all {A} (E : Agent -> Prop) (f : A -> Act unit) l :
  (forall x, x ∈ l -> holds E (f x) (fun _ => E)) -> holds E (for_all f l) (fun _ => E).
Proof.
  induction l as [|x l IH]; intros H; cbn; [eapply holds_weaken; [apply holds_ret | done | by intros ? ? [_ ?]] |].
  eapply holds_bind; [apply H; left |]. intros ?. apply IH. intros y Hy. apply H. by right.
Qed.

(** ** Sending *)

(** A sequence number that is reserved, also on disk, and was not used. *)
Definition unused (n : Z) (a : Agent) : Prop :=
  Forall (fun m => m < n) (sent_seqs (ag_log a)) /\ n <= ts_next_outbound_seq (ag_state a)
  /\ n <= ts_next_outbound_seq (stored a).

Definition reserved (n : Z) (a : Agent) : Prop :=
  Forall (fun m => m < n) (sent_seqs (ag_log a)) /\ n <= ts_next_outbound_seq (ag_state a).

Lemma stable_unused n : stable (unused n).
Proof.
  unfold unused, stored. apply (stable_core (fun k => Forall (fun m => m < n) (sent_seqs (snd k))
    /\ n <= ts_next_outbound_seq (fst (fst k)) /\ n <= ts_next_outbound_seq
      match snd (fst k) with Some bytes => match state_from_slice bytes with Ok s => s | Err _ => fresh cfg end | None => fresh cfg end)).
Qed.

Lemma stable_reserved n : stable (reserved n).
Proof. apply (stable_core (fun k => Forall (fun m => m < n) (sent_seqs (snd k)) /\ n <= ts_next_outbound_seq (fst (fst k)))). Qed.

Lemma covers_next l s :
  covers l s -> covers l (s <| ts_next_outbound_seq := ts_next_outbound_seq s + 1 |>).
Proof. intros [[] Fs Fh M]. split; [by split | | done | done]. eapply Forall_impl; [exact Fs |]. intros n. cbn. lia. Qed.

Lemma holds_next_seq : holds any next_seq reserved.
Proof.
  eapply holds_bind; [apply holds_gets |]. intros s. destruct (_ <=? _); [apply holds_fail |].
  intros a [Im Is Il It Ia] [-> _]. split; [split; cbn; try done; by apply covers_next |]. split; [|apply Z.le_refl].
  eapply Forall_impl; [exact (cv_sent _ _ Im) |]. intros n. cbn. lia.
Qed.

Lemma holds_envelope kind payload c : holds any (next_envelope cfg w kind payload c) (fun e => unused (en_seq e)).
Proof.
  eapply holds_bind; [apply holds_next_seq |]. intros n.
  eapply holds_bind; [eapply holds_weaken; [apply (holds_save (reserved n)) | done | intros x a [R S]; exact (conj R S)] |];
    [apply stable_reserved | intros a f H; exact H |]. intros ?.
  apply (holds_weaken _ (unused n) _ (fun e a => en_seq e = n /\ unused n a)); [| |by intros e a [-> ?]].
  2: { intros a [[F L] S]. split_and!; [done | done | by rewrite S]. }
  pose proof (stable_unused n) as S. eapply holds_bind; [by apply holds_moment |]. intros t.
  eapply holds_bind; [apply holds_ofres |]. intros id.
  eapply holds_bind; [eapply holds_weaken; [apply (holds_now _ S) | by intros a [_ ?] | done] |]. intros sent_at.
  intros a I U. split; [done |]. done.
Qed.

Lemma holds_transmit e : holds (unused (en_seq e)) (transmit w e) (fun _ => any).
Proof.
  pose proof (stable_unused (en_seq e)) as S. eapply holds_bind; [by apply holds_yield |]. intros ?.
  eapply holds_bind; [by apply holds_moment |]. intros t. destruct (wd_sent w t); [|apply holds_fail].
  intros a [Im Is Il It Ia] (F & L & L'). split; [|done]. cbn. split; cbn; try done.
  - destruct Im. split; try done. cbn. by constructor.
  - change (stored _) with (stored a). destruct Is. split; try done. cbn. by constructor.
Qed.

Lemma keeps_send kind payload c : keeps (send_envelope cfg w kind payload c).
Proof. eapply holds_bind; [apply holds_envelope |]. apply holds_transmit. Qed.

Lemma keeps_send_cached r : keeps (send_cached_result cfg w r).
Proof.
  eapply holds_bind; [apply holds_envelope |]. intros e. destruct (parse_operation _); [apply holds_transmit | apply holds_fail].
Qed.

Lemma keeps_save : keeps (save w).
Proof. by eapply holds_weaken; [apply holds_save; [apply stable_any | done] | |]. Qed.

Lemma holds_reply_now why r : holds (deniable (cr_correlation_id r) why) (reply_now cfg w why r) (fun _ => any).
Proof.
  eapply holds_bind; [apply holds_completed |]. intros ?. eapply holds_bind; [apply keeps_save |]. intros ?. apply keeps_send_cached.
Qed.

Lemma keeps_reply_now why r : denies why = false -> keeps (reply_now cfg w why r).
Proof. intros N. eapply holds_weaken; [apply holds_reply_now | | done]. intros a _. unfold deniable. by rewrite N. Qed.

(** ** Accepting a request *)

Definition entered (n : Z) (a : Agent) : Prop :=
  Forall (fun m => m < n) (handled_seqs (ag_log a)) /\ n <= ts_last_server_seq (ag_state a).

Lemma stable_entered n : stable (entered n).
Proof. apply (stable_core (fun k => Forall (fun m => m < n) (handled_seqs (snd k)) /\ n <= ts_last_server_seq (fst (fst k)))). Qed.

Lemma cleared_find c s : pending_by_correlation c (clear_pending_by_correlation c s) = None.
Proof.
  destruct (pending_by_correlation c _) as [p|] eqn:H; [|done]. apply find_pending in H as [H E].
  destruct (without_fresh c (ts_pending_dispatches s)). rewrite <- E at 1. by apply correlations_elem.
Qed.

Lemma remember_pending_spec p s r s' :
  remember_pending p s = (r, s') -> good s ->
  match r with
  | Ok _ => good s' /\ ts_next_outbound_seq s' = ts_next_outbound_seq s /\ ts_last_server_seq s' = ts_last_server_seq s
            /\ ts_pending_dispatches s' = without_pending (pd_correlation_id p) (ts_pending_dispatches s) ++ [p]
  | Err _ => s' = s \/ s' = clear_pending_by_correlation (pd_correlation_id p) s
  end.
Proof.
  unfold remember_pending. destruct (_ ;? _) as [[]|e]; [|intros [= <- <-] _; by left]. cbv zeta.
  set (c := pd_correlation_id p). destruct (_ <=? _) eqn:L; [intros [= <- <-] _; by right |].
  destruct (_ <? _) eqn:B; [intros [= <- <-] _; by right |]. intros [= <- <-] G.
  pose proof (clears_good c s _ (clear_clears c s) G) as G'. split_and!; try done. destruct G' as [? ? ? N' ? ?].
  split; try done; cbn in *; bool_prop.
  - unfold correlations. rewrite map_app. apply NoDup_app. split_and!; [done | | apply NoDup_singleton].
    intros d Hd ->%list_elem_of_singleton. by apply (without_fresh c (ts_pending_dispatches s)).
  - unfold zlen in *. rewrite length_app. cbn. lia.
  - rewrite raw_total_app. unfold u64_saturating_add in B. pose proof (str_len_nonneg (pd_raw p)).
    unfold raw_total in *. cbn [fold_right]. assert (MAX_COMPLETED_REPLIES_BYTES / 2 = 2097152) as E by reflexivity.
    rewrite E in *. unfold u64_max in B. lia.
Qed.

Lemma covers_accepted l s s' p :
  covers l s -> good s' -> ts_next_outbound_seq s' = ts_next_outbound_seq s -> ts_last_server_seq s' = ts_last_server_seq s ->
  ts_pending_dispatches s' = without_pending (pd_correlation_id p) (ts_pending_dispatches s) ++ [p] ->
  (fenced (pd_correlation_id p) l = true -> pd_dispatch_started p = Some true) -> covers l s'.
Proof.
  intros [G Fs Fh M] G' En El Ep Hp. split; rewrite ?En, ?El; try done. intros d Hd.
  destruct (decide (pd_correlation_id p = d)) as [<-|N].
  - exists p. rewrite Ep. split_and!; [apply elem_of_app; right; by left | done | by apply Hp].
  - destruct (without_marked d (pd_correlation_id p) s) as (q & H & K); [congruence | by apply M |]. exists q. split; [|done].
    rewrite Ep. apply elem_of_app. by left.
Qed.

(** The request is in the outbox with the mark it had, or the connection fails. *)
Lemma holds_accept n raw e : holds (entered n) (accept_request w raw e) (fun _ => entered n).
Proof.
  unfold accept_request. set (c := default (en_message_id e) (en_correlation_id e)).
  eapply holds_bind; [apply holds_gets |]. intros s. destruct (completed c s) as [r|].
  { eapply holds_weaken; [apply holds_ret | by intros a [_ H]; exact H | by intros ? a [_ ?]]. }
  eapply holds_bind; [eapply holds_weaken; [apply (holds_now (fun a => ag_state a = s /\ entered n a)) | by intros a [-> ?] | done] |].
  { apply stable_and; [apply (stable_core (fun k => fst (fst k) = s)) | apply stable_entered]. }
  intros t. eapply holds_bind; [apply holds_gets |]. intros s0. intros a I (-> & <- & En). cbv zeta.
  match goal with |- context [remember_pending ?q _] => set (p := q) end.
  assert (pd_correlation_id p = c) as Ec by done.
  assert (fenced c (ag_log a) = true -> pd_dispatch_started p = Some true) as Hp.
  { intros U. destruct (marked_find c (ag_state a)) as (q & F & M); [apply (iv_memory _ I) | by apply (iv_memory _ I) |].
    unfold p. cbn. by rewrite F. }
  destruct (remember_pending p (ag_state a)) as [r s'] eqn:R. apply remember_pending_spec in R; [|apply (iv_memory _ I)].
  destruct r as [u|error].
  - destruct R as (G & E1 & E2 & E3).
    split; [|split; [apply En |]; change (n <= ts_last_server_seq s'); rewrite E2; apply En]. destruct I as [Im Is Il It Ia].
    split; cbn; try done. exact (covers_accepted _ _ s' p Im G E1 E2 E3 Hp).
  - destruct R as [->| ->].
    + assert ((match pending_by_correlation c (ag_state a), pending_by_correlation c (ag_state a) with
               | Some _, None => note (Evicted c) | _, _ => mret tt end) = mret tt) as E by (by destruct (pending_by_correlation _ _)).
      rewrite E. split; [|done]. by destruct I.
    + rewrite Ec, cleared_find. destruct I as [Im Is Il It Ia]. destruct (pending_by_correlation c (ag_state a)) as [q|] eqn:F.
      * split; [|done]. split; cbn; try done; [refine (covers_settled _ _ _ _ _ _ (clear_clears c _) Im) | refine (covers_kept _ (stored a) c _ _ Is)]; auto.
      * split; [|done]. split; cbn; try done. destruct Im as [G Fs Fh M].
        split; [by eapply clears_good; [apply clear_clears |] | done | done |]. intros d Hd. apply without_marked; [|by apply M].
        intros ->. destruct (marked_find c (ag_state a)) as (q & F' & _); [apply G | by apply M | congruence].
Qed.

(** ** The steps of the loop *)

Lemma keeps_seq {A B} (m : Act A) (k : A -> Act B) : keeps m -> (forall x, keeps (k x)) -> keeps (m ≫= k).
Proof. apply holds_bind. Qed.

Lemma keeps_ret {A} (x : A) : keeps (mret x).
Proof. by intros a I _. Qed.

Lemma keeps_fail {A} e : keeps (fail (A := A) e).
Proof. by intros a I _. Qed.

Lemma keeps_ofres {A} (r : result A string) : keeps (ofres r).
Proof. intros a I _. split; [done |]. by destruct r. Qed.

Lemma keeps_gets {A} (f : Agent -> A) : keeps (gets f).
Proof. by intros a I _. Qed.

Lemma keeps_moment : keeps moment.
Proof. apply holds_moment, stable_any. Qed.

Lemma keeps_now : keeps (now w).
Proof. apply holds_now, stable_any. Qed.

Lemma keeps_yield : keeps (yield w).
Proof. apply holds_yield, stable_any. Qed.

(** Changes of what the invariant does not see. *)
Lemma keeps_modify f :
  (forall a, core (f a) = core a /\ ag_tasks (f a) = ag_tasks a /\ ag_active (f a) = ag_active a) -> keeps (modify f).
Proof.
  intros H a I _. split; [|done]. destruct (H a) as (C & T & A). apply (inv_core a); cbn; rewrite ?T, ?A; [done | apply I | apply I | done].
Qed.

Lemma keeps_completed why r : denies why = false -> keeps (record_completed why r).
Proof. intros N. eapply holds_weaken; [apply holds_completed | | done]. intros a _. unfold deniable. by rewrite N. Qed.

Lemma keeps_for_all {A} (f : A -> Act unit) l : (forall x, keeps (f x)) -> keeps (for_all f l).
Proof. intros H. apply holds_for_all. intros x _. apply H. Qed.
End runs.

Create HintDb agent discriminated.
#[export] Hint Resolve keeps_ret keeps_fail keeps_ofres keeps_gets keeps_moment keeps_now keeps_yield keeps_save keeps_send
  keeps_send_cached : agent.

(** Programs made of steps that keep the invariant. *)
Ltac keep_step :=
  lazymatch goal with
  | |- keeps _ (_ ≫= _) => apply keeps_seq; [|intros ?]
  | |- keeps _ (for_all _ _) => apply keeps_for_all; intros ?
  | |- keeps _ (record_completed _ _) => apply keeps_completed; reflexivity
  | |- keeps _ (drop_pending _ _) => apply keeps_drop; reflexivity
  | |- keeps _ (reply_now _ _ _ _) => apply keeps_reply_now; reflexivity
  | |- keeps _ (modify _) => apply keeps_modify; intros ?; done
  | |- keeps _ (if ?b then _ else _) => destruct b
  | |- keeps _ (match ?x with _ => _ end) => destruct x
  | |- keeps _ (let _ := _ in _) => cbv zeta
  | |- keeps _ _ => solve [eauto with agent nocore]
  end.

Ltac keep := repeat keep_step.

Section steps.
Context {AT : AgentText} {DG : Digests} {SC : StateCodec}.
Context (sign : string -> string) (cfg : AgentTransportConfig) (w : World).

Lemma keeps_publish : keeps cfg (publish_orphan_completions cfg w).
Proof. unfold publish_orphan_completions, absorb_orphan_completions. keep. Qed.

Lemma holds_enter n id :
  holds cfg (fun a => ts_last_server_seq (ag_state a) < n)
    (on_state (fun s => remember_message id (s <| ts_last_server_seq := n |>))) (fun _ => entered n).
Proof.
  intros a [Im Is Il It Ia] L. split.
  - split; cbn; try done. destruct Im as [[] Fs Fh M]. split; [by split | done | | done].
    eapply Forall_impl; [exact Fh |]. intros m. cbn. lia.
  - split; [|apply Z.le_refl]. eapply Forall_impl; [exact (cv_handled _ _ _ Im) |]. intros m. cbn. lia.
Qed.

Lemma holds_handled n id :
  holds cfg (fun a => entered n a /\ stored cfg a = ag_state a) (note (Handled n id)) (fun _ => any).
Proof.
  intros a [Im Is Il It Ia] [[F L] S]. split; [|done]. cbn. split; cbn; try done.
  - destruct Im. split; try done. cbn. by constructor.
  - change (stored cfg _) with (stored cfg a). destruct Is. split; try done. cbn. constructor; [by rewrite S | done].
Qed.

Lemma keeps_parse raw : keeps cfg (parse_and_record_inbound cfg w raw).
Proof.
  unfold parse_and_record_inbound. do 7 (apply keeps_seq; [keep | intros ?]). match goal with e : Envelope |- _ => rename e into e0 end.
  eapply holds_bind; [apply holds_gets |]. intros s. destruct (has_seen_message _ _).
  { eapply holds_weaken; [apply keeps_ret | done | done]. }
  destruct (_ <=? _) eqn:L; [apply holds_fail |]. bool_prop.
  eapply holds_bind; [eapply holds_weaken; [apply holds_enter | intros a [-> _]; exact L | done] |]. intros ?.
  eapply holds_bind with (F := fun _ => entered (en_seq e0)).
  { destruct (String.eqb _ _); [apply holds_accept |]. eapply holds_weaken; [apply holds_ret | done | by intros ? ? [_ ?]]. }
  intros ?. eapply holds_bind; [apply holds_save; [apply stable_entered | intros a f H; exact H] |]. intros ?.
  eapply holds_bind; [apply holds_handled |]. intros ?. apply keeps_ret.
Qed.

(** ** Dispatch *)

Definition both_marked (c : string) (a : Agent) : Prop := marked c (ag_state a) /\ marked c (stored cfg a).

Lemma stable_both c : stable cfg (both_marked c).
Proof.
  apply (stable_core cfg (fun k => marked c (fst (fst k)) /\ marked c
    match snd (fst k) with Some bytes => match state_from_slice bytes with Ok s => s | Err _ => fresh cfg end | None => fresh cfg end)).
Qed.

(** [c] is taken, and no task has it. *)
Definition taken (c : string) (a : Agent) : Prop := c ∈ ag_active a /\ c ∉ map tk_correlation (ag_tasks a).

Lemma task_untasked c a s : c ∉ map tk_correlation (ag_tasks a) -> c ∉ map tk_correlation (ag_tasks (task_step s a)).
Proof.
  intros N. destruct s as [k payload|k]; cbn [task_step]; destruct (ag_tasks a !! k) as [t|] eqn:T; try done.
  - destruct (tk_sent t); [done |]. cbv zeta. destruct (attached t a); [destruct (_ <=? _); [done |] |]; cbn;
      by rewrite (map_insert_same k t).
  - destruct (tk_sent t); [|done]. cbn. pose proof (Permutation_map tk_correlation (remove_nth_split _ _ _ T)) as P. rewrite P in N.
    cbn in N. by apply not_elem_of_cons in N as [Nt N].
Qed.

Lemma task_taken c a s : taken c a -> taken c (task_step s a).
Proof.
  intros [A N]. split; [|by apply task_untasked]. destruct s as [k payload|k]; cbn [task_step]; destruct (ag_tasks a !! k) as [t|] eqn:T; try done.
  - destruct (tk_sent t); [done |]. cbv zeta. by destruct (attached t a); [destruct (_ <=? _) |].
  - destruct (tk_sent t); [|done]. apply elem_of_difference. split; [done |]. rewrite elem_of_singleton. intros ->. apply N.
    apply list_elem_of_In, in_map, list_elem_of_In. by apply list_elem_of_lookup_2 in T.
Qed.

Lemma stable_taken c : stable cfg (taken c).
Proof. split; [|done]. intros a s I. apply task_taken. Qed.

(** What depends on tasks only. *)
Definition loose (E : Agent -> Prop) : Prop :=
  stable cfg E /\ unfiled E /\ forall a s, E a -> E (a <| ag_state := s |>).

Lemma loose_taken c : loose (taken c).
Proof. split_and!; [apply stable_taken | by intros a f H; exact H | by intros a s H; exact H]. Qed.

Lemma loose_any : loose any.
Proof. done. Qed.

Lemma covers_started l s s' c : mark_dispatch_started c s = Ok s' -> covers cfg l s -> covers cfg l s' /\ marked c s'.
Proof.
  unfold mark_dispatch_started. destruct (mark_first c _) as [k|] eqn:M; [|done]. intros [= <-] [[] Fs Fh Mk].
  destruct (mark_first_ok _ _ _ M) as (C & R & Q & K). split; [|exact Q]. split; [|done | done |].
  - assert (length k = length (ts_pending_dispatches s)) as El.
    { rewrite <- (length_map pd_correlation_id k). fold (correlations k). rewrite C. apply length_map. }
    split; [done | done | done | change (NoDup (correlations k)); by rewrite C | | change (raw_total k <= MAX_COMPLETED_REPLIES_BYTES / 2); by rewrite R].
    change (zlen k <= MAX_PENDING_DISPATCHES). unfold zlen. by rewrite El.
  - intros d Hd. destruct (Mk d Hd) as (p & Hp & Ep & Mp). exact (K d p Hp Ep Mp).
Qed.

Lemma holds_start E c : loose E -> holds cfg E (start_dispatch w c) (fun _ a => E a /\ both_marked c a).
Proof.
  intros (S & U & O). eapply holds_bind; [apply holds_gets |]. intros s. eapply holds_bind; [apply holds_ofres |]. intros s'.
  eapply holds_bind with (F := fun _ a => E a /\ marked c (ag_state a)).
  { intros a [Im Is Il It Ia] (Mk & -> & Ea). destruct (covers_started _ _ _ _ Mk Im) as [C M].
    split; [|split; [exact (O a s' Ea) | exact M]]. split; done. }
  intros ?. eapply holds_weaken; [apply (holds_save cfg w (fun a => E a /\ marked c (ag_state a))) | done |].
  - apply stable_and; [done | apply (stable_core cfg (fun k => marked c (fst (fst k))))].
  - intros a f [H K]. split; [exact (U a f H) | exact K].
  - intros ? a [[H K] St]. split; [done |]. split; [done | by rewrite St].
Qed.

Lemma covers_spawned l s c : covers cfg l s -> marked c s -> covers cfg (Spawned c :: l) s.
Proof. intros [G Fs Fh Mk] M. split; try done. intros d. cbn. destruct (String.eqb_spec c d) as [<-|]; [done | apply Mk]. Qed.

Lemma holds_spawn c id : holds cfg (fun a => taken c a /\ both_marked c a) (spawn c id) (fun _ => any).
Proof.
  intros a [Im Is Il It Ia] [[A N] [M1 M2]]. split; [|done]. split.
  - by apply (covers_spawned _ (ag_state a)).
  - by apply (covers_spawned _ (stored cfg a)).
  - done.
  - unfold spawn. simpl. rewrite map_app. apply NoDup_app. split_and!; [done | | apply NoDup_singleton].
    by intros x Hx ->%list_elem_of_singleton.
  - unfold spawn. simpl. rewrite map_app. intros d [H|H]%elem_of_app; [by apply Ia |]. by apply list_elem_of_singleton in H as ->.
Qed.

Lemma keeps_start c : keeps cfg (start_dispatch w c).
Proof. by eapply holds_weaken; [apply (holds_start any), loose_any | |]. Qed.

Lemma keeps_signal id : keeps cfg (note (Signalled id)).
Proof. intros a [Im Is Il It Ia] _. split; [|done]. split; try done; [by destruct Im | by destruct Is]. Qed.

Hint Resolve keeps_publish keeps_parse keeps_start keeps_signal : agent.

Lemma keeps_cancel c e r : keeps cfg (on_cancel cfg w c e r).
Proof. unfold on_cancel. keep. Qed.

Lemma keeps_dispatch c id : keeps cfg (dispatch cfg w c id).
Proof.
  unfold dispatch. destruct (negb _); [keep |]. apply keeps_seq; [keep |]. intros running. destruct (_ <=? _); [keep |].
  apply keeps_seq; [keep |]. intros ?. eapply holds_bind; [apply holds_gets |]. intros [].
  { eapply holds_weaken; [apply keeps_ret | done | done]. }
  eapply holds_bind with (F := fun _ => taken c).
  { intros a [Im Is Il It Ia] [B%symmetry%bool_decide_eq_false _]. split.
    - split; try done. cbn. intros d Hd. apply elem_of_union. right. by apply Ia.
    - split; [apply elem_of_union; left; by apply elem_of_singleton |]. intros H. by apply B, Ia. }
  intros ?. eapply holds_bind; [apply holds_start, loose_taken |]. intros ?.
  eapply holds_bind; [apply holds_yield; apply stable_and; [apply stable_taken | apply stable_both] |]. intros ?. apply holds_spawn.
Qed.

Hint Resolve keeps_cancel keeps_dispatch : agent.

(** Without the mark there is no dispatch to be settled. *)
Lemma unmarked c why a :
  Inv cfg a -> pending_by_correlation c (ag_state a) ≫= pd_dispatch_started <> Some true -> deniable c why a.
Proof.
  intros I N _. apply not_true_iff_false. intros U. destruct (marked_find c (ag_state a)) as (p & F & M).
  - apply (iv_memory _ _ I).
  - by apply (iv_memory _ _ I).
  - apply N. by rewrite F.
Qed.

Lemma holds_deny why c reply (E : Agent -> Prop) :
  cr_correlation_id reply = c -> (forall a, E a -> pending_by_correlation c (ag_state a) ≫= pd_dispatch_started <> Some true) ->
  holds cfg E (reply_now cfg w why reply) (fun _ => any).
Proof. intros <- H. eapply holds_pre; [apply holds_reply_now |]. intros a I Ea. apply unmarked; auto. Qed.

Lemma keeps_request_text c raw e : keeps cfg (request_text cfg w c raw e).
Proof.
  unfold request_text. destruct raw as [raw|]; [keep |]. eapply holds_bind; [apply holds_gets |]. intros s.
  destruct (pending_by_correlation c s) as [p|] eqn:F.
  - eapply (holds_pre cfg _ any); [|done].
    change (keeps cfg (if pd_transfer_session_lost p
      then reply_now cfg w SessionLost (transfer_session_lost_reply c (pd_operation_id p)) ;; mret None else mret (Some (pd_raw p)))). keep.
  - eapply holds_bind; [apply (holds_deny _ c); [done |] | intros ?; apply keeps_ret]. intros a [-> _]. by rewrite F.
Qed.

Hint Resolve keeps_request_text : agent.

Lemma keeps_run_request c raw : keeps cfg (run_request cfg w c raw).
Proof.
  unfold run_request. apply keeps_seq; [keep |]. intros [e [r|r]]; [|keep]. apply keeps_seq; [keep |]. intros t.
  eapply holds_bind; [apply holds_gets |]. intros s. cbv zeta.
  assert (keeps cfg (if is_cancel r then on_cancel cfg w c e r else dispatch cfg w c (rq_operation_id r))) as G by keep.
  destruct (envelope_expired t e); [|by eapply holds_pre; [exact G |]].
  destruct (pending_by_correlation c s ≫= pd_dispatch_started) as [[]|] eqn:F; [by eapply holds_pre; [exact G |] | |];
    (apply (holds_deny _ c); [done | intros a [-> _]; congruence]).
Qed.

Hint Resolve keeps_run_request : agent.

Lemma keeps_on_request raw e : keeps cfg (on_request cfg w raw e).
Proof. unfold on_request. keep. Qed.

Lemma keeps_reconcile e : keeps cfg (on_reconcile cfg w e).
Proof. unfold on_reconcile. keep. Qed.

Hint Resolve keeps_on_request keeps_reconcile : agent.

Lemma keeps_live_frame frame : keeps cfg (handle_live_frame cfg w frame).
Proof. unfold handle_live_frame, agent_time. destruct frame; keep. Qed.

Lemma keeps_loop_top : keeps cfg (loop_top cfg w).
Proof. unfold loop_top, registry_payload. keep. Qed.

Hint Resolve keeps_live_frame keeps_loop_top : agent.

Lemma keeps_receive raw : keeps cfg (receive sign cfg w raw).
Proof. unfold receive, awaiting, on_challenge, on_accepted, on_ready, registry_payload, set_phase. keep. Qed.

Lemma keeps_connect : keeps cfg (connect cfg w).
Proof. unfold connect, hello, set_phase. keep. Qed.

Lemma keeps_finished : keeps cfg (finished cfg w).
Proof. unfold finished. keep. Qed.

(** ** Runs *)

Lemma trim_front_id {A} maximum (l : list A) : zlen l <= maximum -> trim_front maximum l = l.
Proof. unfold trim_front, zlen. intros H. replace (length l - Z.to_nat maximum)%nat with 0%nat by lia. done. Qed.

Lemma drop_oldest_id total l : total <= MAX_COMPLETED_REPLIES_BYTES / 2 -> drop_oldest total l = l.
Proof. intros H. destruct l; [done |]. cbn [drop_oldest]. by rewrite (proj2 (Z.ltb_ge _ _) H). Qed.

(** A restart finds what the history needs, or refuses the file. *)
Lemma load_covers a s : Inv cfg a -> load cfg a = Ok s -> covers cfg (ag_log a) s.
Proof.
  intros I. pose proof (iv_stored _ _ I) as C. unfold stored in C. unfold load. destruct (ag_file a) as [bytes|]; [|by intros [= <-]].
  destruct (guard_err _ _) as [[]|]; [cbn [rbind] | done]. destruct (state_from_slice bytes) as [t|]; [cbn [map_err rbind] | done].
  destruct (guard_err _ _) as [[]|]; [cbn [rbind] | done]. destruct C as [[V Is D N L B] Fs Fh M]. rewrite Is, D, !String.eqb_refl. cbn [negb orb].
  destruct (guard_err _ _) as [[]|]; [cbn [rbind] | done]. intros [= <-].
  match goal with |- covers _ _ (enforce_pending_dispatch_budgets ?x) => set (u := x) end.
  assert (ts_pending_dispatches u = ts_pending_dispatches t) as Ep by done.
  unfold enforce_pending_dispatch_budgets. cbv zeta. rewrite Ep, trim_front_id, drop_oldest_id by done.
  split; [split; done | done | done |]. intros c Hc. exact (M c Hc).
Qed.

Lemma inv_same a a' :
  core a' = core a -> ag_tasks a' = ag_tasks a -> ag_active a' = ag_active a -> Inv cfg a -> Inv cfg a'.
Proof. intros E T A I. apply (inv_core cfg a); rewrite ?T, ?A; [done | apply I | apply I | done]. Qed.

Lemma restart_inv a : Inv cfg a -> Inv cfg (restart cfg a).
Proof.
  intros I. unfold restart. destruct (load cfg a) as [s|e] eqn:L.
  - apply load_covers in L; [|done]. destruct I as [Im Is Il It Ia]. split; [exact L | exact Is | exact Il | constructor |].
    intros c H. by apply not_elem_of_nil in H.
  - destruct I as [Im Is Il It Ia]. split; [exact Im | exact Is | exact Il | constructor |]. intros c H. by apply not_elem_of_nil in H.
Qed.

Lemma turn_inv m a : keeps cfg m -> Inv cfg a -> Inv cfg (turn m a).
Proof.
  intros K I. destruct (K a I Logic.I) as [J _]. unfold turn. destruct (m a) as [[x|e] a']; cbn in J; [done |].
  unfold session_end. destruct (ag_phase a'); [done | |..]; by apply (inv_same a').
Qed.

Lemma step_inv ev a : Inv cfg a -> Inv cfg (step sign cfg w ev a).
Proof.
  intros I. destruct ev as [|raw| | |changed| |s|]; cbn [step]; unfold when_live.
  - destruct (ag_phase a); try done. by apply turn_inv, I; apply keeps_connect.
  - apply turn_inv, I. apply keeps_receive.
  - destruct (is_live _); [|done]. apply turn_inv, I. unfold agent_time. keep.
  - destruct (is_live _); [|done]. apply turn_inv, I. apply keeps_finished.
  - destruct (is_live _); [|done]. apply turn_inv, I. keep.
  - unfold session_end. destruct (ag_phase a); [done | |..]; by apply (inv_same a).
  - by apply task_step_inv.
  - by apply restart_inv.
Qed.

Lemma run_inv evs a : Inv cfg a -> Inv cfg (run sign cfg w evs a).
Proof. revert a. induction evs as [|ev evs IH]; intros a I; [done |]. cbn. by apply IH, step_inv. Qed.

Lemma reachable_inv evs : Inv cfg (run sign cfg w evs (installed cfg)).
Proof. apply run_inv, installed_inv. Qed.
End steps.
