(* ===== verification/AgentFence.v ===== *)
(** * What the agent's connection promises

    Sequence numbers are not reused, a started operation is remembered and never denied,
    no two tasks run one operation; and two states the connection cannot leave: a reply
    that was compacted cannot be sent, and an operation whose mark could not be saved is
    not run until the daemon restarts. *)

From stdpp Require Import base list strings gmap sorting.
From Stdlib Require Import ZArith Lia Ascii.
From S2P Require Import Prelude RustStr RustBytes Json Transfer TransferPump SupervisorSpool AgentProtocol AgentBinding AgentLink AgentRun.

Open Scope Z_scope.

Lemma log_ok_at l1 e l2 : log_ok (l1 ++ e :: l2) -> entry_ok e l2.
Proof. induction l1 as [|x l1 IH]; cbn; [by intros [? _] | intros [_ ?]; by apply IH]. Qed.

(** ** Facts that programs leave alone *)

Definition stays {A} (E : Agent -> Prop) (m : Act A) : Prop := forall a, E a -> E (snd (m a)).

Lemma stays_bind {A B} E (m : Act A) (k : A -> Act B) : stays E m -> (forall x, stays E (k x)) -> stays E (m ≫= k).
Proof. intros Hm Hk a Ea. specialize (Hm a Ea). unfold mbind, Act_bind. destruct (m a) as [[x|e] a']; [by apply Hk | done]. Qed.

Lemma stays_ret {A} E (x : A) : stays E (mret x).
Proof. by intros a Ea. Qed.

Lemma stays_fail {A} E e : stays E (fail (A := A) e).
Proof. by intros a Ea. Qed.

Lemma stays_ofres {A} E (r : result A string) : stays E (ofres r).
Proof. by intros a Ea. Qed.

Lemma stays_gets {A} E (f : Agent -> A) : stays E (gets f).
Proof. by intros a Ea. Qed.

Lemma stays_for_all {A} E (f : A -> Act unit) l : (forall x, stays E (f x)) -> stays E (for_all f l).
Proof. intros H. induction l as [|x l IH]; [apply stays_ret |]. cbn. apply stays_bind; [apply H | intros ?; apply IH]. Qed.

(** Facts about tasks, about what is active and about the history. *)
Class Sees (E : Agent -> Prop) : Prop :=
  sees a a' : ag_tasks a' = ag_tasks a -> ag_active a' = ag_active a -> ag_log a' = ag_log a -> E a -> E a'.

Lemma stays_modify E `{!Sees E} f :
  (forall a, ag_tasks (f a) = ag_tasks a /\ ag_active (f a) = ag_active a /\ ag_log (f a) = ag_log a) -> stays E (modify f).
Proof. intros H a Ea. destruct (H a) as (? & ? & ?). exact (sees a (f a) ltac:(done) ltac:(done) ltac:(done) Ea). Qed.

Lemma stays_moment E `{!Sees E} : stays E moment.
Proof. intros a. by apply sees. Qed.

Lemma stays_save {SC : StateCodec} w E `{!Sees E} : stays E (save w).
Proof.
  apply stays_bind; [by apply stays_moment | intros t]. apply stays_bind; [apply stays_gets | intros s]. cbv zeta.
  destruct (_ <? _); [apply stays_fail |]. intros a. destruct (wd_io w t); by apply sees.
Qed.

(** ** An operation that is taken and has no task *)

Definition starts (c : string) (l : list Entry) : list Entry :=
  List.filter (fun e => match e with Spawned d => String.eqb d c | _ => false end) l.

Definition stranded (c : string) (k : list Entry) (a : Agent) : Prop := taken c a /\ starts c (ag_log a) = k.

#[export] Instance stranded_sees c k : Sees (stranded c k).
Proof. unfold stranded, taken. by intros a a' -> -> ->. Qed.

Lemma task_log {AT : AgentText} s a : ag_log (task_step s a) = ag_log a.
Proof.
  destruct s as [i payload|i]; cbn [task_step]; destruct (ag_tasks a !! i) as [t|]; try done; destruct (tk_sent t); try done.
  cbv zeta. destruct (attached t a); [by destruct (_ <=? _) | done].
Qed.

Lemma stranded_task {AT : AgentText} s c k a : stranded c k a -> stranded c k (task_step s a).
Proof. intros [T L]. split; [by apply task_taken | by rewrite task_log]. Qed.

Lemma stays_note e c k : match e with Spawned _ => False | _ => True end -> stays (stranded c k) (note e).
Proof. intros H a [T L]. by destruct e. Qed.

Lemma stays_yield {AT : AgentText} w c k : stays (stranded c k) (yield w).
Proof.
  apply stays_bind; [apply stays_moment, _ | intros t]. intros a Ea. cbn. revert a Ea.
  induction (wd_meanwhile w t) as [|s l IH]; intros a Ea; [done |]. cbn. by apply IH, stranded_task.
Qed.

#[export] Hint Resolve stays_ret stays_fail stays_ofres stays_gets stays_moment stays_save stays_yield : agent.

Ltac stay_step :=
  lazymatch goal with
  | |- stays _ (_ ≫= _) => apply stays_bind; [|intros ?]
  | |- stays _ (for_all _ _) => apply stays_for_all; intros ?
  | |- stays _ (modify _) => apply stays_modify; [apply _ | done]
  | |- stays _ (on_state _) => unfold on_state
  | |- stays _ (note _) => apply stays_note; exact I
  | |- stays _ (if ?b then _ else _) => destruct b
  | |- stays _ (match ?x with _ => _ end) => destruct x
  | |- stays _ (let _ := _ in _) => cbv zeta
  | |- stays _ _ => solve [eauto with agent typeclass_instances]
  end.

Ltac stay := repeat stay_step.

Section strand.
Context {AT : AgentText} {DG : Digests} {SC : StateCodec}.
Context (sign : string -> string) (cfg : AgentTransportConfig) (w : World) (c : string) (k : list Entry).

Lemma stays_envelope kind payload d : stays (stranded c k) (next_envelope cfg w kind payload d).
Proof. unfold next_envelope, next_seq, now. stay. Qed.

Lemma stays_transmit e : stays (stranded c k) (transmit w e).
Proof. unfold transmit. stay. Qed.

Hint Resolve stays_envelope stays_transmit : agent.

Lemma stays_send kind payload d : stays (stranded c k) (send_envelope cfg w kind payload d).
Proof. unfold send_envelope. stay. Qed.

Lemma stays_send_cached r : stays (stranded c k) (send_cached_result cfg w r).
Proof. unfold send_cached_result. stay. Qed.

Hint Resolve stays_send stays_send_cached : agent.

Lemma stays_reply_now why r : stays (stranded c k) (reply_now cfg w why r).
Proof. unfold reply_now, record_completed. stay. Qed.

Lemma stays_publish : stays (stranded c k) (publish_orphan_completions cfg w).
Proof. unfold publish_orphan_completions, absorb_orphan_completions, record_completed. stay. Qed.

Lemma stays_start d : stays (stranded c k) (start_dispatch w d).
Proof. unfold start_dispatch. stay. Qed.

Hint Resolve stays_reply_now stays_publish stays_start : agent.

Lemma stays_spawn d id : d <> c -> stays (stranded c k) (spawn d id).
Proof.
  intros N a [[A T] L]. split; [split; [done |] |]; cbn [spawn snd].
  - change (c ∉ map tk_correlation (ag_tasks a ++ [{| tk_correlation := d; tk_operation_id := id; tk_session := ag_session a; tk_sent := false |}])).
    rewrite map_app, elem_of_app. intros [?|X]; [done |]. by apply list_elem_of_singleton in X.
  - change (starts c (Spawned d :: ag_log a) = k). unfold starts. cbn [List.filter]. by rewrite (proj2 (String.eqb_neq d c) N).
Qed.

(** What is taken is skipped. *)
Lemma stays_dispatch d id : stays (stranded c k) (dispatch cfg w d id).
Proof.
  unfold dispatch. destruct (negb _); [stay |]. apply stays_bind; [stay |]. intros running. destruct (_ <=? _); [stay |].
  apply stays_bind; [stay |]. intros ? a Ea. unfold mbind at 1, Act_bind at 1, gets at 1. cbv beta iota.
  destruct (decide (d = c)) as [->|N].
  - rewrite bool_decide_eq_true_2 by apply Ea. exact Ea.
  - destruct (bool_decide _); [exact Ea |].
    apply (stays_bind _ (start_dispatch w d)); [stay | intros ? | ].
    + apply stays_bind; [stay | intros ?; by apply stays_spawn].
    + destruct Ea as [[A T] L]. split; [split; [|done] |]; [|done]. cbn. set_solver.
Qed.

Lemma stays_cancel d e r : stays (stranded c k) (on_cancel cfg w d e r).
Proof. unfold on_cancel, drop_pending. stay. Qed.

Hint Resolve stays_dispatch stays_cancel : agent.

Lemma stays_request raw e : stays (stranded c k) (on_request cfg w raw e).
Proof. unfold on_request, request_text, run_request, now. stay. Qed.

Lemma stays_parse raw : stays (stranded c k) (parse_and_record_inbound cfg w raw).
Proof. unfold parse_and_record_inbound, accept_request, now. stay. Qed.

Hint Resolve stays_request stays_parse : agent.

Lemma stays_frame frame : stays (stranded c k) (handle_live_frame cfg w frame).
Proof. unfold handle_live_frame, agent_time, now, on_reconcile, drop_pending. destruct frame; stay. Qed.

Lemma stays_loop_top : stays (stranded c k) (loop_top cfg w).
Proof. unfold loop_top, registry_payload. stay. Qed.

Hint Resolve stays_frame stays_loop_top : agent.

Lemma stays_receive raw : stays (stranded c k) (receive sign cfg w raw).
Proof. unfold receive, awaiting, on_challenge, on_accepted, on_ready, registry_payload, set_phase. stay. Qed.

Lemma stranded_turn m a : stays (stranded c k) m -> stranded c k a -> stranded c k (turn m a).
Proof.
  intros H Ea. specialize (H a Ea). unfold turn, session_end. destruct (m a) as [[u|e] a']; [done |]. cbn in H.
  by destruct (ag_phase a').
Qed.

Lemma stranded_live m a : stays (stranded c k) m -> stranded c k a -> stranded c k (when_live m a).
Proof. intros H Ea. unfold when_live. destruct (is_live _); [by apply stranded_turn | done]. Qed.

Lemma stranded_step ev a : ev <> Restart -> stranded c k a -> stranded c k (step sign cfg w ev a).
Proof.
  intros N Ea. destruct ev as [| raw | | | changed | | s |]; cbn [step]; [| | | | | | |done].
  - destruct (ag_phase a); try done. apply stranded_turn; [unfold connect, hello, set_phase; stay | done].
  - by apply stranded_turn; [apply stays_receive |].
  - apply stranded_live; [unfold agent_time, now; stay | done].
  - apply stranded_live; [unfold finished; stay | done].
  - apply stranded_live; [stay | done].
  - unfold session_end. by destruct (ag_phase a).
  - by apply stranded_task.
Qed.

Lemma stranded_run evs a : Forall (fun ev => ev <> Restart) evs -> stranded c k a -> stranded c k (run sign cfg w evs a).
Proof. intros F. revert a. induction F as [|ev evs N F IH]; intros a Ea; [done |]. by apply IH, stranded_step. Qed.
End strand.

(** No task of [c], whatever tasks do meanwhile. *)
Definition untasked (c : string) (k : list Entry) (a : Agent) : Prop :=
  (c ∉ map tk_correlation (ag_tasks a)) /\ starts c (ag_log a) = k.

Lemma untasked_yield {AT : AgentText} w c k : stays (untasked c k) (yield w).
Proof.
  apply stays_bind; [by intros a Ea | intros t]. intros a Ea. cbn. revert a Ea.
  induction (wd_meanwhile w t) as [|s l IH]; intros a [N L]; [done |]. cbn. apply IH.
  split; [by apply task_untasked | by rewrite task_log].
Qed.

Section promises.
Context {AT : AgentText} {DG : Digests} {SC : StateCodec}.
Context (sign : string -> string) (cfg : AgentTransportConfig) (w : World).

(** C24: no sequence number is used twice.  Over reconnections, restarts and failing writes,
    every envelope the agent sends has a larger number than all it sent before, and every
    message it acts on as new has a larger number than all it acted on before. *)
Theorem sequences_grow evs l1 e l2 :
  ag_log (run sign cfg w evs (installed cfg)) = l1 ++ e :: l2 ->
  match e with
  | Sent n _ => Forall (fun m => m < n) (sent_seqs l2)
  | Handled n _ => Forall (fun m => m < n) (handled_seqs l2)
  | _ => True
  end.
Proof.
  intros E. pose proof (iv_log _ _ (reachable_inv sign cfg w evs)) as L. rewrite E in L. apply log_ok_at in L.
  by destruct e.
Qed.

(** C22: one task an operation, and its mark is durable.  At every moment no two tasks run the
    same operation.  And an operation that was started and not settled since (by a recorded
    reply other than the busy reply, by a cancellation, or by an acknowledgement of the
    control plane) is marked as started in memory, on disk, and in whatever state a restart
    finds; unless its mark was lost since, because the outbox was full when its request was
    delivered again or because a busy reply was recorded while it ran. *)
Theorem dispatch_marked evs c :
  let a := run sign cfg w evs (installed cfg) in
  NoDup (map tk_correlation (ag_tasks a))
  /\ (unsettled c (ag_log a) = true -> mark_lost c (ag_log a) = false ->
      marked c (ag_state a) /\ forall s, load cfg a = Ok s -> marked c s).
Proof.
  intros a. pose proof (reachable_inv sign cfg w evs) as I. fold a in I. split; [apply I |]. intros U L.
  assert (fenced c (ag_log a) = true) as F by (by rewrite fenced_spec, U, L). split.
  - by apply (iv_memory _ _ I).
  - intros s Ls. by apply (load_covers cfg a s I Ls).
Qed.

(** C23: what may have run is not denied.  The replies that say that an operation expired before
    it was executed, that its outcome is unknown, or that its entry in the outbox is gone,
    are recorded for an operation only if it was never started, or was settled since it was
    started last, or its mark was lost since (to a full outbox or to a busy reply). *)
Theorem started_not_denied evs l1 c why l2 :
  ag_log (run sign cfg w evs (installed cfg)) = l1 ++ Settled c why :: l2 -> denies why = true ->
  unsettled c l2 = false \/ mark_lost c l2 = true.
Proof.
  intros E D. pose proof (iv_log _ _ (reachable_inv sign cfg w evs)) as L. rewrite E in L. apply log_ok_at in L.
  specialize (L D). rewrite fenced_spec in L. destruct (unsettled c l2); [right | by left]. by destruct (mark_lost c l2).
Qed.

(** ** Compacted replies *)

Lemma knows_all keys o k v : knows keys o = true -> o !! k = Some v -> existsb (String.eqb k) keys = true.
Proof.
  unfold knows. rewrite forallb_forall. intros H L. apply (H (k, v)), list_elem_of_In, elem_of_map_to_list. done.
Qed.

Lemma receipt_member r : get (cr_payload (completion_receipt r)) "durable_receipt" = Some (JBool true).
Proof. unfold completion_receipt. cbv zeta. cbn [cr_payload]. by destruct (get (cr_payload r) "error"). Qed.

Lemma receipt_no_result r : is_ok (result_of_value (cr_payload (completion_receipt r))) = false.
Proof.
  pose proof (receipt_member r) as M. unfold result_of_value. destruct (cr_payload (completion_receipt r)) as [| | | | |o]; try done.
  cbn [as_object ok_or rbind get] in *. destruct (knows _ o) eqn:K; [|done]. by apply (knows_all _ _ _ _ K) in M.
Qed.

(** What the agent reads in an envelope of its own. *)
Lemma envelope_read e e' :
  parse_envelope (envelope_to_vec e) = Ok e' -> en_payload e' = en_payload e /\ en_message_type e' = en_message_type e.
Proof.
  unfold parse_envelope, envelope_to_vec. rewrite serde_roundtrip. cbn [ok_or rbind]. intros H.
  repeat (destruct (guard_err _ _) as [[]|]; [cbn [rbind] in H | done]).
  unfold envelope_of_value, envelope_value, json_object in H. cbn [as_object ok_or rbind] in H.
  match type of H with context [need ?o "type" as_str] => assert (o !! "type" = Some (JString (en_message_type e)) /\ o !! "payload" = Some (en_payload e)) as [Lt Lp] end.
  { by destruct (en_correlation_id e), (en_expires_at e). }
  match type of H with context [need ?o "type" as_str] => set (o' := o) in * end.
  clearbody o'. apply rbind_ok_inv in H as (x & H & K). destruct (validate_structure x); [|done]. injection K as <-.
  repeat (apply rbind_ok_inv in H as (? & ? & H)). injection H as <-. cbn. unfold need in *.
  repeat match goal with N : ok_or (o' !! ?k ≫= _) _ = Ok _ |- _ => first [rewrite Lt in N | rewrite Lp in N]; cbn in N; injection N as <- end.
  done.
Qed.

Lemma receipt_refused e r :
  en_message_type e = "operation.result" -> en_payload e = cr_payload (completion_receipt r) ->
  is_ok (parse_operation (envelope_to_vec e)) = false.
Proof.
  intros Ht Ep. unfold parse_operation. destruct (parse_envelope _) as [e'|] eqn:P; [cbn [rbind] | done].
  apply envelope_read in P as [Ep' Ht']. destruct (ok_or (serde_from_str _) _) as [raw|]; [cbn [rbind] | done].
  destruct (ok_or _ _) as [o|]; [cbn [rbind] | done]. do 2 (destruct (guard_err _ _) as [[]|]; [cbn [rbind] | done]).
  rewrite Ht', Ht, Ep', Ep. cbn [String.eqb Ascii.eqb Bool.eqb]. destruct (reject_explicit_nulls _ _) as [[]|]; [cbn [rbind] | done].
  pose proof (receipt_no_result r) as N. by destruct (result_of_value _).
Qed.

Lemma envelope_is kind payload c a e a' :
  next_envelope cfg w kind payload c a = (Ok e, a') -> en_message_type e = kind /\ en_payload e = payload.
Proof.
  unfold next_envelope, mbind, Act_bind. destruct (next_seq a) as [[n|] a1]; [|done]. destruct (save w a1) as [[u|] a2]; [|done].
  destruct (moment a2) as [[t|] a3]; [|done]. destruct (ofres _ a3) as [[id|] a4]; [|done]. destruct (now w a4) as [[d|] a5]; [|done].
  by intros [= <- <-].
Qed.

#[local] Instance silent_sees k : Sees (fun a => sent_seqs (ag_log a) = k).
Proof. by intros a a' _ _ ->. Qed.

Lemma envelope_silent kind payload c k : stays (fun a => sent_seqs (ag_log a) = k) (next_envelope cfg w kind payload c).
Proof. unfold next_envelope, next_seq, now. stay. Qed.

Lemma receipt_unsent r a : let '(x, a') := send_cached_result cfg w (completion_receipt r) a in
  is_ok x = false /\ sent_seqs (ag_log a') = sent_seqs (ag_log a).
Proof.
  pose proof (envelope_silent "operation.result" (cr_payload (completion_receipt r)) (Some (cr_correlation_id (completion_receipt r)))
                (sent_seqs (ag_log a)) a eq_refl) as Q.
  unfold send_cached_result, mbind, Act_bind. destruct (next_envelope _ _ _ _ _ a) as [[e|err] a'] eqn:E; [|done].
  apply envelope_is in E as [Et Ep]. pose proof (receipt_refused e r Et Ep). by destruct (parse_operation _).
Qed.

(** A compacted reply cannot be replayed.  When the reply of an operation is recorded in the
    compacted form [completion_receipt] gives it and no reply is parked, a redelivery of the
    operation's request makes the session fail without the reply, or anything else, being
    sent. *)
Theorem receipt_ends_session raw e c r a :
  en_correlation_id e = Some c -> ag_orphans a = [] -> completed c (ag_state a) = Some (completion_receipt r) ->
  let '(x, a') := on_request cfg w raw e a in is_ok x = false /\ sent_seqs (ag_log a') = sent_seqs (ag_log a).
Proof.
  intros Hc O R. pose proof (receipt_unsent r (a <| ag_orphans := [] |>)) as U.
  unfold on_request, publish_orphan_completions, absorb_orphan_completions, mbind, Act_bind, ofres, gets, modify. rewrite Hc, O. cbn.
  rewrite R. exact U.
Qed.

(** ** Marks that could not be saved *)

Lemma failed_dispatch c id e a a' :
  cf_runtime cfg = true -> in_flight a < MAX_IN_FLIGHT_REMOTE_OPS -> c ∉ map tk_correlation (ag_tasks a) ->
  dispatch cfg w c id a = (Err e, a') -> stranded c (starts c (ag_log a)) a'.
Proof.
  intros R F N. unfold dispatch. rewrite R. cbn [negb]. unfold mbind at 1, Act_bind at 1, gets at 1. cbv beta iota.
  rewrite (proj2 (Z.leb_gt _ _) F). unfold mbind at 1, Act_bind at 1.
  pose proof (untasked_yield w c (starts c (ag_log a)) a (conj N eq_refl)) as [N1 L1].
  destruct (yield w a) as [[u|x] a1] eqn:Y; [|unfold yield in Y; by injection Y]. cbn [snd] in N1, L1.
  unfold mbind at 1, Act_bind at 1, gets at 1. cbv beta iota. destruct (bool_decide _); [done |].
  unfold mbind at 1, Act_bind at 1, modify at 1. cbv beta iota. set (a2 := a1 <| ag_active := _ |>).
  assert (stranded c (starts c (ag_log a)) a2) as S2 by (split; [split; [cbn; set_solver | done] | done]).
  apply (stays_start w) with (d := c) in S2. unfold mbind at 1, Act_bind at 1. destruct (start_dispatch w c a2) as [[v|x] a3]; [done |].
  by intros [= <- <-].
Qed.

(** A mark that could not be saved strands its operation.  When the dispatch of an operation
    fails (its mark could not be written), the operation stays active without a task: in
    every continuation without a restart of the daemon, reconnections and redeliveries
    included, no task is ever started for it. *)
Theorem failed_mark_strands c id e a a' evs :
  cf_runtime cfg = true -> in_flight a < MAX_IN_FLIGHT_REMOTE_OPS -> c ∉ map tk_correlation (ag_tasks a) ->
  dispatch cfg w c id a = (Err e, a') -> Forall (fun ev => ev <> Restart) evs ->
  let b := run sign cfg w evs (session_end a') in
  taken c b /\ starts c (ag_log b) = starts c (ag_log a).
Proof.
  intros R F N D Q. apply (stranded_run sign cfg w c); [done |].
  pose proof (failed_dispatch c id e a a' R F N D) as S. unfold session_end. by destruct (ag_phase a').
Qed.
End promises.
