(* ===== verification/JsonText.v ===== *)
(** * A text of JSON values

    The instance of [AgentText] that witnesses run on: the compact form of [serde_json]
    with strings and numbers written as the items of [Items], and the reader of that form. *)

From stdpp Require Import base list strings gmap.
From Stdlib Require Import ZArith Lia Ascii.
From S2P Require Import Prelude RustStr Json TransferPump Items AgentProtocol AgentBinding.

Open Scope Z_scope.

Definition DQ : ascii := byte_of 34.

Definition string_text (s : string) : string := String DQ (quote s "").

Fixpoint value_text (v : Value) : string :=
  match v with
  | Null => "null"
  | JBool b => if b then "true" else "false"
  | Number (PosInt n) => String "p" (quote (number_text n) "")
  | Number (NegInt n) => String "m" (quote (number_text n) "")
  | Number (Float l) => String "d" (quote l "")
  | JString s => string_text s
  | Array items => "[" +:+ join "," (map value_text items) +:+ "]"
  | Object ms =>
      object_text (map (fun m => (string_text (fst m), snd m))
        (sort_by key_order (map_fold (fun k v l => (k, value_text v) :: l) [] ms)))
  end.

Definition read_atom {A} (f : string -> option A) (s : string) : option (A * string) :=
  p ← unquote s; x ← f (fst p); Some (x, snd p).

Fixpoint read_value (fuel : nat) (s : string) : option (Value * string) :=
  match fuel, s with
  | S fuel, String c r =>
      if Ascii.eqb c "n" then (fun r => (Null, r)) <$> strip_prefix "ull" r
      else if Ascii.eqb c "t" then (fun r => (JBool true, r)) <$> strip_prefix "rue" r
      else if Ascii.eqb c "f" then (fun r => (JBool false, r)) <$> strip_prefix "alse" r
      else if Ascii.eqb c "p" then read_atom (fun t => (fun n => Number (PosInt n)) <$> text_number t) r
      else if Ascii.eqb c "m" then read_atom (fun t => (fun n => Number (NegInt n)) <$> text_number t) r
      else if Ascii.eqb c "d" then read_atom (fun t => Some (Number (Float t))) r
      else if Ascii.eqb c DQ then read_atom (fun t => Some (JString t)) r
      else if Ascii.eqb c "[" then
        match strip_prefix "]" r with
        | Some r => Some (Array [], r)
        | None => p ← read_list fuel r; Some (Array (fst p), snd p)
        end
      else if Ascii.eqb c "{" then
        match strip_prefix "}" r with
        | Some r => Some (Object ∅, r)
        | None => p ← read_members fuel r; Some (Object (list_to_map (fst p)), snd p)
        end
      else None
  | _, _ => None
  end
with read_list (fuel : nat) (s : string) : option (list Value * string) :=
  match fuel with
  | O => None
  | S fuel =>
      p ← read_value fuel s;
      match snd p with
      | String c r =>
          if Ascii.eqb c "," then q ← read_list fuel r; Some (fst p :: fst q, snd q)
          else if Ascii.eqb c "]" then Some ([fst p], r) else None
      | EmptyString => None
      end
  end
with read_members (fuel : nat) (s : string) : option (list (string * Value) * string) :=
  match fuel, s with
  | S fuel, String d r =>
      if Ascii.eqb d DQ then
        k ← unquote r; r ← strip_prefix ":" (snd k); p ← read_value fuel r;
        match snd p with
        | String c r =>
            if Ascii.eqb c "," then q ← read_members fuel r; Some ((fst k, fst p) :: fst q, snd q)
            else if Ascii.eqb c "}" then Some ([(fst k, fst p)], r) else None
        | EmptyString => None
        end
      else None
  | _, _ => None
  end.

Definition text_value (s : string) : option Value :=
  match read_value (2 * String.length s) s with Some (v, EmptyString) => Some v | _ => None end.

(** ** The text is read back *)

Lemma quote_app s t rest : quote s t +:+ rest = quote s (t +:+ rest).
Proof. induction s as [|c s IH]; cbn; [done | by rewrite IH]. Qed.

Definition reads (v : Value) : Prop :=
  forall rest fuel, (2 * value_size v <= fuel)%nat -> read_value fuel (value_text v +:+ rest) = Some (v, rest).

Definition sizes (l : list Value) : nat := fold_right (fun x n => value_size x + n)%nat 0%nat l.

Lemma size_pos v : (1 <= value_size v)%nat.
Proof. destruct v; cbn; lia. Qed.

Lemma value_text_head v : exists c r, value_text v = String c r /\ Ascii.eqb "]" c = false.
Proof. destruct v as [|[]|[]|s|l|m]; cbn; eauto. Qed.

Lemma read_list_text l x rest fuel :
  Forall reads (x :: l) -> (2 * sizes (x :: l) + 1 <= fuel)%nat ->
  read_list fuel (join "," (map value_text (x :: l)) +:+ String "]" rest) = Some (x :: l, rest).
Proof.
  revert x fuel. induction l as [|y l IH]; intros x [|fuel] F H; try lia; apply Forall_cons in F as [Rx F]; pose proof (size_pos x).
  - cbn [map join read_list]. rewrite Rx by (cbn in H; lia). done.
  - cbn [map]. rewrite join_cons. cbn [read_list]. rewrite <- !str_app_assoc, Rx by (cbn in H; lia). cbn -[join map].
    change (value_text y :: map value_text l) with (map value_text (y :: l)). unfold sizes in IH, H. cbn [fold_right] in H.
    rewrite (IH y fuel) by (done || cbn; lia). done.
Qed.

Definition member_text (m : string * Value) : string := string_text (fst m) +:+ ":" +:+ value_text (snd m).

Lemma read_joined_members l x rest fuel :
  Forall (fun m => reads (snd m)) (x :: l) -> (2 * sizes (map snd (x :: l)) + 1 <= fuel)%nat ->
  read_members fuel (join "," (map member_text (x :: l)) +:+ String "}" rest) = Some (x :: l, rest).
Proof.
  revert x fuel. induction l as [|y l IH]; intros [k v] [|fuel] F H; try lia; apply Forall_cons in F as [Rx F]; pose proof (size_pos v);
    cbn [snd] in Rx; unfold sizes in *; cbn [map fold_right snd] in H.
  - unfold member_text. cbn [map join fst snd string_text String.append read_members]. rewrite Ascii.eqb_refl, <- !str_app_assoc, quote_app, unquote_quote.
    cbn -[value_text read_value]. by rewrite Rx by lia.
  - cbn [map]. rewrite join_cons. unfold member_text at 1. cbn [fst snd string_text String.append read_members].
    rewrite Ascii.eqb_refl, <- !str_app_assoc, quote_app, unquote_quote. cbn -[join map value_text read_value member_text]. rewrite Rx by lia. cbn -[join map member_text].
    change (member_text y :: map member_text l) with (map member_text (y :: l)). rewrite (IH y fuel) by (done || cbn; lia). done.
Qed.

Lemma sizes_perm l k : l ≡ₚ k -> sizes l = sizes k.
Proof. unfold sizes. induction 1; cbn; lia. Qed.

Lemma member_sizes m : map_fold (fun (_ : string) x n => value_size x + n)%nat 0%nat m = sizes (map snd (map_to_list m)).
Proof. rewrite map_fold_foldr. unfold sizes. by induction (map_to_list m) as [|[k v] l IH]; cbn; [|rewrite IH]. Qed.

(** The members in the order they are written. *)
Lemma object_members m :
  exists l, l ≡ₚ map_to_list m /\ value_text (Object m) = "{" +:+ join "," (map member_text l) +:+ "}".
Proof.
  cbn [value_text]. rewrite fold_members.
  destruct (Permutation_map_inv (prod_map id value_text) _ (sort_by_perm key_order (map (prod_map id value_text) (map_to_list m)))) as (l & E & P).
  exists l. split; [by symmetry |]. unfold object_text. rewrite E, !map_map. done.
Qed.

Lemma text_reads v : reads v.
Proof.
  induction v as [|b|[n|n|t]|s|l IH|m IH] using Value_ind; intros rest [|fuel] H; try (cbn in H; lia).
  1-6: try destruct b; cbn; unfold read_atom; rewrite ?quote_app, ?unquote_quote; cbn; rewrite ?text_number_text; done.
  - cbn [value_text]. rewrite <- !str_app_assoc. cbn -[join map strip_prefix]. destruct l as [|x l]; [done |].
    destruct (value_text_head x) as (c & r & Ex & Ec).
    assert (strip_prefix "]" (join "," (map value_text (x :: l)) +:+ String "]" rest) = None) as ->.
    { destruct l as [|y l]; cbn [map]; [|rewrite join_cons]; cbn [join]; rewrite Ex; cbn [String.append strip_prefix]; by rewrite Ec. }
    rewrite read_list_text; [done | done |]. cbn [value_size] in H. fold (sizes (x :: l)) in H. lia.
  - destruct (object_members m) as (l & P & ->). rewrite <- !str_app_assoc. cbn -[join map strip_prefix].
    cbn [value_size] in H. rewrite member_sizes, <- (sizes_perm (map snd l)) in H by (by apply Permutation_map).
    assert (list_to_map l = m) as Em.
    { rewrite <- (list_to_map_to_list m). apply list_to_map_proper; [|done]. rewrite P. apply NoDup_fst_map_to_list. }
    destruct l as [|x l]; [by rewrite <- Em |].
    assert (strip_prefix "}" (join "," (map member_text (x :: l)) +:+ String "}" rest) = None) as -> by (by destruct l).
    rewrite read_joined_members; [by rewrite <- Em | | lia].
    apply Forall_forall. intros [k v] E. rewrite P in E. by apply elem_of_map_to_list, IH in E.
Qed.

Lemma text_length_app (a b : string) : String.length (a +:+ b) = (String.length a + String.length b)%nat.
Proof. induction a as [|c a IH]; cbn; [done | by rewrite IH]. Qed.

Lemma join_covers {A} (f : A -> string) (n : A -> nat) l :
  Forall (fun x => n x <= String.length (f x))%nat l ->
  (fold_right (fun x k => n x + k)%nat 0%nat l <= String.length (join "," (map f l)))%nat.
Proof.
  induction 1 as [|x l H F IH]; [done |]. destruct l as [|y l]; [cbn; lia |]. cbn [map]. rewrite join_cons, !text_length_app.
  cbn [map] in IH. cbn [fold_right] in *. lia.
Qed.

Lemma text_size v : (value_size v <= String.length (value_text v))%nat.
Proof.
  induction v as [|b|[n|n|t]|s|l IH|m IH] using Value_ind; try (cbn; lia).
  - destruct b; cbn; lia.
  - apply join_covers in IH. cbn [value_size value_text]. rewrite !text_length_app. cbn [String.length]. lia.
  - destruct (object_members m) as (l & P & ->). cbn [value_size]. rewrite member_sizes, <- (sizes_perm (map snd l)) by (by apply Permutation_map).
    assert (Forall (fun x => value_size (snd x) <= String.length (member_text x))%nat l) as F%join_covers.
    { apply Forall_forall. intros [k v] E. rewrite P in E. apply elem_of_map_to_list, IH in E. unfold member_text. rewrite !text_length_app. cbn [snd]. lia. }
    rewrite !text_length_app. cbn [String.length]. assert (sizes (map snd l) = fold_right (fun x k => value_size (snd x) + k)%nat 0%nat l) as ->; [|lia].
    unfold sizes. clear. induction l as [|x l IH]; cbn; [done | by rewrite IH].
Qed.

Lemma text_value_text v : text_value (value_text v) = Some v.
Proof.
  unfold text_value. rewrite <- (str_app_nil_r (value_text v)) at 2. rewrite text_reads; [done |].
  pose proof (text_size v). lia.
Qed.

(** Dates as numbers. *)
#[export] Instance plain_serde : Serde := {| serde_from_str := text_value; serde_to_string := value_text |}.

#[export] Instance plain_text : AgentText.
Proof.
  refine {| agent_serde := plain_serde; repeats_member := fun _ => false;
            parse_rfc3339 := text_number; to_rfc3339 := number_text; serde_roundtrip := text_value_text |}; try done.
  intros ms. cbn [serde_to_string plain_serde value_text]. by rewrite fold_members.
Defined.
