(* ===== verification/AgentSample.v ===== *)
(** * The agent's connection on concrete inputs

    A codec for the connection's state and the runs to which the theorems of
    [AgentBinding] and [AgentFence] are applied. *)

From stdpp Require Import base list strings gmap.
From Stdlib Require Import ZArith Lia Ascii.
From S2P Require Import Prelude RustStr RustBytes Json Transfer TransferPump TransferPlain Items SupervisorSpool.
From S2P Require Import AgentProtocol AgentBinding AgentLink AgentRun JsonText AgentFence.

Open Scope Z_scope.

(** ** The state's file *)

Definition int (z : Z) : Value := Number (PosInt z).

Definition reply_value (r : CompletedReply) : Value := Array [JString (cr_correlation_id r); JString (cr_operation_id r); cr_payload r].

Definition value_reply (v : Value) : option CompletedReply :=
  match v with
  | Array [JString c; JString id; payload] => Some {| cr_correlation_id := c; cr_operation_id := id; cr_payload := payload |}
  | _ => None
  end.

Definition text_option (o : option string) : Value := match o with Some s => JString s | None => Null end.
Definition flag_option (o : option bool) : Value := match o with Some b => JBool b | None => Null end.

Definition pending_value (p : PendingDispatch) : Value :=
  Array [JString (pd_message_id p); JString (pd_correlation_id p); JString (pd_operation_id p); JString (pd_raw p);
         JString (pd_accepted_at p); JBool (pd_transfer_session_lost p); text_option (pd_expires_at p);
         flag_option (pd_dispatch_started p)].

Definition value_pending (v : Value) : option PendingDispatch :=
  match v with
  | Array [JString id; JString c; JString op; JString raw; JString t; JBool lost; expires; started] =>
      Some {| pd_message_id := id; pd_correlation_id := c; pd_operation_id := op; pd_raw := raw; pd_accepted_at := t;
              pd_transfer_session_lost := lost; pd_expires_at := as_str expires; pd_dispatch_started := as_bool started |}
  | _ => None
  end.

Definition state_value (s : AgentTransportState) : Value :=
  Array [int (ts_version s); JString (ts_issuer s); JString (ts_device_id s); int (ts_next_outbound_seq s);
         int (ts_last_server_seq s); Array (map JString (ts_seen_message_ids s));
         Array (map reply_value (ts_completed_replies s)); Array (map pending_value (ts_pending_dispatches s))].

Definition value_state (v : Value) : option AgentTransportState :=
  match v with
  | Array [Number (PosInt version); JString issuer; JString device; Number (PosInt next); Number (PosInt last);
           Array seen; Array replies; Array pending] =>
      seen ← mapM as_str seen; replies ← mapM value_reply replies; pending ← mapM value_pending pending;
      Some {| ts_version := version; ts_issuer := issuer; ts_device_id := device; ts_next_outbound_seq := next;
              ts_last_server_seq := last; ts_seen_message_ids := seen; ts_completed_replies := replies;
              ts_pending_dispatches := pending |}
  | _ => None
  end.

Lemma mapM_map {A B} (f : A -> B) (g : B -> option A) l : (forall x, g (f x) = Some x) -> mapM g (map f l) = Some l.
Proof. intros H. apply mapM_Some. induction l as [|x l IH]; constructor; [apply H | done]. Qed.

Lemma value_state_value s : value_state (state_value s) = Some s.
Proof.
  unfold value_state, state_value. cbn [int]. rewrite !mapM_map; [by destruct s | done | by intros [] | by intros [? ? ? ? ? ? [] []]].
Qed.

Definition text_state (s : string) : result AgentTransportState string :=
  ok_or (p ← read_value (2 * String.length s) s; value_state (fst p)) "state".

#[export] Instance json_state : StateCodec.
Proof.
  refine {| state_to_vec_pretty s := value_text (state_value s); state_from_slice := text_state |}.
  intros s. unfold text_state. rewrite text_reads.
  - cbn [mbind option_bind fst]. by rewrite value_state_value.
  - rewrite text_length_app. pose proof (text_size (state_value s)). lia.
Defined.

(** ** A session *)

Definition sample_cfg : AgentTransportConfig :=
  {| cf_issuer := "i"; cf_device_id := "dev_a"; cf_runtime := true; cf_version := "1" |}.

(** Everything succeeds but the writes that [fails] names; it is second 1000. *)
Definition sample_world (fails : nat -> bool) : World :=
  {| wd_io n := if fails n then IoEarly else IoOk; wd_sent _ := true; wd_now _ := 1000 * NANOS; wd_uuid _ := "a"; wd_meanwhile _ := [];
     wd_candidates _ _ := []; wd_acknowledge _ _ := Ok tt; wd_registry _ := (false, Array []) |}.

Definition sample_sign (s : string) : string := s.

Definition sample_envelope (seq : Z) (id kind : string) (c : option string) (expires : option Z) (payload : Value) : Envelope :=
  {| en_protocol := PROTOCOL_DEVICE_V1; en_message_id := id; en_message_type := kind; en_device_id := "dev_a"; en_correlation_id := c;
     en_seq := seq; en_sent_at := 0; en_expires_at := expires; en_payload := payload |}.

Definition sample_message (seq : Z) (id kind : string) (payload : Value) : Event :=
  Receive (envelope_to_vec (sample_envelope seq id kind None None payload)).

Definition sample_handshake : list Event :=
  [Connect; sample_message 1 "msg_1" "challenge" (json_object [("message", JString "m")]);
   sample_message 2 "msg_2" "accepted" (json_object [("selected_protocol", JString PROTOCOL_DEVICE_V1)]);
   sample_message 3 "msg_3" "ready.ack" (json_object [])].

(** A request for operation [op_a] that is valid until the given second. *)
Definition sample_request (expires : Z) : Event :=
  Receive (envelope_to_vec (sample_envelope 4 "msg_4" "operation.request" (Some "op_a") (Some (expires * NANOS))
    (json_object [("operation_contract", JString OPERATION_CONTRACT_V1); ("operation_id", JString "op_a");
                  ("capability", JString "command.run"); ("idempotency_key", JString "k"); ("arguments", json_object [])]))).

Definition calm : World := sample_world (fun _ => false).

(** The request comes when it has expired. *)
Definition sample_events : list Event := sample_handshake ++ [sample_request 1].
Local Abbreviation sample_end := (run sample_sign sample_cfg calm sample_events (installed sample_cfg)).

Lemma log_split (f : Entry -> bool) l : existsb f l = true -> exists l1 e l2, l = l1 ++ e :: l2 /\ f e = true.
Proof. intros (e & [l1 [l2 ->]]%in_split & H)%existsb_exists. by exists l1, e, l2. Qed.

Definition is_fourth (e : Entry) : bool := match e with Sent n _ => n =? 4 | _ => false end.

Definition is_denial (e : Entry) : bool := match e with Settled c ExpiredBefore => String.eqb c "op_a" | _ => false end.

Lemma sequences_grow_witness :
  exists l1 e l2, ag_log sample_end = l1 ++ Sent 4 e :: l2 /\ Forall (fun m => m < 4) (sent_seqs l2).
Proof.
  destruct (log_split is_fourth (ag_log sample_end)) as (l1 & x & l2 & E & F); [vm_compute; reflexivity |].
  destruct x as [n e| | | | |]; try discriminate F. apply Z.eqb_eq in F as ->. exists l1, e, l2. split; [exact E |].
  exact (sequences_grow sample_sign sample_cfg calm sample_events l1 (Sent 4 e) l2 E).
Defined.

Lemma started_not_denied_witness :
  exists l1 l2, ag_log sample_end = l1 ++ Settled "op_a" ExpiredBefore :: l2 /\ (unsettled "op_a" l2 = false \/ mark_lost "op_a" l2 = true).
Proof.
  destruct (log_split is_denial (ag_log sample_end)) as (l1 & x & l2 & E & F); [vm_compute; reflexivity |].
  destruct x as [| | |c []| |]; try discriminate F. apply String.eqb_eq in F as ->. exists l1, l2. split; [exact E |].
  exact (started_not_denied sample_sign sample_cfg calm sample_events l1 "op_a" ExpiredBefore l2 E eq_refl).
Defined.

(** The request comes in time and its task is running. *)
Local Abbreviation sample_started := (run sample_sign sample_cfg calm (sample_handshake ++ [sample_request 2000]) (installed sample_cfg)).

Lemma dispatch_marked_witness :
  unsettled "op_a" (ag_log sample_started) = true /\ map tk_correlation (ag_tasks sample_started) = ["op_a"]
  /\ marked "op_a" (ag_state sample_started).
Proof.
  split; [vm_compute; reflexivity |]. split; [vm_compute; reflexivity |].
  refine (proj1 (proj2 (dispatch_marked sample_sign sample_cfg calm (sample_handshake ++ [sample_request 2000]) "op_a") _ _));
    vm_compute; reflexivity.
Defined.

(** ** A compacted reply *)

Definition sample_reply : CompletedReply :=
  {| cr_correlation_id := "op_a"; cr_operation_id := "op_a";
     cr_payload := json_object [("operation_contract", JString OPERATION_CONTRACT_V1); ("operation_id", JString "op_a");
                                ("status", JString "completed"); ("result", json_object [("stdout", JString "x")])] |}.

Definition sample_receipt_state : Agent :=
  installed sample_cfg <| ag_state := fresh sample_cfg <| ts_completed_replies := [completion_receipt sample_reply] |> |>.

Definition sample_redelivery : Envelope := sample_envelope 4 "msg_4" "operation.request" (Some "op_a") (Some (1 * NANOS)) (json_object []).

Lemma receipt_ends_session_witness :
  is_ok (fst (send_cached_result sample_cfg calm sample_reply (installed sample_cfg))) = true
  /\ is_ok (fst (on_request sample_cfg calm None sample_redelivery sample_receipt_state)) = false.
Proof.
  split; [vm_compute; reflexivity |].
  pose proof (receipt_ends_session sample_cfg calm None sample_redelivery "op_a" sample_reply sample_receipt_state eq_refl eq_refl
                ltac:(vm_compute; reflexivity)) as H.
  destruct (on_request _ _ _ _ _) as [x a]. exact (proj1 H).
Defined.

(** ** A mark that is not saved *)

Definition sample_pending : PendingDispatch :=
  {| pd_message_id := "msg_4"; pd_correlation_id := "op_a"; pd_operation_id := "op_a"; pd_raw := "r"; pd_accepted_at := "";
     pd_transfer_session_lost := false; pd_expires_at := None; pd_dispatch_started := Some false |}.

Definition sample_waiting : Agent :=
  installed sample_cfg <| ag_state := fresh sample_cfg <| ts_pending_dispatches := [sample_pending] |> |> <| ag_phase := Live |>.

(** The write after the first waiting point fails, and no other. *)
Definition flaky : World := sample_world (fun n => Nat.eqb n 1).

Definition sample_failed : Agent := snd (dispatch sample_cfg flaky "op_a" "op_a" sample_waiting).

Lemma failed_mark_strands_witness :
  exists e, dispatch sample_cfg flaky "op_a" "op_a" sample_waiting = (Err e, sample_failed)
  /\ let b := run sample_sign sample_cfg flaky (sample_handshake ++ [sample_request 1000]) (session_end sample_failed) in
     taken "op_a" b /\ starts "op_a" (ag_log b) = [].
Proof.
  assert (exists e, fst (dispatch sample_cfg flaky "op_a" "op_a" sample_waiting) = Err e) as [e E] by (vm_compute; eauto).
  assert (dispatch sample_cfg flaky "op_a" "op_a" sample_waiting = (Err e, sample_failed)) as D.
  { unfold sample_failed. destruct (dispatch _ _ _ _ _) as [r a]. cbn in *. congruence. }
  exists e. split; [exact D |].
  apply (failed_mark_strands sample_sign sample_cfg flaky "op_a" "op_a" e sample_waiting sample_failed); [done | done | apply not_elem_of_nil | exact D |].
  repeat constructor; discriminate.
Defined.

(** ** Bound actions *)

Definition sample_facts (more : list (string * Value)) : Value :=
  json_object ([("path", JString "p"); ("content_bytes", json_u64 1)] ++ more).

Definition sample_bound (facts : Value) : Value :=
  json_object [("operation_id", JString "op_a"); ("device_id", JString "dev_a"); ("capability", JString "filesystem.write");
               ("expires_at", JString (number_text 5)); ("facts", facts); ("principal_id", JString "u"); ("tenant_id", JString "t");
               ("claim_version", json_u64 1); ("tool", JString "w")].

Definition sample_action (facts : Value) (arguments : list (string * Value)) : OperationRequestPayload :=
  {| rq_operation_id := "op_a"; rq_capability := "filesystem.write"; rq_workspace_id := None; rq_idempotency_key := "k";
     rq_payload_hash := Some (sha256_hex_str (stable_stringify (sample_bound facts))); rq_bound_action := Some (sample_bound facts);
     rq_arguments := json_object arguments |}.

(** Writing [x] to [p], with a note that does not count or without it. *)
Definition sample_write (note : list (string * Value)) : OperationRequestPayload :=
  sample_action (sample_facts [("content_sha256", JString (sha256_hex_str "x"))])
    ([("path", JString "p"); ("content", JString "x")] ++ note).

Definition verifies (r : OperationRequestPayload) : bool := is_ok (verify_exact_action_binding "dev_a" r (Some (number_text 5))).

Lemma verifies_ok r : verifies r = true -> verify_exact_action_binding "dev_a" r (Some (number_text 5)) = Ok tt.
Proof. unfold verifies. by destruct (verify_exact_action_binding _ _ _) as [[]|]. Qed.

Definition sample_note : list (string * Value) := [("risk_note", JString "n")].

Lemma sample_verifies : verifies (sample_write []) = true /\ verifies (sample_write sample_note) = true.
Proof. split; vm_compute; reflexivity. Qed.

Lemma sample_unshadowed : unshadowed (args_object (sample_write [])) /\ unshadowed (args_object (sample_write sample_note)).
Proof. split; vm_compute; reflexivity. Qed.

Lemma same_case h : eq_ignore_ascii_case h h = true.
Proof. apply String.eqb_refl. Qed.

Lemma digest_fixes_action_witness :
  (forall key, counts key -> args_object (sample_write []) !! key = args_object (sample_write sample_note) !! key)
  /\ (args_object (sample_write []) !! "content" = args_object (sample_write sample_note) !! "content"
      \/ contents_collide (args_object (sample_write [])) (args_object (sample_write sample_note))).
Proof.
  destruct sample_verifies as [V V'], sample_unshadowed as [U U'].
  destruct (digest_fixes_action "dev_a" (sample_write []) (Some (number_text 5)) "dev_a" (sample_write sample_note)
              (Some (number_text 5)) _ _ (verifies_ok _ V) (verifies_ok _ V') eq_refl eq_refl (same_case _)) as [C|K].
  - destruct C as (o & o' & E & E' & N & _). unfold sample_write, sample_action in E, E'. cbn [rq_bound_action] in E, E'. by destruct N; congruence.
  - destruct K as (_ & _ & _ & _ & _ & K & Kc). split; [intros key H; apply K; [exact H | discriminate] | by apply Kc].
Defined.

(** A named digest stands in for the content.  When a request has an argument with the name
    of the computed digest, that argument is what is compared with the bound action: two
    requests that write different contents both pass under one authorized digest. *)
Example shadowed_content_verifies :
  let write text := sample_action (sample_facts [("content_sha256", JString "d")])
                      [("path", JString "p"); ("content", JString text); ("content_sha256", JString "d")] in
  verify_exact_action_binding "dev_a" (write "x") (Some (number_text 5)) = Ok tt
  /\ verify_exact_action_binding "dev_a" (write "y") (Some (number_text 5)) = Ok tt
  /\ rq_payload_hash (write "x") = rq_payload_hash (write "y").
Proof. split_and!; [apply verifies_ok; vm_compute; reflexivity.. | reflexivity]. Qed.
